(** * Epoch / Fugue: a shallow embedding of the semantic builder, the
  bytecode loader and the supporting runtime routines

  Every definition below is transcribed from one function of the C++
  sources; the comment in front of a definition names the function and the
  file it comes from.  Pointers into the object graph (scopes, blocks) are
  modelled as identifiers into finite maps, C++ exceptions as the error
  branch of a result type, and the mutable members of [ParserState] and
  [FileLoader] as fields of a state record that is threaded explicitly. *)

From stdpp Require Import base numbers option list strings gmap.
From Stdlib Require Import ZArith Lia.

Local Open Scope Z_scope.


(** ** Shared/Utility/Strings.cpp *)

Module Strings.

(** [wchar_t] code units and [std::wstring]. *)
Definition wchar_t := N.
Definition wstring := list wchar_t.

(** [size_t] of the 32-bit build the project targets: arithmetic wraps
    modulo [2^32], and [npos] is [size_t(-1)]. *)
Definition size_max : Z := 2 ^ 32.
Definition npos : Z := size_max - 1.
Definition wrap (z : Z) : Z := z mod size_max.

(** The string is bounded by [max_size() < npos]. *)
Definition valid_wstring (s : wstring) : Prop := Z.of_nat (length s) < npos.

(** [L" \t\r\n"] *)
Definition whitespacechars : wstring := [32; 9; 13; 10]%N.

Definition is_one_of (set : wstring) (c : wchar_t) : bool :=
  bool_decide (c ∈ set).

(** [basic_string::find_first_not_of(set)]: index of the first character
    that is not in [set], or [npos]. *)
Fixpoint first_not_of (set s : wstring) : option nat :=
  match s with
  | [] => None
  | c :: s' => if is_one_of set c then S <$> first_not_of set s' else Some 0%nat
  end.

(** [basic_string::find_last_not_of(set)]: index of the last character that
    is not in [set], or [npos]. *)
Fixpoint last_not_of (set s : wstring) : option nat :=
  match s with
  | [] => None
  | c :: s' =>
      match last_not_of set s' with
      | Some j => Some (S j)
      | None => if is_one_of set c then None else Some 0%nat
      end
  end.

Definition to_size_t (o : option nat) : Z :=
  match o with
  | Some i => wrap (Z.of_nat i)
  | None => npos
  end.

Definition find_first_not_of (s set : wstring) : Z := to_size_t (first_not_of set s).
Definition find_last_not_of (s set : wstring) : Z := to_size_t (last_not_of set s).

(** [basic_string::substr(pos, n)]: throws [std::out_of_range] (here [None])
    when [pos > size()], otherwise copies [min(n, size() - pos)] characters
    starting at [pos]. *)
Definition substr (s : wstring) (pos n : Z) : option wstring :=
  if Z.of_nat (length s) <? pos then None
  else Some (take (Z.to_nat (Z.min n (Z.of_nat (length s) - pos)))
                  (drop (Z.to_nat pos) s)).

(** [StripWhitespace], Strings.cpp lines 77-88. *)
Definition StripWhitespace (str : wstring) : option wstring :=
  if bool_decide (str = []) then Some str
  else
    let pos := find_first_not_of str whitespacechars in
    let endpos := find_last_not_of str whitespacechars in
    substr str pos (wrap (endpos - pos + 1)).

Definition is_whitespace (c : wchar_t) : Prop := c ∈ whitespacechars.

(** [i] is the position of the first non-whitespace character of [s]. *)
Definition first_non_ws_at (s : wstring) (i : nat) : Prop :=
  (∃ c, s !! i = Some c ∧ ¬ is_whitespace c) ∧
  ∀ k c, (k < i)%nat → s !! k = Some c → is_whitespace c.

(** [j] is the position of the last non-whitespace character of [s]. *)
Definition last_non_ws_at (s : wstring) (j : nat) : Prop :=
  (∃ c, s !! j = Some c ∧ ¬ is_whitespace c) ∧
  ∀ k c, (j < k)%nat → s !! k = Some c → is_whitespace c.

(** The characters of [s] from position [i] to position [j], both included. *)
Definition slice (s : wstring) (i j : nat) : wstring :=
  take (S j - i) (drop i s).

End Strings.

(** * The virtual machine's data

    Objects that the C++ code holds by pointer live in heaps, finite maps from
    identifiers to values; a pointer is an identifier and the null pointer is
    [None].  A C++ exception is the left injection of [result]. *)

Module VM.

Inductive EpochVariableTypeID :=
| EpochVariableType_Null | EpochVariableType_Integer | EpochVariableType_Integer16
| EpochVariableType_Real | EpochVariableType_Boolean | EpochVariableType_String
| EpochVariableType_Tuple | EpochVariableType_Structure | EpochVariableType_Function
| EpochVariableType_Address | EpochVariableType_Array | EpochVariableType_TaskHandle
| EpochVariableType_Buffer | EpochVariableType_Error.

#[global] Instance EpochVariableTypeID_eq_dec : EqDecision EpochVariableTypeID.
Proof. solve_decision. Defined.

Definition IDType := Z.
Definition ScopeID := nat.
Definition BlockID := nat.
Definition FunctionID := nat.

Inductive Exception :=
| ExecutionException (what : string)
| NotImplementedException (what : string)
| InternalFailureException (what : string)
| ParserFailureException (what : string)
| SyntaxException (what : string)
| InvalidBytecodeException (what : string)
| StdException (what : string)
| EpochException (what : string)
| UndefinedBehaviour (what : string)
| Unmodelled (what : string)
| OutOfFuel.

Definition result (A : Type) : Type := Exception + A.

#[global] Instance result_ret : MRet result := λ A a, inr a.
#[global] Instance result_bind : MBind result :=
  λ A B f r, match r with inl e => inl e | inr a => f a end.

(** ** Operations

    One constructor for each operation class; the arithmetic classes
    [SumReals], [SubtractIntegers], ... are one constructor indexed by the
    operator and the element type, in the fold form (default constructor, one
    array operand) or the binary form (two operands with their array flags);
    the comparison classes likewise. *)

Inductive ArithmeticKind := Arith_Add | Arith_Subtract | Arith_Multiply | Arith_Divide.

#[global] Instance ArithmeticKind_eq_dec : EqDecision ArithmeticKind.
Proof. solve_decision. Defined.

Inductive ComparisonKind :=
| Cmp_IsEqual | Cmp_IsNotEqual | Cmp_IsLesser | Cmp_IsGreater
| Cmp_IsGreaterOrEqual | Cmp_IsLesserOrEqual.

#[global] Instance ComparisonKind_eq_dec : EqDecision ComparisonKind.
Proof. solve_decision. Defined.

#[warnings="-register-all"]
Inductive Operation :=
| NoOp
| PushIntegerLiteral (v : Z)
| PushInteger16Literal (v : Z)
| PushRealLiteral (bits : Z)
| PushBooleanLiteral (v : bool)
| PushStringLiteral (v : string)
| IntegerConstant (v : Z)
| BooleanConstant (v : bool)
| PushOperation (TheOp : option Operation) (IsConsArray IsConsFromFunction : bool)
| GetVariableValue (name : string)
| AssignValue (name : string)
| InitializeValue (name : string)
| BindReference (name : string)
| BindFunctionReference (name : string)
| SizeOf (name : string)
| ReadTuple (variable member : string)
| AssignTuple (variable member : string)
| ReadStructure (variable member : string)
| AssignStructure (variable member : string)
| ReadStructureIndirect (member : string) (PriorOp : option Operation)
| AssignStructureIndirect (member : string)
| BindStructMemberReference (variable : option string) (member : string)
| ArithmeticFold (kind : ArithmeticKind) (elem : EpochVariableTypeID)
| ArithmeticBinary (kind : ArithmeticKind) (elem : EpochVariableTypeID)
    (FirstIsArray SecondIsArray : bool)
| Concatenate (FirstIsArray SecondIsArray : bool) (NumParams : nat)
| Comparison (kind : ComparisonKind) (type : EpochVariableTypeID)
| BitwiseOr (type : EpochVariableTypeID) (SubOps : list Operation)
| BitwiseAnd (type : EpochVariableTypeID) (SubOps : list Operation)
| BitwiseXor (type : EpochVariableTypeID)
| BitwiseNot (type : EpochVariableTypeID)
| LogicalOr (SubOps : list Operation)
| LogicalAnd (SubOps : list Operation)
| LogicalXor
| LogicalNot
| If (TrueBlock FalseBlock ElseIfBlock : option BlockID)
| ElseIf (block : option BlockID)
| ElseIfWrapper (block : option BlockID)
| ExitIfChain
| WhileLoop (body : option BlockID)
| WhileLoopConditional
| DoWhileLoop (body : option BlockID)
| ExecuteBlock (body : option BlockID)
| Break
| Return
| Invoke (function : option FunctionID) (indirect : bool)
| InvokeIndirect (name : string)
| ForkTask (body : option BlockID)
| ForkThread (body : option BlockID)
| CreateThreadPool
| ForkFuture (name : string) (type : EpochVariableTypeID) (usethreadpool : bool)
| AcceptMessage (name : string) (body : option BlockID) (auxscope : option ScopeID)
| AcceptMessageFromResponseMap (mapname : string)
| SendTaskMessage (byname : bool) (name : string) (types : list EpochVariableTypeID)
| GetMessageSender
| GetTaskCaller
| ParallelFor (body : option BlockID) (counter : string) (usethreads : bool)
    (codehandle : Z)
| ConsArray (ElementType : EpochVariableTypeID)
| ConsArrayIndirect (ElementType : EpochVariableTypeID) (op : Operation)
| ReadArray (name : string)
| WriteArray (name : string)
| ArrayLength (name : string)
| MapOperation (op : Operation)
| ReduceOperation (op : Operation)
| TypeCast (from to : EpochVariableTypeID)
| TypeCastToString (from : EpochVariableTypeID)
| TypeCastBooleanToString
| TypeCastBufferToString
| HandoffOperation (library : string) (body : option BlockID) (codehandle : Z)
| HandoffControlOperation (library : string) (body : option BlockID) (counter : string)
    (scope : option ScopeID) (codehandle : Z)
| DebugWriteStringExpression
| DebugReadStaticString.

Record Block := {
  Ops : list Operation;
  BoundScope : option ScopeID
}.

(** ** Types of composite values, signatures, functions *)

Record MemberInfo := {
  MemberType : EpochVariableTypeID;
  MemberOffset : Z;
  MemberTypeHint : IDType;
  MemberSignature : option string
}.

Record CompositeType := {
  MemberOrder : list string;
  MemberInfoMap : gmap string MemberInfo
}.

#[warnings="-register-all"]
Inductive FunctionSignature := Build_FunctionSignature {
  Params : list EpochVariableTypeID;
  ParamTypeHints : list IDType;
  ParamFlags : list Z;
  ParamSignatures : list (option FunctionSignature);
  Returns : list EpochVariableTypeID;
  ReturnTypeHints : list IDType
}.

Record VariableEntry := {
  VariableType : EpochVariableTypeID;
  VariableIsReference : bool
}.

Record ResponseMapEntry := {
  MessageName : string;
  PayloadTypes : list EpochVariableTypeID;
  ResponseBlock : option BlockID;
  AuxiliaryScope : option ScopeID
}.

Definition ResponseMap := list ResponseMapEntry.

Inductive FunctionBase :=
| CallDLL (dll function : string) (params : option ScopeID)
    (returntype : EpochVariableTypeID) (returnhint : IDType)
| Function (params returns : option ScopeID) (code : option BlockID).

(** ** Lexical scopes *)


Record ScopeDescription := Build_ScopeDescription {
  ParentScope : option ScopeID;
  Variables : gmap string VariableEntry;
  ScopeMemberOrder : list string;
  Ghosts : list (gmap string ScopeID);
  Functions : gmap string FunctionID;
  FunctionSignatures : gmap string FunctionSignature;
  TupleTypes : gmap string IDType;
  TupleTypeHints : gmap string IDType;
  TupleTypeMap : gmap IDType CompositeType;
  StructureTypes : gmap string IDType;
  StructureTypeHints : gmap string IDType;
  StructureTypeMap : gmap IDType CompositeType;
  Constants : list string;
  ResponseMaps : gmap string ResponseMap;
  Futures : gmap string Operation;
  ListTypes : gmap string EpochVariableTypeID;
  ListSizes : gmap string Z
}.

Definition scope_ParentScope (f : option ScopeID → option ScopeID) (d : ScopeDescription) :
    ScopeDescription :=
  Build_ScopeDescription (f (ParentScope d)) (Variables d) (ScopeMemberOrder d) (Ghosts d)
    (Functions d) (FunctionSignatures d) (TupleTypes d) (TupleTypeHints d) (TupleTypeMap d)
    (StructureTypes d) (StructureTypeHints d) (StructureTypeMap d) (Constants d)
    (ResponseMaps d) (Futures d) (ListTypes d) (ListSizes d).

Definition scope_Variables (f : gmap string VariableEntry → gmap string VariableEntry) (d :
    ScopeDescription) : ScopeDescription :=
  Build_ScopeDescription (ParentScope d) (f (Variables d)) (ScopeMemberOrder d) (Ghosts d)
    (Functions d) (FunctionSignatures d) (TupleTypes d) (TupleTypeHints d) (TupleTypeMap d)
    (StructureTypes d) (StructureTypeHints d) (StructureTypeMap d) (Constants d)
    (ResponseMaps d) (Futures d) (ListTypes d) (ListSizes d).

Definition scope_ScopeMemberOrder (f : list string → list string) (d : ScopeDescription) :
    ScopeDescription :=
  Build_ScopeDescription (ParentScope d) (Variables d) (f (ScopeMemberOrder d)) (Ghosts d)
    (Functions d) (FunctionSignatures d) (TupleTypes d) (TupleTypeHints d) (TupleTypeMap d)
    (StructureTypes d) (StructureTypeHints d) (StructureTypeMap d) (Constants d)
    (ResponseMaps d) (Futures d) (ListTypes d) (ListSizes d).

Definition scope_Ghosts (f : list (gmap string ScopeID) → list (gmap string ScopeID)) (d :
    ScopeDescription) : ScopeDescription :=
  Build_ScopeDescription (ParentScope d) (Variables d) (ScopeMemberOrder d) (f (Ghosts d))
    (Functions d) (FunctionSignatures d) (TupleTypes d) (TupleTypeHints d) (TupleTypeMap d)
    (StructureTypes d) (StructureTypeHints d) (StructureTypeMap d) (Constants d)
    (ResponseMaps d) (Futures d) (ListTypes d) (ListSizes d).

Definition scope_Functions (f : gmap string FunctionID → gmap string FunctionID) (d :
    ScopeDescription) : ScopeDescription :=
  Build_ScopeDescription (ParentScope d) (Variables d) (ScopeMemberOrder d) (Ghosts d) (f
    (Functions d)) (FunctionSignatures d) (TupleTypes d) (TupleTypeHints d) (TupleTypeMap d)
    (StructureTypes d) (StructureTypeHints d) (StructureTypeMap d) (Constants d)
    (ResponseMaps d) (Futures d) (ListTypes d) (ListSizes d).

Definition scope_FunctionSignatures (f : gmap string FunctionSignature → gmap string
    FunctionSignature) (d : ScopeDescription) : ScopeDescription :=
  Build_ScopeDescription (ParentScope d) (Variables d) (ScopeMemberOrder d) (Ghosts d)
    (Functions d) (f (FunctionSignatures d)) (TupleTypes d) (TupleTypeHints d) (TupleTypeMap
    d) (StructureTypes d) (StructureTypeHints d) (StructureTypeMap d) (Constants d)
    (ResponseMaps d) (Futures d) (ListTypes d) (ListSizes d).

Definition scope_TupleTypes (f : gmap string IDType → gmap string IDType) (d :
    ScopeDescription) : ScopeDescription :=
  Build_ScopeDescription (ParentScope d) (Variables d) (ScopeMemberOrder d) (Ghosts d)
    (Functions d) (FunctionSignatures d) (f (TupleTypes d)) (TupleTypeHints d) (TupleTypeMap
    d) (StructureTypes d) (StructureTypeHints d) (StructureTypeMap d) (Constants d)
    (ResponseMaps d) (Futures d) (ListTypes d) (ListSizes d).

Definition scope_TupleTypeHints (f : gmap string IDType → gmap string IDType) (d :
    ScopeDescription) : ScopeDescription :=
  Build_ScopeDescription (ParentScope d) (Variables d) (ScopeMemberOrder d) (Ghosts d)
    (Functions d) (FunctionSignatures d) (TupleTypes d) (f (TupleTypeHints d)) (TupleTypeMap
    d) (StructureTypes d) (StructureTypeHints d) (StructureTypeMap d) (Constants d)
    (ResponseMaps d) (Futures d) (ListTypes d) (ListSizes d).

Definition scope_TupleTypeMap (f : gmap IDType CompositeType → gmap IDType CompositeType) (d
    : ScopeDescription) : ScopeDescription :=
  Build_ScopeDescription (ParentScope d) (Variables d) (ScopeMemberOrder d) (Ghosts d)
    (Functions d) (FunctionSignatures d) (TupleTypes d) (TupleTypeHints d) (f (TupleTypeMap
    d)) (StructureTypes d) (StructureTypeHints d) (StructureTypeMap d) (Constants d)
    (ResponseMaps d) (Futures d) (ListTypes d) (ListSizes d).

Definition scope_StructureTypes (f : gmap string IDType → gmap string IDType) (d :
    ScopeDescription) : ScopeDescription :=
  Build_ScopeDescription (ParentScope d) (Variables d) (ScopeMemberOrder d) (Ghosts d)
    (Functions d) (FunctionSignatures d) (TupleTypes d) (TupleTypeHints d) (TupleTypeMap d)
    (f (StructureTypes d)) (StructureTypeHints d) (StructureTypeMap d) (Constants d)
    (ResponseMaps d) (Futures d) (ListTypes d) (ListSizes d).

Definition scope_StructureTypeHints (f : gmap string IDType → gmap string IDType) (d :
    ScopeDescription) : ScopeDescription :=
  Build_ScopeDescription (ParentScope d) (Variables d) (ScopeMemberOrder d) (Ghosts d)
    (Functions d) (FunctionSignatures d) (TupleTypes d) (TupleTypeHints d) (TupleTypeMap d)
    (StructureTypes d) (f (StructureTypeHints d)) (StructureTypeMap d) (Constants d)
    (ResponseMaps d) (Futures d) (ListTypes d) (ListSizes d).

Definition scope_StructureTypeMap (f : gmap IDType CompositeType → gmap IDType
    CompositeType) (d : ScopeDescription) : ScopeDescription :=
  Build_ScopeDescription (ParentScope d) (Variables d) (ScopeMemberOrder d) (Ghosts d)
    (Functions d) (FunctionSignatures d) (TupleTypes d) (TupleTypeHints d) (TupleTypeMap d)
    (StructureTypes d) (StructureTypeHints d) (f (StructureTypeMap d)) (Constants d)
    (ResponseMaps d) (Futures d) (ListTypes d) (ListSizes d).

Definition scope_Constants (f : list string → list string) (d : ScopeDescription) :
    ScopeDescription :=
  Build_ScopeDescription (ParentScope d) (Variables d) (ScopeMemberOrder d) (Ghosts d)
    (Functions d) (FunctionSignatures d) (TupleTypes d) (TupleTypeHints d) (TupleTypeMap d)
    (StructureTypes d) (StructureTypeHints d) (StructureTypeMap d) (f (Constants d))
    (ResponseMaps d) (Futures d) (ListTypes d) (ListSizes d).

Definition scope_ResponseMaps (f : gmap string ResponseMap → gmap string ResponseMap) (d :
    ScopeDescription) : ScopeDescription :=
  Build_ScopeDescription (ParentScope d) (Variables d) (ScopeMemberOrder d) (Ghosts d)
    (Functions d) (FunctionSignatures d) (TupleTypes d) (TupleTypeHints d) (TupleTypeMap d)
    (StructureTypes d) (StructureTypeHints d) (StructureTypeMap d) (Constants d) (f
    (ResponseMaps d)) (Futures d) (ListTypes d) (ListSizes d).

Definition scope_Futures (f : gmap string Operation → gmap string Operation) (d :
    ScopeDescription) : ScopeDescription :=
  Build_ScopeDescription (ParentScope d) (Variables d) (ScopeMemberOrder d) (Ghosts d)
    (Functions d) (FunctionSignatures d) (TupleTypes d) (TupleTypeHints d) (TupleTypeMap d)
    (StructureTypes d) (StructureTypeHints d) (StructureTypeMap d) (Constants d)
    (ResponseMaps d) (f (Futures d)) (ListTypes d) (ListSizes d).

Definition scope_ListTypes (f : gmap string EpochVariableTypeID → gmap string
    EpochVariableTypeID) (d : ScopeDescription) : ScopeDescription :=
  Build_ScopeDescription (ParentScope d) (Variables d) (ScopeMemberOrder d) (Ghosts d)
    (Functions d) (FunctionSignatures d) (TupleTypes d) (TupleTypeHints d) (TupleTypeMap d)
    (StructureTypes d) (StructureTypeHints d) (StructureTypeMap d) (Constants d)
    (ResponseMaps d) (Futures d) (f (ListTypes d)) (ListSizes d).

Definition scope_ListSizes (f : gmap string Z → gmap string Z) (d : ScopeDescription) :
    ScopeDescription :=
  Build_ScopeDescription (ParentScope d) (Variables d) (ScopeMemberOrder d) (Ghosts d)
    (Functions d) (FunctionSignatures d) (TupleTypes d) (TupleTypeHints d) (TupleTypeMap d)
    (StructureTypes d) (StructureTypeHints d) (StructureTypeMap d) (Constants d)
    (ResponseMaps d) (Futures d) (ListTypes d) (f (ListSizes d)).


Definition empty_scope : ScopeDescription :=
  {| ParentScope := None; Variables := ∅; ScopeMemberOrder := []; Ghosts := [];
     Functions := ∅; FunctionSignatures := ∅; TupleTypes := ∅; TupleTypeHints := ∅;
     TupleTypeMap := ∅; StructureTypes := ∅; StructureTypeHints := ∅;
     StructureTypeMap := ∅; Constants := []; ResponseMaps := ∅; Futures := ∅;
     ListTypes := ∅; ListSizes := ∅ |}.

(** *** Name resolution in scopes

    Modelled from the spec: the methods of [ScopeDescription] are not in the
    sources.  The spec describes lookups as name-keyed, walking to the parent
    scope when the name is not found locally and stopping at a null parent.
    The walk is bounded by the number of scopes, which is enough whenever no
    scope is its own ancestor. *)
Fixpoint resolve {A} (fuel : nat) (scopes : gmap ScopeID ScopeDescription)
    (local : ScopeDescription → option A) (scope : option ScopeID) : option A :=
  match fuel, scope with
  | S fuel', Some id =>
      match scopes !! id with
      | Some d =>
          match local d with
          | Some a => Some a
          | None => resolve fuel' scopes local (ParentScope d)
          end
      | None => None
      end
  | _, _ => None
  end.

Definition found {A} (what : string) (o : option A) : result A :=
  match o with
  | Some a => inr a
  | None => inl (StdException what)
  end.

Definition GetVariableType (scopes : gmap ScopeID ScopeDescription) (scope : option ScopeID)
    (name : string) : result EpochVariableTypeID :=
  found "variable not found"
    (resolve (S (size scopes)) scopes (λ d, VariableType <$> Variables d !! name) scope).

Definition GetArrayType (scopes : gmap ScopeID ScopeDescription) (scope : option ScopeID)
    (name : string) : result EpochVariableTypeID :=
  found "array type not found"
    (resolve (S (size scopes)) scopes (λ d, ListTypes d !! name) scope).

Definition HasTupleType (scopes : gmap ScopeID ScopeDescription) (scope : option ScopeID)
    (name : string) : bool :=
  bool_decide (is_Some (resolve (S (size scopes)) scopes (λ d, TupleTypes d !! name) scope)).

Definition HasStructureType (scopes : gmap ScopeID ScopeDescription) (scope : option ScopeID)
    (name : string) : bool :=
  bool_decide (is_Some (resolve (S (size scopes)) scopes (λ d, StructureTypes d !! name) scope)).

Definition IsFunctionSignature (scopes : gmap ScopeID ScopeDescription)
    (scope : option ScopeID) (name : string) : bool :=
  bool_decide (is_Some (resolve (S (size scopes)) scopes
    (λ d, FunctionSignatures d !! name) scope)).

Definition GetTupleTypeID (scopes : gmap ScopeID ScopeDescription) (scope : option ScopeID)
    (name : string) : result IDType :=
  found "tuple type not found"
    (resolve (S (size scopes)) scopes (λ d, TupleTypes d !! name) scope).

Definition GetStructureTypeID (scopes : gmap ScopeID ScopeDescription)
    (scope : option ScopeID) (name : string) : result IDType :=
  found "structure type not found"
    (resolve (S (size scopes)) scopes (λ d, StructureTypes d !! name) scope).

Definition GetTupleType (scopes : gmap ScopeID ScopeDescription) (scope : option ScopeID)
    (id : IDType) : result CompositeType :=
  found "tuple type not found"
    (resolve (S (size scopes)) scopes (λ d, TupleTypeMap d !! id) scope).

Definition GetStructureType (scopes : gmap ScopeID ScopeDescription)
    (scope : option ScopeID) (id : IDType) : result CompositeType :=
  found "structure type not found"
    (resolve (S (size scopes)) scopes (λ d, StructureTypeMap d !! id) scope).

(** [ScopeDescription::AddVariable] and [AddReference]: the variable is
    entered under its name and takes the next place in the member order. *)
Definition AddVariable (name : string) (type : EpochVariableTypeID) (d : ScopeDescription)
  : ScopeDescription :=
  scope_ScopeMemberOrder (λ order, order ++ [name])
    (scope_Variables <[name := {| VariableType := type; VariableIsReference := false |}]> d).

Definition AddReference (type : EpochVariableTypeID) (name : string) (d : ScopeDescription)
  : ScopeDescription :=
  scope_ScopeMemberOrder (λ order, order ++ [name])
    (scope_Variables <[name := {| VariableType := type; VariableIsReference := true |}]> d).

(** Modelled from the spec: [StructureType] and [TupleType] (Types/) are not
    in the sources.  A composite type descriptor keeps the ordered sequence of
    member names and, per member, its type, offset and hints; adding a member
    appends its name to the order. *)
Definition AddMember (name : string) (type : EpochVariableTypeID) (hint : IDType)
    (t : CompositeType) : CompositeType :=
  {| MemberOrder := MemberOrder t ++ [name];
     MemberInfoMap := <[name := {| MemberType := type; MemberOffset := 0;
                                   MemberTypeHint := hint; MemberSignature := None |}]>
                        (MemberInfoMap t) |}.

Definition AddFunctionMember (name signature : string) (t : CompositeType) : CompositeType :=
  {| MemberOrder := MemberOrder t ++ [name];
     MemberInfoMap := <[name := {| MemberType := EpochVariableType_Function;
                                   MemberOffset := 0; MemberTypeHint := 0;
                                   MemberSignature := Some signature |}]>
                        (MemberInfoMap t) |}.

Definition empty_StructureType : CompositeType :=
  {| MemberOrder := []; MemberInfoMap := ∅ |}.

(** Modelled from the spec: [FunctionSignature] is not in the sources.  A
    signature keeps, per parameter, its type, type hint, flags and the
    signature of a function-typed parameter, and per return value its type
    and hint. *)
Definition empty_FunctionSignature : FunctionSignature :=
  Build_FunctionSignature [] [] [] [] [] [].

Definition AddParam (type : EpochVariableTypeID) (hint : IDType)
    (sub : option FunctionSignature) (s : FunctionSignature) : FunctionSignature :=
  Build_FunctionSignature (Params s ++ [type]) (ParamTypeHints s ++ [hint])
    (ParamFlags s ++ [0]) (ParamSignatures s ++ [sub]) (Returns s) (ReturnTypeHints s).

Definition SetLastParamToReference (flag : Z) (s : FunctionSignature) : FunctionSignature :=
  Build_FunctionSignature (Params s) (ParamTypeHints s)
    (alter (λ f, Z.lor f flag) (length (ParamFlags s) - 1)%nat (ParamFlags s))
    (ParamSignatures s) (Returns s) (ReturnTypeHints s).

Definition AddReturn (type : EpochVariableTypeID) (hint : IDType) (s : FunctionSignature)
  : FunctionSignature :=
  Build_FunctionSignature (Params s) (ParamTypeHints s) (ParamFlags s) (ParamSignatures s)
    (Returns s ++ [type]) (ReturnTypeHints s ++ [hint]).

(** [std::map::insert]: an entry whose key is already present stays. *)
Definition map_insert_new `{Countable K} {A} (k : K) (a : A) (m : gmap K A) : gmap K A :=
  match m !! k with
  | Some _ => m
  | None => <[k := a]> m
  end.

(** ** Code of the repository outside the sources under study

    The virtual [Operation::GetType], [CompositeType::ComputeOffsets] and
    [CompoundOperator::AddOperation] are taken as parameters: an instance of
    this class is one possible behaviour of that code. *)
Class OperationCode := {
  GetType : Operation → gmap ScopeID ScopeDescription → option ScopeID →
            result EpochVariableTypeID;
  ComputeOffsets : CompositeType → gmap ScopeID ScopeDescription → option ScopeID →
                   result CompositeType;
  CompoundOperator_AddOperation : Operation → Operation → Operation
}.

(** The constructor of [PushOperation], StackOps.cpp lines 146-157: the
    operation remembers whether it wraps an array constructor, or an
    invocation whose result is an array. *)
Definition PushOperation_ctor `{OperationCode} (op : Operation)
    (scopes : gmap ScopeID ScopeDescription) (scope : option ScopeID) : result Operation :=
  let isconsarray := match op with ConsArray _ => true | _ => false end in
  match op with
  | Invoke _ _ =>
      type ← GetType op scopes scope;
      mret (PushOperation (Some op) isconsarray
              (bool_decide (type = EpochVariableType_Array)))
  | _ => mret (PushOperation (Some op) isconsarray false)
  end.

End VM.


Module Parser.
Import VM.

Inductive StackEntryType :=
| STACKENTRYTYPE_IDENTIFIER
| STACKENTRYTYPE_OPERATION
| STACKENTRYTYPE_SCOPE
| STACKENTRYTYPE_LITERAL (type : EpochVariableTypeID).

#[global] Instance StackEntryType_eq_dec : EqDecision StackEntryType.
Proof. solve_decision. Defined.

Record StackEntry := {
  StackEntry_Type : StackEntryType;
  StringValue : string;
  OperationPointer : option Operation;
  ScopePointer : option ScopeID
}.

Inductive BlockType :=
| BLOCKENTRYTYPE_FREE | BLOCKENTRYTYPE_FUNCTION | BLOCKENTRYTYPE_FUNCTION_NOCREATE
| BLOCKENTRYTYPE_DOLOOP | BLOCKENTRYTYPE_IF | BLOCKENTRYTYPE_ELSEIFWRAPPER
| BLOCKENTRYTYPE_ELSEIF | BLOCKENTRYTYPE_ELSE | BLOCKENTRYTYPE_WHILELOOP
| BLOCKENTRYTYPE_TASK | BLOCKENTRYTYPE_THREAD | BLOCKENTRYTYPE_MSGDISPATCH
| BLOCKENTRYTYPE_RESPONSEMAP | BLOCKENTRYTYPE_PARALLELFOR
| BLOCKENTRYTYPE_EXTENSIONCONTROL | BLOCKENTRYTYPE_GLOBAL.

#[global] Instance BlockType_eq_dec : EqDecision BlockType.
Proof. solve_decision. Defined.

Record BlockEntry := {
  TheBlock : option BlockID;
  BlockEntry_Type : BlockType
}.

(** *** Infix operator table (Infix.cpp, lines 44-76) *)

Inductive OperatorPrecedence :=
| OPREC_MIN | OPREC_ASSIGNMENT | OPREC_BITWISE | OPREC_LOGICAL | OPREC_EQUALITY
| OPREC_COMPARISON | OPREC_USER | OPREC_CALCASSIGN | OPREC_ADDITION
| OPREC_MULTIPLICATION | OPREC_BOOLEAN | OPREC_CONCATENATION | OPREC_INCREMENT
| OPREC_MEMBER | OPREC_MAX.

(** The value the compiler gives each enumerator. *)
Definition prec_value (p : OperatorPrecedence) : nat :=
  match p with
  | OPREC_MIN => 0 | OPREC_ASSIGNMENT => 1 | OPREC_BITWISE => 2 | OPREC_LOGICAL => 3
  | OPREC_EQUALITY => 4 | OPREC_COMPARISON => 5 | OPREC_USER => 6
  | OPREC_CALCASSIGN => 7 | OPREC_ADDITION => 8 | OPREC_MULTIPLICATION => 9
  | OPREC_BOOLEAN => 10 | OPREC_CONCATENATION => 11 | OPREC_INCREMENT => 12
  | OPREC_MEMBER => 13 | OPREC_MAX => 14
  end%nat.

(** The operator tokens [Operators::*]; a user-defined infix function is its
    own operator token. *)
Inductive OperatorName :=
| Operators_Add | Operators_Subtract | Operators_Multiply | Operators_Divide
| Operators_AddAssign | Operators_SubtractAssign | Operators_MultiplyAssign
| Operators_DivideAssign | Operators_Increment | Operators_Decrement
| Operators_Greater | Operators_GreaterEqual | Operators_Less | Operators_LessEqual
| Operators_Equal | Operators_NotEqual | Operators_And | Operators_Or | Operators_Xor
| Operators_Concat | Operators_ConcatAssign | Operators_Assign
| Operators_User (functionname : string).

#[global] Instance OperatorName_eq_dec : EqDecision OperatorName.
Proof. solve_decision. Defined.

(** The function names [Keywords::*] the operators stand for. *)
Inductive Keyword :=
| Keywords_Add | Keywords_Subtract | Keywords_Multiply | Keywords_Divide
| Keywords_Greater | Keywords_GreaterEqual | Keywords_Less | Keywords_LessEqual
| Keywords_Equal | Keywords_NotEqual | Keywords_And | Keywords_Or | Keywords_Xor
| Keywords_Concat | Keywords_Assign
| Keywords_Do | Keywords_If | Keywords_ElseIf | Keywords_Else | Keywords_While
| Keywords_ParallelFor
| Keywords_Other (name : string).

#[global] Instance Keyword_eq_dec : EqDecision Keyword.
Proof. solve_decision. Defined.

Record InfixOperatorData := {
  Precedence : OperatorPrecedence;
  FunctionName : Keyword
}.

(** Calls that leave the sources under study and whose order matters. *)
Inductive ExternalCall :=
| Call_ComputeOffsets (type : CompositeType)
| Call_AddStructureType (name : string) (type : CompositeType).

(** *** The state of the semantic builder ([ParserState] and the [Program]
    it builds) *)

Record ParserState := Build_ParserState {
  ScopeHeap : gmap ScopeID ScopeDescription;
  BlockHeap : gmap BlockID Block;
  GlobalScope : ScopeID;
  StringPool : gset string;
  StructureOwnerMap : gmap IDType ScopeID;
  CurrentScope : option ScopeID;
  TheStack : list StackEntry;
  Blocks : list BlockEntry;
  ExpectedBlockTypes : list BlockType;
  PassedParameterCount : list N;
  InfixOperatorList : list (list OperatorName);
  InfixOperandCount : list nat;
  InfixOperators : list (OperatorName * InfixOperatorData);
  DisplacedScopes : list (option ScopeID);
  SavedTaskNames : list string;
  TaskNames : list (Operation * string);
  ExtensionControlKeywords : list string;
  MessageDispatchScope : option ScopeID;
  ControlVarName : string;
  ControlVarType : EpochVariableTypeID;
  CreatedStructureType : option CompositeType;
  VariableNameStack : list string;
  UpcomingNestedMemberType : string;
  ParseFailed : bool;
  Diagnostics : list string;
  CallLog : list ExternalCall
}.

Definition upd_ScopeHeap (f : gmap ScopeID ScopeDescription → gmap ScopeID ScopeDescription) (st : ParserState) : ParserState :=
  Build_ParserState (f (ScopeHeap st)) (BlockHeap st) (GlobalScope st) (StringPool st)
    (StructureOwnerMap st) (CurrentScope st) (TheStack st) (Blocks st) (ExpectedBlockTypes
    st) (PassedParameterCount st) (InfixOperatorList st) (InfixOperandCount st)
    (InfixOperators st) (DisplacedScopes st) (SavedTaskNames st) (TaskNames st)
    (ExtensionControlKeywords st) (MessageDispatchScope st) (ControlVarName st)
    (ControlVarType st) (CreatedStructureType st) (VariableNameStack st)
    (UpcomingNestedMemberType st) (ParseFailed st) (Diagnostics st) (CallLog st).

Definition upd_BlockHeap (f : gmap BlockID Block → gmap BlockID Block) (st : ParserState) : ParserState :=
  Build_ParserState (ScopeHeap st) (f (BlockHeap st)) (GlobalScope st) (StringPool st)
    (StructureOwnerMap st) (CurrentScope st) (TheStack st) (Blocks st) (ExpectedBlockTypes
    st) (PassedParameterCount st) (InfixOperatorList st) (InfixOperandCount st)
    (InfixOperators st) (DisplacedScopes st) (SavedTaskNames st) (TaskNames st)
    (ExtensionControlKeywords st) (MessageDispatchScope st) (ControlVarName st)
    (ControlVarType st) (CreatedStructureType st) (VariableNameStack st)
    (UpcomingNestedMemberType st) (ParseFailed st) (Diagnostics st) (CallLog st).

Definition upd_GlobalScope (f : ScopeID → ScopeID) (st : ParserState) : ParserState :=
  Build_ParserState (ScopeHeap st) (BlockHeap st) (f (GlobalScope st)) (StringPool st)
    (StructureOwnerMap st) (CurrentScope st) (TheStack st) (Blocks st) (ExpectedBlockTypes
    st) (PassedParameterCount st) (InfixOperatorList st) (InfixOperandCount st)
    (InfixOperators st) (DisplacedScopes st) (SavedTaskNames st) (TaskNames st)
    (ExtensionControlKeywords st) (MessageDispatchScope st) (ControlVarName st)
    (ControlVarType st) (CreatedStructureType st) (VariableNameStack st)
    (UpcomingNestedMemberType st) (ParseFailed st) (Diagnostics st) (CallLog st).

Definition upd_StringPool (f : gset string → gset string) (st : ParserState) : ParserState :=
  Build_ParserState (ScopeHeap st) (BlockHeap st) (GlobalScope st) (f (StringPool st))
    (StructureOwnerMap st) (CurrentScope st) (TheStack st) (Blocks st) (ExpectedBlockTypes
    st) (PassedParameterCount st) (InfixOperatorList st) (InfixOperandCount st)
    (InfixOperators st) (DisplacedScopes st) (SavedTaskNames st) (TaskNames st)
    (ExtensionControlKeywords st) (MessageDispatchScope st) (ControlVarName st)
    (ControlVarType st) (CreatedStructureType st) (VariableNameStack st)
    (UpcomingNestedMemberType st) (ParseFailed st) (Diagnostics st) (CallLog st).

Definition upd_StructureOwnerMap (f : gmap IDType ScopeID → gmap IDType ScopeID) (st : ParserState) : ParserState :=
  Build_ParserState (ScopeHeap st) (BlockHeap st) (GlobalScope st) (StringPool st) (f
    (StructureOwnerMap st)) (CurrentScope st) (TheStack st) (Blocks st) (ExpectedBlockTypes
    st) (PassedParameterCount st) (InfixOperatorList st) (InfixOperandCount st)
    (InfixOperators st) (DisplacedScopes st) (SavedTaskNames st) (TaskNames st)
    (ExtensionControlKeywords st) (MessageDispatchScope st) (ControlVarName st)
    (ControlVarType st) (CreatedStructureType st) (VariableNameStack st)
    (UpcomingNestedMemberType st) (ParseFailed st) (Diagnostics st) (CallLog st).

Definition upd_CurrentScope (f : option ScopeID → option ScopeID) (st : ParserState) : ParserState :=
  Build_ParserState (ScopeHeap st) (BlockHeap st) (GlobalScope st) (StringPool st)
    (StructureOwnerMap st) (f (CurrentScope st)) (TheStack st) (Blocks st)
    (ExpectedBlockTypes st) (PassedParameterCount st) (InfixOperatorList st)
    (InfixOperandCount st) (InfixOperators st) (DisplacedScopes st) (SavedTaskNames st)
    (TaskNames st) (ExtensionControlKeywords st) (MessageDispatchScope st) (ControlVarName
    st) (ControlVarType st) (CreatedStructureType st) (VariableNameStack st)
    (UpcomingNestedMemberType st) (ParseFailed st) (Diagnostics st) (CallLog st).

Definition upd_TheStack (f : list StackEntry → list StackEntry) (st : ParserState) : ParserState :=
  Build_ParserState (ScopeHeap st) (BlockHeap st) (GlobalScope st) (StringPool st)
    (StructureOwnerMap st) (CurrentScope st) (f (TheStack st)) (Blocks st)
    (ExpectedBlockTypes st) (PassedParameterCount st) (InfixOperatorList st)
    (InfixOperandCount st) (InfixOperators st) (DisplacedScopes st) (SavedTaskNames st)
    (TaskNames st) (ExtensionControlKeywords st) (MessageDispatchScope st) (ControlVarName
    st) (ControlVarType st) (CreatedStructureType st) (VariableNameStack st)
    (UpcomingNestedMemberType st) (ParseFailed st) (Diagnostics st) (CallLog st).

Definition upd_Blocks (f : list BlockEntry → list BlockEntry) (st : ParserState) : ParserState :=
  Build_ParserState (ScopeHeap st) (BlockHeap st) (GlobalScope st) (StringPool st)
    (StructureOwnerMap st) (CurrentScope st) (TheStack st) (f (Blocks st))
    (ExpectedBlockTypes st) (PassedParameterCount st) (InfixOperatorList st)
    (InfixOperandCount st) (InfixOperators st) (DisplacedScopes st) (SavedTaskNames st)
    (TaskNames st) (ExtensionControlKeywords st) (MessageDispatchScope st) (ControlVarName
    st) (ControlVarType st) (CreatedStructureType st) (VariableNameStack st)
    (UpcomingNestedMemberType st) (ParseFailed st) (Diagnostics st) (CallLog st).

Definition upd_ExpectedBlockTypes (f : list BlockType → list BlockType) (st : ParserState) : ParserState :=
  Build_ParserState (ScopeHeap st) (BlockHeap st) (GlobalScope st) (StringPool st)
    (StructureOwnerMap st) (CurrentScope st) (TheStack st) (Blocks st) (f
    (ExpectedBlockTypes st)) (PassedParameterCount st) (InfixOperatorList st)
    (InfixOperandCount st) (InfixOperators st) (DisplacedScopes st) (SavedTaskNames st)
    (TaskNames st) (ExtensionControlKeywords st) (MessageDispatchScope st) (ControlVarName
    st) (ControlVarType st) (CreatedStructureType st) (VariableNameStack st)
    (UpcomingNestedMemberType st) (ParseFailed st) (Diagnostics st) (CallLog st).

Definition upd_PassedParameterCount (f : list N → list N) (st : ParserState) : ParserState :=
  Build_ParserState (ScopeHeap st) (BlockHeap st) (GlobalScope st) (StringPool st)
    (StructureOwnerMap st) (CurrentScope st) (TheStack st) (Blocks st) (ExpectedBlockTypes
    st) (f (PassedParameterCount st)) (InfixOperatorList st) (InfixOperandCount st)
    (InfixOperators st) (DisplacedScopes st) (SavedTaskNames st) (TaskNames st)
    (ExtensionControlKeywords st) (MessageDispatchScope st) (ControlVarName st)
    (ControlVarType st) (CreatedStructureType st) (VariableNameStack st)
    (UpcomingNestedMemberType st) (ParseFailed st) (Diagnostics st) (CallLog st).

Definition upd_InfixOperatorList (f : list (list OperatorName) → list (list OperatorName)) (st : ParserState) : ParserState :=
  Build_ParserState (ScopeHeap st) (BlockHeap st) (GlobalScope st) (StringPool st)
    (StructureOwnerMap st) (CurrentScope st) (TheStack st) (Blocks st) (ExpectedBlockTypes
    st) (PassedParameterCount st) (f (InfixOperatorList st)) (InfixOperandCount st)
    (InfixOperators st) (DisplacedScopes st) (SavedTaskNames st) (TaskNames st)
    (ExtensionControlKeywords st) (MessageDispatchScope st) (ControlVarName st)
    (ControlVarType st) (CreatedStructureType st) (VariableNameStack st)
    (UpcomingNestedMemberType st) (ParseFailed st) (Diagnostics st) (CallLog st).

Definition upd_InfixOperandCount (f : list nat → list nat) (st : ParserState) : ParserState :=
  Build_ParserState (ScopeHeap st) (BlockHeap st) (GlobalScope st) (StringPool st)
    (StructureOwnerMap st) (CurrentScope st) (TheStack st) (Blocks st) (ExpectedBlockTypes
    st) (PassedParameterCount st) (InfixOperatorList st) (f (InfixOperandCount st))
    (InfixOperators st) (DisplacedScopes st) (SavedTaskNames st) (TaskNames st)
    (ExtensionControlKeywords st) (MessageDispatchScope st) (ControlVarName st)
    (ControlVarType st) (CreatedStructureType st) (VariableNameStack st)
    (UpcomingNestedMemberType st) (ParseFailed st) (Diagnostics st) (CallLog st).

Definition upd_InfixOperators (f : list (OperatorName * InfixOperatorData) → list (OperatorName * InfixOperatorData)) (st : ParserState) : ParserState :=
  Build_ParserState (ScopeHeap st) (BlockHeap st) (GlobalScope st) (StringPool st)
    (StructureOwnerMap st) (CurrentScope st) (TheStack st) (Blocks st) (ExpectedBlockTypes
    st) (PassedParameterCount st) (InfixOperatorList st) (InfixOperandCount st) (f
    (InfixOperators st)) (DisplacedScopes st) (SavedTaskNames st) (TaskNames st)
    (ExtensionControlKeywords st) (MessageDispatchScope st) (ControlVarName st)
    (ControlVarType st) (CreatedStructureType st) (VariableNameStack st)
    (UpcomingNestedMemberType st) (ParseFailed st) (Diagnostics st) (CallLog st).

Definition upd_DisplacedScopes (f : list (option ScopeID) → list (option ScopeID)) (st : ParserState) : ParserState :=
  Build_ParserState (ScopeHeap st) (BlockHeap st) (GlobalScope st) (StringPool st)
    (StructureOwnerMap st) (CurrentScope st) (TheStack st) (Blocks st) (ExpectedBlockTypes
    st) (PassedParameterCount st) (InfixOperatorList st) (InfixOperandCount st)
    (InfixOperators st) (f (DisplacedScopes st)) (SavedTaskNames st) (TaskNames st)
    (ExtensionControlKeywords st) (MessageDispatchScope st) (ControlVarName st)
    (ControlVarType st) (CreatedStructureType st) (VariableNameStack st)
    (UpcomingNestedMemberType st) (ParseFailed st) (Diagnostics st) (CallLog st).

Definition upd_SavedTaskNames (f : list string → list string) (st : ParserState) : ParserState :=
  Build_ParserState (ScopeHeap st) (BlockHeap st) (GlobalScope st) (StringPool st)
    (StructureOwnerMap st) (CurrentScope st) (TheStack st) (Blocks st) (ExpectedBlockTypes
    st) (PassedParameterCount st) (InfixOperatorList st) (InfixOperandCount st)
    (InfixOperators st) (DisplacedScopes st) (f (SavedTaskNames st)) (TaskNames st)
    (ExtensionControlKeywords st) (MessageDispatchScope st) (ControlVarName st)
    (ControlVarType st) (CreatedStructureType st) (VariableNameStack st)
    (UpcomingNestedMemberType st) (ParseFailed st) (Diagnostics st) (CallLog st).

Definition upd_TaskNames (f : list (Operation * string) → list (Operation * string)) (st : ParserState) : ParserState :=
  Build_ParserState (ScopeHeap st) (BlockHeap st) (GlobalScope st) (StringPool st)
    (StructureOwnerMap st) (CurrentScope st) (TheStack st) (Blocks st) (ExpectedBlockTypes
    st) (PassedParameterCount st) (InfixOperatorList st) (InfixOperandCount st)
    (InfixOperators st) (DisplacedScopes st) (SavedTaskNames st) (f (TaskNames st))
    (ExtensionControlKeywords st) (MessageDispatchScope st) (ControlVarName st)
    (ControlVarType st) (CreatedStructureType st) (VariableNameStack st)
    (UpcomingNestedMemberType st) (ParseFailed st) (Diagnostics st) (CallLog st).

Definition upd_ExtensionControlKeywords (f : list string → list string) (st : ParserState) : ParserState :=
  Build_ParserState (ScopeHeap st) (BlockHeap st) (GlobalScope st) (StringPool st)
    (StructureOwnerMap st) (CurrentScope st) (TheStack st) (Blocks st) (ExpectedBlockTypes
    st) (PassedParameterCount st) (InfixOperatorList st) (InfixOperandCount st)
    (InfixOperators st) (DisplacedScopes st) (SavedTaskNames st) (TaskNames st) (f
    (ExtensionControlKeywords st)) (MessageDispatchScope st) (ControlVarName st)
    (ControlVarType st) (CreatedStructureType st) (VariableNameStack st)
    (UpcomingNestedMemberType st) (ParseFailed st) (Diagnostics st) (CallLog st).

Definition upd_MessageDispatchScope (f : option ScopeID → option ScopeID) (st : ParserState) : ParserState :=
  Build_ParserState (ScopeHeap st) (BlockHeap st) (GlobalScope st) (StringPool st)
    (StructureOwnerMap st) (CurrentScope st) (TheStack st) (Blocks st) (ExpectedBlockTypes
    st) (PassedParameterCount st) (InfixOperatorList st) (InfixOperandCount st)
    (InfixOperators st) (DisplacedScopes st) (SavedTaskNames st) (TaskNames st)
    (ExtensionControlKeywords st) (f (MessageDispatchScope st)) (ControlVarName st)
    (ControlVarType st) (CreatedStructureType st) (VariableNameStack st)
    (UpcomingNestedMemberType st) (ParseFailed st) (Diagnostics st) (CallLog st).

Definition upd_ControlVarName (f : string → string) (st : ParserState) : ParserState :=
  Build_ParserState (ScopeHeap st) (BlockHeap st) (GlobalScope st) (StringPool st)
    (StructureOwnerMap st) (CurrentScope st) (TheStack st) (Blocks st) (ExpectedBlockTypes
    st) (PassedParameterCount st) (InfixOperatorList st) (InfixOperandCount st)
    (InfixOperators st) (DisplacedScopes st) (SavedTaskNames st) (TaskNames st)
    (ExtensionControlKeywords st) (MessageDispatchScope st) (f (ControlVarName st))
    (ControlVarType st) (CreatedStructureType st) (VariableNameStack st)
    (UpcomingNestedMemberType st) (ParseFailed st) (Diagnostics st) (CallLog st).

Definition upd_ControlVarType (f : EpochVariableTypeID → EpochVariableTypeID) (st : ParserState) : ParserState :=
  Build_ParserState (ScopeHeap st) (BlockHeap st) (GlobalScope st) (StringPool st)
    (StructureOwnerMap st) (CurrentScope st) (TheStack st) (Blocks st) (ExpectedBlockTypes
    st) (PassedParameterCount st) (InfixOperatorList st) (InfixOperandCount st)
    (InfixOperators st) (DisplacedScopes st) (SavedTaskNames st) (TaskNames st)
    (ExtensionControlKeywords st) (MessageDispatchScope st) (ControlVarName st) (f
    (ControlVarType st)) (CreatedStructureType st) (VariableNameStack st)
    (UpcomingNestedMemberType st) (ParseFailed st) (Diagnostics st) (CallLog st).

Definition upd_CreatedStructureType (f : option CompositeType → option CompositeType) (st : ParserState) : ParserState :=
  Build_ParserState (ScopeHeap st) (BlockHeap st) (GlobalScope st) (StringPool st)
    (StructureOwnerMap st) (CurrentScope st) (TheStack st) (Blocks st) (ExpectedBlockTypes
    st) (PassedParameterCount st) (InfixOperatorList st) (InfixOperandCount st)
    (InfixOperators st) (DisplacedScopes st) (SavedTaskNames st) (TaskNames st)
    (ExtensionControlKeywords st) (MessageDispatchScope st) (ControlVarName st)
    (ControlVarType st) (f (CreatedStructureType st)) (VariableNameStack st)
    (UpcomingNestedMemberType st) (ParseFailed st) (Diagnostics st) (CallLog st).

Definition upd_VariableNameStack (f : list string → list string) (st : ParserState) : ParserState :=
  Build_ParserState (ScopeHeap st) (BlockHeap st) (GlobalScope st) (StringPool st)
    (StructureOwnerMap st) (CurrentScope st) (TheStack st) (Blocks st) (ExpectedBlockTypes
    st) (PassedParameterCount st) (InfixOperatorList st) (InfixOperandCount st)
    (InfixOperators st) (DisplacedScopes st) (SavedTaskNames st) (TaskNames st)
    (ExtensionControlKeywords st) (MessageDispatchScope st) (ControlVarName st)
    (ControlVarType st) (CreatedStructureType st) (f (VariableNameStack st))
    (UpcomingNestedMemberType st) (ParseFailed st) (Diagnostics st) (CallLog st).

Definition upd_UpcomingNestedMemberType (f : string → string) (st : ParserState) : ParserState :=
  Build_ParserState (ScopeHeap st) (BlockHeap st) (GlobalScope st) (StringPool st)
    (StructureOwnerMap st) (CurrentScope st) (TheStack st) (Blocks st) (ExpectedBlockTypes
    st) (PassedParameterCount st) (InfixOperatorList st) (InfixOperandCount st)
    (InfixOperators st) (DisplacedScopes st) (SavedTaskNames st) (TaskNames st)
    (ExtensionControlKeywords st) (MessageDispatchScope st) (ControlVarName st)
    (ControlVarType st) (CreatedStructureType st) (VariableNameStack st) (f
    (UpcomingNestedMemberType st)) (ParseFailed st) (Diagnostics st) (CallLog st).

Definition upd_ParseFailed (f : bool → bool) (st : ParserState) : ParserState :=
  Build_ParserState (ScopeHeap st) (BlockHeap st) (GlobalScope st) (StringPool st)
    (StructureOwnerMap st) (CurrentScope st) (TheStack st) (Blocks st) (ExpectedBlockTypes
    st) (PassedParameterCount st) (InfixOperatorList st) (InfixOperandCount st)
    (InfixOperators st) (DisplacedScopes st) (SavedTaskNames st) (TaskNames st)
    (ExtensionControlKeywords st) (MessageDispatchScope st) (ControlVarName st)
    (ControlVarType st) (CreatedStructureType st) (VariableNameStack st)
    (UpcomingNestedMemberType st) (f (ParseFailed st)) (Diagnostics st) (CallLog st).

Definition upd_Diagnostics (f : list string → list string) (st : ParserState) : ParserState :=
  Build_ParserState (ScopeHeap st) (BlockHeap st) (GlobalScope st) (StringPool st)
    (StructureOwnerMap st) (CurrentScope st) (TheStack st) (Blocks st) (ExpectedBlockTypes
    st) (PassedParameterCount st) (InfixOperatorList st) (InfixOperandCount st)
    (InfixOperators st) (DisplacedScopes st) (SavedTaskNames st) (TaskNames st)
    (ExtensionControlKeywords st) (MessageDispatchScope st) (ControlVarName st)
    (ControlVarType st) (CreatedStructureType st) (VariableNameStack st)
    (UpcomingNestedMemberType st) (ParseFailed st) (f (Diagnostics st)) (CallLog st).

Definition upd_CallLog (f : list ExternalCall → list ExternalCall) (st : ParserState) : ParserState :=
  Build_ParserState (ScopeHeap st) (BlockHeap st) (GlobalScope st) (StringPool st)
    (StructureOwnerMap st) (CurrentScope st) (TheStack st) (Blocks st) (ExpectedBlockTypes
    st) (PassedParameterCount st) (InfixOperatorList st) (InfixOperandCount st)
    (InfixOperators st) (DisplacedScopes st) (SavedTaskNames st) (TaskNames st)
    (ExtensionControlKeywords st) (MessageDispatchScope st) (ControlVarName st)
    (ControlVarType st) (CreatedStructureType st) (VariableNameStack st)
    (UpcomingNestedMemberType st) (ParseFailed st) (Diagnostics st) (f (CallLog st)).


(** *** The builder monad: state passing with C++ exceptions *)

Definition M (A : Type) : Type := ParserState → result (A * ParserState).

#[global] Instance M_ret : MRet M := λ A a st, inr (a, st).
#[global] Instance M_bind : MBind M :=
  λ A B f m st, match m st with inl e => inl e | inr (a, st') => f a st' end.

Definition gets {A} (f : ParserState → A) : M A := λ st, inr (f st, st).
Definition modify (f : ParserState → ParserState) : M unit := λ st, inr ((), f st).
Definition throw {A} (e : Exception) : M A := λ _, inl e.
Definition lift {A} (r : result A) : M A :=
  λ st, match r with inl e => inl e | inr a => inr (a, st) end.

(** *** Code of the repository that is not part of the sources under study

    The virtual [Operation::GetType], the helpers of [StackEntry] and of
    [Block] that group operations by their parameter counts,
    [CompositeType::ComputeOffsets], [CompoundOperator::AddOperation] and the
    operation builders other than the arithmetic ones are taken as
    parameters: an instance of this class is one possible behaviour of that
    code.  [GetOperationFromEnd] answers with the position of the operation
    in the block, [None] standing for a null pointer. *)
Class ExternalCode := {
  EC_VM :: OperationCode;
  DetermineEffectiveType : StackEntry → gmap ScopeID ScopeDescription → option ScopeID →
                           result EpochVariableTypeID;
  IsArray : StackEntry → bool;
  GetOperationFromEnd : list Operation → nat → gmap ScopeID ScopeDescription →
                        option ScopeID → option nat;
  CountTailOps : list Operation → nat → gmap ScopeID ScopeDescription →
                 option ScopeID → nat;
  CreateOperation_other : Keyword → M Operation
}.

(** The containers [std::deque] and [std::stack] are lists whose head is the
    back (the top).  [back] and [pop_back] on an empty container are undefined
    behaviour in C++. *)
Definition back {A} (what : string) (l : list A) : M A :=
  match l with
  | [] => throw (UndefinedBehaviour what)
  | x :: _ => mret x
  end.

Definition TheStack_back : M StackEntry :=
  l ← gets TheStack; back "TheStack.back() on an empty deque" l.

Definition TheStack_pop_back : M unit :=
  l ← gets TheStack;
  match l with
  | [] => throw (UndefinedBehaviour "TheStack.pop_back() on an empty deque")
  | _ :: l' => modify (upd_TheStack (λ _, l'))
  end.

Definition TheStack_push_back (e : StackEntry) : M unit :=
  modify (upd_TheStack (λ l, e :: l)).

Definition PassedParameterCount_top : M N :=
  l ← gets PassedParameterCount; back "PassedParameterCount.top() on an empty stack" l.

(** Modelled from the spec: [ParserState::ReportFatalError] is not in the
    sources; the spec describes it as setting the fatal flag of the build and
    letting the parse continue.  The message is kept for the diagnostics. *)
Definition ReportFatalError (message : string) : M unit :=
  modify (upd_ParseFailed (λ _, true));;
  modify (upd_Diagnostics (λ d, d ++ [message])).

Fixpoint repeatM (n : nat) (m : M unit) : M unit :=
  match n with
  | O => mret ()
  | S n' => m;; repeatM n' m
  end.

(** *** Blocks and scopes on the heap

    Modelled from the spec: [Block] and [ScopeDescription] are not in the
    sources.  A block is an ordered sequence of operations with an optional
    bound scope; [AddOperation] appends at the tail.  Destruction of objects
    is not modelled: what C++ deletes merely becomes unreachable here. *)

(** [new VM::Block] *)
Definition new_Block : M BlockID :=
  heap ← gets BlockHeap;
  let b := fresh (dom heap) in
  modify (upd_BlockHeap <[b := {| Ops := []; BoundScope := None |}]>);;
  mret b.

(** [new VM::ScopeDescription] *)
Definition new_ScopeDescription : M ScopeID :=
  heap ← gets ScopeHeap;
  let s := fresh (dom heap) in
  modify (upd_ScopeHeap <[s := empty_scope]>);;
  mret s.

Definition get_Block (b : option BlockID) : M Block :=
  match b with
  | None => throw (UndefinedBehaviour "null block pointer")
  | Some id =>
      heap ← gets BlockHeap;
      match heap !! id with
      | Some blk => mret blk
      | None => throw (UndefinedBehaviour "dangling block pointer")
      end
  end.

Definition get_Scope (s : option ScopeID) : M ScopeDescription :=
  match s with
  | None => throw (UndefinedBehaviour "null scope pointer")
  | Some id =>
      heap ← gets ScopeHeap;
      match heap !! id with
      | Some d => mret d
      | None => throw (UndefinedBehaviour "dangling scope pointer")
      end
  end.

Definition update_Block (b : option BlockID) (f : Block → Block) : M unit :=
  blk ← get_Block b;
  match b with
  | Some id => modify (upd_BlockHeap <[id := f blk]>)
  | None => mret ()
  end.

Definition update_Scope (s : option ScopeID) (f : ScopeDescription → ScopeDescription)
  : M unit :=
  d ← get_Scope s;
  match s with
  | Some id => modify (upd_ScopeHeap <[id := f d]>)
  | None => mret ()
  end.

Definition Block_AddOperation (b : option BlockID) (op : Operation) : M unit :=
  update_Block b (λ blk, {| Ops := Ops blk ++ [op]; BoundScope := BoundScope blk |}).

Definition Block_BindToScope (b : option BlockID) (scope : option ScopeID) : M unit :=
  update_Block b (λ blk, {| Ops := Ops blk; BoundScope := scope |}).

Definition Block_GetTailOperation (b : option BlockID) : M Operation :=
  blk ← get_Block b;
  match last (Ops blk) with
  | Some op => mret op
  | None => throw (UndefinedBehaviour "tail operation of an empty block")
  end.

Definition Blocks_back : M BlockEntry :=
  l ← gets Blocks; back "Blocks.back() on an empty deque" l.

Definition Blocks_pop_back : M unit :=
  l ← gets Blocks;
  match l with
  | [] => throw (UndefinedBehaviour "Blocks.pop_back() on an empty deque")
  | _ :: l' => modify (upd_Blocks (λ _, l'))
  end.

Definition Blocks_push_back (e : BlockEntry) : M unit :=
  modify (upd_Blocks (λ l, e :: l)).

(** Modelled from the spec: [ParserState::AddOperationToCurrentBlock] is not
    in the sources; the builder "emits operations into the current block",
    the block on top of [Blocks]. *)
Definition AddOperationToCurrentBlock (op : Operation) : M unit :=
  entry ← Blocks_back;
  Block_AddOperation (TheBlock entry) op.

(** Modelled from the spec: [ParserState::PopParameterCount] is not in the
    sources; it drops the arity of the call that was just completed. *)
Definition PopParameterCount : M unit :=
  l ← gets PassedParameterCount;
  match l with
  | [] => throw (UndefinedBehaviour "PassedParameterCount.pop() on an empty stack")
  | _ :: l' => modify (upd_PassedParameterCount (λ _, l'))
  end.

(** [Program::PoolStaticString]: intern the string in the pool of the
    program. *)
Definition PoolStaticString (str : string) : M string :=
  modify (upd_StringPool (λ pool, {[str]} ∪ pool));;
  mret str.

(** [CurrentScope = CurrentScope->ParentScope] *)
Definition leave_CurrentScope : M unit :=
  cur ← gets CurrentScope;
  d ← get_Scope cur;
  modify (upd_CurrentScope (λ _, ParentScope d)).

Definition mkStackEntry_Identifier (name : string) : StackEntry :=
  {| StackEntry_Type := STACKENTRYTYPE_IDENTIFIER; StringValue := name;
     OperationPointer := None; ScopePointer := None |}.

Definition mkStackEntry_Operation (op : Operation) : StackEntry :=
  {| StackEntry_Type := STACKENTRYTYPE_OPERATION; StringValue := "";
     OperationPointer := Some op; ScopePointer := None |}.

Definition mkStackEntry_Scope (scope : option ScopeID) : StackEntry :=
  {| StackEntry_Type := STACKENTRYTYPE_SCOPE; StringValue := "";
     OperationPointer := None; ScopePointer := scope |}.

(** *** Parser State Machine/FlowControl.cpp *)

Section FlowControl.
Context {EC : ExternalCode}.

(** The loop shared by the [elseif] and [else] handling: walk back from the
    tail of the block, skipping [ElseIfWrapper] operations, until an [If] is
    met.  The answer is the position of the [If] in the block, or [None] when
    an operation that is neither (or a null pointer) is met first.  The walk
    is cut off once the offset has passed the length of the block. *)
Fixpoint walk_to_If (fuel : nat) (ops : list Operation)
    (scopes : gmap ScopeID ScopeDescription) (scope : option ScopeID) (offset : nat)
  : result (option nat) :=
  match fuel with
  | O => inl (UndefinedBehaviour "GetOperationFromEnd past the head of the block")
  | S fuel' =>
      match GetOperationFromEnd ops offset scopes scope with
      | None => inr None
      | Some index =>
          match ops !! index with
          | Some (If _ _ _) => inr (Some index)
          | Some (ElseIfWrapper _) => walk_to_If fuel' ops scopes scope (S offset)
          | Some _ => inr None
          | None => inl (UndefinedBehaviour "GetOperationFromEnd outside the block")
          end
      end
  end.

Definition find_If_from_tail (b : option BlockID) : M (option nat) :=
  blk ← get_Block b;
  scopes ← gets ScopeHeap;
  scope ← gets CurrentScope;
  lift (walk_to_If (length (Ops blk)) (Ops blk) scopes scope 0).

Definition set_operation (b : option BlockID) (index : nat) (op : Operation) : M unit :=
  update_Block b (λ blk, {| Ops := <[index := op]> (Ops blk); BoundScope := BoundScope blk |}).

Definition push_ExpectedBlockType (t : BlockType) : M unit :=
  modify (upd_ExpectedBlockTypes (λ l, t :: l)).

(** [ParserState::RegisterControl], lines 41-123.  The last case hands the
    keyword to the extension registry, which is outside this embedding. *)
Definition RegisterControl (controlname : Keyword) (preprocess : bool) : M unit :=
  match controlname with
  | Keywords_Do => push_ExpectedBlockType BLOCKENTRYTYPE_DOLOOP
  | Keywords_If => push_ExpectedBlockType BLOCKENTRYTYPE_IF
  | Keywords_ElseIf =>
      (if preprocess then mret ()
       else
         current ← Blocks_back;
         found ← find_If_from_tail (TheBlock current);
         match found with
         | None => throw (ParserFailureException "elseif() without matching if()")
         | Some index =>
             blk ← get_Block (TheBlock current);
             match Ops blk !! index with
             | Some (If trueblock falseblock elseifblock) =>
                 wrapperblock ←
                   match elseifblock with
                   | Some wb => mret wb
                   | None =>
                       wb ← new_Block;
                       scope ← new_ScopeDescription;
                       cur ← gets CurrentScope;
                       update_Scope (Some scope) (scope_ParentScope (λ _, cur));;
                       Block_BindToScope (Some wb) (Some scope);;
                       set_operation (TheBlock current) index
                         (If trueblock falseblock (Some wb));;
                       mret wb
                   end;
                 Blocks_push_back {| TheBlock := Some wrapperblock;
                                     BlockEntry_Type := BLOCKENTRYTYPE_ELSEIFWRAPPER |}
             | _ => throw (UndefinedBehaviour "the operation found is not an If")
             end
         end);;
      push_ExpectedBlockType BLOCKENTRYTYPE_ELSEIF
  | Keywords_Else => push_ExpectedBlockType BLOCKENTRYTYPE_ELSE
  | Keywords_While =>
      (if preprocess then mret ()
       else
         Blocks_push_back {| TheBlock := None; BlockEntry_Type := BLOCKENTRYTYPE_WHILELOOP |};;
         b ← new_Block;
         modify (upd_Blocks (λ l, match l with
                                  | e :: l' => {| TheBlock := Some b;
                                                  BlockEntry_Type := BlockEntry_Type e |} :: l'
                                  | [] => []
                                  end));;
         scope ← new_ScopeDescription;
         cur ← gets CurrentScope;
         update_Scope (Some scope) (scope_ParentScope (λ _, cur));;
         modify (upd_CurrentScope (λ _, Some scope));;
         Block_BindToScope (Some b) (Some scope));;
      push_ExpectedBlockType BLOCKENTRYTYPE_WHILELOOP
  | Keywords_ParallelFor => push_ExpectedBlockType BLOCKENTRYTYPE_PARALLELFOR
  | _ => throw (Unmodelled "extension control keywords")
  end.

Definition is_task_or_thread (t : BlockType) : bool :=
  bool_decide (t = BLOCKENTRYTYPE_TASK ∨ t = BLOCKENTRYTYPE_THREAD).

Definition is_counted_control (t : BlockType) : bool :=
  bool_decide (t = BLOCKENTRYTYPE_PARALLELFOR ∨ t = BLOCKENTRYTYPE_EXTENSIONCONTROL).

(** The check of the condition that [EnterBlock] makes for [if] and [elseif]
    blocks (lines 284-293). *)
Definition check_condition_is_boolean (message : string) : M unit :=
  current ← Blocks_back;
  tail ← Block_GetTailOperation (TheBlock current);
  scopes ← gets ScopeHeap;
  scope ← gets CurrentScope;
  type ← lift (GetType tail scopes scope);
  if decide (type ≠ EpochVariableType_Boolean) then ReportFatalError message else mret ().

(** The part of [EnterBlock] after the early exits (lines 206-300). *)
Definition EnterBlock_open : M unit :=
  blockptr ← new_Block;
  expected ← gets ExpectedBlockTypes;
  let type := match expected with [] => BLOCKENTRYTYPE_FREE | t :: _ => t end in
  let entry := {| TheBlock := Some blockptr; BlockEntry_Type := type |} in
  scope ← new_ScopeDescription;
  cur ← gets CurrentScope;
  (if is_task_or_thread type then
     global ← gets GlobalScope;
     update_Scope (Some scope) (scope_ParentScope (λ _, Some global));;
     modify (upd_DisplacedScopes (λ l, cur :: l))
   else if is_counted_control type then
     name ← gets ControlVarName;
     vartype ← gets ControlVarType;
     update_Scope (Some scope) (AddVariable name vartype);;
     update_Scope (Some scope) (scope_ParentScope (λ _, cur))
   else
     update_Scope (Some scope) (scope_ParentScope (λ _, cur)));;
  modify (upd_CurrentScope (λ _, Some scope));;
  match type with
  | BLOCKENTRYTYPE_FUNCTION_NOCREATE => throw (Unmodelled "function blocks")
  | BLOCKENTRYTYPE_IF =>
      check_condition_is_boolean "Condition in if() statement must be a boolean expression"
  | BLOCKENTRYTYPE_ELSEIF =>
      check_condition_is_boolean "Condition in elseif() statement must be a boolean expression"
  | _ => mret ()
  end;;
  Blocks_push_back entry;;
  Block_BindToScope (Some blockptr) (Some scope);;
  modify (upd_ExpectedBlockTypes (λ l, match l with [] => [] | _ :: l' => l' end)).

(** [ParserState::EnterBlock], lines 177-301. *)
Definition EnterBlock : M unit :=
  expected ← gets ExpectedBlockTypes;
  match expected with
  | BLOCKENTRYTYPE_WHILELOOP :: rest => modify (upd_ExpectedBlockTypes (λ _, rest))
  | BLOCKENTRYTYPE_RESPONSEMAP :: rest => modify (upd_ExpectedBlockTypes (λ _, rest))
  | BLOCKENTRYTYPE_MSGDISPATCH :: _ =>
      dispatch ← gets MessageDispatchScope;
      cur ← gets CurrentScope;
      update_Scope dispatch (scope_ParentScope (λ _, cur));;
      modify (upd_CurrentScope (λ _, dispatch));;
      TheStack_push_back (mkStackEntry_Scope dispatch);;
      modify (upd_MessageDispatchScope (λ _, None));;
      EnterBlock_open
  | _ => EnterBlock_open
  end.

(** The three ways the conditional on top of the stack is checked when an
    [if] or [elseif] block is closed. *)
Inductive ConditionCheck := ConditionOk | ConditionBad (message : string).

Definition check_condition_entry (entry : StackEntry)
    (bad_variable bad_expression bad_entry : string) : M ConditionCheck :=
  scopes ← gets ScopeHeap;
  scope ← gets CurrentScope;
  match StackEntry_Type entry with
  | STACKENTRYTYPE_IDENTIFIER =>
      type ← lift (GetVariableType scopes scope (StringValue entry));
      mret (if decide (type ≠ EpochVariableType_Boolean)
            then ConditionBad bad_variable else ConditionOk)
  | STACKENTRYTYPE_OPERATION =>
      match OperationPointer entry with
      | None => throw (UndefinedBehaviour "null OperationPointer")
      | Some op =>
          type ← lift (GetType op scopes scope);
          mret (if decide (type ≠ EpochVariableType_Boolean)
                then ConditionBad bad_expression else ConditionOk)
      end
  | _ => mret (ConditionBad bad_entry)
  end.

(** The test [TheStack.empty() || TheStack.back().DetermineEffectiveType(scope) != type]
    on the current scope. *)
Definition top_is_not_of_type (type : EpochVariableTypeID) : M bool :=
  stack ← gets TheStack;
  match stack with
  | [] => mret true
  | entry :: _ =>
      scopes ← gets ScopeHeap;
      scope ← gets CurrentScope;
      t ← lift (DetermineEffectiveType entry scopes scope);
      mret (bool_decide (t ≠ type))
  end.

Definition expect_top_of_type (type : EpochVariableTypeID) (message : string) : M unit :=
  bad ← top_is_not_of_type type;
  if (bad : bool) then throw (ParserFailureException message) else mret ().

Definition SavedTaskNames_top : M string :=
  l ← gets SavedTaskNames; back "SavedTaskNames.top() on an empty stack" l.

Definition DisplacedScopes_back : M (option ScopeID) :=
  l ← gets DisplacedScopes; back "DisplacedScopes.back() on an empty deque" l.

Definition pop_task_bookkeeping : M unit :=
  TheStack_pop_back;;
  l ← gets DisplacedScopes;
  match l with
  | [] => throw (UndefinedBehaviour "DisplacedScopes.pop_back() on an empty deque")
  | _ :: l' => modify (upd_DisplacedScopes (λ _, l'))
  end;;
  n ← gets SavedTaskNames;
  match n with
  | [] => throw (UndefinedBehaviour "SavedTaskNames.pop() on an empty stack")
  | _ :: n' => modify (upd_SavedTaskNames (λ _, n'))
  end.

(** [DebugInfo.TrackTaskName(op, name)] *)
Definition TrackTaskName (op : Operation) (name : string) : M unit :=
  modify (upd_TaskNames (λ l, (op, name) :: l)).

(** [ParserState::ExitBlock], lines 327-627.  [true] is returned when the
    function leaves through the end of the [switch], where the current scope
    is replaced by its parent; [false] when the case returns on its own. *)
Definition ExitBlock_case : M bool :=
  current ← Blocks_back;
  match BlockEntry_Type current with
  | BLOCKENTRYTYPE_FUNCTION =>
      throw (ParserFailureException "The grammar tried to do something unspeakable.")
  | BLOCKENTRYTYPE_FUNCTION_NOCREATE => throw (Unmodelled "function blocks")
  | BLOCKENTRYTYPE_DOLOOP => mret true
  | BLOCKENTRYTYPE_IF =>
      entry ← TheStack_back;
      let ifblock := TheBlock current in
      Blocks_pop_back;;
      check ← check_condition_entry entry
                "Conditional variables must be of the boolean type"
                "Conditional expression must be of the boolean type"
                "Expected a conditional expression here";
      match check with
      | ConditionBad message =>
          ReportFatalError message;;
          TheStack_pop_back;;
          leave_CurrentScope;;
          mret false
      | ConditionOk =>
          AddOperationToCurrentBlock (If ifblock None None);;
          TheStack_pop_back;;
          mret true
      end
  | BLOCKENTRYTYPE_ELSEIF =>
      entry ← TheStack_back;
      let savedblock := TheBlock current in
      Blocks_pop_back;;
      Block_AddOperation savedblock ExitIfChain;;
      check ← check_condition_entry entry
                "Conditional variables must be of the boolean type"
                "Expected a conditional expression here"
                "Conditional variables must be of the boolean type";
      let finish :=
        AddOperationToCurrentBlock (ElseIf savedblock);;
        Blocks_pop_back;;
        TheStack_pop_back;;
        mret true in
      match check with
      | ConditionBad message =>
          ReportFatalError message;;
          Blocks_pop_back;;
          TheStack_pop_back;;
          leave_CurrentScope;;
          (* the branch for an operation of the wrong type has no return *)
          if decide (StackEntry_Type entry = STACKENTRYTYPE_OPERATION) then finish
          else mret false
      | ConditionOk => finish
      end
  | BLOCKENTRYTYPE_ELSE =>
      let elseblock := TheBlock current in
      Blocks_pop_back;;
      enclosing ← Blocks_back;
      found ← find_If_from_tail (TheBlock enclosing);
      match found with
      | Some index =>
          blk ← get_Block (TheBlock enclosing);
          match Ops blk !! index with
          | Some (If trueblock _ elseifblock) =>
              set_operation (TheBlock enclosing) index (If trueblock elseblock elseifblock)
          | _ => throw (UndefinedBehaviour "the operation found is not an If")
          end
      | None => ReportFatalError "Unexpected else block with no matching if block"
      end;;
      mret true
  | BLOCKENTRYTYPE_WHILELOOP =>
      let body := TheBlock current in
      Blocks_pop_back;;
      TheStack_pop_back;;
      AddOperationToCurrentBlock (WhileLoop body);;
      mret true
  | BLOCKENTRYTYPE_FREE =>
      let body := TheBlock current in
      Blocks_pop_back;;
      AddOperationToCurrentBlock (ExecuteBlock body);;
      mret true
  | BLOCKENTRYTYPE_TASK =>
      let body := TheBlock current in
      Blocks_pop_back;;
      displaced ← DisplacedScopes_back;
      modify (upd_CurrentScope (λ _, displaced));;
      expect_top_of_type EpochVariableType_String "Task identifiers must be string values";;
      name ← SavedTaskNames_top;
      TrackTaskName (ForkTask body) name;;
      AddOperationToCurrentBlock (ForkTask body);;
      pop_task_bookkeeping;;
      mret false
  | BLOCKENTRYTYPE_THREAD =>
      let body := TheBlock current in
      Blocks_pop_back;;
      displaced ← DisplacedScopes_back;
      modify (upd_CurrentScope (λ _, displaced));;
      expect_top_of_type EpochVariableType_String
        "Thread pool identifiers must be string values";;
      TheStack_pop_back;;
      expect_top_of_type EpochVariableType_String "Thread identifiers must be string values";;
      name ← SavedTaskNames_top;
      TrackTaskName (ForkThread body) name;;
      AddOperationToCurrentBlock (ForkThread body);;
      pop_task_bookkeeping;;
      mret false
  | BLOCKENTRYTYPE_MSGDISPATCH => mret false
  | BLOCKENTRYTYPE_RESPONSEMAP => mret false
  | BLOCKENTRYTYPE_PARALLELFOR =>
      let body := TheBlock current in
      Blocks_pop_back;;
      expect_top_of_type EpochVariableType_Integer
        "Last parameter to parallelfor() should be a thread count";;
      TheStack_pop_back;;
      expect_top_of_type EpochVariableType_Integer
        "Third parameter to parallelfor() should be an upper boundary value";;
      TheStack_pop_back;;
      expect_top_of_type EpochVariableType_Integer
        "Second parameter to parallelfor() should be a lower boundary value";;
      TheStack_pop_back;;
      stack ← gets TheStack;
      success ←
        match stack with
        | entry :: _ =>
            if decide (StackEntry_Type entry ≠ STACKENTRYTYPE_IDENTIFIER) then
              ReportFatalError
                "First parameter to parallelfor() should be a loop counter variable name";;
              mret false
            else
              counter ← PoolStaticString (StringValue entry);
              AddOperationToCurrentBlock (ParallelFor body counter true 0);;
              mret true
        | [] =>
            ReportFatalError
              "First parameter to parallelfor() should be a loop counter variable name";;
            mret false
        end;
      TheStack_pop_back;;
      if (success : bool) then mret true
      else leave_CurrentScope;; mret false
  | BLOCKENTRYTYPE_EXTENSIONCONTROL => throw (Unmodelled "extension control blocks")
  | _ =>
      throw (ParserFailureException
               "Invalid block type; this probably reflects corruption in the parser")
  end.

Definition ExitBlock : M unit :=
  through_the_end ← ExitBlock_case;
  if (through_the_end : bool) then leave_CurrentScope else mret ().

(** [ParserState::RegisterEndOfParallelFor], lines 776-785. *)
Definition RegisterEndOfParallelFor : M unit :=
  count ← PassedParameterCount_top;
  (if decide (count ≠ 4%N) then ReportFatalError "parallelfor() expects 4 parameters"
   else mret ());;
  stack ← gets TheStack;
  match stack !! 3%nat with
  | None => throw (UndefinedBehaviour "TheStack.rbegin() + 3 outside the deque")
  | Some entry => modify (upd_ControlVarName (λ _, StringValue entry))
  end;;
  modify (upd_ControlVarType (λ _, EpochVariableType_Integer));;
  PopParameterCount.

End FlowControl.

(** *** Parser State Machine/Structures.cpp *)

(** Modelled from the spec: [ScopeDescription::AddStructureType] is not in
    the sources.  The type gets the next identifier of the registry (the spec
    has them dense and monotonically assigned) and is entered in the three
    places the bytecode loader fills for a structure type: the name map and
    the type map of the scope, and the owner map of the registry. *)
Definition register_structure (name : string) (id : IDType) (type : CompositeType)
    (d : ScopeDescription) : ScopeDescription :=
  scope_StructureTypeMap <[id := type]> (scope_StructureTypes <[name := id]> d).

Definition next_structure_id (owners : gmap IDType ScopeID) : IDType :=
  Z.of_nat (size owners) + 1.

Definition AddStructureType (name : string) (type : CompositeType) : M unit :=
  cur ← gets CurrentScope;
  owners ← gets StructureOwnerMap;
  let id := next_structure_id owners in
  match cur with
  | None => throw (UndefinedBehaviour "null scope pointer")
  | Some scope =>
      update_Scope cur (register_structure name id type);;
      modify (upd_StructureOwnerMap <[id := scope]>)
  end.

Definition log_call (c : ExternalCall) : M unit :=
  modify (upd_CallLog (λ l, l ++ [c])).

Definition get_CreatedStructureType : M CompositeType :=
  created ← gets CreatedStructureType;
  match created with
  | None => throw (UndefinedBehaviour "null CreatedStructureType")
  | Some t => mret t
  end.

Definition VariableNameStack_top : M string :=
  l ← gets VariableNameStack; back "VariableNameStack.top() on an empty stack" l.

Section Structures.
Context {EC : ExternalCode}.

(** [ParserState::RegisterStructureType], lines 32-39. *)
Definition RegisterStructureType (identifier : string) : M unit :=
  created ← gets CreatedStructureType;
  match created with
  | Some _ =>
      throw (SyntaxException "An incomplete structure type definition has already been started; nested definitions are not permitted")
  | None =>
      modify (upd_CreatedStructureType (λ _, Some empty_StructureType));;
      modify (upd_VariableNameStack (λ l, identifier :: l))
  end.

(** [ParserState::RegisterStructureMember], lines 44-53. *)
Definition RegisterStructureMember (identifier : string) (type : EpochVariableTypeID)
  : M unit :=
  created ← gets CreatedStructureType;
  match created with
  | None =>
      throw (ParserFailureException "The grammar appears to have barfed; we're parsing structure members but no structure type declaration was found.")
  | Some t =>
      if decide (type = EpochVariableType_Tuple ∨ type = EpochVariableType_Structure) then
        throw (ParserFailureException "Grammar barf - we should be using RegisterStructureMemberUnknown instead!")
      else
        modify (upd_CreatedStructureType (λ _, Some (AddMember identifier type 0 t)))
  end.

(** [ParserState::RegisterStructureUnknownTypeName], lines 58-61. *)
Definition RegisterStructureUnknownTypeName (type : string) : M unit :=
  modify (upd_UpcomingNestedMemberType (λ _, type)).

(** [ParserState::RegisterStructureMemberUnknown], lines 66-89. *)
Definition RegisterStructureMemberUnknown (identifier : string) : M unit :=
  scopes ← gets ScopeHeap;
  cur ← gets CurrentScope;
  upcoming ← gets UpcomingNestedMemberType;
  if HasTupleType scopes cur upcoming then
    hint ← lift (GetTupleTypeID scopes cur upcoming);
    _ ← lift (GetTupleType scopes cur hint);
    t ← get_CreatedStructureType;
    modify (upd_CreatedStructureType
              (λ _, Some (AddMember identifier EpochVariableType_Tuple hint t)))
  else if HasStructureType scopes cur upcoming then
    hint ← lift (GetStructureTypeID scopes cur upcoming);
    _ ← lift (GetStructureType scopes cur hint);
    t ← get_CreatedStructureType;
    modify (upd_CreatedStructureType
              (λ _, Some (AddMember identifier EpochVariableType_Structure hint t)))
  else if IsFunctionSignature scopes cur upcoming then
    t ← get_CreatedStructureType;
    modify (upd_CreatedStructureType (λ _, Some (AddFunctionMember identifier upcoming t)))
  else
    name ← VariableNameStack_top;
    (if decide (upcoming = name) then
       ReportFatalError "A structure cannot contain an instance of itself"
     else
       ReportFatalError "Unrecognized type; cannot add member to structure");;
    t ← get_CreatedStructureType;
    modify (upd_CreatedStructureType
              (λ _, Some (AddMember identifier EpochVariableType_Error 0 t))).

(** [ParserState::FinishStructureType], lines 96-110. *)
Definition FinishStructureType : M unit :=
  t ← get_CreatedStructureType;
  (if decide (MemberOrder t = []) then
     ReportFatalError "Structures must contain at least one member"
   else
     scopes ← gets ScopeHeap;
     cur ← gets CurrentScope;
     log_call (Call_ComputeOffsets t);;
     t' ← lift (ComputeOffsets t scopes cur);
     modify (upd_CreatedStructureType (λ _, Some t'));;
     name ← VariableNameStack_top;
     log_call (Call_AddStructureType name t');;
     AddStructureType name t');;
  names ← gets VariableNameStack;
  match names with
  | [] => throw (UndefinedBehaviour "VariableNameStack.pop() on an empty stack")
  | _ :: names' => modify (upd_VariableNameStack (λ _, names'))
  end;;
  modify (upd_CreatedStructureType (λ _, None)).

(** The semantic actions the grammar fires for the members of a structure
    definition, and for a whole definition
    [structure name { members }]. *)
Inductive MemberDeclaration :=
| KnownMember (identifier : string) (type : EpochVariableTypeID)
| UnknownMember (typename identifier : string).

Definition member_identifier (m : MemberDeclaration) : string :=
  match m with
  | KnownMember identifier _ => identifier
  | UnknownMember _ identifier => identifier
  end.

Definition declare_member (m : MemberDeclaration) : M unit :=
  match m with
  | KnownMember identifier type => RegisterStructureMember identifier type
  | UnknownMember typename identifier =>
      RegisterStructureUnknownTypeName typename;;
      RegisterStructureMemberUnknown identifier
  end.

Fixpoint declare_members (members : list MemberDeclaration) : M unit :=
  match members with
  | [] => mret ()
  | m :: members' => declare_member m;; declare_members members'
  end.

Definition define_structure (name : string) (members : list MemberDeclaration) : M unit :=
  RegisterStructureType name;;
  declare_members members;;
  FinishStructureType.

End Structures.

(** *** Op Generation/Arithmetic.cpp *)

Record ArithmeticMessages := {
  msg_expects_array : string;
  msg_not_constructor : string;
  msg_bad_element : string;
  msg_bad_count : string;
  msg_mismatch : string;
  msg_bad_type : string
}.

Definition arithmetic_messages (kind : ArithmeticKind) : ArithmeticMessages :=
  match kind with
  | Arith_Add =>
      {| msg_expects_array := "add() function expects 2 parameters or 1 array";
         msg_not_constructor := "Expected an array here";
         msg_bad_element := "Cannot add() an array of this type of element";
         msg_bad_count := "add() function expects 2 parameters or 1 array";
         msg_mismatch := "Parameters to add() must be of the same type";
         msg_bad_type := "add() cannot use parameters of this type" |}
  | Arith_Subtract =>
      {| msg_expects_array := "subtract() function expects 2 parameters or 1 array";
         msg_not_constructor := "Expected an array constructor here";
         msg_bad_element := "Cannot subtract() an array of this type of element";
         msg_bad_count := "subtract() expects 2 parameters";
         msg_mismatch := "Parameters to subtract() must be of the same type";
         msg_bad_type := "subtract() cannot use parameters of this type" |}
  | Arith_Multiply =>
      {| msg_expects_array := "multiply() function expects 2 parameters or 1 array";
         msg_not_constructor := "Expected an array here";
         msg_bad_element := "Cannot multiply() an array of this type of element";
         msg_bad_count := "multiply() function expects 2 parameters";
         msg_mismatch := "Parameters to multiply() must be of the same type";
         msg_bad_type := "multiply() cannot use parameters of this type" |}
  | Arith_Divide =>
      {| msg_expects_array := "divide() function expects 2 parameters or 1 array";
         msg_not_constructor := "Expected an array here";
         msg_bad_element := "Cannot divide() an array of this type of element";
         msg_bad_count := "divide() function expects 2 parameters";
         msg_mismatch := "Parameters to divide() must be of the same type";
         msg_bad_type := "divide() cannot use parameters of this type" |}
  end.

(** [dynamic_cast<VM::Operations::ConsArray*>(op)] followed by
    [GetElementType()]. *)
Definition as_ConsArray (op : Operation) : option EpochVariableTypeID :=
  match op with
  | ConsArray elementtype => Some elementtype
  | _ => None
  end.

Definition is_arithmetic_type (t : EpochVariableTypeID) : bool :=
  match t with
  | EpochVariableType_Integer | EpochVariableType_Integer16 | EpochVariableType_Real => true
  | _ => false
  end.

Section Arithmetic.
Context {EC : ExternalCode}.

(** The common text of [CreateOperation_Add], [CreateOperation_Subtract],
    [CreateOperation_Multiply] and [CreateOperation_Divide]: the four
    functions differ in the operation they construct and in their messages. *)
Definition CreateOperation_Arithmetic (kind : ArithmeticKind) : M Operation :=
  let msg := arithmetic_messages kind in
  count ← PassedParameterCount_top;
  if decide (count = 1%N) then
    entry ← TheStack_back;
    if decide (StackEntry_Type entry ≠ STACKENTRYTYPE_OPERATION) then
      ReportFatalError (msg_expects_array msg);;
      TheStack_pop_back;;
      mret NoOp
    else
      match OperationPointer entry with
      | None => throw (UndefinedBehaviour "null OperationPointer")
      | Some op =>
          scopes ← gets ScopeHeap;
          scope ← gets CurrentScope;
          optype ← lift (GetType op scopes scope);
          if decide (optype ≠ EpochVariableType_Array) then
            ReportFatalError (msg_expects_array msg);;
            TheStack_pop_back;;
            mret NoOp
          else
            match as_ConsArray op with
            | None =>
                ReportFatalError (msg_not_constructor msg);;
                TheStack_pop_back;;
                mret NoOp
            | Some elementtype =>
                TheStack_pop_back;;
                if is_arithmetic_type elementtype then
                  mret (ArithmeticFold kind elementtype)
                else
                  ReportFatalError (msg_bad_element msg);;
                  mret NoOp
            end
      end
  else if decide (count ≠ 2%N) then
    ReportFatalError (msg_bad_count msg);;
    repeatM (N.to_nat count) TheStack_pop_back;;
    mret NoOp
  else
    second ← TheStack_back;
    TheStack_pop_back;;
    first ← TheStack_back;
    TheStack_pop_back;;
    scopes ← gets ScopeHeap;
    scope ← gets CurrentScope;
    firsttype ← lift (DetermineEffectiveType first scopes scope);
    secondtype ← lift (DetermineEffectiveType second scopes scope);
    if decide (firsttype ≠ secondtype) then
      ReportFatalError (msg_mismatch msg);;
      mret NoOp
    else if is_arithmetic_type firsttype then
      mret (ArithmeticBinary kind firsttype (IsArray first) (IsArray second))
    else
      ReportFatalError (msg_bad_type msg);;
      mret NoOp.

Definition CreateOperation_Add : M Operation := CreateOperation_Arithmetic Arith_Add.
Definition CreateOperation_Subtract : M Operation := CreateOperation_Arithmetic Arith_Subtract.
Definition CreateOperation_Multiply : M Operation := CreateOperation_Arithmetic Arith_Multiply.
Definition CreateOperation_Divide : M Operation := CreateOperation_Arithmetic Arith_Divide.

End Arithmetic.

(** *** Parser State Machine/Infix.cpp *)

(** The table [InfixOperators] as [autoinit] fills it (lines 254-289).
    [std::map::insert] keeps the first entry of a key. *)
Definition DefineInfixOperator (operatorname : OperatorName) (functionname : Keyword)
    (precedence : OperatorPrecedence)
    (table : list (OperatorName * InfixOperatorData))
  : list (OperatorName * InfixOperatorData) :=
  if bool_decide (operatorname ∈ table.*1) then table
  else table ++ [(operatorname, {| Precedence := precedence; FunctionName := functionname |})].

Definition autoinit : list (OperatorName * InfixOperatorData) :=
  (DefineInfixOperator Operators_Assign Keywords_Assign OPREC_ASSIGNMENT ∘
   DefineInfixOperator Operators_ConcatAssign Keywords_Concat OPREC_CALCASSIGN ∘
   DefineInfixOperator Operators_Concat Keywords_Concat OPREC_CONCATENATION ∘
   DefineInfixOperator Operators_Xor Keywords_Xor OPREC_BOOLEAN ∘
   DefineInfixOperator Operators_Or Keywords_Or OPREC_BOOLEAN ∘
   DefineInfixOperator Operators_And Keywords_And OPREC_BOOLEAN ∘
   DefineInfixOperator Operators_NotEqual Keywords_NotEqual OPREC_EQUALITY ∘
   DefineInfixOperator Operators_Equal Keywords_Equal OPREC_EQUALITY ∘
   DefineInfixOperator Operators_LessEqual Keywords_LessEqual OPREC_COMPARISON ∘
   DefineInfixOperator Operators_Less Keywords_Less OPREC_COMPARISON ∘
   DefineInfixOperator Operators_GreaterEqual Keywords_GreaterEqual OPREC_COMPARISON ∘
   DefineInfixOperator Operators_Greater Keywords_Greater OPREC_COMPARISON ∘
   DefineInfixOperator Operators_Decrement Keywords_Subtract OPREC_INCREMENT ∘
   DefineInfixOperator Operators_Increment Keywords_Add OPREC_INCREMENT ∘
   DefineInfixOperator Operators_DivideAssign Keywords_Divide OPREC_CALCASSIGN ∘
   DefineInfixOperator Operators_MultiplyAssign Keywords_Multiply OPREC_CALCASSIGN ∘
   DefineInfixOperator Operators_SubtractAssign Keywords_Subtract OPREC_CALCASSIGN ∘
   DefineInfixOperator Operators_AddAssign Keywords_Add OPREC_CALCASSIGN ∘
   DefineInfixOperator Operators_Divide Keywords_Divide OPREC_MULTIPLICATION ∘
   DefineInfixOperator Operators_Multiply Keywords_Multiply OPREC_MULTIPLICATION ∘
   DefineInfixOperator Operators_Subtract Keywords_Subtract OPREC_ADDITION ∘
   DefineInfixOperator Operators_Add Keywords_Add OPREC_ADDITION) [].

(** [ParserState::RegisterInfixFunction], lines 816-820 (the table part). *)
Definition RegisterInfixFunction (functionname : string) : M unit :=
  modify (upd_InfixOperators
            (DefineInfixOperator (Operators_User functionname)
                                 (Keywords_Other functionname) OPREC_USER)).

Fixpoint find_operator (opname : OperatorName)
    (table : list (OperatorName * InfixOperatorData)) : option InfixOperatorData :=
  match table with
  | [] => None
  | (name, data) :: table' =>
      if decide (name = opname) then Some data else find_operator opname table'
  end.

(** [ParserState::LookupInfixAlias], lines 648-655. *)
Definition LookupInfixAlias (opname : OperatorName) : M Keyword :=
  table ← gets InfixOperators;
  match find_operator opname table with
  | Some data => mret (FunctionName data)
  | None => throw (ParserFailureException "Unrecognized infix operator")
  end.

(** [ParserState::GetInfixPrecedence], lines 664-671. *)
Definition GetInfixPrecedence (opname : OperatorName) : M nat :=
  table ← gets InfixOperators;
  match find_operator opname table with
  | Some data => mret (prec_value (Precedence data))
  | None => throw (ParserFailureException "Unrecognized infix operator")
  end.

(** The infix units (lines 87-235). *)
#[warnings="-register-all"]
Inductive InfixUnit :=
| InfixUnitRawOperations (PushOperations : list Operation) (Operands : list StackEntry)
| InfixUnitCompound (Units : list InfixUnit).

(** [InfixUnit::PushContents]: the operations the unit adds, in order, to the
    tail of a block. *)
Fixpoint PushContents (unit : InfixUnit) : list Operation :=
  match unit with
  | InfixUnitRawOperations ops _ => ops
  | InfixUnitCompound units => concat (map PushContents units)
  end.

(** [InfixUnit::PushOperandsToStack]: the entries the unit pushes, in order. *)
Fixpoint PushOperandsToStack (unit : InfixUnit) : list StackEntry :=
  match unit with
  | InfixUnitRawOperations _ operands => operands
  | InfixUnitCompound units => concat (map PushOperandsToStack units)
  end.

Fixpoint ClearOperands (unit : InfixUnit) : InfixUnit :=
  match unit with
  | InfixUnitRawOperations ops _ => InfixUnitRawOperations ops []
  | InfixUnitCompound units => InfixUnitCompound (map ClearOperands units)
  end.

Fixpoint ClearOperations (unit : InfixUnit) : InfixUnit :=
  match unit with
  | InfixUnitRawOperations _ operands => InfixUnitRawOperations [] operands
  | InfixUnitCompound units => InfixUnitCompound (map ClearOperations units)
  end.

(** [dynamic_cast<VM::Operations::CompoundOperator*>(op) != NULL] *)
Definition is_CompoundOperator (op : Operation) : bool :=
  match op with
  | BitwiseOr _ _ | BitwiseAnd _ _ | LogicalOr _ | LogicalAnd _ => true
  | _ => false
  end.

Section Infix.
Context {EC : ExternalCode}.

(** [InfixUnit::CopyInstructionsToOp] (lines 164-172 and 230-234): the
    operations of the unit are handed, in order, to the compound operator;
    any other operation is left alone. *)
Definition CopyInstructionsToOp (unit : InfixUnit) (op : Operation) : Operation :=
  if is_CompoundOperator op
  then foldl CompoundOperator_AddOperation op (PushContents unit)
  else op.

(** [new PushOperation(op, *CurrentScope)] *)
Definition new_PushOperation (op : Operation) : M Operation :=
  scopes ← gets ScopeHeap;
  scope ← gets CurrentScope;
  lift (PushOperation_ctor op scopes scope).

(** Modelled from the spec: the dispatcher [ParserState::CreateOperation] is
    not in the sources; for the arithmetic functions it routes to the four
    builders of Arithmetic.cpp. *)
Definition CreateOperation (opname : Keyword) : M Operation :=
  match opname with
  | Keywords_Add => CreateOperation_Add
  | Keywords_Subtract => CreateOperation_Subtract
  | Keywords_Multiply => CreateOperation_Multiply
  | Keywords_Divide => CreateOperation_Divide
  | _ => CreateOperation_other opname
  end.

Definition set_PassedParameterCount_top (n : N) : M unit :=
  l ← gets PassedParameterCount;
  match l with
  | [] => throw (UndefinedBehaviour "PassedParameterCount.top() on an empty stack")
  | _ :: l' => modify (upd_PassedParameterCount (λ _, n :: l'))
  end.

(** [unsigned] arithmetic: [--n]. *)
Definition decrement_unsigned (n : N) : N := ((n + 2 ^ 32 - 1) mod 2 ^ 32)%N.

(** The compound operator a boolean operator token stands for (lines
    540-559). *)
Definition new_boolean_operator (bitwise : EpochVariableTypeID → list Operation → Operation)
    (logical : list Operation → Operation) (expressiontype : EpochVariableTypeID)
  : M Operation :=
  if decide (expressiontype = EpochVariableType_Integer ∨
             expressiontype = EpochVariableType_Integer16) then
    mret (bitwise expressiontype [])
  else if decide (expressiontype = EpochVariableType_Boolean) then
    mret (logical [])
  else throw (ParserFailureException "Invalid type for boolean operator").

(** The body of the precedence loop for an operator other than the
    assignment (lines 526-588): the two units next to the operator become
    one compound unit that ends with the push of the operator's operation. *)
Definition combine_units (expressiontype : EpochVariableTypeID) (operator : OperatorName)
    (first second : InfixUnit) : M InfixUnit :=
  actualparametercount ← PassedParameterCount_top;
  set_PassedParameterCount_top 2;;
  opname ← LookupInfixAlias operator;
  '(op, discardoperations) ←
    (if decide (opname = Keywords_Or) then
       op ← new_boolean_operator BitwiseOr LogicalOr expressiontype; mret (op, true)
     else if decide (opname = Keywords_And) then
       op ← new_boolean_operator BitwiseAnd LogicalAnd expressiontype; mret (op, true)
     else
       modify (upd_TheStack (λ l, rev (PushOperandsToStack first) ++ l));;
       modify (upd_TheStack (λ l, rev (PushOperandsToStack second) ++ l));;
       op ← CreateOperation opname; mret (op, false));
  pushop ← new_PushOperation op;
  let first := ClearOperands first in
  let newunit := InfixUnitCompound [first; second] in
  let op := CopyInstructionsToOp newunit op in
  let pushop := match pushop with
                | PushOperation _ a b => PushOperation (Some op) a b
                | other => other
                end in
  let newunit := if (discardoperations : bool) then ClearOperations newunit else newunit in
  let newunit := match newunit with
                 | InfixUnitCompound units =>
                     InfixUnitCompound (units ++ [InfixUnitRawOperations [pushop] []])
                 | other => other
                 end in
  set_PassedParameterCount_top (decrement_unsigned actualparametercount);;
  mret newunit.

(** What the loops of [FinalizeInfixExpression] carry: the operators that
    are still in the list, the units before and from the unit iterator on,
    and the locals [ret] and [injectlvalue]. *)
Record Pass := {
  kept : list OperatorName;
  passed : list InfixUnit;
  units : list InfixUnit;
  ret : bool;
  injectlvalue : string
}.

Inductive Flow :=
| Running (pass : Pass)
| Returned (value : bool).

Definition replace_top_operators (operators : list OperatorName) : M unit :=
  modify (upd_InfixOperatorList (λ l, match l with
                                      | [] => []
                                      | _ :: l' => operators :: l'
                                      end)).

(** The inner loop (lines 508-600) at one precedence level: [operators] are
    the operators from the operator iterator on. *)
Fixpoint scan_operators (precedence : nat) (expressiontype : EpochVariableTypeID)
    (operators : list OperatorName) (pass : Pass) : M Flow :=
  match operators with
  | [] => mret (Running pass)
  | operator :: operators' =>
      p ← GetInfixPrecedence operator;
      if decide (p = precedence) then
        if decide (operator = Operators_Assign) then
          entry ← TheStack_back;
          TheStack_pop_back;;
          scopes ← gets ScopeHeap;
          scope ← gets CurrentScope;
          type ← lift (GetVariableType scopes scope (StringValue entry));
          if decide (type ≠ expressiontype) then
            ReportFatalError "Variable must have the same type as the expression";;
            replace_top_operators (kept pass ++ operator :: operators');;
            mret (Returned false)
          else
            scan_operators precedence expressiontype operators'
              {| kept := kept pass; passed := passed pass; units := units pass;
                 ret := true; injectlvalue := StringValue entry |}
        else
          match units pass with
          | first :: second :: rest =>
              newunit ← combine_units expressiontype operator first second;
              scan_operators precedence expressiontype operators'
                {| kept := kept pass; passed := passed pass; units := newunit :: rest;
                   ret := ret pass; injectlvalue := injectlvalue pass |}
          | _ => throw (UndefinedBehaviour "unit iterator at the end of the list")
          end
      else if decide (operator ≠ Operators_Assign) then
        match units pass with
        | unit :: rest =>
            scan_operators precedence expressiontype operators'
              {| kept := kept pass ++ [operator]; passed := passed pass ++ [unit];
                 units := rest; ret := ret pass; injectlvalue := injectlvalue pass |}
        | [] => throw (UndefinedBehaviour "unit iterator at the end of the list")
        end
      else
        scan_operators precedence expressiontype operators'
          {| kept := kept pass ++ [operator]; passed := passed pass; units := units pass;
             ret := ret pass; injectlvalue := injectlvalue pass |}
  end.

(** The outer loop (lines 505-601): [levels] precedence levels are still to
    be processed, the next one being [levels] itself; the loop starts at
    [OPREC_MAX - 1] and stops above [OPREC_MIN]. *)
Fixpoint precedence_levels (levels : nat) (expressiontype : EpochVariableTypeID)
    (operators : list OperatorName) (unitlist : list InfixUnit) (r : bool) (lvalue : string)
  : M Flow :=
  match levels with
  | O => mret (Running {| kept := operators; passed := []; units := unitlist;
                          ret := r; injectlvalue := lvalue |})
  | S below =>
      flow ← scan_operators levels expressiontype operators
                {| kept := []; passed := []; units := unitlist;
                   ret := r; injectlvalue := lvalue |};
      match flow with
      | Returned value => mret (Returned value)
      | Running pass =>
          precedence_levels below expressiontype (kept pass) (passed pass ++ units pass)
            (ret pass) (injectlvalue pass)
      end
  end.

Definition apply_precedence (expressiontype : EpochVariableTypeID)
    (operators : list OperatorName) (unitlist : list InfixUnit) : M Flow :=
  precedence_levels (prec_value OPREC_MAX - 1) expressiontype operators unitlist false "".

Definition Block_PopTailOperation (b : option BlockID) : M Operation :=
  blk ← get_Block b;
  match last (Ops blk) with
  | None => throw (UndefinedBehaviour "PopTailOperation on an empty block")
  | Some op =>
      update_Block b (λ blk, {| Ops := removelast (Ops blk); BoundScope := BoundScope blk |});;
      mret op
  end.

(** The type check on one operation of an operand (lines 449-467); the
    answer is the new value of [bailout]. *)
Definition check_operand_operation (expressiontype : EpochVariableTypeID) (op : Operation)
    (bailout : bool) : M bool :=
  scopes ← gets ScopeHeap;
  scope ← gets CurrentScope;
  optype ← lift (GetType op scopes scope);
  if negb bailout && bool_decide (optype ≠ expressiontype)
     && bool_decide (optype = EpochVariableType_Array) then
    let consop := match op with
                  | PushOperation (Some nested) _ _ => as_ConsArray nested
                  | PushOperation None _ _ => None
                  | _ => as_ConsArray op
                  end in
    if bool_decide (consop = Some expressiontype) then mret bailout
    else
      ReportFatalError "All values in the expression must be of the same type";;
      mret true
  else mret bailout.

(** The loop over [j] (lines 445-470): pop [numops] operations into the
    front of the unit. *)
Fixpoint pop_unit_operations (numops : nat) (workingblock : option BlockID)
    (expressiontype : EpochVariableTypeID) (ops : list Operation) (bailout : bool)
  : M (list Operation * bool) :=
  match numops with
  | O => mret (ops, bailout)
  | S numops' =>
      op ← Block_PopTailOperation workingblock;
      bailout ← check_operand_operation expressiontype op bailout;
      pop_unit_operations numops' workingblock expressiontype (op :: ops) bailout
  end.

(** The loop over [i] (lines 441-476): one unit per operand, the last
    operand first. *)
Fixpoint extract_units (count : nat) (workingblock : option BlockID)
    (scope : option ScopeID) (expressiontype : EpochVariableTypeID)
    (unitlist : list InfixUnit) (bailout : bool) : M (list InfixUnit * bool) :=
  match count with
  | O => mret (unitlist, bailout)
  | S count' =>
      blk ← get_Block workingblock;
      scopes ← gets ScopeHeap;
      let tail := CountTailOps (Ops blk) 1 scopes scope in
      if decide (length (Ops blk) < tail)%nat then
        throw (UndefinedBehaviour "more tail operations than operations")
      else
        '(ops, bailout) ← pop_unit_operations (length (Ops blk) - tail) workingblock
                            expressiontype [] bailout;
        entry ← TheStack_back;
        TheStack_pop_back;;
        extract_units count' workingblock scope expressiontype
          (InfixUnitRawOperations ops [entry] :: unitlist) bailout
  end.

(** The clean-up after a type error (lines 478-498). *)
Fixpoint bail_out (oplists : list (list OperatorName)) : M unit :=
  match oplists with
  | [] => modify (upd_InfixOperatorList (λ _, []))
  | top :: oplists' =>
      repeatM (length (filter (λ o, o = Operators_Assign) top)) TheStack_pop_back;;
      bail_out oplists'
  end.

Fixpoint add_operations (b : option BlockID) (ops : list Operation) : M unit :=
  match ops with
  | [] => mret ()
  | op :: ops' => Block_AddOperation b op;; add_operations b ops'
  end.

Definition pop_infix_tracking : M unit :=
  modify (upd_InfixOperandCount (λ l, match l with [] => [] | _ :: l' => l' end));;
  modify (upd_InfixOperatorList (λ l, match l with [] => [] | _ :: l' => l' end)).

(** [ParserState::FinalizeInfixExpression], lines 359-631.  A phrase that
    initialises the return values of a function (no open block) is outside
    this embedding. *)
Definition FinalizeInfixExpression (isfirstrun : bool) (scope : option ScopeID) : M bool :=
  oplists ← gets InfixOperatorList;
  counts ← gets InfixOperandCount;
  match oplists, counts with
  | top :: _, count :: _ =>
      if decide (top = [] ∨ (count = 1%nat ∧ last top ≠ Some Operators_Assign)) then
        pop_infix_tracking;;
        mret false
      else if decide (count = 1%nat ∧ last top = Some Operators_Assign ∧ isfirstrun = false) then
        entry ← TheStack_back;
        if decide (StackEntry_Type entry ≠ STACKENTRYTYPE_IDENTIFIER) then
          ReportFatalError
            "Expected a variable name on the left side of the assignment operator";;
          mret false
        else
          current ← Blocks_back;
          tail ← Block_GetTailOperation (TheBlock current);
          match tail with
          | AssignValue previouslvaluename =>
              TheStack_pop_back;;
              pooled ← PoolStaticString previouslvaluename;
              pushop ← new_PushOperation (GetVariableValue pooled);
              AddOperationToCurrentBlock pushop;;
              lvaluename ← PoolStaticString (StringValue entry);
              AddOperationToCurrentBlock (AssignValue lvaluename);;
              pop_infix_tracking;;
              mret true
          | _ => throw (UndefinedBehaviour "the tail operation is not an AssignValue")
          end
      else
        blocks ← gets Blocks;
        match blocks with
        | [] => throw (Unmodelled "function return initialisation")
        | current :: _ =>
            let workingblock := TheBlock current in
            scopes ← gets ScopeHeap;
            workingscope ← gets CurrentScope;
            tail ← Block_GetTailOperation workingblock;
            expressiontype ← lift (GetType tail scopes workingscope);
            '(unitlist, bailout) ← extract_units count workingblock scope expressiontype
                                     [] false;
            if (bailout : bool) then
              lists ← gets InfixOperatorList;
              bail_out lists;;
              modify (upd_InfixOperandCount (λ _, []));;
              mret false
            else
              flow ← apply_precedence expressiontype top unitlist;
              match flow with
              | Returned value => mret value
              | Running pass =>
                  replace_top_operators (kept pass);;
                  add_operations workingblock
                    (concat (map PushContents (passed pass ++ units pass)));;
                  (if decide (injectlvalue pass ≠ "") then
                     lvalue ← PoolStaticString (injectlvalue pass);
                     AddOperationToCurrentBlock (AssignValue lvalue)
                   else
                     tail ← Block_GetTailOperation workingblock;
                     TheStack_push_back (mkStackEntry_Operation tail));;
                  pop_infix_tracking;;
                  mret (ret pass)
              end
        end
  | _, _ => mret false
  end.

(** The operations a finished phrase has put on the block on top of
    [Blocks]. *)
Definition current_operations (st : ParserState) : option (list Operation) :=
  match Blocks st with
  | {| TheBlock := Some b |} :: _ => Ops <$> BlockHeap st !! b
  | _ => None
  end.

End Infix.

(** What the spec calls an operand that is an array of element type
    [elementtype]: a variable declared as an array of that element type, or an
    array constructor for it. *)
Definition array_operand (scopes : gmap ScopeID ScopeDescription) (scope : option ScopeID)
    (entry : StackEntry) (elementtype : EpochVariableTypeID) : Prop :=
  (StackEntry_Type entry = STACKENTRYTYPE_IDENTIFIER ∧
   GetVariableType scopes scope (StringValue entry) = inr EpochVariableType_Array ∧
   GetArrayType scopes scope (StringValue entry) = inr elementtype) ∨
  (StackEntry_Type entry = STACKENTRYTYPE_OPERATION ∧
   OperationPointer entry = Some (ConsArray elementtype)).

(** The operand the one-parameter form accepts: an operation entry that is an
    array constructor, whose type is [Array]. *)
Definition fold_operand {EC : ExternalCode} (st : ParserState) (entry : StackEntry)
    (elementtype : EpochVariableTypeID) : Prop :=
  StackEntry_Type entry = STACKENTRYTYPE_OPERATION ∧
  OperationPointer entry = Some (ConsArray elementtype) ∧
  GetType (ConsArray elementtype) (ScopeHeap st) (CurrentScope st)
    = inr EpochVariableType_Array ∧
  is_arithmetic_type elementtype = true.

(** The operands the two-parameter form accepts. *)
Definition binary_operands {EC : ExternalCode} (st : ParserState) (first second : StackEntry)
    (type : EpochVariableTypeID) : Prop :=
  DetermineEffectiveType first (ScopeHeap st) (CurrentScope st) = inr type ∧
  DetermineEffectiveType second (ScopeHeap st) (CurrentScope st) = inr type ∧
  is_arithmetic_type type = true.

(** The type queries on the operands return (no exception). *)
Definition operand_queries_return {EC : ExternalCode} (st : ParserState)
    (entries : list StackEntry) : Prop :=
  match entries with
  | [entry] =>
      StackEntry_Type entry = STACKENTRYTYPE_OPERATION →
      ∃ op type, OperationPointer entry = Some op ∧
                 GetType op (ScopeHeap st) (CurrentScope st) = inr type
  | [second; first] =>
      ∃ t1 t2, DetermineEffectiveType first (ScopeHeap st) (CurrentScope st) = inr t1 ∧
               DetermineEffectiveType second (ScopeHeap st) (CurrentScope st) = inr t2
  | _ => True
  end.

(** The state after a fatal error has been reported. *)
Definition reported (message : string) (st : ParserState) : ParserState :=
  upd_Diagnostics (λ d, d ++ [message]) (upd_ParseFailed (λ _, true) st).

(** The [If] that the walk from the tail of a block meets first: it sits at
    position [index], at some offset from the tail, and every operation at a
    smaller offset is an [ElseIfWrapper]. *)
Definition nearest_If {EC : ExternalCode} (ops : list Operation)
    (scopes : gmap ScopeID ScopeDescription) (scope : option ScopeID) (index : nat)
    (trueblock falseblock elseifblock : option BlockID) : Prop :=
  ∃ offset,
    (offset < length ops)%nat ∧
    GetOperationFromEnd ops offset scopes scope = Some index ∧
    ops !! index = Some (If trueblock falseblock elseifblock) ∧
    ∀ k, (k < offset)%nat →
         ∃ j b, GetOperationFromEnd ops k scopes scope = Some j ∧
                ops !! j = Some (ElseIfWrapper b).

(** The conditional on top of the stack is a boolean variable or a boolean
    operation. *)
Definition boolean_condition {EC : ExternalCode} (st : ParserState) (entry : StackEntry)
  : Prop :=
  (StackEntry_Type entry = STACKENTRYTYPE_IDENTIFIER ∧
   GetVariableType (ScopeHeap st) (CurrentScope st) (StringValue entry)
     = inr EpochVariableType_Boolean) ∨
  (StackEntry_Type entry = STACKENTRYTYPE_OPERATION ∧
   ∃ op, OperationPointer entry = Some op ∧
         GetType op (ScopeHeap st) (CurrentScope st) = inr EpochVariableType_Boolean).

Definition append_operation (op : Operation) (blk : Block) : Block :=
  {| Ops := Ops blk ++ [op]; BoundScope := BoundScope blk |}.

Definition replace_operation (index : nat) (op : Operation) (blk : Block) : Block :=
  {| Ops := <[index := op]> (Ops blk); BoundScope := BoundScope blk |}.

(** What the registration of a structure member leaves alone. *)
Definition same_registry (st st' : ParserState) : Prop :=
  ScopeHeap st' = ScopeHeap st ∧ StructureOwnerMap st' = StructureOwnerMap st ∧
  CurrentScope st' = CurrentScope st ∧ VariableNameStack st' = VariableNameStack st ∧
  CallLog st' = CallLog st.

(** [m] leaves the table of the infix operators as it is, whenever it
    returns. *)
Definition keeps_operators {A} (m : M A) : Prop :=
  ∀ st a st', m st = inr (a, st') → InfixOperators st' = InfixOperators st.

(** The precedence level of an operator in the table of the state. *)
Definition precedence_of (st : ParserState) (operator : OperatorName) : option nat :=
  (λ data, prec_value (Precedence data)) <$> find_operator operator (InfixOperators st).

(** The number of units that the operators stand between on their left: the
    assignment takes its left side from the stack, not from a unit. *)
Definition units_before (operators : list OperatorName) : nat :=
  length (filter (λ o, o ≠ Operators_Assign) operators).

(** *** A behaviour of the external code, and the initial state

    The concrete runs below need one behaviour of the code that is outside
    the sources.  This one types an operation by its outermost constructor,
    looks an identifier up in the scopes, finds the [n]-th operation from the
    end of a block at that very position, counts one operation per operand
    and lays members out four bytes apart. *)
Fixpoint simple_GetType (op : Operation) (scopes : gmap ScopeID ScopeDescription)
    (scope : option ScopeID) : result EpochVariableTypeID :=
  match op with
  | ConsArray _ => inr EpochVariableType_Array
  | ArithmeticFold _ t | ArithmeticBinary _ t _ _ => inr t
  | Concatenate _ _ _ => inr EpochVariableType_String
  | PushOperation (Some nested) _ _ => simple_GetType nested scopes scope
  | BitwiseOr t _ | BitwiseAnd t _ => inr t
  | LogicalOr _ | LogicalAnd _ => inr EpochVariableType_Boolean
  | PushIntegerLiteral _ => inr EpochVariableType_Integer
  | PushBooleanLiteral _ => inr EpochVariableType_Boolean
  | GetVariableValue name => GetVariableType scopes scope name
  | _ => inr EpochVariableType_Null
  end.

Definition simple_DetermineEffectiveType (entry : StackEntry)
    (scopes : gmap ScopeID ScopeDescription) (scope : option ScopeID)
  : result EpochVariableTypeID :=
  match StackEntry_Type entry with
  | STACKENTRYTYPE_IDENTIFIER => GetVariableType scopes scope (StringValue entry)
  | STACKENTRYTYPE_OPERATION =>
      match OperationPointer entry with
      | Some op => simple_GetType op scopes scope
      | None => inl (UndefinedBehaviour "null OperationPointer")
      end
  | STACKENTRYTYPE_SCOPE => inr EpochVariableType_Null
  | STACKENTRYTYPE_LITERAL type => inr type
  end.

Definition simple_IsArray (entry : StackEntry) : bool :=
  match OperationPointer entry with
  | Some (ConsArray _) => true
  | _ => false
  end.

Definition simple_GetOperationFromEnd (ops : list Operation) (offset : nat)
    (scopes : gmap ScopeID ScopeDescription) (scope : option ScopeID) : option nat :=
  if decide (offset < length ops)%nat then Some (length ops - 1 - offset)%nat else None.

Definition simple_ComputeOffsets (t : CompositeType)
    (scopes : gmap ScopeID ScopeDescription) (scope : option ScopeID) : result CompositeType :=
  inr {| MemberOrder := MemberOrder t;
         MemberInfoMap :=
           foldr (λ '(i, name) m,
                    alter (λ info, {| MemberType := MemberType info;
                                      MemberOffset := 4 * Z.of_nat i;
                                      MemberTypeHint := MemberTypeHint info;
                                      MemberSignature := MemberSignature info |}) name m)
                 (MemberInfoMap t) (imap (λ i name, (i, name)) (MemberOrder t)) |}.

Definition simple_AddOperation (compound op : Operation) : Operation :=
  let sub := match op with
             | PushOperation (Some nested) _ _ => nested
             | _ => op
             end in
  match compound with
  | BitwiseOr t subs => BitwiseOr t (subs ++ [sub])
  | BitwiseAnd t subs => BitwiseAnd t (subs ++ [sub])
  | LogicalOr subs => LogicalOr (subs ++ [sub])
  | LogicalAnd subs => LogicalAnd (subs ++ [sub])
  | _ => compound
  end.

Definition simple_CreateOperation_other (opname : Keyword) : M Operation :=
  match opname with
  | Keywords_Other name =>
      count ← PassedParameterCount_top;
      repeatM (N.to_nat count) TheStack_pop_back;;
      mret (InvokeIndirect name)
  | _ => throw (NotImplementedException "operation builder outside the sources")
  end.

#[local] Instance simple_operations : OperationCode :=
  {| GetType := simple_GetType;
     ComputeOffsets := simple_ComputeOffsets;
     CompoundOperator_AddOperation := simple_AddOperation |}.

#[local] Instance simple_code : ExternalCode :=
  {| EC_VM := simple_operations;
     DetermineEffectiveType := simple_DetermineEffectiveType;
     IsArray := simple_IsArray;
     GetOperationFromEnd := simple_GetOperationFromEnd;
     CountTailOps := λ ops n _ _, (length ops - n)%nat;
     CreateOperation_other := simple_CreateOperation_other |}.

(** The constructor of [ParserState] (ParserState.cpp, lines 28-47): a new
    program whose global scope, here scope [0], is the current scope, and its
    global block [0] already open as the current block, as it is once the
    grammar has entered the program. *)
Definition initial_state : ParserState :=
  {| ScopeHeap := {[ 0%nat := empty_scope ]};
     BlockHeap := {[ 0%nat := {| Ops := []; BoundScope := Some 0%nat |} ]};
     GlobalScope := 0%nat;
     StringPool := ∅;
     StructureOwnerMap := ∅;
     CurrentScope := Some 0%nat;
     TheStack := [];
     Blocks := [{| TheBlock := Some 0%nat; BlockEntry_Type := BLOCKENTRYTYPE_GLOBAL |}];
     ExpectedBlockTypes := [];
     PassedParameterCount := [];
     InfixOperatorList := [];
     InfixOperandCount := [];
     InfixOperators := autoinit;
     DisplacedScopes := [];
     SavedTaskNames := [];
     TaskNames := [];
     ExtensionControlKeywords := [];
     MessageDispatchScope := None;
     ControlVarName := "";
     ControlVarType := EpochVariableType_Null;
     CreatedStructureType := None;
     VariableNameStack := [];
     UpcomingNestedMemberType := "";
     ParseFailed := false;
     Diagnostics := [];
     CallLog := [] |}.

Definition mkStackEntry_Literal (type : EpochVariableTypeID) : StackEntry :=
  {| StackEntry_Type := STACKENTRYTYPE_LITERAL type; StringValue := "";
     OperationPointer := None; ScopePointer := None |}.

(** [add(xs)] where [xs] is a variable holding an array of integers. *)
Definition array_variable_state : ParserState :=
  upd_ScopeHeap
    (λ _, {[ 0%nat := scope_ListTypes <[ "xs" := EpochVariableType_Integer ]>
                        (AddVariable "xs" EpochVariableType_Array empty_scope) ]})
    (upd_TheStack (λ _, [mkStackEntry_Identifier "xs"])
       (upd_PassedParameterCount (λ _, [1%N]) initial_state)).

(** [add(1, 2)] *)
Definition two_integers_state : ParserState :=
  upd_TheStack (λ _, [mkStackEntry_Literal EpochVariableType_Integer;
                      mkStackEntry_Literal EpochVariableType_Integer])
    (upd_PassedParameterCount (λ _, [2%N]) initial_state).

End Parser.


Module StackOps.
Import VM.


#[warnings="-register-all"]
Inductive RValue :=
| NullRValue
| IntegerRValue (v : Z)
| Integer16RValue (v : Z)
| RealRValue (bits : Z)
| BooleanRValue (v : bool)
| StringRValue (v : string)
| TupleRValue (TupleTypeID : IDType) (Members : list (string * RValue))
| StructureRValue (StructureTypeID : IDType) (Members : list (string * RValue))
| FunctionRValue (name : string)
| AddressRValue (address : Z)
| ArrayRValue (handle : Z)
| TaskHandleRValue (handle : Z)
| BufferRValue (handle : Z).

Inductive StackCell :=
| IntegerCell (v : Z)
| Integer16Cell (v : Z)
| RealCell (bits : Z)
| BooleanCell (v : bool)
| StringCell (pooled : string)
| TupleCell (id : IDType)
| StructureCell (id : IDType)
| FunctionCell (name : string)
| AddressCell (address : Z)
| HandleCell (handle : Z)
| TaskHandleCell (handle : Z).

Definition StackSpace := list StackCell.

Definition GetMemberType (t : CompositeType) (name : string) : result EpochVariableTypeID :=
  match MemberInfoMap t !! name with
  | Some info => inr (MemberType info)
  | None => inl (InternalFailureException "member")
  end.

Fixpoint GetValue (members : list (string * RValue)) (name : string) : result RValue :=
  match members with
  | [] => inl (InternalFailureException "member value")
  | (n, v) :: rest => if decide (n = name) then inr v else GetValue rest name
  end.

Definition PushValueOntoStack (T : EpochVariableTypeID) (value : RValue) (stack : StackSpace)
  : result StackSpace :=
  match T, value with
  | EpochVariableType_Integer, IntegerRValue v => inr (IntegerCell v :: stack)
  | EpochVariableType_Integer16, Integer16RValue v => inr (Integer16Cell v :: stack)
  | EpochVariableType_Real, RealRValue v => inr (RealCell v :: stack)
  | EpochVariableType_Boolean, BooleanRValue v => inr (BooleanCell v :: stack)
  | EpochVariableType_Function, FunctionRValue f => inr (FunctionCell f :: stack)
  | EpochVariableType_Address, AddressRValue a => inr (AddressCell a :: stack)
  | EpochVariableType_TaskHandle, TaskHandleRValue h => inr (TaskHandleCell h :: stack)
  | _, _ => inl (InternalFailureException "bad cast")
  end.

Fixpoint foldM {A B} (f : B → A → result B) (l : list A) (b : B) : result B :=
  match l with
  | [] => inr b
  | a :: l' => b' ← f b a; foldM f l' b'
  end.

Fixpoint DoPush (scopes : gmap ScopeID ScopeDescription) (scope : option ScopeID) (value : RValue) (type : EpochVariableTypeID)
    (stack : StackSpace) {struct value} : result StackSpace :=
  match type with
  | EpochVariableType_Null => inl (ExecutionException "Cannot pass a null value on the stack")
  | EpochVariableType_Integer | EpochVariableType_Integer16 | EpochVariableType_Real
  | EpochVariableType_Boolean | EpochVariableType_Function | EpochVariableType_Address
  | EpochVariableType_TaskHandle => PushValueOntoStack type value stack
  | EpochVariableType_String =>
      match value with
      | StringRValue s => inr (StringCell s :: stack)
      | _ => inl (InternalFailureException "bad cast")
      end
  | EpochVariableType_Tuple =>
      match value with
      | TupleRValue tupletypeid vals =>
          tupletype ← GetTupleType scopes scope tupletypeid;
          stack' ← foldM (fun st name =>
                      ty ← GetMemberType tupletype name;
                      (fix get (vs : list (string * RValue)) : result StackSpace :=
                         match vs with
                         | [] => inl (InternalFailureException "member value")
                         | (n, v) :: rest =>
                             if decide (n = name) then DoPush scopes scope v ty st else get rest
                         end) vals)
                    (rev (MemberOrder tupletype)) stack;
          inr (TupleCell tupletypeid :: stack')
      | _ => inl (InternalFailureException "bad cast")
      end
  | EpochVariableType_Structure =>
      match value with
      | StructureRValue structuretypeid vals =>
          structuretype ← GetStructureType scopes scope structuretypeid;
          stack' ← foldM (fun st name =>
                      ty ← GetMemberType structuretype name;
                      (fix get (vs : list (string * RValue)) : result StackSpace :=
                         match vs with
                         | [] => inl (InternalFailureException "member value")
                         | (n, v) :: rest =>
                             if decide (n = name) then DoPush scopes scope v ty st else get rest
                         end) vals)
                    (rev (MemberOrder structuretype)) stack;
          inr (StructureCell structuretypeid :: stack')
      | _ => inl (InternalFailureException "bad cast")
      end
  | EpochVariableType_Array =>
      match value with
      | ArrayRValue h => inr (HandleCell h :: stack)
      | _ => inl (InternalFailureException "bad cast")
      end
  | EpochVariableType_Buffer =>
      match value with
      | BufferRValue h => inr (HandleCell h :: stack)
      | _ => inl (InternalFailureException "bad cast")
      end
  | _ => inl (NotImplementedException "Cannot pass value of this type on the stack")
  end.

Definition framed (st : StackSpace) (r : result StackSpace) : result StackSpace :=
  match r with inl e => inl e | inr cells => inr (cells ++ st) end.

(** The loop body of the composite cases: push member [name]. *)
Definition push_member (scopes : gmap ScopeID ScopeDescription) (scope : option ScopeID) (t : CompositeType)
    (vals : list (string * RValue)) (st : StackSpace) (name : string) : result StackSpace :=
  ty ← GetMemberType t name;
  v ← GetValue vals name;
  DoPush scopes scope v ty st.

(** The cells that member [name] of a composite value contributes: what
    [DoPush] puts on an empty stack for the member's declared type and its
    stored value. *)
Definition member_cells (scopes : gmap ScopeID ScopeDescription) (scope : option ScopeID) (t : CompositeType)
    (vals : list (string * RValue)) (name : string) (cells : list StackCell) : Prop :=
  ∃ ty v, GetMemberType t name = inr ty ∧ GetValue vals name = inr v ∧
          DoPush scopes scope v ty [] = inr cells.

End StackOps.


(** * Shared/Bytecode/Loading.cpp: the bytecode loader *)

Module Loader.
Import VM.

(** The instruction and section tags [Bytecode::*] the loader names.  Their
    byte values, the signature cookie and the numeric values of the type
    enumeration come from headers that are not among the sources; they are
    the fields of [BytecodeFormat], together with the conversion of the C
    runtime that [widen] relies on. *)
Inductive Opcode :=
| Op_Scope | Op_ParentScope | Op_Variables | Op_Ghosts | Op_GhostRecord | Op_Functions
| Op_CallDLL | Op_FunctionSignatureList | Op_FunctionSignatureBegin
| Op_FunctionSignatureEnd | Op_TupleTypes | Op_TupleHints | Op_TupleTypeMap | Op_Members
| Op_StructureTypes | Op_StructureHints | Op_StructureTypeMap | Op_Constants
| Op_ResponseMaps | Op_Futures | Op_ArrayHints | Op_EndScope | Op_GlobalBlock
| Op_ExtensionData | Op_BeginBlock | Op_EndBlock
| Op_PushOperation | Op_Invoke | Op_DebugWrite | Op_PushRealLiteral | Op_DivideReals
| Op_PushIntegerLiteral | Op_IsEqual | Op_IsNotEqual | Op_IsLesser | Op_IsGreater
| Op_AssignValue | Op_DoWhile | Op_GetValue | Op_If | Op_AddReals | Op_SubReals
| Op_PushBooleanLiteral | Op_PushStringLiteral | Op_AddIntegers | Op_SubtractIntegers
| Op_DebugRead | Op_ElseIf | Op_ElseIfWrapper | Op_ExitIfChain | Op_ReadTuple
| Op_WriteTuple | Op_ReadStructure | Op_WriteStructure | Op_Init
| Op_BindFunctionReference | Op_SizeOf | Op_While | Op_BindReference | Op_WhileCondition
| Op_Break | Op_Return | Op_BitwiseAnd | Op_BitwiseOr | Op_BitwiseXor | Op_BitwiseNot
| Op_LogicalAnd | Op_LogicalOr | Op_LogicalXor | Op_LogicalNot | Op_Concat
| Op_IsGreaterEqual | Op_PushInteger16Literal | Op_InvokeIndirect | Op_BooleanLiteral
| Op_ReadStructureIndirect | Op_BindStruct | Op_WriteStructureIndirect | Op_ForkTask
| Op_AcceptMessage | Op_MultiplyIntegers | Op_GetMessageSender | Op_GetTaskCaller
| Op_SendTaskMessage | Op_AcceptMessageFromMap | Op_TypeCastToString | Op_DivideIntegers
| Op_TypeCast | Op_Future | Op_Map | Op_Reduce | Op_IsLesserEqual | Op_IntegerLiteral
| Op_ThreadPool | Op_ForkThread | Op_Handoff | Op_HandoffControl | Op_ParallelFor
| Op_ReadArray | Op_WriteArray | Op_ArrayLength | Op_ConsArrayIndirect.

#[global] Instance Opcode_eq_dec : EqDecision Opcode.
Proof. solve_decision. Defined.

Class BytecodeFormat := {
  code : Opcode → Z;
  HeaderCookie : list Z;
  TypeOfCode : Z → EpochVariableTypeID;
  PARAMTYPEFLAG_ISREFERENCE : Z;
  mbstowcs : string → option string
}.

(** ** The loader object and the program it fills *)


Record FileLoader := Build_FileLoader {
  Buffer : list Z;
  Offset : nat;
  IsPrepass : bool;
  ScopeIDMap : gmap Z (option ScopeID);
  FunctionIDMap : gmap Z (option FunctionID);
  DeleteScopes : gset ScopeID;
  ScopeHeap : gmap ScopeID ScopeDescription;
  BlockHeap : gmap BlockID Block;
  FunctionHeap : gmap FunctionID FunctionBase;
  GlobalScope : ScopeID;
  GlobalInitBlock : option BlockID;
  StringPool : gset string;
  UsesConsole : bool;
  TupleOwnerMap : gmap IDType ScopeID;
  StructureOwnerMap : gmap IDType ScopeID;
  ExtensionLibraries : list string;
  ExtensionData : list (string * string)
}.

Definition ld_Buffer (f : list Z → list Z) (st : FileLoader) : FileLoader :=
  Build_FileLoader (f (Buffer st)) (Offset st) (IsPrepass st) (ScopeIDMap st) (FunctionIDMap
    st) (DeleteScopes st) (ScopeHeap st) (BlockHeap st) (FunctionHeap st) (GlobalScope st)
    (GlobalInitBlock st) (StringPool st) (UsesConsole st) (TupleOwnerMap st)
    (StructureOwnerMap st) (ExtensionLibraries st) (ExtensionData st).

Definition ld_Offset (f : nat → nat) (st : FileLoader) : FileLoader :=
  Build_FileLoader (Buffer st) (f (Offset st)) (IsPrepass st) (ScopeIDMap st) (FunctionIDMap
    st) (DeleteScopes st) (ScopeHeap st) (BlockHeap st) (FunctionHeap st) (GlobalScope st)
    (GlobalInitBlock st) (StringPool st) (UsesConsole st) (TupleOwnerMap st)
    (StructureOwnerMap st) (ExtensionLibraries st) (ExtensionData st).

Definition ld_IsPrepass (f : bool → bool) (st : FileLoader) : FileLoader :=
  Build_FileLoader (Buffer st) (Offset st) (f (IsPrepass st)) (ScopeIDMap st) (FunctionIDMap
    st) (DeleteScopes st) (ScopeHeap st) (BlockHeap st) (FunctionHeap st) (GlobalScope st)
    (GlobalInitBlock st) (StringPool st) (UsesConsole st) (TupleOwnerMap st)
    (StructureOwnerMap st) (ExtensionLibraries st) (ExtensionData st).

Definition ld_ScopeIDMap (f : gmap Z (option ScopeID) → gmap Z (option ScopeID)) (st :
    FileLoader) : FileLoader :=
  Build_FileLoader (Buffer st) (Offset st) (IsPrepass st) (f (ScopeIDMap st)) (FunctionIDMap
    st) (DeleteScopes st) (ScopeHeap st) (BlockHeap st) (FunctionHeap st) (GlobalScope st)
    (GlobalInitBlock st) (StringPool st) (UsesConsole st) (TupleOwnerMap st)
    (StructureOwnerMap st) (ExtensionLibraries st) (ExtensionData st).

Definition ld_FunctionIDMap (f : gmap Z (option FunctionID) → gmap Z (option FunctionID))
    (st : FileLoader) : FileLoader :=
  Build_FileLoader (Buffer st) (Offset st) (IsPrepass st) (ScopeIDMap st) (f (FunctionIDMap
    st)) (DeleteScopes st) (ScopeHeap st) (BlockHeap st) (FunctionHeap st) (GlobalScope st)
    (GlobalInitBlock st) (StringPool st) (UsesConsole st) (TupleOwnerMap st)
    (StructureOwnerMap st) (ExtensionLibraries st) (ExtensionData st).

Definition ld_DeleteScopes (f : gset ScopeID → gset ScopeID) (st : FileLoader) : FileLoader
    :=
  Build_FileLoader (Buffer st) (Offset st) (IsPrepass st) (ScopeIDMap st) (FunctionIDMap st)
    (f (DeleteScopes st)) (ScopeHeap st) (BlockHeap st) (FunctionHeap st) (GlobalScope st)
    (GlobalInitBlock st) (StringPool st) (UsesConsole st) (TupleOwnerMap st)
    (StructureOwnerMap st) (ExtensionLibraries st) (ExtensionData st).

Definition ld_ScopeHeap (f : gmap ScopeID ScopeDescription → gmap ScopeID ScopeDescription)
    (st : FileLoader) : FileLoader :=
  Build_FileLoader (Buffer st) (Offset st) (IsPrepass st) (ScopeIDMap st) (FunctionIDMap st)
    (DeleteScopes st) (f (ScopeHeap st)) (BlockHeap st) (FunctionHeap st) (GlobalScope st)
    (GlobalInitBlock st) (StringPool st) (UsesConsole st) (TupleOwnerMap st)
    (StructureOwnerMap st) (ExtensionLibraries st) (ExtensionData st).

Definition ld_BlockHeap (f : gmap BlockID Block → gmap BlockID Block) (st : FileLoader) :
    FileLoader :=
  Build_FileLoader (Buffer st) (Offset st) (IsPrepass st) (ScopeIDMap st) (FunctionIDMap st)
    (DeleteScopes st) (ScopeHeap st) (f (BlockHeap st)) (FunctionHeap st) (GlobalScope st)
    (GlobalInitBlock st) (StringPool st) (UsesConsole st) (TupleOwnerMap st)
    (StructureOwnerMap st) (ExtensionLibraries st) (ExtensionData st).

Definition ld_FunctionHeap (f : gmap FunctionID FunctionBase → gmap FunctionID FunctionBase)
    (st : FileLoader) : FileLoader :=
  Build_FileLoader (Buffer st) (Offset st) (IsPrepass st) (ScopeIDMap st) (FunctionIDMap st)
    (DeleteScopes st) (ScopeHeap st) (BlockHeap st) (f (FunctionHeap st)) (GlobalScope st)
    (GlobalInitBlock st) (StringPool st) (UsesConsole st) (TupleOwnerMap st)
    (StructureOwnerMap st) (ExtensionLibraries st) (ExtensionData st).

Definition ld_GlobalScope (f : ScopeID → ScopeID) (st : FileLoader) : FileLoader :=
  Build_FileLoader (Buffer st) (Offset st) (IsPrepass st) (ScopeIDMap st) (FunctionIDMap st)
    (DeleteScopes st) (ScopeHeap st) (BlockHeap st) (FunctionHeap st) (f (GlobalScope st))
    (GlobalInitBlock st) (StringPool st) (UsesConsole st) (TupleOwnerMap st)
    (StructureOwnerMap st) (ExtensionLibraries st) (ExtensionData st).

Definition ld_GlobalInitBlock (f : option BlockID → option BlockID) (st : FileLoader) :
    FileLoader :=
  Build_FileLoader (Buffer st) (Offset st) (IsPrepass st) (ScopeIDMap st) (FunctionIDMap st)
    (DeleteScopes st) (ScopeHeap st) (BlockHeap st) (FunctionHeap st) (GlobalScope st) (f
    (GlobalInitBlock st)) (StringPool st) (UsesConsole st) (TupleOwnerMap st)
    (StructureOwnerMap st) (ExtensionLibraries st) (ExtensionData st).

Definition ld_StringPool (f : gset string → gset string) (st : FileLoader) : FileLoader :=
  Build_FileLoader (Buffer st) (Offset st) (IsPrepass st) (ScopeIDMap st) (FunctionIDMap st)
    (DeleteScopes st) (ScopeHeap st) (BlockHeap st) (FunctionHeap st) (GlobalScope st)
    (GlobalInitBlock st) (f (StringPool st)) (UsesConsole st) (TupleOwnerMap st)
    (StructureOwnerMap st) (ExtensionLibraries st) (ExtensionData st).

Definition ld_UsesConsole (f : bool → bool) (st : FileLoader) : FileLoader :=
  Build_FileLoader (Buffer st) (Offset st) (IsPrepass st) (ScopeIDMap st) (FunctionIDMap st)
    (DeleteScopes st) (ScopeHeap st) (BlockHeap st) (FunctionHeap st) (GlobalScope st)
    (GlobalInitBlock st) (StringPool st) (f (UsesConsole st)) (TupleOwnerMap st)
    (StructureOwnerMap st) (ExtensionLibraries st) (ExtensionData st).

Definition ld_TupleOwnerMap (f : gmap IDType ScopeID → gmap IDType ScopeID) (st :
    FileLoader) : FileLoader :=
  Build_FileLoader (Buffer st) (Offset st) (IsPrepass st) (ScopeIDMap st) (FunctionIDMap st)
    (DeleteScopes st) (ScopeHeap st) (BlockHeap st) (FunctionHeap st) (GlobalScope st)
    (GlobalInitBlock st) (StringPool st) (UsesConsole st) (f (TupleOwnerMap st))
    (StructureOwnerMap st) (ExtensionLibraries st) (ExtensionData st).

Definition ld_StructureOwnerMap (f : gmap IDType ScopeID → gmap IDType ScopeID) (st :
    FileLoader) : FileLoader :=
  Build_FileLoader (Buffer st) (Offset st) (IsPrepass st) (ScopeIDMap st) (FunctionIDMap st)
    (DeleteScopes st) (ScopeHeap st) (BlockHeap st) (FunctionHeap st) (GlobalScope st)
    (GlobalInitBlock st) (StringPool st) (UsesConsole st) (TupleOwnerMap st) (f
    (StructureOwnerMap st)) (ExtensionLibraries st) (ExtensionData st).

Definition ld_ExtensionLibraries (f : list string → list string) (st : FileLoader) :
    FileLoader :=
  Build_FileLoader (Buffer st) (Offset st) (IsPrepass st) (ScopeIDMap st) (FunctionIDMap st)
    (DeleteScopes st) (ScopeHeap st) (BlockHeap st) (FunctionHeap st) (GlobalScope st)
    (GlobalInitBlock st) (StringPool st) (UsesConsole st) (TupleOwnerMap st)
    (StructureOwnerMap st) (f (ExtensionLibraries st)) (ExtensionData st).

Definition ld_ExtensionData (f : list (string * string) → list (string * string)) (st :
    FileLoader) : FileLoader :=
  Build_FileLoader (Buffer st) (Offset st) (IsPrepass st) (ScopeIDMap st) (FunctionIDMap st)
    (DeleteScopes st) (ScopeHeap st) (BlockHeap st) (FunctionHeap st) (GlobalScope st)
    (GlobalInitBlock st) (StringPool st) (UsesConsole st) (TupleOwnerMap st)
    (StructureOwnerMap st) (ExtensionLibraries st) (f (ExtensionData st)).


(** ** The loader monad: state passing with C++ exceptions *)

Definition L (A : Type) : Type := FileLoader → result (A * FileLoader).

#[global] Instance L_ret : MRet L := λ A a st, inr (a, st).
#[global] Instance L_bind : MBind L :=
  λ A B f m st, match m st with inl e => inl e | inr (a, st') => f a st' end.

Definition gets {A} (f : FileLoader → A) : L A := λ st, inr (f st, st).
Definition modify (f : FileLoader → FileLoader) : L unit := λ st, inr ((), f st).
Definition throw {A} (e : Exception) : L A := λ _, inl e.
Definition lift {A} (r : result A) : L A :=
  λ st, match r with inl e => inl e | inr a => inr (a, st) end.

(** [if(!IsPrepass) ...] *)
Definition unless_prepass (m : L unit) : L unit :=
  prepass ← gets IsPrepass;
  if (prepass : bool) then mret () else m.

(** [if(IsPrepass) ...] *)
Definition when_prepass (m : L unit) : L unit :=
  prepass ← gets IsPrepass;
  if (prepass : bool) then m else mret ().

(** [for(i = 0; i < n; ++i) body] *)
Fixpoint repeatL (n : nat) (body : L unit) : L unit :=
  match n with
  | O => mret ()
  | S n' => body;; repeatL n' body
  end.

(** A loop that [push_back]s one value per iteration. *)
Fixpoint collectL {A} (n : nat) (body : L A) : L (list A) :=
  match n with
  | O => mret []
  | S n' => a ← body; rest ← collectL n' body; mret (a :: rest)
  end.

(** A loop that threads a local object through its iterations. *)
Fixpoint iterateL {A} (n : nat) (body : A → L A) (a : A) : L A :=
  match n with
  | O => mret a
  | S n' => a' ← body a; iterateL n' body a'
  end.

(** The trip count of a loop whose counter and bound are signed ([Integer32])
    and of one whose counter and bound are unsigned ([UINT_PTR],
    [UInteger32], [unsigned]: 32 bits). *)
Definition to_unsigned (n : Z) : Z := n mod 2 ^ 32.
Definition signed_count (n : Z) : nat := Z.to_nat n.
Definition unsigned_count (n : Z) : nat := Z.to_nat (to_unsigned n).

(** ** Reading the buffer (lines 119-235)

    The buffer is a list of bytes; the C++ code reads through a raw pointer
    without a bound, so a read past the end is undefined behaviour. *)

Definition byte_at (offset : nat) : L Z :=
  buffer ← gets Buffer;
  match buffer !! offset with
  | Some b => mret b
  | None => throw (UndefinedBehaviour "read past the end of the buffer")
  end.

Definition advance (n : nat) : L unit := modify (ld_Offset (λ o, (o + n)%nat)).

Section Reading.
Context {BF : BytecodeFormat}.

(** [FileLoader::CheckCookie], lines 119-125. *)
Definition CheckCookie : L unit :=
  buffer ← gets Buffer;
  offset ← gets Offset;
  if decide (take (length HeaderCookie) (drop offset buffer) = HeaderCookie)
  then advance (length HeaderCookie)
  else throw (InvalidBytecodeException
    "Binary code does not contain a valid signature cookie; this may indicate a corrupted binary or an outdated library").

(** [FileLoader::ExpectInstruction], lines 140-146. *)
Definition ExpectInstruction (instruction : Opcode) : L unit :=
  offset ← gets Offset;
  b ← byte_at offset;
  if decide (b = code instruction) then advance 1
  else throw (InvalidBytecodeException
    "Expected a specific instruction, but a different instruction was found; ensure the binary is not corrupted").

(** The value of four bytes in little-endian order, as a signed integer. *)
Definition little_endian (b0 b1 b2 b3 : Z) : Z := b0 + 256 * (b1 + 256 * (b2 + 256 * b3)).

Definition to_signed (n : Z) : Z := if decide (n < 2 ^ 31) then n else n - 2 ^ 32.

(** [FileLoader::ReadNumber], lines 151-157. *)
Definition ReadNumber : L Z :=
  offset ← gets Offset;
  b0 ← byte_at offset;
  b1 ← byte_at (offset + 1);
  b2 ← byte_at (offset + 2);
  b3 ← byte_at (offset + 3);
  advance 4;;
  mret (to_signed (little_endian b0 b1 b2 b3)).

(** [FileLoader::ReadFloat], lines 162-168: the value is kept as its four
    bytes. *)
Definition ReadFloat : L Z :=
  offset ← gets Offset;
  b0 ← byte_at offset;
  b1 ← byte_at (offset + 1);
  b2 ← byte_at (offset + 2);
  b3 ← byte_at (offset + 3);
  advance 4;;
  mret (little_endian b0 b1 b2 b3).

(** [FileLoader::ReadFlag], lines 173-179. *)
Definition ReadFlag : L bool :=
  offset ← gets Offset;
  b ← byte_at offset;
  advance 1;;
  mret (negb (b =? 0)).

Definition char_of_byte (b : Z) : Ascii.ascii := Ascii.ascii_of_N (Z.to_N b).

(** The characters up to the first zero byte, or [None] when the bytes run
    out first. *)
Fixpoint until_zero (bytes : list Z) : option string :=
  match bytes with
  | [] => None
  | b :: rest =>
      if decide (b = 0) then Some EmptyString
      else String (char_of_byte b) <$> until_zero rest
  end.

(** [FileLoader::ReadNullTerminatedString], lines 184-198. *)
Definition ReadNullTerminatedString : L string :=
  buffer ← gets Buffer;
  offset ← gets Offset;
  match until_zero (drop offset buffer) with
  | Some str => advance (String.length str + 1);; mret str
  | None => throw (UndefinedBehaviour "read past the end of the buffer")
  end.

(** [FileLoader::ReadStringByLength], lines 203-216. *)
Definition ReadStringByLength (len : Z) : L string :=
  buffer ← gets Buffer;
  offset ← gets Offset;
  let n := signed_count len in
  let bytes := take n (drop offset buffer) in
  if decide (length bytes = n)
  then advance n;; mret (String.string_of_list_ascii (char_of_byte <$> bytes))
  else throw (UndefinedBehaviour "read past the end of the buffer").

(** [FileLoader::ReadInstruction], lines 221-226, and [PeekInstruction],
    lines 232-235. *)
Definition ReadInstruction : L Z :=
  offset ← gets Offset;
  b ← byte_at offset;
  advance 1;;
  mret b.

Definition PeekInstruction : L Z :=
  offset ← gets Offset;
  byte_at offset.

(** [widen] of Utility/Strings.cpp, lines 19-35: the conversion of the C
    runtime, an exception when it meets an invalid character. *)
Definition widen (str : string) : result string :=
  match mbstowcs str with
  | Some wide => inr wide
  | None => inl (StdException "Cannot widen string - invalid character detected")
  end.

(** [FileLoader::WidenAndCache], lines 1480-1483, with
    [Program::PoolStaticString]: the widened string is interned in the pool
    of the program. *)
Definition WidenAndCache (str : string) : L string :=
  wide ← lift (widen str);
  modify (ld_StringPool (λ pool, {[wide]} ∪ pool));;
  mret wide.

(** [FileLoader::CheckFlags], lines 130-135. *)
Definition CheckFlags : L unit :=
  flags ← ReadNumber;
  if decide (flags = 0) then mret () else modify (ld_UsesConsole (λ _, true)).

(** [FileLoader::RegisterScopeToDelete] and [UnregisterScopeToDelete], lines
    1489-1502. *)
Definition RegisterScopeToDelete (scope : ScopeID) : L ScopeID :=
  modify (ld_DeleteScopes (λ s, {[scope]} ∪ s));;
  mret scope.

Definition UnregisterScopeToDelete (scope : option ScopeID) : L (option ScopeID) :=
  match scope with
  | Some id => modify (ld_DeleteScopes (λ s, s ∖ {[id]}))
  | None => mret ()
  end;;
  mret scope.

(** [FileLoader::CheckExtensions], lines 1505-1517.  Registering and binding
    an extension library is recorded by its name. *)
Definition CheckExtensions : L unit :=
  numextensions ← ReadNumber;
  repeatL (unsigned_count numextensions)
    (narrowname ← ReadNullTerminatedString;
     extensionname ← WidenAndCache narrowname;
     when_prepass (modify (ld_ExtensionLibraries (λ libs, libs ++ [extensionname])))).

(** [FileLoader::LoadExtensionData], lines 1520-1531. *)
Definition LoadExtensionData : L unit :=
  ExpectInstruction Op_ExtensionData;;
  numdatablocks ← ReadNumber;
  repeatL (unsigned_count numdatablocks)
    (dllname ← ReadNullTerminatedString;
     blocksize ← ReadNumber;
     block ← ReadStringByLength (to_signed (to_unsigned blocksize));
     modify (ld_ExtensionData (λ data, data ++ [(dllname, block)]))).

End Reading.


(** ** Objects on the heap

    Modelled from the spec: [Block], [ScopeDescription] and the function
    objects are not in the sources.  A block is an ordered sequence of
    operations with an optional bound scope; [AddOperation] appends at the
    tail and [PopTailOperation] takes the tail off.  Of the destruction of
    objects only that of the temporary blocks is modelled. *)

Definition new_Block : L (option BlockID) :=
  heap ← gets BlockHeap;
  let b := fresh (dom heap) in
  modify (ld_BlockHeap <[b := {| Ops := []; BoundScope := None |}]>);;
  mret (Some b).

Definition delete_Block (b : option BlockID) : L unit :=
  match b with
  | Some id => modify (ld_BlockHeap (delete id))
  | None => mret ()
  end.

Definition new_ScopeDescription : L ScopeID :=
  heap ← gets ScopeHeap;
  let s := fresh (dom heap) in
  modify (ld_ScopeHeap <[s := empty_scope]>);;
  mret s.

Definition new_Function (f : FunctionBase) : L FunctionID :=
  heap ← gets FunctionHeap;
  let id := fresh (dom heap) in
  modify (ld_FunctionHeap <[id := f]>);;
  mret id.

Definition get_Block (b : option BlockID) : L Block :=
  match b with
  | None => throw (UndefinedBehaviour "null block pointer")
  | Some id =>
      heap ← gets BlockHeap;
      match heap !! id with
      | Some blk => mret blk
      | None => throw (UndefinedBehaviour "dangling block pointer")
      end
  end.

Definition get_Scope (s : option ScopeID) : L ScopeDescription :=
  match s with
  | None => throw (UndefinedBehaviour "null scope pointer")
  | Some id =>
      heap ← gets ScopeHeap;
      match heap !! id with
      | Some d => mret d
      | None => throw (UndefinedBehaviour "dangling scope pointer")
      end
  end.

Definition update_Block (b : option BlockID) (f : Block → Block) : L unit :=
  blk ← get_Block b;
  match b with
  | Some id => modify (ld_BlockHeap <[id := f blk]>)
  | None => mret ()
  end.

Definition update_Scope (s : option ScopeID) (f : ScopeDescription → ScopeDescription)
  : L unit :=
  d ← get_Scope s;
  match s with
  | Some id => modify (ld_ScopeHeap <[id := f d]>)
  | None => mret ()
  end.

Definition Block_AddOperation (b : option BlockID) (op : Operation) : L unit :=
  update_Block b (λ blk, {| Ops := Ops blk ++ [op]; BoundScope := BoundScope blk |}).

Definition Block_BindToScope (b : option BlockID) (scope : option ScopeID) : L unit :=
  update_Block b (λ blk, {| Ops := Ops blk; BoundScope := scope |}).

Definition Block_GetTailOperation (b : option BlockID) : L (option Operation) :=
  blk ← get_Block b;
  mret (last (Ops blk)).

Definition Block_PopTailOperation (b : option BlockID) : L Operation :=
  blk ← get_Block b;
  match last (Ops blk) with
  | Some op =>
      update_Block b (λ blk, {| Ops := removelast (Ops blk); BoundScope := BoundScope blk |});;
      mret op
  | None => throw (UndefinedBehaviour "tail operation of an empty block")
  end.

(** [ScopeIDMap[id]]: [operator[]] enters a null pointer for a key that is
    not there yet.  [ScopeIDMap.find(id)->second]: undefined behaviour when
    the key is not there. *)
Definition ScopeIDMap_index (id : Z) : L (option ScopeID) :=
  m ← gets ScopeIDMap;
  match m !! id with
  | Some s => mret s
  | None => modify (ld_ScopeIDMap <[id := None]>);; mret None
  end.

Definition ScopeIDMap_find (id : Z) : L (option ScopeID) :=
  m ← gets ScopeIDMap;
  match m !! id with
  | Some s => mret s
  | None => throw (UndefinedBehaviour "ScopeIDMap.find() returned end()")
  end.

Definition FunctionIDMap_index (id : Z) : L (option FunctionID) :=
  m ← gets FunctionIDMap;
  match m !! id with
  | Some f => mret f
  | None => modify (ld_FunctionIDMap <[id := None]>);; mret None
  end.

Definition FunctionIDMap_find (id : Z) : L (option FunctionID) :=
  m ← gets FunctionIDMap;
  match m !! id with
  | Some f => mret f
  | None => throw (UndefinedBehaviour "FunctionIDMap.find() returned end()")
  end.

(** [ScopeIDMap[scopeid]->...]: a change of the scope the identifier stands
    for. *)
Definition in_scope (scopeid : Z) (f : ScopeDescription → ScopeDescription) : L unit :=
  s ← ScopeIDMap_index scopeid;
  update_Scope s f.

(** [dynamic_cast<VM::Function*>(FunctionIDMap[funcid])->SetCodeBlock(codeblock)] *)
Definition SetCodeBlock (funcid : Z) (codeblock : option BlockID) : L unit :=
  f ← FunctionIDMap_index funcid;
  heap ← gets FunctionHeap;
  match f ≫= (heap !!.) with
  | Some (Function params returns _) =>
      match f with
      | Some id => modify (ld_FunctionHeap <[id := Function params returns codeblock]>)
      | None => mret ()
      end
  | _ => throw (UndefinedBehaviour "null function pointer")
  end.

(** Modelled from the spec: the methods of [ScopeDescription] that enter a
    function, a signature, a constant, a response map, a future or the
    element type of an array under its name are not in the sources. *)
Definition AddFunction (name : string) (f : FunctionID) (d : ScopeDescription)
  : ScopeDescription := scope_Functions <[name := f]> d.

Definition AddFunctionSignature (name : string) (s : FunctionSignature)
    (d : ScopeDescription) : ScopeDescription := scope_FunctionSignatures <[name := s]> d.

Definition SetConstant (name : string) (d : ScopeDescription) : ScopeDescription :=
  scope_Constants (λ names, names ++ [name]) d.

Definition AddResponseMap (name : string) (m : ResponseMap) (d : ScopeDescription)
  : ScopeDescription := scope_ResponseMaps <[name := m]> d.

Definition AddFuture (name : string) (op : Operation) (d : ScopeDescription)
  : ScopeDescription := scope_Futures <[name := op]> d.

Definition SetArrayType (name : string) (type : EpochVariableTypeID) (d : ScopeDescription)
  : ScopeDescription := scope_ListTypes <[name := type]> d.


(** ** Loading a scope, a signature, a block (lines 241-644) *)

Section Loading.
Context {BF : BytecodeFormat} {OC : OperationCode}.

(** [static_cast<VM::EpochVariableTypeID>(ReadNumber())] *)
Definition ReadType : L EpochVariableTypeID :=
  n ← ReadNumber;
  mret (TypeOfCode n).

(** The signature that [LoadFunctionSignature] assembles on the second pass,
    lines 611-621; the vectors are indexed without a bound. *)
Definition build_signature (paramtypes : list EpochVariableTypeID)
    (paramhints paramflags : list Z) (subsignatures : list (option FunctionSignature))
    (returntypes : list EpochVariableTypeID) (returnhints : list Z)
  : result FunctionSignature :=
  withparams ← foldl (λ (acc : result FunctionSignature) '(j, type),
      signature ← acc;
      match paramhints !! j, subsignatures !! j, paramflags !! j with
      | Some hint, Some sub, Some flags =>
          let signature := AddParam type hint sub signature in
          inr (if decide (Z.land (to_unsigned flags) PARAMTYPEFLAG_ISREFERENCE = 0)
               then signature
               else SetLastParamToReference PARAMTYPEFLAG_ISREFERENCE signature)
      | _, _, _ => inl (UndefinedBehaviour "vector subscript out of range")
      end) (inr empty_FunctionSignature) (imap (λ j type, (j, type)) paramtypes);
  foldl (λ (acc : result FunctionSignature) '(j, type),
      signature ← acc;
      match returnhints !! j with
      | Some hint => inr (AddReturn type hint signature)
      | None => inl (UndefinedBehaviour "vector subscript out of range")
      end) (inr withparams) (imap (λ j type, (j, type)) returntypes).

(** [FileLoader::LoadFunctionSignature], lines 562-625. *)
Fixpoint LoadFunctionSignature (fuel : nat) : L FunctionSignature :=
  match fuel with
  | O => throw OutOfFuel
  | S fuel' =>
      numparams ← ReadNumber;
      paramtypes ← collectL (signed_count numparams) ReadType;
      numreturns ← ReadNumber;
      returntypes ← collectL (signed_count numreturns) ReadType;
      numparamhints ← ReadNumber;
      paramhints ← collectL (signed_count numparamhints) ReadNumber;
      numparamflags ← ReadNumber;
      paramflags ← collectL (signed_count numparamflags) ReadNumber;
      numsubsignatures ← ReadNumber;
      subsignatures ← iterateL (signed_count numsubsignatures)
        (λ subsignatures,
           instruction ← ReadInstruction;
           prepass ← gets IsPrepass;
           if decide (instruction = code Op_FunctionSignatureEnd)
           then mret (if (prepass : bool) then subsignatures else subsignatures ++ [None])
           else
             subsignature ← LoadFunctionSignature fuel';
             mret (if (prepass : bool) then subsignatures
                   else subsignatures ++ [Some subsignature])) [];
      numreturnhints ← ReadNumber;
      returnhints ← collectL (signed_count numreturnhints) ReadNumber;
      ExpectInstruction Op_FunctionSignatureEnd;;
      prepass ← gets IsPrepass;
      if (prepass : bool) then mret empty_FunctionSignature
      else lift (build_signature paramtypes paramhints paramflags subsignatures
                   returntypes returnhints)
  end.

(** *** The sections of a scope that hold no code *)

Definition plain_variable (type : EpochVariableTypeID) : VariableEntry :=
  {| VariableType := type; VariableIsReference := false |}.

(** Lines 258-288. *)
Definition load_variables (scopeid : Z) : L unit :=
  ExpectInstruction Op_Variables;;
  numvars ← ReadNumber;
  repeatL (signed_count numvars)
    (isreference ← ReadFlag;
     varname ← ReadNullTerminatedString;
     vartype ← ReadNumber;
     unless_prepass
       (if (isreference : bool) then
          name ← WidenAndCache varname;
          in_scope scopeid (AddReference (TypeOfCode vartype) name)
        else if decide (TypeOfCode vartype = EpochVariableType_Tuple) then
          name ← WidenAndCache varname;
          in_scope scopeid
            (scope_Variables (map_insert_new name (plain_variable EpochVariableType_Tuple)));;
          name ← WidenAndCache varname;
          in_scope scopeid (scope_ScopeMemberOrder (λ order, order ++ [name]))
        else if decide (TypeOfCode vartype = EpochVariableType_Structure) then
          name ← WidenAndCache varname;
          in_scope scopeid
            (scope_Variables
               (map_insert_new name (plain_variable EpochVariableType_Structure)));;
          name ← WidenAndCache varname;
          in_scope scopeid (scope_ScopeMemberOrder (λ order, order ++ [name]))
        else if decide (TypeOfCode vartype = EpochVariableType_Function) then
          name ← WidenAndCache varname;
          in_scope scopeid (scope_ScopeMemberOrder (λ order, order ++ [name]))
        else
          name ← WidenAndCache varname;
          in_scope scopeid (AddVariable name (TypeOfCode vartype)))).

(** [Ghosts.back().insert(...)] *)
Definition insert_ghost (name : string) (owner : ScopeID) (d : ScopeDescription)
  : ScopeDescription :=
  scope_Ghosts (λ ghosts, alter (map_insert_new name owner) (length ghosts - 1)%nat ghosts) d.

(** Lines 290-308. *)
Definition load_ghosts (scopeid : Z) : L unit :=
  ExpectInstruction Op_Ghosts;;
  numghosts ← ReadNumber;
  repeatL (signed_count numghosts)
    (ExpectInstruction Op_GhostRecord;;
     unless_prepass (in_scope scopeid (scope_Ghosts (λ ghosts, ghosts ++ [∅])));;
     numrecs ← ReadNumber;
     repeatL (signed_count numrecs)
       (varname ← ReadNullTerminatedString;
        ownerid ← ReadNumber;
        unless_prepass
          (name ← WidenAndCache varname;
           owner ← ScopeIDMap_find ownerid;
           scope ← ScopeIDMap_index scopeid;
           d ← get_Scope scope;
           match Ghosts d, owner with
           | [], _ => throw (UndefinedBehaviour "Ghosts.back() on an empty deque")
           | _, None => throw (UndefinedBehaviour "null scope pointer")
           | _, Some owner => update_Scope scope (insert_ghost name owner)
           end))).

(** Lines 359-368. *)
Definition load_signatures (fuel : nat) (scopeid : Z) : L unit :=
  ExpectInstruction Op_FunctionSignatureList;;
  numfuncsignatures ← ReadNumber;
  repeatL (signed_count numfuncsignatures)
    (signaturename ← ReadNullTerminatedString;
     ExpectInstruction Op_FunctionSignatureBegin;;
     signature ← LoadFunctionSignature fuel;
     unless_prepass
       (name ← WidenAndCache signaturename;
        in_scope scopeid (AddFunctionSignature name signature))).

(** The sections that map a name to the identifier of a type: tuple types and
    hints, structure types and hints (lines 370-390 and 422-442). *)
Definition load_type_names (section : Opcode)
    (enter : (gmap string IDType → gmap string IDType) → ScopeDescription → ScopeDescription)
    (scopeid : Z) : L unit :=
  ExpectInstruction section;;
  count ← ReadNumber;
  repeatL (signed_count count)
    (varname ← ReadNullTerminatedString;
     id ← ReadNumber;
     unless_prepass
       (name ← WidenAndCache varname;
        in_scope scopeid (enter (map_insert_new name id)))).


(** Lines 392-420: the descriptors of the tuple types. *)
Definition load_tuple_type_map (scopeid : Z) : L unit :=
  ExpectInstruction Op_TupleTypeMap;;
  numtupledata ← ReadNumber;
  repeatL (signed_count numtupledata)
    (id ← ReadNumber;
     ExpectInstruction Op_Members;;
     nummembers ← ReadNumber;
     tupletype ← iterateL (signed_count nummembers)
       (λ tupletype,
          membername ← ReadNullTerminatedString;
          type ← ReadNumber;
          offset ← ReadNumber;
          prepass ← gets IsPrepass;
          if (prepass : bool) then mret tupletype
          else
            name ← WidenAndCache membername;
            mret (AddMember name (TypeOfCode type) 0 tupletype)) empty_StructureType;
     unless_prepass
       (scope ← ScopeIDMap_index scopeid;
        _ ← get_Scope scope;
        scopes ← gets ScopeHeap;
        tupletype ← lift (ComputeOffsets tupletype scopes scope);
        update_Scope scope (scope_TupleTypeMap (map_insert_new id tupletype));;
        match scope with
        | Some owner => modify (ld_TupleOwnerMap (map_insert_new id owner))
        | None => mret ()
        end)).

(** Modelled from the spec: [GetOwnerOfStructureType] and
    [GetOwnerOfTupleType] are not in the sources; the registry answers with
    the scope that owns the type, and the lookup of a type that was never
    registered fails. *)
Definition GetOwnerOfStructureType (id : IDType) : L (option ScopeID) :=
  owners ← gets StructureOwnerMap;
  match owners !! id with
  | Some owner => mret (Some owner)
  | None => throw (EpochException "structure type has no owner")
  end.

Definition GetOwnerOfTupleType (id : IDType) : L (option ScopeID) :=
  owners ← gets TupleOwnerMap;
  match owners !! id with
  | Some owner => mret (Some owner)
  | None => throw (EpochException "tuple type has no owner")
  end.

(** Lines 444-483: the descriptors of the structure types. *)
Definition load_structure_type_map (scopeid : Z) : L unit :=
  ExpectInstruction Op_StructureTypeMap;;
  numstructdata ← ReadNumber;
  repeatL (signed_count numstructdata)
    (id ← ReadNumber;
     ExpectInstruction Op_Members;;
     nummembers ← ReadNumber;
     structtype ← iterateL (signed_count nummembers)
       (λ structtype,
          membername ← ReadNullTerminatedString;
          type ← ReadNumber;
          offset ← ReadNumber;
          hint ← (if decide (TypeOfCode type = EpochVariableType_Structure
                             ∨ TypeOfCode type = EpochVariableType_Tuple)
                  then ReadNumber else mret 0);
          prepass ← gets IsPrepass;
          if (prepass : bool) then mret structtype
          else if decide (TypeOfCode type = EpochVariableType_Structure) then
            name ← WidenAndCache membername;
            owner ← GetOwnerOfStructureType hint;
            scopes ← gets ScopeHeap;
            _ ← lift (GetStructureType scopes owner hint);
            mret (AddMember name EpochVariableType_Structure hint structtype)
          else if decide (TypeOfCode type = EpochVariableType_Tuple) then
            name ← WidenAndCache membername;
            owner ← GetOwnerOfTupleType hint;
            scopes ← gets ScopeHeap;
            _ ← lift (GetTupleType scopes owner hint);
            mret (AddMember name EpochVariableType_Tuple hint structtype)
          else
            name ← WidenAndCache membername;
            mret (AddMember name (TypeOfCode type) 0 structtype)) empty_StructureType;
     unless_prepass
       (scope ← ScopeIDMap_index scopeid;
        _ ← get_Scope scope;
        scopes ← gets ScopeHeap;
        structtype ← lift (ComputeOffsets structtype scopes scope);
        update_Scope scope (scope_StructureTypeMap (map_insert_new id structtype));;
        match scope with
        | Some owner => modify (ld_StructureOwnerMap (map_insert_new id owner))
        | None => mret ()
        end)).

(** Lines 485-489: the constants.  Nothing here asks which pass is running. *)
Definition load_constants (scopeid : Z) : L unit :=
  ExpectInstruction Op_Constants;;
  numconstants ← ReadNumber;
  repeatL (unsigned_count numconstants)
    (narrowname ← ReadNullTerminatedString;
     name ← WidenAndCache narrowname;
     in_scope scopeid (SetConstant name)).

(** Lines 542-552: the element types of the arrays. *)
Definition load_array_hints (scopeid : Z) : L unit :=
  ExpectInstruction Op_ArrayHints;;
  numarrayhints ← ReadNumber;
  repeatL (unsigned_count numarrayhints)
    (narrowname ← ReadNullTerminatedString;
     arrayname ← WidenAndCache narrowname;
     hint ← ReadNumber;
     unless_prepass
       (in_scope scopeid (SetArrayType arrayname (TypeOfCode (to_unsigned hint))))).

(** *** The operations that take no code (lines 650-1457)

    The arithmetic instructions carry two array flags and the number of
    parameters; one parameter asks for the fold form of the operation. *)
Definition load_arithmetic (kind : ArithmeticKind) (type : EpochVariableTypeID)
    (newblock : option BlockID) : L unit :=
  firstisarray ← ReadFlag;
  secondisarray ← ReadFlag;
  paramcount ← ReadNumber;
  unless_prepass
    (if decide (paramcount = 1)
     then Block_AddOperation newblock (ArithmeticFold kind type)
     else Block_AddOperation newblock (ArithmeticBinary kind type firstisarray secondisarray)).

(** An instruction with no operand. *)
Definition load_plain (op : Operation) (newblock : option BlockID) : L unit :=
  unless_prepass (Block_AddOperation newblock op).

(** An instruction whose operand is a type. *)
Definition load_typed (op : EpochVariableTypeID → Operation) (newblock : option BlockID)
  : L unit :=
  type ← ReadType;
  unless_prepass (Block_AddOperation newblock (op type)).

(** An instruction whose operand is a name, interned on the second pass. *)
Definition load_named (op : string → Operation) (newblock : option BlockID) : L unit :=
  varname ← ReadNullTerminatedString;
  unless_prepass
    (name ← WidenAndCache varname;
     Block_AddOperation newblock (op name)).

(** An instruction whose operands are the names of a variable and of a
    member, interned on the second pass. *)
Definition load_member (op : string → string → Operation) (newblock : option BlockID)
  : L unit :=
  varname ← ReadNullTerminatedString;
  membername ← ReadNullTerminatedString;
  unless_prepass
    (variable ← WidenAndCache varname;
     member ← WidenAndCache membername;
     Block_AddOperation newblock (op variable member)).

(** An instruction whose operand is a name that is interned before the pass
    is asked for (lines 1423-1440). *)
Definition load_named_eagerly (op : string → Operation) (newblock : option BlockID)
  : L unit :=
  narrowname ← ReadNullTerminatedString;
  name ← WidenAndCache narrowname;
  unless_prepass (Block_AddOperation newblock (op name)).


(** [ifop->SetElseIfBlock(new ElseIfWrapper(block))] and
    [ifop->SetFalseBlock(block)] *)
Definition SetElseIfBlock (block : option BlockID) (ifop : option Operation)
  : L (option Operation) :=
  match ifop with
  | Some (If trueblock falseblock _) => mret (Some (If trueblock falseblock block))
  | _ => throw (UndefinedBehaviour "null If operation")
  end.

Definition SetFalseBlock (block : option BlockID) (ifop : option Operation)
  : L (option Operation) :=
  match ifop with
  | Some (If trueblock _ elseifblock) => mret (Some (If trueblock block elseifblock))
  | _ => throw (UndefinedBehaviour "null If operation")
  end.

(** The instruction a byte stands for: the first comparison of the chain of
    [GenerateOpFromByteCode] (lines 654-1449) that succeeds. *)
Definition dispatch_order : list Opcode :=
  [Op_PushOperation; Op_Invoke; Op_DebugWrite; Op_PushRealLiteral; Op_DivideReals;
   Op_PushIntegerLiteral; Op_IsEqual; Op_IsNotEqual; Op_IsLesser; Op_IsGreater;
   Op_AssignValue; Op_DoWhile; Op_GetValue; Op_If; Op_AddReals; Op_SubReals;
   Op_PushBooleanLiteral; Op_PushStringLiteral; Op_AddIntegers; Op_SubtractIntegers;
   Op_DebugRead; Op_ElseIf; Op_ExitIfChain; Op_ReadTuple; Op_WriteTuple; Op_ReadStructure;
   Op_WriteStructure; Op_Init; Op_BindFunctionReference; Op_SizeOf; Op_While;
   Op_BindReference; Op_WhileCondition; Op_Break; Op_Return; Op_BitwiseAnd; Op_BitwiseOr;
   Op_BitwiseXor; Op_BitwiseNot; Op_LogicalAnd; Op_LogicalOr; Op_LogicalXor;
   Op_LogicalNot; Op_Concat; Op_IsGreaterEqual; Op_PushInteger16Literal;
   Op_InvokeIndirect; Op_BooleanLiteral; Op_BeginBlock; Op_ReadStructureIndirect;
   Op_BindStruct; Op_WriteStructureIndirect; Op_ForkTask; Op_AcceptMessage;
   Op_MultiplyIntegers; Op_GetMessageSender; Op_GetTaskCaller; Op_SendTaskMessage;
   Op_AcceptMessageFromMap; Op_TypeCastToString; Op_DivideIntegers; Op_TypeCast;
   Op_Future; Op_Map; Op_Reduce; Op_IsLesserEqual; Op_IntegerLiteral; Op_ThreadPool;
   Op_ForkThread; Op_Handoff; Op_HandoffControl; Op_ParallelFor; Op_ReadArray;
   Op_WriteArray; Op_ArrayLength; Op_ConsArrayIndirect].

Definition decode (instruction : Z) : option Opcode :=
  List.find (λ op, bool_decide (code op = instruction)) dispatch_order.

(** [static_cast<Integer16>(ReadNumber())] *)
Definition to_Integer16 (n : Z) : Z :=
  let low := n mod 2 ^ 16 in if decide (low < 2 ^ 15) then low else low - 2 ^ 16.

(** The operation [Bytecode::TypeCastToString] stands for, lines 1226-1245. *)
Definition cast_to_string (originaltype : Z) : result Operation :=
  match TypeOfCode originaltype with
  | EpochVariableType_Real => inr (TypeCastToString EpochVariableType_Real)
  | EpochVariableType_Integer => inr (TypeCastToString EpochVariableType_Integer)
  | EpochVariableType_Integer16 => inr (TypeCastToString EpochVariableType_Integer16)
  | EpochVariableType_Boolean => inr TypeCastBooleanToString
  | EpochVariableType_Buffer => inr TypeCastBufferToString
  | _ => inl (EpochException
      "Cannot cast the given variable type to string; is one or more of your libraries out of date?")
  end.

(** The operation [Bytecode::TypeCast] stands for, lines 1267-1328. *)
Definition cast (origintype desttype : Z) : result Operation :=
  let invalid := inl (EpochException
    "Invalid parameters supplied to typecast operation; ensure all libraries are up to date and the binary is not corrupted") in
  match TypeOfCode desttype, TypeOfCode origintype with
  | EpochVariableType_Integer, EpochVariableType_String
  | EpochVariableType_Integer, EpochVariableType_Real
  | EpochVariableType_Integer, EpochVariableType_Integer16
  | EpochVariableType_Integer, EpochVariableType_Boolean
  | EpochVariableType_Integer16, EpochVariableType_String
  | EpochVariableType_Integer16, EpochVariableType_Real
  | EpochVariableType_Integer16, EpochVariableType_Integer
  | EpochVariableType_Integer16, EpochVariableType_Boolean
  | EpochVariableType_Real, EpochVariableType_String
  | EpochVariableType_Real, EpochVariableType_Integer
  | EpochVariableType_Real, EpochVariableType_Integer16
  | EpochVariableType_Real, EpochVariableType_Boolean =>
      inr (TypeCast (TypeOfCode origintype) (TypeOfCode desttype))
  | _, _ => invalid
  end.

(** [ScopeIDMap[scopeid] = ...], lines 245-251. *)
Definition enter_scope (scopeid : Z) (linktoglobal : bool) : L unit :=
  if linktoglobal then
    global ← gets GlobalScope;
    modify (ld_ScopeIDMap <[scopeid := Some global]>)
  else
    when_prepass
      (created ← new_ScopeDescription;
       scope ← RegisterScopeToDelete created;
       modify (ld_ScopeIDMap <[scopeid := Some scope]>)).

(** Lines 253-256. *)
Definition load_parent (scopeid : Z) : L unit :=
  ExpectInstruction Op_ParentScope;;
  parentscopeid ← ReadNumber;
  unless_prepass
    (if decide (parentscopeid = 0) then mret ()
     else
       parent ← ScopeIDMap_find parentscopeid;
       in_scope scopeid (scope_ParentScope (λ _, parent))).

(** [scope->ParentScope = &LoadingProgram->GetGlobalScope()], lines 1156 and
    1379. *)
Definition reparent_to_global (scope : option ScopeID) : L unit :=
  global ← gets GlobalScope;
  update_Scope scope (scope_ParentScope (λ _, Some global)).

(** The compound operators: a temporary block receives each operand, whose
    tail operation is handed to the operator (lines 968-1061). *)
Definition add_operand (tempblock : option BlockID) (op : option Operation)
  : L (option Operation) :=
  prepass ← gets IsPrepass;
  if (prepass : bool) then mret op
  else
    operand ← Block_PopTailOperation tempblock;
    match op with
    | Some compound => mret (Some (CompoundOperator_AddOperation compound operand))
    | None => throw (UndefinedBehaviour "null operation pointer")
    end.

Definition add_loaded (newblock : option BlockID) (op : option Operation) : L unit :=
  unless_prepass
    match op with
    | Some loaded => Block_AddOperation newblock loaded
    | None => throw (UndefinedBehaviour "null operation pointer")
    end.

(** [op.reset(new ...)] on the second pass, a null pointer on the prepass. *)
Definition unless_prepass_new (op : Operation) : L (option Operation) :=
  prepass ← gets IsPrepass;
  mret (if (prepass : bool) then None else Some op).


(** *** [LoadScope], [LoadCodeBlock] and [GenerateOpFromByteCode]

    The three functions call each other; every call takes one unit of fuel,
    and so does every round of the two loops without a bound, the loop of
    [LoadCodeBlock] and the loop over the [elseif] blocks of an [if]. *)
Fixpoint LoadScope (fuel : nat) (linktoglobal : bool) {struct fuel} : L (option ScopeID) :=
  match fuel with
  | O => throw OutOfFuel
  | S fuel' =>
      ExpectInstruction Op_Scope;;
      scopeid ← ReadNumber;
      enter_scope scopeid linktoglobal;;
      load_parent scopeid;;
      load_variables scopeid;;
      load_ghosts scopeid;;
      (* lines 310-357 *)
      ExpectInstruction Op_Functions;;
      numfuncs ← ReadNumber;
      repeatL (signed_count numfuncs)
        (funcname ← ReadNullTerminatedString;
         funcid ← ReadNumber;
         _ ← ReadNumber;
         nextop ← PeekInstruction;
         if decide (nextop = code Op_CallDLL) then
           _ ← ReadInstruction;
           dllname ← ReadNullTerminatedString;
           dllfuncname ← ReadNullTerminatedString;
           returntype ← ReadNumber;
           returntypehint ← ReadNumber;
           params ← LoadScope fuel' false;
           when_prepass
             (params ← UnregisterScopeToDelete params;
              dll ← WidenAndCache dllname;
              dllfunc ← WidenAndCache dllfuncname;
              callop ← new_Function
                (CallDLL dll dllfunc params (TypeOfCode returntype) returntypehint);
              modify (ld_FunctionIDMap <[funcid := Some callop]>);;
              name ← WidenAndCache funcname;
              in_scope scopeid (AddFunction name callop))
         else
           params ← LoadScope fuel' false;
           returns ← LoadScope fuel' false;
           ExpectInstruction Op_BeginBlock;;
           localscope ← LoadScope fuel' false;
           codeblock ← LoadCodeBlock fuel';
           prepass ← gets IsPrepass;
           if (prepass : bool) then
             func ← new_Function (Function params returns None);
             modify (ld_FunctionIDMap <[funcid := Some func]>);;
             name ← WidenAndCache funcname;
             in_scope scopeid (AddFunction name func);;
             _ ← UnregisterScopeToDelete params;
             _ ← UnregisterScopeToDelete returns;
             mret ()
           else
             scope ← UnregisterScopeToDelete localscope;
             Block_BindToScope codeblock scope;;
             SetCodeBlock funcid codeblock);;
      load_signatures fuel' scopeid;;
      load_type_names Op_TupleTypes scope_TupleTypes scopeid;;
      load_type_names Op_TupleHints scope_TupleTypeHints scopeid;;
      load_tuple_type_map scopeid;;
      load_type_names Op_StructureTypes scope_StructureTypes scopeid;;
      load_type_names Op_StructureHints scope_StructureTypeHints scopeid;;
      load_structure_type_map scopeid;;
      load_constants scopeid;;
      (* lines 492-526 *)
      ExpectInstruction Op_ResponseMaps;;
      numresponsemaps ← ReadNumber;
      repeatL (unsigned_count numresponsemaps)
        (narrowname ← ReadNullTerminatedString;
         mapname ← WidenAndCache narrowname;
         nummapentries ← ReadNumber;
         themap ← iterateL (unsigned_count nummapentries)
           (λ themap : ResponseMap,
              messagename ← ReadNullTerminatedString;
              nummessageparams ← ReadNumber;
              paramtypes ← collectL (unsigned_count nummessageparams) ReadType;
              ExpectInstruction Op_BeginBlock;;
              responsescope ← LoadScope fuel' false;
              responseblock ← LoadCodeBlock fuel';
              auxscope ← LoadScope fuel' false;
              prepass ← gets IsPrepass;
              if (prepass : bool) then mret themap
              else
                scope ← UnregisterScopeToDelete responsescope;
                Block_BindToScope responseblock scope;;
                name ← WidenAndCache messagename;
                aux ← UnregisterScopeToDelete auxscope;
                mret (themap ++ [{| MessageName := name; PayloadTypes := paramtypes;
                                    ResponseBlock := responseblock;
                                    AuxiliaryScope := aux |}])) [];
         unless_prepass (in_scope scopeid (AddResponseMap mapname themap)));;
      (* lines 528-540 *)
      ExpectInstruction Op_Futures;;
      numfutures ← ReadNumber;
      repeatL (unsigned_count numfutures)
        (narrowname ← ReadNullTerminatedString;
         futurename ← WidenAndCache narrowname;
         _ ← ReadNumber;
         tempblock ← new_Block;
         instruction ← ReadInstruction;
         GenerateOpFromByteCode fuel' instruction tempblock;;
         unless_prepass
           (op ← Block_PopTailOperation tempblock;
            in_scope scopeid (AddFuture futurename op));;
         delete_Block tempblock);;
      load_array_hints scopeid;;
      ExpectInstruction Op_EndScope;;
      ScopeIDMap_index scopeid
  end

(** [FileLoader::LoadCodeBlock], lines 630-644. *)
with LoadCodeBlock (fuel : nat) {struct fuel} : L (option BlockID) :=
  match fuel with
  | O => throw OutOfFuel
  | S fuel' =>
      prepass ← gets IsPrepass;
      newblock ← (if (prepass : bool) then mret None else new_Block);
      LoadOperations fuel' newblock
  end

with LoadOperations (fuel : nat) (newblock : option BlockID) {struct fuel}
  : L (option BlockID) :=
  match fuel with
  | O => throw OutOfFuel
  | S fuel' =>
      instruction ← ReadInstruction;
      if decide (instruction = code Op_EndBlock) then mret newblock
      else
        GenerateOpFromByteCode fuel' instruction newblock;;
        LoadOperations fuel' newblock
  end

(** The [do ... while] loop over the [elseif] blocks, lines 765-783. *)
with LoadElseIfBlocks (fuel : nat) (ifop : option Operation) {struct fuel}
  : L (option Operation) :=
  match fuel with
  | O => throw OutOfFuel
  | S fuel' =>
      nextop ← ReadInstruction;
      nextop ← (if decide (nextop = code Op_ElseIf) then ReadInstruction else mret nextop);
      ifop ← (if decide (nextop = code Op_BeginBlock) then
                scope ← LoadScope fuel' false;
                elseifwrapblock ← LoadCodeBlock fuel';
                prepass ← gets IsPrepass;
                if (prepass : bool) then mret ifop
                else
                  scope ← UnregisterScopeToDelete scope;
                  Block_BindToScope elseifwrapblock scope;;
                  SetElseIfBlock elseifwrapblock ifop
              else throw (InvalidBytecodeException
                "Elseifwrap instruction loaded, but no elseif blocks found! This is probably a compiler bug."));
      peek ← PeekInstruction;
      if decide (peek = code Op_ElseIf) then LoadElseIfBlocks fuel' ifop else mret ifop
  end


(** [FileLoader::GenerateOpFromByteCode], lines 650-1457.  On the second pass
    the blocks being filled are not bound to a scope yet, so the scope handed
    to the constructor of [PushOperation] is the null bound scope. *)
with GenerateOpFromByteCode (fuel : nat) (instruction : Z) (newblock : option BlockID)
    {struct fuel} : L unit :=
  match fuel with
  | O => throw OutOfFuel
  | S fuel' =>
      match decode instruction with
      | Some Op_PushOperation =>
          op ← ReadInstruction;
          GenerateOpFromByteCode fuel' op newblock;;
          unless_prepass
            (blk ← get_Block newblock;
             popped ← Block_PopTailOperation newblock;
             scopes ← gets ScopeHeap;
             pushop ← lift (PushOperation_ctor popped scopes (BoundScope blk));
             Block_AddOperation newblock pushop)
      | Some Op_Invoke =>
          funcid ← ReadNumber;
          unless_prepass
            (function ← FunctionIDMap_find funcid;
             Block_AddOperation newblock (Invoke function false))
      | Some Op_DebugWrite => load_plain DebugWriteStringExpression newblock
      | Some Op_PushRealLiteral =>
          value ← ReadFloat;
          unless_prepass (Block_AddOperation newblock (PushRealLiteral value))
      | Some Op_DivideReals => load_arithmetic Arith_Divide EpochVariableType_Real newblock
      | Some Op_PushIntegerLiteral =>
          value ← ReadNumber;
          unless_prepass (Block_AddOperation newblock (PushIntegerLiteral value))
      | Some Op_IsEqual => load_typed (Comparison Cmp_IsEqual) newblock
      | Some Op_IsNotEqual => load_typed (Comparison Cmp_IsNotEqual) newblock
      | Some Op_IsLesser => load_typed (Comparison Cmp_IsLesser) newblock
      | Some Op_IsGreater => load_typed (Comparison Cmp_IsGreater) newblock
      | Some Op_AssignValue => load_named AssignValue newblock
      | Some Op_DoWhile =>
          ExpectInstruction Op_BeginBlock;;
          scope ← LoadScope fuel' false;
          theblock ← LoadCodeBlock fuel';
          unless_prepass
            (scope ← UnregisterScopeToDelete scope;
             Block_BindToScope theblock scope;;
             Block_AddOperation newblock (DoWhileLoop theblock))
      | Some Op_GetValue => load_named GetVariableValue newblock
      | Some Op_If =>
          nextop ← ReadInstruction;
          trueblock ← (if decide (nextop = code Op_BeginBlock) then
                         scope ← LoadScope fuel' false;
                         trueblock ← LoadCodeBlock fuel';
                         unless_prepass
                           (scope ← UnregisterScopeToDelete scope;
                            Block_BindToScope trueblock scope);;
                         mret trueblock
                       else mret None);
          ifop ← unless_prepass_new (If trueblock None None);
          nextop ← ReadInstruction;
          ifop ← (if decide (nextop = code Op_ElseIfWrapper)
                  then LoadElseIfBlocks fuel' ifop else mret ifop);
          nextop ← ReadInstruction;
          ifop ← (if decide (nextop = code Op_BeginBlock) then
                    scope ← LoadScope fuel' false;
                    falseblock ← LoadCodeBlock fuel';
                    prepass ← gets IsPrepass;
                    if (prepass : bool) then mret ifop
                    else
                      scope ← UnregisterScopeToDelete scope;
                      Block_BindToScope falseblock scope;;
                      SetFalseBlock falseblock ifop
                  else mret ifop);
          add_loaded newblock ifop
      | Some Op_AddReals => load_arithmetic Arith_Add EpochVariableType_Real newblock
      | Some Op_SubReals => load_arithmetic Arith_Subtract EpochVariableType_Real newblock
      | Some Op_PushBooleanLiteral =>
          value ← ReadFlag;
          unless_prepass (Block_AddOperation newblock (PushBooleanLiteral value))
      | Some Op_PushStringLiteral =>
          len ← ReadNumber;
          str ← ReadStringByLength len;
          unless_prepass
            (pooled ← WidenAndCache str;
             Block_AddOperation newblock (PushStringLiteral pooled))
      | Some Op_AddIntegers => load_arithmetic Arith_Add EpochVariableType_Integer newblock
      | Some Op_SubtractIntegers =>
          load_arithmetic Arith_Subtract EpochVariableType_Integer newblock
      | Some Op_DebugRead => load_plain DebugReadStaticString newblock
      | Some Op_ElseIf =>
          nextop ← ReadInstruction;
          if decide (nextop = code Op_BeginBlock) then
            scope ← LoadScope fuel' false;
            block ← LoadCodeBlock fuel';
            unless_prepass
              (scope ← UnregisterScopeToDelete scope;
               Block_BindToScope block scope;;
               Block_AddOperation newblock (ElseIf block))
          else throw (InvalidBytecodeException
            "Corruption near Elseif instruction (expected to begin a block here)")
      | Some Op_ExitIfChain => load_plain ExitIfChain newblock
      | Some Op_ReadTuple => load_member ReadTuple newblock
      | Some Op_WriteTuple => load_member AssignTuple newblock
      | Some Op_ReadStructure => load_member ReadStructure newblock
      | Some Op_WriteStructure => load_member AssignStructure newblock
      | Some Op_Init => load_named InitializeValue newblock
      | Some Op_BindFunctionReference => load_named BindFunctionReference newblock
      | Some Op_SizeOf => load_named SizeOf newblock
      | Some Op_While =>
          ExpectInstruction Op_BeginBlock;;
          scope ← LoadScope fuel' false;
          loopblock ← LoadCodeBlock fuel';
          unless_prepass
            (scope ← UnregisterScopeToDelete scope;
             Block_BindToScope loopblock scope;;
             Block_AddOperation newblock (WhileLoop loopblock))
      | Some Op_BindReference => load_named BindReference newblock
      | Some Op_WhileCondition => load_plain WhileLoopConditional newblock
      | Some Op_Break => load_plain Break newblock
      | Some Op_Return => load_plain Return newblock
      | Some Op_BitwiseAnd =>
          type ← ReadType;
          op ← unless_prepass_new (BitwiseAnd type []);
          testcount ← ReadNumber;
          op ← iterateL (unsigned_count testcount)
            (λ op,
               tempblock ← new_Block;
               operand ← ReadInstruction;
               GenerateOpFromByteCode fuel' operand tempblock;;
               op ← add_operand tempblock op;
               delete_Block tempblock;;
               mret op) op;
          add_loaded newblock op
      | Some Op_BitwiseOr =>
          type ← ReadType;
          op ← unless_prepass_new (BitwiseOr type []);
          testcount ← ReadNumber;
          op ← iterateL (unsigned_count testcount)
            (λ op,
               tempblock ← new_Block;
               operand ← ReadInstruction;
               GenerateOpFromByteCode fuel' operand tempblock;;
               op ← add_operand tempblock op;
               delete_Block tempblock;;
               mret op) op;
          add_loaded newblock op
      | Some Op_BitwiseXor => load_typed BitwiseXor newblock
      | Some Op_BitwiseNot => load_typed BitwiseNot newblock
      | Some Op_LogicalAnd =>
          op ← unless_prepass_new (LogicalAnd []);
          testcount ← ReadNumber;
          op ← iterateL (unsigned_count testcount)
            (λ op,
               tempblock ← new_Block;
               operand ← ReadInstruction;
               GenerateOpFromByteCode fuel' operand tempblock;;
               op ← add_operand tempblock op;
               delete_Block tempblock;;
               mret op) op;
          add_loaded newblock op
      | Some Op_LogicalOr =>
          op ← unless_prepass_new (LogicalOr []);
          testcount ← ReadNumber;
          op ← iterateL (unsigned_count testcount)
            (λ op,
               tempblock ← new_Block;
               operand ← ReadInstruction;
               GenerateOpFromByteCode fuel' operand tempblock;;
               op ← add_operand tempblock op;
               delete_Block tempblock;;
               mret op) op;
          add_loaded newblock op
      | Some Op_LogicalXor => load_plain LogicalXor newblock
      | Some Op_LogicalNot => load_plain LogicalNot newblock
      | Some Op_Concat =>
          firstisarray ← ReadFlag;
          secondisarray ← ReadFlag;
          paramcount ← ReadNumber;
          unless_prepass
            (if decide (paramcount = 1)
             then Block_AddOperation newblock (Concatenate true false 1)
             else Block_AddOperation newblock (Concatenate firstisarray secondisarray 2))
      | Some Op_IsGreaterEqual => load_typed (Comparison Cmp_IsGreaterOrEqual) newblock
      | Some Op_PushInteger16Literal =>
          value ← ReadNumber;
          unless_prepass
            (Block_AddOperation newblock (PushInteger16Literal (to_Integer16 value)))
      | Some Op_InvokeIndirect => load_named InvokeIndirect newblock
      | Some Op_BooleanLiteral =>
          flag ← ReadFlag;
          unless_prepass (Block_AddOperation newblock (BooleanConstant flag))
      | Some Op_BeginBlock =>
          scope ← LoadScope fuel' false;
          theblock ← LoadCodeBlock fuel';
          unless_prepass
            (scope ← UnregisterScopeToDelete scope;
             Block_BindToScope theblock scope;;
             Block_AddOperation newblock (ExecuteBlock theblock))
      | Some Op_ReadStructureIndirect =>
          membername ← ReadNullTerminatedString;
          unless_prepass
            (member ← WidenAndCache membername;
             tail ← Block_GetTailOperation newblock;
             Block_AddOperation newblock (ReadStructureIndirect member tail))
      | Some Op_BindStruct =>
          chained ← ReadFlag;
          varname ← (if (chained : bool) then mret EmptyString
                     else ReadNullTerminatedString);
          membername ← ReadNullTerminatedString;
          unless_prepass
            (if (chained : bool) then
               member ← WidenAndCache membername;
               Block_AddOperation newblock (BindStructMemberReference None member)
             else
               variable ← WidenAndCache varname;
               member ← WidenAndCache membername;
               Block_AddOperation newblock
                 (BindStructMemberReference (Some variable) member))
      | Some Op_WriteStructureIndirect => load_named AssignStructureIndirect newblock

      | Some Op_ForkTask =>
          ExpectInstruction Op_BeginBlock;;
          scope ← LoadScope fuel' false;
          taskblock ← LoadCodeBlock fuel';
          unless_prepass
            (reparent_to_global scope;;
             scope ← UnregisterScopeToDelete scope;
             Block_BindToScope taskblock scope;;
             Block_AddOperation newblock (ForkTask taskblock))
      | Some Op_AcceptMessage =>
          messagename ← ReadNullTerminatedString;
          numparams ← ReadNumber;
          paramtypes ← collectL (unsigned_count numparams) ReadType;
          ExpectInstruction Op_BeginBlock;;
          responsescope ← LoadScope fuel' false;
          responseblock ← LoadCodeBlock fuel';
          auxscope ← LoadScope fuel' false;
          unless_prepass
            (scope ← UnregisterScopeToDelete responsescope;
             Block_BindToScope responseblock scope;;
             name ← WidenAndCache messagename;
             aux ← UnregisterScopeToDelete auxscope;
             Block_AddOperation newblock (AcceptMessage name responseblock aux))
      | Some Op_MultiplyIntegers =>
          load_arithmetic Arith_Multiply EpochVariableType_Integer newblock
      | Some Op_GetMessageSender => load_plain GetMessageSender newblock
      | Some Op_GetTaskCaller => load_plain GetTaskCaller newblock
      | Some Op_SendTaskMessage =>
          targettaskbyname ← ReadFlag;
          messagename ← ReadNullTerminatedString;
          numparams ← ReadNumber;
          paramtypes ← collectL (unsigned_count numparams) ReadType;
          unless_prepass
            (name ← WidenAndCache messagename;
             Block_AddOperation newblock (SendTaskMessage targettaskbyname name paramtypes))
      | Some Op_AcceptMessageFromMap => load_named AcceptMessageFromResponseMap newblock
      | Some Op_TypeCastToString =>
          originaltype ← ReadNumber;
          unless_prepass
            (op ← lift (cast_to_string originaltype);
             Block_AddOperation newblock op)
      | Some Op_DivideIntegers =>
          load_arithmetic Arith_Divide EpochVariableType_Integer newblock
      | Some Op_TypeCast =>
          origintype ← ReadNumber;
          desttype ← ReadNumber;
          unless_prepass
            (op ← lift (cast origintype desttype);
             Block_AddOperation newblock op)
      | Some Op_Future =>
          narrowname ← ReadNullTerminatedString;
          futurename ← WidenAndCache narrowname;
          type ← ReadNumber;
          usethreadpool ← ReadFlag;
          unless_prepass
            (Block_AddOperation newblock
               (ForkFuture futurename (TypeOfCode type) usethreadpool))
      | Some Op_Map =>
          tempblock ← new_Block;
          operand ← ReadInstruction;
          GenerateOpFromByteCode fuel' operand tempblock;;
          unless_prepass
            (op ← Block_PopTailOperation tempblock;
             Block_AddOperation newblock (MapOperation op));;
          delete_Block tempblock
      | Some Op_Reduce =>
          tempblock ← new_Block;
          operand ← ReadInstruction;
          GenerateOpFromByteCode fuel' operand tempblock;;
          unless_prepass
            (op ← Block_PopTailOperation tempblock;
             Block_AddOperation newblock (ReduceOperation op));;
          delete_Block tempblock
      | Some Op_IsLesserEqual => load_typed (Comparison Cmp_IsLesserOrEqual) newblock
      | Some Op_IntegerLiteral =>
          value ← ReadNumber;
          unless_prepass (Block_AddOperation newblock (IntegerConstant value))
      | Some Op_ThreadPool => load_plain CreateThreadPool newblock
      | Some Op_ForkThread =>
          ExpectInstruction Op_BeginBlock;;
          scope ← LoadScope fuel' false;
          taskblock ← LoadCodeBlock fuel';
          unless_prepass
            (reparent_to_global scope;;
             scope ← UnregisterScopeToDelete scope;
             Block_BindToScope taskblock scope;;
             Block_AddOperation newblock (ForkThread taskblock))
      | Some Op_Handoff =>
          narrowname ← ReadNullTerminatedString;
          libraryname ← WidenAndCache narrowname;
          codehandle ← ReadNumber;
          ExpectInstruction Op_BeginBlock;;
          scope ← LoadScope fuel' false;
          taskblock ← LoadCodeBlock fuel';
          unless_prepass
            (scope ← UnregisterScopeToDelete scope;
             Block_BindToScope taskblock scope;;
             Block_AddOperation newblock (HandoffOperation libraryname taskblock codehandle))
      | Some Op_HandoffControl =>
          narrowname ← ReadNullTerminatedString;
          libraryname ← WidenAndCache narrowname;
          narrowname ← ReadNullTerminatedString;
          countervarname ← WidenAndCache narrowname;
          codehandle ← ReadNumber;
          ExpectInstruction Op_BeginBlock;;
          scope ← LoadScope fuel' false;
          controlblock ← LoadCodeBlock fuel';
          unless_prepass
            (scope ← UnregisterScopeToDelete scope;
             Block_BindToScope controlblock scope;;
             _ ← get_Scope scope;
             Block_AddOperation newblock
               (HandoffControlOperation libraryname controlblock countervarname scope
                  codehandle))
      | Some Op_ParallelFor =>
          narrowname ← ReadNullTerminatedString;
          countervarname ← WidenAndCache narrowname;
          ExpectInstruction Op_BeginBlock;;
          scope ← LoadScope fuel' false;
          controlblock ← LoadCodeBlock fuel';
          unless_prepass
            (scope ← UnregisterScopeToDelete scope;
             Block_BindToScope controlblock scope;;
             Block_AddOperation newblock (ParallelFor controlblock countervarname true 0))
      | Some Op_ReadArray => load_named_eagerly ReadArray newblock
      | Some Op_WriteArray => load_named_eagerly WriteArray newblock
      | Some Op_ArrayLength => load_named_eagerly ArrayLength newblock
      | Some Op_ConsArrayIndirect =>
          elementtype ← ReadType;
          op ← ReadInstruction;
          GenerateOpFromByteCode fuel' op newblock;;
          unless_prepass
            (popped ← Block_PopTailOperation newblock;
             Block_AddOperation newblock (ConsArrayIndirect elementtype popped))
      | _ => throw (InvalidBytecodeException
          "Read an opcode from the binary, but it doesn't match any known opcode. Aborting program execution!")
      end
  end.

(** [FileLoader::LoadGlobalInitBlock], lines 1462-1475. *)
Definition LoadGlobalInitBlock (fuel : nat) : L unit :=
  ExpectInstruction Op_GlobalBlock;;
  instruction ← ReadInstruction;
  if decide (instruction = code Op_BeginBlock) then
    initblock ← LoadCodeBlock fuel;
    unless_prepass (modify (ld_GlobalInitBlock (λ _, initblock)))
  else mret ().

(** The constructor [FileLoader::FileLoader], lines 67-95: the prepass, then
    the second pass over the same buffer.  The scopes that [Clean] deletes
    when the load fails are not reachable from the answer, an exception. *)
Definition Load (fuel : nat) : L unit :=
  CheckCookie;;
  CheckFlags;;
  CheckExtensions;;
  _ ← LoadScope fuel true;
  modify (ld_Offset (λ _, 0%nat));;
  modify (ld_IsPrepass (λ _, false));;
  CheckCookie;;
  CheckFlags;;
  CheckExtensions;;
  _ ← LoadScope fuel true;
  LoadGlobalInitBlock fuel;;
  LoadExtensionData.

(** The loader as the constructor finds it: at the start of [buffer], on the
    prepass, with a program that holds only its global scope. *)
Definition FileLoader_new (buffer : list Z) : FileLoader :=
  {| Buffer := buffer; Offset := 0; IsPrepass := true; ScopeIDMap := ∅;
     FunctionIDMap := ∅; DeleteScopes := ∅; ScopeHeap := {[ 0%nat := empty_scope ]};
     BlockHeap := ∅; FunctionHeap := ∅; GlobalScope := 0%nat; GlobalInitBlock := None;
     StringPool := ∅; UsesConsole := false; TupleOwnerMap := ∅; StructureOwnerMap := ∅;
     ExtensionLibraries := []; ExtensionData := [] |}.

End Loading.


(** ** Vocabulary for the properties of the loader *)

(** A property of the values of each type that a loader computation hands
    on: by default none. *)
Class Clean (A : Type) := clean : A → Prop.

#[global] Instance Clean_default A : Clean A | 100 := λ _, True.

(** [m] keeps the invariant [I] of the loader, and its answer is clean,
    whenever it returns. *)
Definition keeps (I : FileLoader → Prop) {A} {C : Clean A} (m : L A) : Prop :=
  ∀ st a st', I st → m st = inr (a, st') → I st' ∧ clean a.

(** The arithmetic operation classes that [GenerateOpFromByteCode]
    instantiates: [SumReals], [SubtractReals], [DivideReals], [SumIntegers],
    [SubtractIntegers], [MultiplyIntegers] and [DivideIntegers]. *)
Definition loadable_arithmetic (kind : ArithmeticKind) (type : EpochVariableTypeID) : bool :=
  match type, kind with
  | EpochVariableType_Integer, _ => true
  | EpochVariableType_Real, Arith_Multiply => false
  | EpochVariableType_Real, _ => true
  | _, _ => false
  end.

(** Every arithmetic operation in [op], at any depth, is of a class the
    loader instantiates. *)
Fixpoint loadable (op : Operation) : bool :=
  match op with
  | ArithmeticFold kind type | ArithmeticBinary kind type _ _ => loadable_arithmetic kind type
  | PushOperation (Some nested) _ _ => loadable nested
  | ReadStructureIndirect _ (Some prior) => loadable prior
  | BitwiseOr _ subops | BitwiseAnd _ subops | LogicalOr subops | LogicalAnd subops =>
      forallb loadable subops
  | ConsArrayIndirect _ nested | MapOperation nested | ReduceOperation nested =>
      loadable nested
  | _ => true
  end.

(** What is asked of an operation, and of a pointer to one that may be null,
    when the loadable operations are counted. *)
Definition Clean_Operation : Clean Operation := λ op, loadable op = true.
Definition Clean_option_Operation : Clean (option Operation) :=
  λ o, ∀ op, o = Some op → loadable op = true.

(** Every operation of every block of the program is [loadable]. *)
Definition loadable_blocks (st : FileLoader) : Prop :=
  ∀ b blk, BlockHeap st !! b = Some blk → Forall (λ op, loadable op = true) (Ops blk).

(** The pass and the global scope are those given. *)
Definition pass_is (prepass : bool) (global : ScopeID) (st : FileLoader) : Prop :=
  IsPrepass st = prepass ∧ GlobalScope st = global.

(** On the prepass, with the string pool and the scopes as given. *)
Definition prepass_with (pool : gset string) (scopes : gmap ScopeID ScopeDescription)
    (st : FileLoader) : Prop :=
  IsPrepass st = true ∧ StringPool st = pool ∧ ScopeHeap st = scopes.

(** The loader went from [st] to [st'] by moving its offset only. *)
Definition moved (st st' : FileLoader) : Prop := ∃ n, st' = ld_Offset (λ o, (o + n)%nat) st.

(** The instructions whose branch in [GenerateOpFromByteCode] reads its
    operands, asks for the pass and only then builds: no nested code, and no
    call of [WidenAndCache] before the question. *)
Definition guarded_leaf (op : Opcode) : bool :=
  match op with
  | Op_Invoke | Op_DebugWrite | Op_PushRealLiteral | Op_DivideReals | Op_PushIntegerLiteral
  | Op_IsEqual | Op_IsNotEqual | Op_IsLesser | Op_IsGreater | Op_AssignValue | Op_GetValue
  | Op_AddReals | Op_SubReals | Op_PushBooleanLiteral | Op_PushStringLiteral
  | Op_AddIntegers | Op_SubtractIntegers | Op_DebugRead | Op_ExitIfChain | Op_ReadTuple
  | Op_WriteTuple | Op_ReadStructure | Op_WriteStructure | Op_Init
  | Op_BindFunctionReference | Op_SizeOf | Op_BindReference | Op_WhileCondition | Op_Break
  | Op_Return | Op_BitwiseXor | Op_BitwiseNot | Op_LogicalXor | Op_LogicalNot | Op_Concat
  | Op_IsGreaterEqual | Op_PushInteger16Literal | Op_InvokeIndirect | Op_BooleanLiteral
  | Op_ReadStructureIndirect | Op_BindStruct | Op_WriteStructureIndirect
  | Op_MultiplyIntegers | Op_GetMessageSender | Op_GetTaskCaller | Op_SendTaskMessage
  | Op_AcceptMessageFromMap | Op_TypeCastToString | Op_DivideIntegers | Op_TypeCast
  | Op_IsLesserEqual | Op_IntegerLiteral | Op_ThreadPool => true
  | _ => false
  end.

(** What the loader leaves behind for a task or thread block: the operation
    [fork], built on the block [body], is the tail of the block being
    filled; [body] is bound to a scope whose parent is the global scope. *)
Definition forked (fork : option BlockID → Operation) (newblock : option BlockID)
    (st : FileLoader) : Prop :=
  ∃ nb blk b body s d,
    newblock = Some nb ∧ BlockHeap st !! nb = Some blk ∧
    last (Ops blk) = Some (fork (Some b)) ∧
    BlockHeap st !! b = Some body ∧ BoundScope body = Some s ∧
    ScopeHeap st !! s = Some d ∧ ParentScope d = Some (GlobalScope st).

End Loader.


(** * Example byte streams

    A numbering of the instructions, a cookie and the numbering of the types
    in the order of their declaration: one possible content of the headers
    that are not among the sources. *)

Module LoaderExamples.
Import VM Loader.

Definition example_code (op : Opcode) : Z :=
  match op with
  | Op_Scope => 1 | Op_ParentScope => 2 | Op_Variables => 3 | Op_Ghosts => 4
  | Op_GhostRecord => 5 | Op_Functions => 6 | Op_CallDLL => 7
  | Op_FunctionSignatureList => 8 | Op_FunctionSignatureBegin => 9
  | Op_FunctionSignatureEnd => 10 | Op_TupleTypes => 11 | Op_TupleHints => 12
  | Op_TupleTypeMap => 13 | Op_Members => 14 | Op_StructureTypes => 15
  | Op_StructureHints => 16 | Op_StructureTypeMap => 17 | Op_Constants => 18
  | Op_ResponseMaps => 19 | Op_Futures => 20 | Op_ArrayHints => 21 | Op_EndScope => 22
  | Op_GlobalBlock => 23 | Op_ExtensionData => 24 | Op_BeginBlock => 25
  | Op_EndBlock => 26 | Op_PushOperation => 27 | Op_Invoke => 28 | Op_DebugWrite => 29
  | Op_PushRealLiteral => 30 | Op_DivideReals => 31 | Op_PushIntegerLiteral => 32
  | Op_IsEqual => 33 | Op_IsNotEqual => 34 | Op_IsLesser => 35 | Op_IsGreater => 36
  | Op_AssignValue => 37 | Op_DoWhile => 38 | Op_GetValue => 39 | Op_If => 40
  | Op_AddReals => 41 | Op_SubReals => 42 | Op_PushBooleanLiteral => 43
  | Op_PushStringLiteral => 44 | Op_AddIntegers => 45 | Op_SubtractIntegers => 46
  | Op_DebugRead => 47 | Op_ElseIf => 48 | Op_ElseIfWrapper => 49
  | Op_ExitIfChain => 50 | Op_ReadTuple => 51 | Op_WriteTuple => 52
  | Op_ReadStructure => 53 | Op_WriteStructure => 54 | Op_Init => 55
  | Op_BindFunctionReference => 56 | Op_SizeOf => 57 | Op_While => 58
  | Op_BindReference => 59 | Op_WhileCondition => 60 | Op_Break => 61 | Op_Return => 62
  | Op_BitwiseAnd => 63 | Op_BitwiseOr => 64 | Op_BitwiseXor => 65
  | Op_BitwiseNot => 66 | Op_LogicalAnd => 67 | Op_LogicalOr => 68
  | Op_LogicalXor => 69 | Op_LogicalNot => 70 | Op_Concat => 71
  | Op_IsGreaterEqual => 72 | Op_PushInteger16Literal => 73 | Op_InvokeIndirect => 74
  | Op_BooleanLiteral => 75 | Op_ReadStructureIndirect => 76 | Op_BindStruct => 77
  | Op_WriteStructureIndirect => 78 | Op_ForkTask => 79 | Op_AcceptMessage => 80
  | Op_MultiplyIntegers => 81 | Op_GetMessageSender => 82 | Op_GetTaskCaller => 83
  | Op_SendTaskMessage => 84 | Op_AcceptMessageFromMap => 85
  | Op_TypeCastToString => 86 | Op_DivideIntegers => 87 | Op_TypeCast => 88
  | Op_Future => 89 | Op_Map => 90 | Op_Reduce => 91 | Op_IsLesserEqual => 92
  | Op_IntegerLiteral => 93 | Op_ThreadPool => 94 | Op_ForkThread => 95
  | Op_Handoff => 96 | Op_HandoffControl => 97 | Op_ParallelFor => 98
  | Op_ReadArray => 99 | Op_WriteArray => 100 | Op_ArrayLength => 101
  | Op_ConsArrayIndirect => 102
  end.

Definition example_type (n : Z) : EpochVariableTypeID :=
  match n with
  | 0 => EpochVariableType_Null | 1 => EpochVariableType_Integer
  | 2 => EpochVariableType_Integer16 | 3 => EpochVariableType_Real
  | 4 => EpochVariableType_Boolean | 5 => EpochVariableType_String
  | 6 => EpochVariableType_Tuple | 7 => EpochVariableType_Structure
  | 8 => EpochVariableType_Function | 9 => EpochVariableType_Address
  | 10 => EpochVariableType_Array | 11 => EpochVariableType_TaskHandle
  | 12 => EpochVariableType_Buffer | _ => EpochVariableType_Error
  end.

#[local] Instance example_format : BytecodeFormat :=
  {| code := example_code;
     HeaderCookie := [69; 80; 79; 67; 72];
     TypeOfCode := example_type;
     PARAMTYPEFLAG_ISREFERENCE := 1;
     mbstowcs := Some |}.

(** A small assembler for the examples. *)
Definition op (o : Opcode) : list Z := [example_code o].

Definition num (n : Z) : list Z :=
  let u := n mod 2 ^ 32 in
  [u mod 256; (u / 256) mod 256; (u / 65536) mod 256; (u / 16777216) mod 256].

Definition str (s : string) : list Z :=
  ((λ c, Z.of_N (Ascii.N_of_ascii c)) <$> String.list_ascii_of_string s) ++ [0].

(** A scope whose only content is the given functions. *)
Definition scope_bytes (id parent : Z) (numfuncs : Z) (functions : list Z) : list Z :=
  op Op_Scope ++ num id ++ op Op_ParentScope ++ num parent
  ++ op Op_Variables ++ num 0 ++ op Op_Ghosts ++ num 0
  ++ op Op_Functions ++ num numfuncs ++ functions
  ++ op Op_FunctionSignatureList ++ num 0
  ++ op Op_TupleTypes ++ num 0 ++ op Op_TupleHints ++ num 0 ++ op Op_TupleTypeMap ++ num 0
  ++ op Op_StructureTypes ++ num 0 ++ op Op_StructureHints ++ num 0
  ++ op Op_StructureTypeMap ++ num 0
  ++ op Op_Constants ++ num 0 ++ op Op_ResponseMaps ++ num 0 ++ op Op_Futures ++ num 0
  ++ op Op_ArrayHints ++ num 0 ++ op Op_EndScope.

(** A function without parameters or results, whose body is [body]. *)
Definition function_bytes (name : string) (funcid : Z) (ids : Z) (body : list Z) : list Z :=
  str name ++ num funcid ++ num 0
  ++ scope_bytes ids 0 0 [] ++ scope_bytes (ids + 1) 0 0 []
  ++ op Op_BeginBlock ++ scope_bytes (ids + 2) 1 0 [] ++ body ++ op Op_EndBlock.

(** A program: the cookie, the flags, the extensions, the global scope with
    its functions, no global initialisation block and no extension data. *)
Definition program_bytes (extensions : list string) (numfuncs : Z) (functions : list Z)
  : list Z :=
  [69; 80; 79; 67; 72] ++ num 0
  ++ num (Z.of_nat (length extensions)) ++ concat (str <$> extensions)
  ++ scope_bytes 1 0 numfuncs functions
  ++ op Op_GlobalBlock ++ op Op_EndBlock
  ++ op Op_ExtensionData ++ num 0.

(** [task { }] inside a function [main]. *)
Definition task_program : list Z :=
  program_bytes [] 1
    (function_bytes "main" 1 2
       (op Op_ForkTask ++ op Op_BeginBlock ++ scope_bytes 5 4 0 [] ++ op Op_EndBlock)).

End LoaderExamples.

(** * Example states of the builder and of the loader *)

Module Examples.
Import VM.

(** ** The builder *)

(** [if(c) { } elseif ...]: the global block holds an [If] whose true block
    is block [1], and the builder is about to register the [elseif]. *)
Definition if_state : Parser.ParserState :=
  Parser.upd_BlockHeap
    (λ _, {[ 0%nat := {| Ops := [If (Some 1%nat) None None]; BoundScope := Some 0%nat |};
             1%nat := {| Ops := []; BoundScope := Some 0%nat |} ]})
    Parser.initial_state.

(** [parallelfor(i, 1, 10, count) { }] at the exit of its block, block [1],
    with a scope of its own, scope [1]. *)
Definition parallelfor_state (counter count : Parser.StackEntry) : Parser.ParserState :=
  Parser.upd_Blocks
    (λ blocks, {| Parser.TheBlock := Some 1%nat;
                  Parser.BlockEntry_Type := Parser.BLOCKENTRYTYPE_PARALLELFOR |} :: blocks)
    (Parser.upd_BlockHeap <[1%nat := {| Ops := []; BoundScope := Some 1%nat |}]>
       (Parser.upd_ScopeHeap <[1%nat := scope_ParentScope (λ _, Some 0%nat) empty_scope]>
          (Parser.upd_CurrentScope (λ _, Some 1%nat)
             (Parser.upd_TheStack
                (λ _, [count; Parser.mkStackEntry_Literal EpochVariableType_Integer;
                       Parser.mkStackEntry_Literal EpochVariableType_Integer; counter])
                Parser.initial_state)))).

(** [parallelfor(i, 1, 10)] when the end of its parameters is registered. *)
Definition three_parameters_state : Parser.ParserState :=
  Parser.upd_PassedParameterCount (λ _, [3%N])
    (Parser.upd_TheStack
       (λ _, [Parser.mkStackEntry_Literal EpochVariableType_Integer;
              Parser.mkStackEntry_Literal EpochVariableType_Integer;
              Parser.mkStackEntry_Identifier "i";
              Parser.mkStackEntry_Identifier "parallelfor"])
       Parser.initial_state).

(** The unit of an integer literal. *)
Definition literal_unit (v : Z) : Parser.InfixUnit :=
  Parser.InfixUnitRawOperations [PushOperation (Some (PushIntegerLiteral v)) false false]
    [Parser.mkStackEntry_Literal EpochVariableType_Integer].

(** [1 + 2 * 3] with its three units off the block. *)
Definition infix_state : Parser.ParserState :=
  Parser.upd_PassedParameterCount (λ _, [3%N]) Parser.initial_state.

(** [2.0 * 3.0]: the operands of a call of [multiply]. *)
Definition two_reals_state : Parser.ParserState :=
  Parser.upd_TheStack (λ _, [Parser.mkStackEntry_Literal EpochVariableType_Real;
                             Parser.mkStackEntry_Literal EpochVariableType_Real])
    (Parser.upd_PassedParameterCount (λ _, [2%N]) Parser.initial_state).

(** [structure S { integer a, real b }] *)
Definition S_members : list Parser.MemberDeclaration :=
  [Parser.KnownMember "a" EpochVariableType_Integer;
   Parser.KnownMember "b" EpochVariableType_Real].

Definition S_defined : Parser.ParserState :=
  match Parser.define_structure (EC := Parser.simple_code) "S" S_members
          Parser.initial_state with
  | inr (_, st) => st
  | inl _ => Parser.initial_state
  end.

(** A task is entered. *)
Definition task_state : Parser.ParserState :=
  Parser.upd_ExpectedBlockTypes (λ _, [Parser.BLOCKENTRYTYPE_TASK]) Parser.initial_state.

(** ** The virtual machine's stack *)

Definition member_of (type : EpochVariableTypeID) : MemberInfo :=
  {| MemberType := type; MemberOffset := 0; MemberTypeHint := 0; MemberSignature := None |}.

Definition ex_pair : CompositeType :=
  {| MemberOrder := ["a"; "b"];
     MemberInfoMap := {[ "a" := member_of EpochVariableType_Integer;
                         "b" := member_of EpochVariableType_Boolean ]} |}.

Definition ex_rec : CompositeType :=
  {| MemberOrder := ["x"; "p"; "y"];
     MemberInfoMap := {[ "x" := member_of EpochVariableType_Real;
                         "p" := member_of EpochVariableType_Tuple;
                         "y" := member_of EpochVariableType_Integer16 ]} |}.

Definition ex_scopes : gmap ScopeID ScopeDescription :=
  {[ 0%nat := scope_TupleTypeMap <[ 1 := ex_pair ]> empty_scope;
     1%nat := scope_ParentScope (λ _, Some 0%nat)
                (scope_StructureTypeMap <[ 2 := ex_rec ]> empty_scope) ]}.

Definition ex_pair_value : list (string * StackOps.RValue) :=
  [("b", StackOps.BooleanRValue true); ("a", StackOps.IntegerRValue 7)].

Definition ex_rec_value : list (string * StackOps.RValue) :=
  [("x", StackOps.RealRValue 0); ("y", StackOps.Integer16RValue 3); ("p", StackOps.TupleRValue 1 ex_pair_value)].

(** ** The loader *)

(** The extension section of a program that uses the library [ext]. *)
Definition extension_stream : list Z := LoaderExamples.num 1 ++ LoaderExamples.str "ext".

Definition extension_loaded : Loader.FileLoader :=
  match Loader.CheckExtensions (BF := LoaderExamples.example_format)
          (Loader.FileLoader_new extension_stream) with
  | inr (_, st) => st
  | inl _ => Loader.FileLoader_new []
  end.

(** A function [main] whose body divides two reals. *)
Definition division_program : list Z :=
  LoaderExamples.program_bytes [] 1
    (LoaderExamples.function_bytes "main" 1 2
       (LoaderExamples.op Loader.Op_PushRealLiteral ++ LoaderExamples.num 1073741824
        ++ LoaderExamples.op Loader.Op_PushRealLiteral ++ LoaderExamples.num 1077936128
        ++ LoaderExamples.op Loader.Op_PushOperation
        ++ LoaderExamples.op Loader.Op_DivideReals ++ [0; 0] ++ LoaderExamples.num 2)).

Definition division_loaded : Loader.FileLoader :=
  match Loader.Load (BF := LoaderExamples.example_format) (OC := Parser.simple_operations)
          50 (Loader.FileLoader_new division_program) with
  | inr (_, st) => st
  | inl _ => Loader.FileLoader_new []
  end.

(** The loader on its second pass, in front of the block of a task whose
    scope, number [5], was created on the prepass; block [0] is being
    filled. *)
Definition fork_state : Loader.FileLoader :=
  Loader.ld_IsPrepass (λ _, false)
    (Loader.ld_ScopeIDMap <[5 := Some 1%nat]>
       (Loader.ld_ScopeHeap <[1%nat := empty_scope]>
          (Loader.ld_BlockHeap <[0%nat := {| Ops := []; BoundScope := None |}]>
             (Loader.FileLoader_new
                (LoaderExamples.op Loader.Op_BeginBlock
                 ++ LoaderExamples.scope_bytes 5 0 0 []
                 ++ LoaderExamples.op Loader.Op_EndBlock))))).

Definition fork_loaded : Loader.FileLoader :=
  match Loader.GenerateOpFromByteCode (BF := LoaderExamples.example_format)
          (OC := Parser.simple_operations) 5
          (LoaderExamples.example_code Loader.Op_ForkTask) (Some 0%nat) fork_state with
  | inr (_, st) => st
  | inl _ => fork_state
  end.

End Examples.

(** * EXEGen/Linker/LinkWriter.cpp *)

Module LinkWriter.

(** The output file as the bytes written to it so far.  The writer only
    appends, so [tellp] is the number of bytes written; a stream in a failed
    state is not modelled. *)
Definition OutputStream := list Z.

Definition tellp (s : OutputStream) : Z := Z.of_nat (length s).

(** The exceptions of the generator carry a message. *)
Definition outcome (A : Type) : Type := string + A.

(** [static_cast<unsigned char>] *)
Definition to_uchar (z : Z) : Z := z mod 256.

(** [LinkWriter::EmitByte], lines 27-30. *)
Definition EmitByte (out : Z) (s : OutputStream) : OutputStream := s ++ [to_uchar out].

(** [LinkWriter::EmitWORD], lines 35-39. *)
Definition EmitWORD (out : Z) (s : OutputStream) : OutputStream :=
  (s ++ [to_uchar (Z.land out 255)]) ++ [to_uchar (Z.land (Z.shiftr out 8) 255)].

(** [LinkWriter::EmitDWORD], lines 44-50. *)
Definition EmitDWORD (out : Z) (s : OutputStream) : OutputStream :=
  (((s ++ [to_uchar (Z.land out 255)])
      ++ [to_uchar (Z.land (Z.shiftr out 8) 255)])
      ++ [to_uchar (Z.land (Z.shiftr out 16) 255)])
      ++ [to_uchar (Z.land (Z.shiftr out 24) 255)].

Definition byte_of_char (c : Ascii.ascii) : Z := Z.of_N (Ascii.N_of_ascii c).

(** [OutputStream << out] for a [std::string]: its characters, in order. *)
Fixpoint write_string (out : string) (s : OutputStream) : OutputStream :=
  match out with
  | EmptyString => s
  | String c rest => write_string rest (s ++ [byte_of_char c])
  end.

(** [LinkWriter::EmitNarrowString], lines 55-58. *)
Definition EmitNarrowString (out : string) (s : OutputStream) : OutputStream :=
  write_string out s ++ [0].

(** The loop of [EmitWideString] over the characters of the string. *)
Fixpoint emit_characters (out : list Z) (s : OutputStream) : OutputStream :=
  match out with
  | [] => s
  | c :: rest => emit_characters rest (EmitWORD c s)
  end.

(** [LinkWriter::EmitWideString], lines 63-68; a [wchar_t] has 16 bits. *)
Definition EmitWideString (out : list Z) (s : OutputStream) : OutputStream :=
  EmitWORD 0 (emit_characters out s).

(** [LinkWriter::EmitBlob], lines 73-76: [size] bytes are taken from [data];
    there is no check that the buffer holds that many. *)
Definition EmitBlob (data : list Z) (size : Z) (s : OutputStream) : outcome OutputStream :=
  if decide (Z.of_nat (length data) < size)
  then inl "undefined behaviour: read past the end of the blob"
  else inr (s ++ take (Z.to_nat size) data).

(** The loop [while(OutputStream.tellp() < size) OutputStream << byte].  Each
    round writes one byte, so the loop makes [size - tellp] rounds: that many
    units of [fuel] let it run until its condition fails. *)
Fixpoint pad_loop (fuel : nat) (size byte : Z) (s : OutputStream) : OutputStream :=
  match fuel with
  | O => s
  | S fuel' =>
      if decide (tellp s < size) then pad_loop fuel' size byte (s ++ [to_uchar byte]) else s
  end.

(** [LinkWriter::Pad], lines 81-93. *)
Definition Pad (size byte : Z) (s : OutputStream) : outcome OutputStream :=
  if decide (tellp s > size)
  then inl "Already wrote past the end of padding area; aborting!"
  else inr (pad_loop (Z.to_nat (size - tellp s)) size byte s).

(** [LinkWriter::GetOffset], lines 98-101: the position as a [DWORD]. *)
Definition GetOffset (s : OutputStream) : Z := tellp s mod 2 ^ 32.

(** Every element of the stream is a byte. *)
Definition bytes (s : OutputStream) : Prop := Forall (λ b, 0 ≤ b < 256) s.

(** The two bytes of a 16-bit character, low byte first. *)
Definition wide_bytes (c : Z) : list Z := [c mod 256; (c / 256) mod 256].

End LinkWriter.

(** * FugueDLL/Serialization/SerializationTraverser.cpp *)

Module Serialization.
Import VM.

(** The constants of Serialization/SerializationTokens.h that the functions
    below write. *)
Inductive Token :=
| Token_BeginBlock | Token_EndBlock | Token_Null | Token_GlobalBlock
| Token_FunctionSignatureBegin | Token_FunctionSignatureEnd | Token_Members
| Token_True | Token_False.

#[global] Instance Token_eq_dec : EqDecision Token.
Proof. solve_decision. Defined.

(** What the wide output stream is handed, one item per [operator<<]: a
    string (a [std::wstring], a C string or a literal other than the three
    below), a token, an integer (a count, a size, an identifier, a flag
    word), a type, a real, a pointer, and the literals [L" "], [L"\t"] and
    [L"\n"].  How the stream formats an item is the business of the
    library. *)
Inductive Item :=
| Text (s : string)
| Tok (t : Token)
| Number (n : Z)
| TypeID (t : EpochVariableTypeID)
| Float (bits : Z)
| Address (p : Z)
| Space
| Tab
| Newline.


Record SerializationTraverser := Build_SerializationTraverser {
  OutputStream : list Item;
  CurrentProgram : option Z;
  CurrentScope : option Z;
  TabDepth : Z;
  IgnoreTabPads : bool;
  TraversedObjects : gset Z;
  SkippedObjects : gset Z
}.

Definition st_OutputStream (f : list Item → list Item) (t : SerializationTraverser) :
    SerializationTraverser :=
  Build_SerializationTraverser (f (OutputStream t)) (CurrentProgram t) (CurrentScope t)
    (TabDepth t) (IgnoreTabPads t) (TraversedObjects t) (SkippedObjects t).

Definition st_CurrentProgram (f : option Z → option Z) (t : SerializationTraverser) :
    SerializationTraverser :=
  Build_SerializationTraverser (OutputStream t) (f (CurrentProgram t)) (CurrentScope t)
    (TabDepth t) (IgnoreTabPads t) (TraversedObjects t) (SkippedObjects t).

Definition st_CurrentScope (f : option Z → option Z) (t : SerializationTraverser) :
    SerializationTraverser :=
  Build_SerializationTraverser (OutputStream t) (CurrentProgram t) (f (CurrentScope t))
    (TabDepth t) (IgnoreTabPads t) (TraversedObjects t) (SkippedObjects t).

Definition st_TabDepth (f : Z → Z) (t : SerializationTraverser) : SerializationTraverser :=
  Build_SerializationTraverser (OutputStream t) (CurrentProgram t) (CurrentScope t) (f
    (TabDepth t)) (IgnoreTabPads t) (TraversedObjects t) (SkippedObjects t).

Definition st_IgnoreTabPads (f : bool → bool) (t : SerializationTraverser) :
    SerializationTraverser :=
  Build_SerializationTraverser (OutputStream t) (CurrentProgram t) (CurrentScope t)
    (TabDepth t) (f (IgnoreTabPads t)) (TraversedObjects t) (SkippedObjects t).

Definition st_TraversedObjects (f : gset Z → gset Z) (t : SerializationTraverser) :
    SerializationTraverser :=
  Build_SerializationTraverser (OutputStream t) (CurrentProgram t) (CurrentScope t)
    (TabDepth t) (IgnoreTabPads t) (f (TraversedObjects t)) (SkippedObjects t).

Definition st_SkippedObjects (f : gset Z → gset Z) (t : SerializationTraverser) :
    SerializationTraverser :=
  Build_SerializationTraverser (OutputStream t) (CurrentProgram t) (CurrentScope t)
    (TabDepth t) (IgnoreTabPads t) (TraversedObjects t) (f (SkippedObjects t)).


(** The traverser as the constructor leaves it (lines 23-32), on a stream
    that could be opened. *)
Definition SerializationTraverser_new : SerializationTraverser :=
  {| OutputStream := []; CurrentProgram := None; CurrentScope := None; TabDepth := 0;
     IgnoreTabPads := false; TraversedObjects := ∅; SkippedObjects := ∅ |}.

(** *** The traverser monad: state passing with C++ exceptions *)

Definition T (A : Type) : Type := SerializationTraverser → result (A * SerializationTraverser).

#[global] Instance T_ret : MRet T := λ A a t, inr (a, t).
#[global] Instance T_bind : MBind T :=
  λ A B f m t, match m t with inl e => inl e | inr (a, t') => f a t' end.

Definition gets {A} (f : SerializationTraverser → A) : T A := λ t, inr (f t, t).
Definition modify (f : SerializationTraverser → SerializationTraverser) : T unit :=
  λ t, inr ((), f t).
Definition throw {A} (e : Exception) : T A := λ _, inl e.

(** [OutputStream << a << b << ...] *)
Definition write (items : list Item) : T unit :=
  modify (st_OutputStream (λ out, out ++ items)).

(** [for(iter = begin; iter != end; ++iter) body] *)
Fixpoint for_each {A} (l : list A) (body : A → T unit) : T unit :=
  match l with
  | [] => mret ()
  | a :: rest => body a;; for_each rest body
  end.

(** [++TabDepth] and [--TabDepth] on an [unsigned]. *)
Definition increment_TabDepth : T unit := modify (st_TabDepth (λ d, (d + 1) mod 2 ^ 32)).
Definition decrement_TabDepth : T unit := modify (st_TabDepth (λ d, (d - 1) mod 2 ^ 32)).

Definition truth (b : bool) : Item := Tok (if b then Token_True else Token_False).

Definition size {A} (l : list A) : Item := Number (Z.of_nat (length l)).

(** [SerializationTraverser::SetProgram], lines 35-38. *)
Definition SetProgram (program : Z) : T unit := modify (st_CurrentProgram (λ _, Some program)).

(** [SerializationTraverser::PadTabs], lines 251-261. *)
Definition PadTabs : T unit :=
  ignore ← gets IgnoreTabPads;
  if (ignore : bool) then modify (st_IgnoreTabPads (λ _, false))
  else
    depth ← gets TabDepth;
    write (replicate (Z.to_nat depth) Tab).

(** [SerializationTraverser::EnterBlock], lines 40-53.  A block is known by
    its address. *)
Definition EnterBlock (block : Z) : T unit :=
  traversed ← gets TraversedObjects;
  if decide (block ∈ traversed) then modify (st_SkippedObjects (λ s, {[block]} ∪ s))
  else
    modify (st_TraversedObjects (λ s, {[block]} ∪ s));;
    PadTabs;;
    write [Tok Token_BeginBlock; Newline];;
    increment_TabDepth.

(** [SerializationTraverser::ExitBlock], lines 55-66. *)
Definition ExitBlock (block : Z) : T unit :=
  skipped ← gets SkippedObjects;
  if decide (block ∈ skipped) then mret ()
  else
    depth ← gets TabDepth;
    if decide (depth = 0) then
      throw (InternalFailureException
        "The compiler's state has been corrupted - indentation level is already 0 when exiting a code block!")
    else
      decrement_TabDepth;;
      PadTabs;;
      write [Tok Token_EndBlock; Newline].

(** [SerializationTraverser::NullBlock], lines 68-72. *)
Definition NullBlock : T unit :=
  PadTabs;;
  write [Tok Token_Null; Newline].

(** [EnterTask] and [ExitTask], lines 232-240. *)
Definition EnterTask : T unit := mret ().
Definition ExitTask : T unit := mret ().

(** [SerializationTraverser::TraverseGlobalInitBlock], lines 243-248. *)
Definition TraverseGlobalInitBlock (block : option Z) : T unit :=
  write [Tok Token_GlobalBlock; Newline];;
  match block with
  | None => write [Tok Token_Null; Newline]
  | Some _ => mret ()
  end.

(** The loop that writes the elements of a vector, each followed by a
    blank. *)
Definition write_spaced {A} (item : A → Item) (l : list A) : T unit :=
  for_each l (λ a, write [item a; Space]).

(** [SerializationTraverser::WriteFunctionSignature], lines 264-317.  The
    field [FunctionSignatures] of the signature is [ParamSignatures] here. *)
Fixpoint WriteFunctionSignature (signature : FunctionSignature) : T unit :=
  write [Tok Token_FunctionSignatureBegin; Space];;
  write [size (Params signature); Newline];;
  PadTabs;;
  write_spaced TypeID (Params signature);;
  write [Newline];;
  PadTabs;;
  write [size (Returns signature); Newline];;
  PadTabs;;
  write_spaced TypeID (Returns signature);;
  write [Newline];;
  PadTabs;;
  write [size (ParamTypeHints signature); Newline];;
  PadTabs;;
  write_spaced Number (ParamTypeHints signature);;
  write [Newline];;
  PadTabs;;
  write [size (ParamFlags signature); Newline];;
  PadTabs;;
  write_spaced Number (ParamFlags signature);;
  write [Newline];;
  PadTabs;;
  write [size (ParamSignatures signature); Newline];;
  (fix each (l : list (option FunctionSignature)) : T unit :=
     match l with
     | [] => mret ()
     | Some nested :: rest => WriteFunctionSignature nested;; each rest
     | None :: rest =>
         PadTabs;;
         write [Tok Token_FunctionSignatureEnd; Newline];;
         each rest
     end) (ParamSignatures signature);;
  write [Newline];;
  PadTabs;;
  write [size (ReturnTypeHints signature); Newline];;
  PadTabs;;
  write_spaced Number (ReturnTypeHints signature);;
  write [Newline];;
  PadTabs;;
  write [Tok Token_FunctionSignatureEnd; Newline].

(** [type.MemberInfoMap.find(name)->second]: there is no check that the
    member is in the map. *)
Definition find_member (type : CompositeType) (name : string) : T MemberInfo :=
  match MemberInfoMap type !! name with
  | Some member => mret member
  | None => throw (UndefinedBehaviour "member that is not in the map")
  end.

(** [SerializationTraverser::WriteStructureType], lines 320-336. *)
Definition WriteStructureType (type : CompositeType) : T unit :=
  PadTabs;;
  write [Tok Token_Members; Space; size (MemberOrder type); Newline];;
  for_each (MemberOrder type)
    (λ name,
       PadTabs;;
       member ← find_member type name;
       write [Text name; Space; TypeID (MemberType member); Space;
              Number (MemberOffset member); Newline];;
       if bool_decide (MemberType member = EpochVariableType_Structure
                       ∨ MemberType member = EpochVariableType_Tuple)
       then PadTabs;; write [Number (MemberTypeHint member); Newline]
       else mret ()).

(** [SerializationTraverser::WriteTupleType], lines 338-348. *)
Definition WriteTupleType (type : CompositeType) : T unit :=
  PadTabs;;
  write [Tok Token_Members; Space; size (MemberOrder type); Newline];;
  for_each (MemberOrder type)
    (λ name,
       PadTabs;;
       member ← find_member type name;
       write [Text name; Space; TypeID (MemberType member); Space;
              Number (MemberOffset member); Newline]).

(** [SerializationTraverser::WriteResponseMapEntry], lines 358-371. *)
Definition WriteResponseMapEntry (entry : ResponseMapEntry) : T unit :=
  PadTabs;;
  write [Text (MessageName entry); Newline];;
  PadTabs;;
  write [size (PayloadTypes entry); Newline];;
  for_each (PayloadTypes entry) (λ type, PadTabs;; write [TypeID type; Newline]).

(** [SerializationTraverser::WriteResponseMap], lines 350-356. *)
Definition WriteResponseMap (themap : ResponseMap) : T unit :=
  PadTabs;;
  write [size themap; Newline];;
  for_each themap WriteResponseMapEntry.


(** The five overloads of [SerializationTraverser::WriteOp], lines 373-409;
    an operation is known by its address. *)
Definition WriteOp (opptr : Z) (token : string) (newline : bool) : T unit :=
  PadTabs;;
  write [Address opptr; Space; Text token];;
  if newline then write [Newline]
  else
    write [Space];;
    modify (st_IgnoreTabPads (λ _, true)).

Definition WriteOp_token (token : string) : T unit :=
  PadTabs;;
  write [Text token; Newline].

Definition WriteOp_param (opptr : Z) (token param : string) : T unit :=
  PadTabs;;
  write [Address opptr; Space; Text token; Space; Text param; Newline].

Definition WriteOp_params (opptr : Z) (token param1 param2 : string) : T unit :=
  PadTabs;;
  write [Address opptr; Space; Text token; Space; Text param1; Space; Text param2; Newline].

Definition WriteOp_typed (opptr : Z) (token param1 param2 : string)
    (param3 : EpochVariableTypeID) : T unit :=
  PadTabs;;
  write [Address opptr; Space; Text token; Space];;
  write [Text param1; Space; Text param2; Space; TypeID param3; Newline].

(** [SerializationTraverser::WriteChainedOp], lines 411-419. *)
Definition WriteChainedOp (opptr : Z) (token : string) (ischained : bool)
    (param1 param2 : string) : T unit :=
  PadTabs;;
  write [Address opptr; Space; Text token; Space; truth ischained];;
  if ischained then write [Space; Text param2; Newline]
  else write [Space; Text param1; Space; Text param2; Newline].

(** [Traverser::Payload], as far as [WritePayload] reads it. *)
Record Payload := {
  Payload_Type : EpochVariableTypeID;
  Int32Value : Z;
  Int16Value : Z;
  FloatValue : Z;
  BoolValue : bool;
  PointerValue : Z;
  StringValue : string;
  IsIdentifier : bool
}.

(** [SerializationTraverser::WritePayload], lines 429-447. *)
Definition WritePayload (payload : Payload) : T unit :=
  match Payload_Type payload with
  | EpochVariableType_Integer => write [Number (Int32Value payload)]
  | EpochVariableType_Integer16 => write [Number (Int16Value payload)]
  | EpochVariableType_Real => write [Float (FloatValue payload)]
  | EpochVariableType_Boolean => write [truth (BoolValue payload)]
  | EpochVariableType_Address => write [Address (PointerValue payload)]
  | EpochVariableType_String =>
      if IsIdentifier payload then write [Text (StringValue payload)]
      else write [Number (Z.of_nat (String.length (StringValue payload))); Space;
                  Text (StringValue payload)]
  | _ => throw (NotImplementedException
      "Cannot emit contents of Payload structure - type is not supported or not recognized")
  end.

(** [SerializationTraverser::WriteOpWithPayload], lines 421-427; [payload]
    is what the virtual [GetNodeTraversalPayload] of the operation
    answers. *)
Definition WriteOpWithPayload (opptr : Z) (payload : Payload) (token : string) : T unit :=
  PadTabs;;
  write [Address opptr; Space; Text token; Space];;
  WritePayload payload;;
  write [Newline].

(** [SerializationTraverser::WriteCastOp], lines 449-453. *)
Definition WriteCastOp (opptr : Z) (token : string)
    (originaltype destinationtype : EpochVariableTypeID) : T unit :=
  PadTabs;;
  write [Address opptr; Space; Text token; Space; TypeID originaltype; Space;
         TypeID destinationtype; Newline].

(** [SerializationTraverser::WriteArithmeticOp], lines 455-462. *)
Definition WriteArithmeticOp (opptr : Z) (token : string) (isfirstlist issecondlist : bool)
    (numparams : Z) : T unit :=
  PadTabs;;
  write [Address opptr; Space; Text token; Space];;
  write [truth isfirstlist; Space];;
  write [truth issecondlist; Space];;
  write [Number numparams; Newline].

(** [SerializationTraverser::WriteForkFuture], lines 464-469. *)
Definition WriteForkFuture (opptr : Z) (token varname : string) (type : EpochVariableTypeID)
  : T unit :=
  PadTabs;;
  write [Address opptr; Space; Text token; Space];;
  write [Text varname; Space; TypeID type; Newline].

(** The loop over the payload types that the two message writers share. *)
Definition write_payload_types (payloadtypes : list EpochVariableTypeID) : T unit :=
  increment_TabDepth;;
  for_each payloadtypes (λ type, PadTabs;; write [TypeID type; Newline]);;
  decrement_TabDepth.

(** [SerializationTraverser::WriteSendMessage], lines 471-485. *)
Definition WriteSendMessage (opptr : Z) (token : string) (usestaskid : bool)
    (messagename : string) (payloadtypes : list EpochVariableTypeID) : T unit :=
  PadTabs;;
  write [Address opptr; Space; Text token; Space];;
  write [truth usestaskid; Space];;
  write [Text messagename; Space; size payloadtypes; Newline];;
  write_payload_types payloadtypes.

(** [SerializationTraverser::WriteAcceptMessage], lines 487-505. *)
Definition WriteAcceptMessage (opptr : Z) (token messagename : string)
    (payloadtypes : list EpochVariableTypeID) : T unit :=
  PadTabs;;
  write [Address opptr; Space; Text token; Newline];;
  PadTabs;;
  write [Text messagename; Newline];;
  PadTabs;;
  write [size payloadtypes; Newline];;
  write_payload_types payloadtypes.

(** [SerializationTraverser::WriteConsList], lines 508-512. *)
Definition WriteConsList (opptr : Z) (token : string) (elementtype : EpochVariableTypeID)
    (numelements : Z) : T unit :=
  PadTabs;;
  write [Address opptr; Space; Text token; Space; TypeID elementtype; Space;
         Number numelements; Newline].

(** [SerializationTraverser::WriteCompoundOp], lines 514-518. *)
Definition WriteCompoundOp (opptr : Z) (token : string) (numops : Z) : T unit :=
  PadTabs;;
  write [Address opptr; Space; Text token; Space; Number numops; Newline].

(** *** Vocabulary for the properties of the writer *)

(** The tabs that [PadTabs] writes in the state [t]. *)
Definition padding (t : SerializationTraverser) : list Item :=
  if IgnoreTabPads t then [] else replicate (Z.to_nat (TabDepth t)) Tab.

(** One line per payload type, indented by [depth] tabs. *)
Definition payload_lines (depth : Z) (payloadtypes : list EpochVariableTypeID) : list Item :=
  payloadtypes ≫= λ type, replicate (Z.to_nat depth) Tab ++ [TypeID type; Newline].

(** The signatures that [signature] holds, itself included, and the null
    pointers among its nested signatures, at any depth. *)
Fixpoint signature_count (signature : FunctionSignature) : nat :=
  match signature with
  | Build_FunctionSignature _ _ _ nested _ _ =>
      S ((fix each (l : list (option FunctionSignature)) : nat :=
            match l with
            | [] => 0%nat
            | Some s :: rest => (signature_count s + each rest)%nat
            | None :: rest => each rest
            end) nested)
  end.

Fixpoint null_count (signature : FunctionSignature) : nat :=
  match signature with
  | Build_FunctionSignature _ _ _ nested _ _ =>
      (fix each (l : list (option FunctionSignature)) : nat :=
         match l with
         | [] => 0%nat
         | Some s :: rest => (null_count s + each rest)%nat
         | None :: rest => S (each rest)
         end) nested
  end.

(** How often the token [token] occurs in what was written. *)
Definition is_token (token : Token) (item : Item) : bool :=
  match item with
  | Tok t => bool_decide (t = token)
  | _ => false
  end.

Definition occurrences (token : Token) (out : list Item) : nat :=
  length (List.filter (is_token token) out).

(** [m] never throws and only appends to the stream; what it appends holds
    the token that opens a signature [begins] times and the one that closes
    it [ends] times. *)
Definition writes (begins ends : nat) (m : T unit) : Prop :=
  ∀ t, ∃ written t',
    m t = inr ((), t') ∧ OutputStream t' = OutputStream t ++ written ∧
    occurrences Token_FunctionSignatureBegin written = begins ∧
    occurrences Token_FunctionSignatureEnd written = ends.

End Serialization.

(** * More of the parser state machine *)

Module MemberAccess.
Import VM Parser.

(** The fields of [ParserState] that the functions of Structures.cpp for the
    access to members use, next to the fields that [Parser.ParserState]
    holds; the counters are [unsigned]. *)
Record MemberAccessState := {
  Builder : ParserState;
  MemberAccesses : list string;
  MemberLevelRValue : Z;
  MemberLevelLValue : Z;
  LastMemberLevelRValue : Z
}.

Definition MA (A : Type) : Type := MemberAccessState → result (A * MemberAccessState).

#[global] Instance MA_ret : MRet MA := λ A a s, inr (a, s).
#[global] Instance MA_bind : MBind MA :=
  λ A B f m s, match m s with inl e => inl e | inr (a, s') => f a s' end.

Definition raise {A} (e : Exception) : MA A := λ _, inl e.

(** A computation on the other fields. *)
Definition builder {A} (m : M A) : MA A :=
  λ s, match m (Builder s) with
       | inl e => inl e
       | inr (a, st) =>
           inr (a, {| Builder := st; MemberAccesses := MemberAccesses s;
                      MemberLevelRValue := MemberLevelRValue s;
                      MemberLevelLValue := MemberLevelLValue s;
                      LastMemberLevelRValue := LastMemberLevelRValue s |})
       end.

Definition set_MemberAccesses (accesses : list string) : MA unit :=
  λ s, inr ((), {| Builder := Builder s; MemberAccesses := accesses;
                   MemberLevelRValue := MemberLevelRValue s;
                   MemberLevelLValue := MemberLevelLValue s;
                   LastMemberLevelRValue := LastMemberLevelRValue s |}).

Definition increment (n : Z) : Z := (n + 1) mod 2 ^ 32.

(** [ParserState::IncrementMemberLevel], lines 116-119. *)
Definition IncrementMemberLevel : MA unit :=
  λ s, inr ((), {| Builder := Builder s; MemberAccesses := MemberAccesses s;
                   MemberLevelRValue := increment (MemberLevelRValue s);
                   MemberLevelLValue := MemberLevelLValue s;
                   LastMemberLevelRValue := LastMemberLevelRValue s |}).

(** [ParserState::RegisterMemberAccess], lines 136-140. *)
Definition RegisterMemberAccess (membername : string) : MA unit :=
  λ s, inr ((), {| Builder := Builder s; MemberAccesses := MemberAccesses s ++ [membername];
                   MemberLevelRValue := increment (MemberLevelRValue s);
                   MemberLevelLValue := MemberLevelLValue s;
                   LastMemberLevelRValue := LastMemberLevelRValue s |}).

(** [ParserState::RegisterMemberLValueAccess], lines 209-213. *)
Definition RegisterMemberLValueAccess (membername : string) : MA unit :=
  λ s, inr ((), {| Builder := Builder s; MemberAccesses := MemberAccesses s ++ [membername];
                   MemberLevelRValue := MemberLevelRValue s;
                   MemberLevelLValue := increment (MemberLevelLValue s);
                   LastMemberLevelRValue := LastMemberLevelRValue s |}).

(** [ParserState::ResetMemberAccessRValue], lines 265-269. *)
Definition ResetMemberAccessRValue : MA unit :=
  λ s, inr ((), {| Builder := Builder s; MemberAccesses := MemberAccesses s;
                   MemberLevelRValue := 0;
                   MemberLevelLValue := MemberLevelLValue s;
                   LastMemberLevelRValue := MemberLevelRValue s |}).

Section Code.
Context {EC : ExternalCode}.

(** [TheStack.back()] is to be an identifier; its name is taken and the
    entry popped (lines 150-154 and 223-227). *)
Definition pop_variable_name : M string :=
  entry ← TheStack_back;
  if decide (StackEntry_Type entry ≠ STACKENTRYTYPE_IDENTIFIER)
  then throw (ParserFailureException "Expected a structure or tuple name here")
  else TheStack_pop_back;; mret (StringValue entry).

(** [new PushOperation(new Op(PoolStaticString(a), PoolStaticString(b)),
    *CurrentScope)], added to the current block. *)
Definition add_pushed (op : string → string → Operation) (a b : string) : M Operation :=
  a' ← PoolStaticString a;
  b' ← PoolStaticString b;
  pushop ← new_PushOperation (op a' b');
  AddOperationToCurrentBlock pushop;;
  mret pushop.

(** The loop of [ResetMemberAccess] over the members after the first, lines
    186-197; the answer is [lastop]. *)
Fixpoint read_nested (istuple : bool) (accesses : list string) (lastop : Operation)
  : MA Operation :=
  match accesses with
  | [] => mret lastop
  | member :: rest =>
      if istuple then raise (ParserFailureException "Nested tuple support is not implemented!")
      else
        readindirectop ← builder
          (name ← PoolStaticString member;
           current ← Blocks_back;
           tail ← Block_GetTailOperation (TheBlock current);
           readindirectop ← new_PushOperation (ReadStructureIndirect name (Some tail));
           AddOperationToCurrentBlock readindirectop;;
           mret readindirectop);
        set_MemberAccesses rest;;
        read_nested istuple rest readindirectop
  end.

(** [ParserState::ResetMemberAccess], lines 145-204.  The branch for
    operations that are generated outside any block works on the
    initialisation blocks of the function returns, which are not part of
    this embedding. *)
Definition ResetMemberAccess : MA unit :=
  accesses ← (λ s, inr (MemberAccesses s, s));
  match accesses with
  | [] => mret ()
  | first :: rest =>
      variablename ← builder pop_variable_name;
      blocks ← builder (gets Blocks);
      workingscope ←
        match blocks with
        | current :: _ =>
            builder (_ ← Block_PopTailOperation (TheBlock current); gets CurrentScope)
        | [] => raise (Unmodelled "initialisation blocks of function returns")
        end;
      scopes ← builder (gets ScopeHeap);
      type ← builder (lift (GetVariableType scopes workingscope variablename));
      let istuple := bool_decide (type = EpochVariableType_Tuple) in
      pushop ← builder (add_pushed (if istuple then ReadTuple else ReadStructure)
                          variablename first);
      set_MemberAccesses rest;;
      lastop ← read_nested istuple rest pushop;
      builder (TheStack_push_back (mkStackEntry_Operation lastop))
  end.

(** The loop of [ResetMemberAccessLValue] that runs while more than one
    member is left, lines 251-255. *)
Fixpoint bind_nested (accesses : list string) : MA unit :=
  match accesses with
  | member :: ((_ :: _) as rest) =>
      builder
        (name ← PoolStaticString member;
         pushop ← new_PushOperation (BindStructMemberReference None name);
         AddOperationToCurrentBlock pushop);;
      set_MemberAccesses rest;;
      bind_nested rest
  | _ => mret ()
  end.

(** [MemberAccesses.front()] *)
Definition front : MA string :=
  λ s, match MemberAccesses s with
       | [] => inl (UndefinedBehaviour "MemberAccesses.front() on an empty container")
       | first :: _ => inr (first, s)
       end.

(** [MemberAccesses.pop_front()] *)
Definition pop_front : MA unit :=
  λ s, match MemberAccesses s with
       | [] => inl (UndefinedBehaviour "MemberAccesses.pop_front() on an empty container")
       | _ :: rest => set_MemberAccesses rest s
       end.

(** [ParserState::ResetMemberAccessLValue], lines 221-263. *)
Definition ResetMemberAccessLValue : MA unit :=
  variablename ← builder pop_variable_name;
  scopes ← builder (gets ScopeHeap);
  scope ← builder (gets CurrentScope);
  type ← builder (lift (GetVariableType scopes scope variablename));
  accesses ← (λ s, inr (MemberAccesses s, s));
  (if bool_decide (type = EpochVariableType_Tuple) then
     if decide (1 < length accesses)%nat
     then raise (ParserFailureException "Nested tuples are not permitted")
     else
       first ← front;
       builder (variable ← PoolStaticString variablename;
                member ← PoolStaticString first;
                AddOperationToCurrentBlock (AssignTuple variable member))
   else if decide (length accesses = 1%nat) then
     first ← front;
     builder (variable ← PoolStaticString variablename;
              member ← PoolStaticString first;
              AddOperationToCurrentBlock (AssignStructure variable member))
   else
     first ← front;
     builder (variable ← PoolStaticString variablename;
              member ← PoolStaticString first;
              pushop ← new_PushOperation (BindStructMemberReference (Some variable) member);
              AddOperationToCurrentBlock pushop);;
     pop_front;;
     rest ← (λ s, inr (MemberAccesses s, s));
     bind_nested rest;;
     last ← front;
     builder (member ← PoolStaticString last;
              AddOperationToCurrentBlock (AssignStructureIndirect member));;
     pop_front);;
  set_MemberAccesses [].

(** [ParserState::PopDoWhileLoop], FlowControl.cpp lines 129-152. *)
Definition PopDoWhileLoop : M unit :=
  entry ← TheStack_back;
  if decide (StackEntry_Type entry ≠ STACKENTRYTYPE_OPERATION) then
    ReportFatalError "Syntax error - expected condition for do/while loop";;
    _ ← Blocks_back;
    Blocks_pop_back;;
    TheStack_pop_back
  else
    check_condition_is_boolean
      "Condition in do-while() statement must be a boolean expression";;
    popped ← Blocks_back;
    Blocks_pop_back;;
    AddOperationToCurrentBlock (DoWhileLoop (TheBlock popped));;
    TheStack_pop_back;;
    PopParameterCount.

End Code.

(** [ParserState::PopDoWhileLoopPP], FlowControl.cpp lines 157-160, and
    [ExitGlobalBlock], lines 769-772. *)
Definition PopDoWhileLoopPP : M unit := Blocks_pop_back.
Definition ExitGlobalBlock : M unit := Blocks_pop_back.

(** [ParserState::EnterBlockPP], FlowControl.cpp lines 308-320. *)
Definition EnterBlockPP : M unit :=
  expected ← gets ExpectedBlockTypes;
  match expected with
  | [] => Blocks_push_back {| TheBlock := None; BlockEntry_Type := BLOCKENTRYTYPE_FREE |}
  | type :: rest =>
      modify (upd_ExpectedBlockTypes (λ _, rest));;
      Blocks_push_back {| TheBlock := None; BlockEntry_Type := type |}
  end.

(** *** Vocabulary for the properties of member access *)

(** The operations that read [variable.first.m1. ... .mk]: the push of the
    read of the first member, and for each further member the push of an
    indirect read that refers to the operation before it. *)
Fixpoint read_chain (lastop : Operation) (members : list string) : list Operation :=
  match members with
  | [] => []
  | member :: rest =>
      let op := PushOperation (Some (ReadStructureIndirect member (Some lastop))) false false in
      op :: read_chain op rest
  end.

Definition read_first (variable first : string) : Operation :=
  PushOperation (Some (ReadStructure variable first)) false false.

(** The last operation of the chain that starts after [lastop]. *)
Definition last_read (lastop : Operation) (members : list string) : Operation :=
  List.last (read_chain lastop members) lastop.

(** The operations that bind a reference to [variable.first.m1. ... .mk],
    for the assignment to a member of it. *)
Definition bind_member (member : string) : Operation :=
  PushOperation (Some (BindStructMemberReference None member)) false false.

Definition bind_chain (variable first : string) (members : list string) : list Operation :=
  PushOperation (Some (BindStructMemberReference (Some variable) first)) false false
  :: (bind_member <$> members).

(** The builder [st'] differs from [st] at most in its blocks' contents and
    its string pool. *)
Definition same_frame (st st' : ParserState) : Prop :=
  Blocks st' = Blocks st ∧ TheStack st' = TheStack st ∧ ScopeHeap st' = ScopeHeap st ∧
  CurrentScope st' = CurrentScope st ∧ ParseFailed st' = ParseFailed st.

(** The block [blk] with the operations [ops] appended. *)
Definition extended (blk : Block) (ops : list Operation) : Block :=
  {| Ops := Ops blk ++ ops; BoundScope := BoundScope blk |}.

End MemberAccess.

(** * FugueDLL/Virtual Machine/Operations/Variables/StructureOps.cpp *)

Module StructureOps.
Import VM.

(** The queries on scopes and structure types that the operations make:
    [scope.GetVariableStructureTypeID(name)], [scope.GetStructureType(id)],
    [StructureTrackerClass::GetOwnerOfStructureType(id)->GetStructureType(id)]
    and the [GetMemberType] and [GetMemberTypeHint] of a structure type.
    They belong to code outside the sources under study and may throw. *)
Class TypeQueries := {
  GetVariableStructureTypeID : string → result IDType;
  GetStructureType : IDType → result CompositeType;
  GetStructureTypeOfOwner : IDType → result CompositeType;
  GetMemberType : CompositeType → string → result EpochVariableTypeID;
  GetMemberTypeHint : CompositeType → string → result IDType
}.

Section Code.
Context {TQ : TypeQueries}.

(** [ReadStructure::GetType], lines 50-53, and [AssignStructure::GetType],
    lines 214-217. *)
Definition ReadStructure_GetType (VarName MemberName : string) : result EpochVariableTypeID :=
  structid ← GetVariableStructureTypeID VarName;
  type ← GetStructureType structid;
  GetMemberType type MemberName.

Definition AssignStructure_GetType (VarName MemberName : string)
  : result EpochVariableTypeID :=
  structid ← GetVariableStructureTypeID VarName;
  type ← GetStructureType structid;
  GetMemberType type MemberName.

(** [GetOwnerOfStructureType(structid)->GetStructureType(structid)
    .GetMemberTypeHint(member)] *)
Definition hint_of_member (structid : IDType) (member : string) : result IDType :=
  type ← GetStructureTypeOfOwner structid;
  GetMemberTypeHint type member.

(** [ReadStructureIndirect::WalkInstructionsForReadStruct], lines 95-114,
    on an operation that is not null. *)
Fixpoint walk (op : Operation) : result IDType :=
  match op with
  | PushOperation (Some (ReadStructure VarName MemberName)) _ _ =>
      structid ← GetVariableStructureTypeID VarName;
      hint_of_member structid MemberName
  | PushOperation (Some (ReadStructureIndirect MemberName PriorOp)) _ _ =>
      structid ←
        match PriorOp with
        | Some prior => walk prior
        | None => inl (InternalFailureException
            "READSTRUCTINDIRECT instruction without prior matching READSTRUCT")
        end;
      hint_of_member structid MemberName
  | PushOperation _ _ _ =>
      inl (InternalFailureException
        "READSTRUCTINDIRECT instruction has an invalid previous instruction")
  | _ => inl (InternalFailureException
      "READSTRUCTINDIRECT instruction without prior matching READSTRUCT")
  end.

Definition WalkInstructionsForReadStruct (op : option Operation) : result IDType :=
  match op with
  | Some prior => walk prior
  | None => inl (InternalFailureException
      "READSTRUCTINDIRECT instruction without prior matching READSTRUCT")
  end.

(** [ReadStructureIndirect::GetType], lines 84-88. *)
Definition ReadStructureIndirect_GetType (MemberName : string) (PriorOp : option Operation)
  : result EpochVariableTypeID :=
  structid ← WalkInstructionsForReadStruct PriorOp;
  type ← GetStructureTypeOfOwner structid;
  GetMemberType type MemberName.

(** [ReadStructureIndirect::WalkInstructionsForTypeHint], lines 116-120. *)
Definition WalkInstructionsForTypeHint (MemberName : string) (PriorOp : option Operation)
  : result IDType :=
  structid ← WalkInstructionsForReadStruct PriorOp;
  hint_of_member structid MemberName.

(** [AssignStructureIndirect::GetType], lines 317-320, and
    [BindStructMemberReference::GetType], lines 371-374. *)
Definition AssignStructureIndirect_GetType : EpochVariableTypeID := EpochVariableType_Null.
Definition BindStructMemberReference_GetType : EpochVariableTypeID :=
  EpochVariableType_Address.

(** The hint of [id.m1. ... .mk]: the hints of the members, looked up from
    left to right. *)
Fixpoint hint_along (structid : IDType) (members : list string) : result IDType :=
  match members with
  | [] => inr structid
  | member :: rest => next ← hint_of_member structid member; hint_along next rest
  end.

End Code.

End StructureOps.

(** ** Further vocabulary for the loader *)

Module LoaderInvariants.
Import VM Loader.

(** No block of the program holds an operation. *)
Definition no_code (st : FileLoader) : Prop :=
  ∀ b blk, BlockHeap st !! b = Some blk → Ops blk = [].

(** On the prepass, with no operation in any block. *)
Definition prepass_no_code (st : FileLoader) : Prop := IsPrepass st = true ∧ no_code st.

(** The loader reads the buffer [buffer] and stands at [offset] or
    further. *)
Definition reads_on (buffer : list Z) (offset : nat) (st : FileLoader) : Prop :=
  Buffer st = buffer ∧ (offset ≤ Offset st)%nat.

(** The console flag of the program, the pass and the buffer are those
    given. *)
Definition console_is (console prepass : bool) (buffer : list Z) (st : FileLoader) : Prop :=
  UsesConsole st = console ∧ IsPrepass st = prepass ∧ Buffer st = buffer.

End LoaderInvariants.

(** * Further examples *)

Module MoreExamples.
Import VM.

(** The loader on the prepass, in front of the global scope of the program
    that divides two reals: past the cookie, the flags and the count of the
    extensions. *)
Definition at_global_scope : Loader.FileLoader :=
  Loader.ld_Offset (λ _, 13%nat) (Loader.FileLoader_new Examples.division_program).

Definition global_scope_run : result (option ScopeID * Loader.FileLoader) :=
  Loader.LoadScope (BF := LoaderExamples.example_format) (OC := Parser.simple_operations)
    50 true at_global_scope.

Definition global_scope_read : option ScopeID :=
  match global_scope_run with inr (scope, _) => scope | inl _ => None end.

Definition after_global_scope : Loader.FileLoader :=
  match global_scope_run with inr (_, st) => st | inl _ => at_global_scope end.

(** ** Structures within structures

    The structure type 10 has a member [inner] of the structure type 11,
    which has an integer member [value]; the variable [o] is of type 10. *)
Definition outer_type : CompositeType :=
  {| MemberOrder := ["inner"];
     MemberInfoMap := {[ "inner" := {| MemberType := EpochVariableType_Structure;
                                       MemberOffset := 0; MemberTypeHint := 11;
                                       MemberSignature := None |} ]} |}.

Definition inner_type : CompositeType :=
  {| MemberOrder := ["value"];
     MemberInfoMap := {[ "value" := {| MemberType := EpochVariableType_Integer;
                                       MemberOffset := 0; MemberTypeHint := 0;
                                       MemberSignature := None |} ]} |}.

Definition structure_of (id : IDType) : result CompositeType :=
  if decide (id = 10) then inr outer_type
  else if decide (id = 11) then inr inner_type
  else inl (InternalFailureException "no such structure type").

Definition member_of (t : CompositeType) (name : string) : result MemberInfo :=
  match MemberInfoMap t !! name with
  | Some info => inr info
  | None => inl (InternalFailureException "no such member")
  end.

#[local] Instance structure_queries : StructureOps.TypeQueries :=
  {| StructureOps.GetVariableStructureTypeID name :=
       if decide (name = "o") then inr 10
       else inl (InternalFailureException "no such variable");
     StructureOps.GetStructureType := structure_of;
     StructureOps.GetStructureTypeOfOwner := structure_of;
     StructureOps.GetMemberType t name := info ← member_of t name; mret (MemberType info);
     StructureOps.GetMemberTypeHint t name :=
       info ← member_of t name; mret (MemberTypeHint info) |}.

(** The builder after [o.inner.value] was read: the name of the variable is
    on the stack, its push is the tail of the global block, and the two
    members are registered. *)
Definition member_read_state : MemberAccess.MemberAccessState :=
  {| MemberAccess.Builder :=
       Parser.upd_ScopeHeap
         (λ _, {[ 0%nat := AddVariable "o" EpochVariableType_Structure empty_scope ]})
         (Parser.upd_BlockHeap
            (λ _, {[ 0%nat := {| Ops := [PushOperation (Some (GetVariableValue "o"))
                                           false false];
                                 BoundScope := Some 0%nat |} ]})
            (Parser.upd_TheStack (λ _, [Parser.mkStackEntry_Identifier "o"])
               Parser.initial_state));
     MemberAccess.MemberAccesses := ["inner"; "value"];
     MemberAccess.MemberLevelRValue := 2;
     MemberAccess.MemberLevelLValue := 0;
     MemberAccess.LastMemberLevelRValue := 0 |}.

(** The builder before [o.inner.value = ...] is assigned: the name of the
    variable is on the stack and the two members are registered. *)
Definition member_write_state : MemberAccess.MemberAccessState :=
  {| MemberAccess.Builder :=
       Parser.upd_ScopeHeap
         (λ _, {[ 0%nat := AddVariable "o" EpochVariableType_Structure empty_scope ]})
         (Parser.upd_TheStack (λ _, [Parser.mkStackEntry_Identifier "o"])
            Parser.initial_state);
     MemberAccess.MemberAccesses := ["inner"; "value"];
     MemberAccess.MemberLevelRValue := 0;
     MemberAccess.MemberLevelLValue := 2;
     MemberAccess.LastMemberLevelRValue := 0 |}.

(** ** A do-while loop

    [do { ... } while(true)]: the body, block [1], ends with the push of the
    condition, which is also on top of the stack. *)
Definition do_while_state : Parser.ParserState :=
  Parser.upd_Blocks
    (λ blocks, {| Parser.TheBlock := Some 1%nat;
                  Parser.BlockEntry_Type := Parser.BLOCKENTRYTYPE_DOLOOP |} :: blocks)
    (Parser.upd_BlockHeap
       <[1%nat := {| Ops := [PushOperation (Some (PushBooleanLiteral true)) false false];
                     BoundScope := Some 0%nat |}]>
       (Parser.upd_TheStack
          (λ _, [Parser.mkStackEntry_Operation
                   (PushOperation (Some (PushBooleanLiteral true)) false false)])
          (Parser.upd_PassedParameterCount (λ _, [1%N]) Parser.initial_state))).

End MoreExamples.

(** * Theorems *)

(** The head constant of a computation. *)
Ltac keeps_head m :=
  lazymatch m with
  | ?f _ => keeps_head f
  | _ => m
  end.


(** * Shared/Utility/Strings.cpp *)

Section StripWhitespaceFacts.
Import Strings.

Lemma is_one_of_true set c : is_one_of set c = true ↔ c ∈ set.
Proof. unfold is_one_of. by rewrite bool_decide_eq_true. Qed.

Lemma is_one_of_false set c : is_one_of set c = false ↔ c ∉ set.
Proof. unfold is_one_of. by rewrite bool_decide_eq_false. Qed.

Lemma first_not_of_Some set s i :
  first_not_of set s = Some i →
  (∃ c, s !! i = Some c ∧ c ∉ set) ∧
  ∀ k c, (k < i)%nat → s !! k = Some c → c ∈ set.
Proof.
  revert i. induction s as [|a s IH]; intros i; simpl; [done|].
  destruct (is_one_of set a) eqn:Ha.
  - destruct (first_not_of set s) as [i'|] eqn:Hf; simpl; [|done].
    intros [= <-]. destruct (IH i' eq_refl) as [Hc Hlt]. split; [done|].
    intros [|k] c Hk; simpl.
    + intros [= <-]. by apply is_one_of_true.
    + apply Hlt. lia.
  - intros [= <-]. split.
    + exists a. split; [done|]. by apply is_one_of_false.
    + intros k c Hk. lia.
Qed.

Lemma first_not_of_None set s :
  first_not_of set s = None ↔ ∀ c, c ∈ s → c ∈ set.
Proof.
  induction s as [|a s IH]; simpl.
  - split; [|done]. intros _ c Hc. by apply elem_of_nil in Hc.
  - destruct (is_one_of set a) eqn:Ha.
    + rewrite fmap_None, IH. apply is_one_of_true in Ha. split.
      * intros H c [->|Hc]%elem_of_cons; auto.
      * intros H c Hc. apply H. by right.
    + apply is_one_of_false in Ha. split; [done|].
      intros H. destruct Ha. apply H. by left.
Qed.

Lemma last_not_of_None set s :
  last_not_of set s = None ↔ ∀ c, c ∈ s → c ∈ set.
Proof.
  induction s as [|a s IH]; simpl.
  - split; [|done]. intros _ c Hc. by apply elem_of_nil in Hc.
  - destruct (last_not_of set s) as [j|] eqn:Hl.
    + split; [done|]. intros H. destruct IH as [_ IH].
      discriminate IH. intros c Hc. apply H. by right.
    + destruct IH as [IH _]. specialize (IH eq_refl).
      destruct (is_one_of set a) eqn:Ha.
      * apply is_one_of_true in Ha. split; [|done].
        intros _ c [->|Hc]%elem_of_cons; auto.
      * apply is_one_of_false in Ha. split; [done|].
        intros H. destruct Ha. apply H. by left.
Qed.

Lemma last_not_of_Some set s j :
  last_not_of set s = Some j →
  (∃ c, s !! j = Some c ∧ c ∉ set) ∧
  ∀ k c, (j < k)%nat → s !! k = Some c → c ∈ set.
Proof.
  revert j. induction s as [|a s IH]; intros j; simpl; [done|].
  destruct (last_not_of set s) as [j'|] eqn:Hl.
  - intros [= <-]. destruct (IH j' eq_refl) as [Hc Hgt]. split; [done|].
    intros [|k] c Hk; [lia|]. simpl. apply Hgt. lia.
  - destruct (is_one_of set a) eqn:Ha; [done|]. intros [= <-]. split.
    + exists a. split; [done|]. by apply is_one_of_false.
    + intros [|k] c Hk; [lia|]. simpl. intros Hc.
      apply (proj1 (last_not_of_None set s) Hl). by eapply list_elem_of_lookup_2.
Qed.

Lemma wrap_small z : 0 ≤ z < size_max → wrap z = z.
Proof. intros. unfold wrap. by apply Z.mod_small. Qed.

Lemma first_le_last s i j :
  first_non_ws_at s i → last_non_ws_at s j → (i ≤ j < length s)%nat.
Proof.
  intros [(c & Hc & Hnc) _] [(d & Hd & _) Hafter]. split.
  - destruct (decide (i ≤ j)%nat) as [|Hn]; [done|].
    destruct Hnc. apply (Hafter i c); [lia|done].
  - by eapply lookup_lt_Some.
Qed.

Lemma substr_slice s i j :
  valid_wstring s → (i ≤ j < length s)%nat →
  substr s (wrap (Z.of_nat i)) (wrap (wrap (Z.of_nat j) - wrap (Z.of_nat i) + 1))
  = Some (slice s i j).
Proof.
  unfold valid_wstring, npos. intros Hv [Hij Hj].
  rewrite !(wrap_small (Z.of_nat _)) by lia.
  rewrite wrap_small by lia.
  unfold substr, slice.
  destruct (Z.ltb_spec (Z.of_nat (length s)) (Z.of_nat i)) as [|_]; [lia|].
  f_equal. rewrite Nat2Z.id. f_equal. lia.
Qed.

(** C10.  [StripWhitespace] returns the empty string on the empty string; on a
    string with at least one character that is not a space, tab, carriage
    return or line feed it returns the characters from the first such
    character to the last one; on a non-empty string of whitespace only,
    [find_first_not_of] yields [npos] and [substr] throws, so no string is
    returned. *)
Theorem StripWhitespace_spec (str : wstring) (Hvalid : valid_wstring str) :
  (str = [] → StripWhitespace str = Some []) ∧
  ((∃ c, c ∈ str ∧ ¬ is_whitespace c) →
     ∃ i j, first_non_ws_at str i ∧ last_non_ws_at str j ∧
            StripWhitespace str = Some (slice str i j)) ∧
  (str ≠ [] → (∀ c, c ∈ str → is_whitespace c) →
     find_first_not_of str whitespacechars = npos ∧
     StripWhitespace str = None).
Proof.
  split; [by intros ->|]. split.
  - intros (c & Hc & Hnws).
    assert (str ≠ []) as Hne by (intros ->; by apply elem_of_nil in Hc).
    destruct (first_not_of whitespacechars str) as [i|] eqn:Hf; last first.
    { destruct Hnws. by apply (proj1 (first_not_of_None _ _) Hf). }
    destruct (last_not_of whitespacechars str) as [j|] eqn:Hl; last first.
    { destruct Hnws. by apply (proj1 (last_not_of_None _ _) Hl). }
    pose proof (first_not_of_Some _ _ _ Hf) as Hi.
    pose proof (last_not_of_Some _ _ _ Hl) as Hj.
    exists i, j. split; [exact Hi|]. split; [exact Hj|].
    unfold StripWhitespace. rewrite bool_decide_eq_false_2 by done.
    unfold find_first_not_of, find_last_not_of. rewrite Hf, Hl. simpl.
    apply substr_slice; [done|]. by apply first_le_last.
  - intros Hne Hall.
    assert (first_not_of whitespacechars str = None) as Hf
      by by apply first_not_of_None.
    assert (last_not_of whitespacechars str = None) as Hl
      by by apply last_not_of_None.
    unfold StripWhitespace, find_first_not_of, find_last_not_of.
    rewrite bool_decide_eq_false_2 by done. rewrite Hf, Hl. simpl.
    split; [done|]. unfold substr.
    destruct (Z.ltb_spec (Z.of_nat (length str)) npos) as [|Hge]; [done|].
    unfold valid_wstring in Hvalid. lia.
Qed.

(** The strings [" AB\t"] and [" \n"]. *)
Lemma StripWhitespace_spec_witness :
  (∃ i j, first_non_ws_at [32; 65; 66; 9]%N i ∧ last_non_ws_at [32; 65; 66; 9]%N j ∧
          StripWhitespace [32; 65; 66; 9]%N = Some (slice [32; 65; 66; 9]%N i j)) ∧
  (find_first_not_of [32; 10]%N whitespacechars = npos ∧
   StripWhitespace [32; 10]%N = None).
Proof.
  split.
  - assert (valid_wstring [32; 65; 66; 9]%N) as Hv by (by vm_compute).
    apply (proj1 (proj2 (StripWhitespace_spec [32; 65; 66; 9]%N Hv))).
    exists 65%N. unfold is_whitespace, whitespacechars.
    rewrite !elem_of_cons, elem_of_nil. split; [by right; left|]. by intros [|[|[|[|]]]].
  - assert (valid_wstring [32; 10]%N) as Hv by (by vm_compute).
    apply (proj2 (proj2 (StripWhitespace_spec [32; 10]%N Hv))); [done|].
    intros c. unfold is_whitespace, whitespacechars.
    rewrite !elem_of_cons, elem_of_nil. intros [->|[->|[]]]; auto.
Defined.

End StripWhitespaceFacts.

(** * The virtual machine's stack operations *)

Section DoPushFacts.
Import VM StackOps.

Lemma RValue_nested_ind (P : RValue → Prop) :
  P NullRValue → (∀ v, P (IntegerRValue v)) → (∀ v, P (Integer16RValue v)) →
  (∀ v, P (RealRValue v)) → (∀ v, P (BooleanRValue v)) → (∀ v, P (StringRValue v)) →
  (∀ id ms, Forall (λ p, P p.2) ms → P (TupleRValue id ms)) →
  (∀ id ms, Forall (λ p, P p.2) ms → P (StructureRValue id ms)) →
  (∀ f, P (FunctionRValue f)) → (∀ a, P (AddressRValue a)) → (∀ h, P (ArrayRValue h)) →
  (∀ h, P (TaskHandleRValue h)) → (∀ h, P (BufferRValue h)) →
  ∀ v, P v.
Proof.
  intros HN HI HI16 HR HB HS HT HSt HF HA HAr HTh HBu.
  fix IH 1. intros [ |v|v|v|v|v|id ms|id ms|f|a|h|h|h].
  - exact HN.
  - apply HI.
  - apply HI16.
  - apply HR.
  - apply HB.
  - apply HS.
  - apply HT. induction ms as [|[n v] ms IHms]; constructor; [apply IH|exact IHms].
  - apply HSt. induction ms as [|[n v] ms IHms]; constructor; [apply IH|exact IHms].
  - apply HF.
  - apply HA.
  - apply HAr.
  - apply HTh.
  - apply HBu.
Qed.

Lemma DoPush_get scopes scope name ty st vals :
  (fix get (vs : list (string * RValue)) : result StackSpace :=
     match vs with
     | [] => inl (InternalFailureException "member value")
     | (n, v) :: rest => if decide (n = name) then DoPush scopes scope v ty st else get rest
     end) vals
  = (v ← GetValue vals name; DoPush scopes scope v ty st).
Proof.
  induction vals as [|[n v] vals IH]; simpl; [done|].
  destruct (decide (n = name)); [done|]. by rewrite IH.
Qed.

Lemma foldM_ext {A B} (f g : B → A → result B) l b :
  (∀ b a, f b a = g b a) → foldM f l b = foldM g l b.
Proof.
  intros Hfg. revert b. induction l as [|a l IH]; intros b; simpl; [done|].
  rewrite Hfg. destruct (g b a); simpl; [done|]. apply IH.
Qed.

Lemma foldM_app {A B} (f : B → A → result B) l1 l2 b :
  foldM f (l1 ++ l2) b = (b' ← foldM f l1 b; foldM f l2 b').
Proof.
  revert b. induction l1 as [|a l1 IH]; intros b; simpl; [done|].
  destruct (f b a); simpl; [done|]. apply IH.
Qed.

Lemma DoPush_Tuple scopes scope id vals st :
  DoPush scopes scope (TupleRValue id vals) EpochVariableType_Tuple st =
  (t ← GetTupleType scopes scope id;
   st' ← foldM (push_member scopes scope t vals) (rev (MemberOrder t)) st;
   mret (TupleCell id :: st')).
Proof.
  simpl. destruct (GetTupleType scopes scope id) as [e|t]; simpl; [done|].
  erewrite foldM_ext; [done|]. intros b a. unfold push_member.
  destruct (GetMemberType t a); simpl; [done|]. apply DoPush_get.
Qed.

Lemma DoPush_Structure scopes scope id vals st :
  DoPush scopes scope (StructureRValue id vals) EpochVariableType_Structure st =
  (t ← GetStructureType scopes scope id;
   st' ← foldM (push_member scopes scope t vals) (rev (MemberOrder t)) st;
   mret (StructureCell id :: st')).
Proof.
  simpl. destruct (GetStructureType scopes scope id) as [e|t]; simpl; [done|].
  erewrite foldM_ext; [done|]. intros b a. unfold push_member.
  destruct (GetMemberType t a); simpl; [done|]. apply DoPush_get.
Qed.

Lemma GetValue_elem vals name v :
  GetValue vals name = inr v → (name, v) ∈ vals.
Proof.
  induction vals as [|[n w] vals IH]; simpl; [done|].
  destruct (decide (n = name)) as [->|].
  - intros [= ->]. by left.
  - intros H. right. by apply IH.
Qed.

Lemma foldM_framed scopes scope t vals names st :
  (∀ name v ty st, (name, v) ∈ vals →
     DoPush scopes scope v ty st = framed st (DoPush scopes scope v ty [])) →
  foldM (push_member scopes scope t vals) names st =
  framed st (foldM (push_member scopes scope t vals) names []).
Proof.
  intros Hv. revert st.
  induction names as [|name names IH] using rev_ind; intros st; [done|].
  rewrite !foldM_app. rewrite (IH st).
  destruct (foldM (push_member scopes scope t vals) names []) as [e|cells]; simpl; [done|].
  unfold push_member.
  destruct (GetMemberType t name) as [e|ty]; simpl; [done|].
  destruct (GetValue vals name) as [e|v] eqn:Hg; simpl; [done|].
  apply GetValue_elem in Hg.
  rewrite (Hv _ _ ty (cells ++ st) Hg), (Hv _ _ ty cells Hg).
  destruct (DoPush scopes scope v ty []) as [e|cs]; simpl; [done|].
  by rewrite app_assoc.
Qed.

Lemma DoPush_framed scopes scope v : ∀ ty st,
  DoPush scopes scope v ty st = framed st (DoPush scopes scope v ty []).
Proof.
  induction v as [ | | | | | |id ms IH|id ms IH| | | | | ] using RValue_nested_ind;
    intros ty st; try (by destruct ty).
  - destruct ty; try done. rewrite !DoPush_Tuple.
    destruct (GetTupleType scopes scope id) as [e|t]; simpl; [done|].
    rewrite foldM_framed.
    + by destruct (foldM (push_member scopes scope t ms) (rev (MemberOrder t)) []).
    + intros name v ty' st' Hin. rewrite Forall_forall in IH. apply (IH _ Hin).
  - destruct ty; try done. rewrite !DoPush_Structure.
    destruct (GetStructureType scopes scope id) as [e|t]; simpl; [done|].
    rewrite foldM_framed.
    + by destruct (foldM (push_member scopes scope t ms) (rev (MemberOrder t)) []).
    + intros name v ty' st' Hin. rewrite Forall_forall in IH. apply (IH _ Hin).
Qed.

Lemma push_members_layout scopes scope t vals names cellss st :
  Forall2 (member_cells scopes scope t vals) names cellss →
  foldM (push_member scopes scope t vals) (rev names) st = inr (concat cellss ++ st).
Proof.
  induction 1 as [|name cells names cellss (ty & v & Hty & Hv & Hpush) _ IH]; [done|].
  simpl. rewrite foldM_app, IH. simpl. unfold push_member.
  rewrite Hty, Hv. simpl. rewrite DoPush_framed, Hpush. simpl.
  by rewrite app_assoc.
Qed.

(** C9.  DoPush composite push order.
    - A value of type [Null] is never pushed: [DoPush] raises an execution
      exception.
    - For a tuple, and likewise for a structure, of type [id] with
      descriptor [t]: the members are pushed in the reverse of
      [MemberOrder t], each by [DoPush] at its declared type (so nested
      composites are pushed recursively), and the identifier of the type is
      pushed last.  With the stack written top first, the result is the
      identifier, then the cells of the members in the order of
      [MemberOrder t], then the stack as it was. *)
Theorem DoPush_composite_order (scopes : gmap ScopeID ScopeDescription) (scope : option ScopeID) (stack : StackSpace)
    (id : IDType) (vals : list (string * RValue)) (t : CompositeType)
    (cellss : list (list StackCell))
    (Hmembers : Forall2 (member_cells scopes scope t vals) (MemberOrder t) cellss) :
  (∀ value, ∃ what,
     DoPush scopes scope value EpochVariableType_Null stack = inl (ExecutionException what)) ∧
  (GetTupleType scopes scope id = inr t →
     DoPush scopes scope (TupleRValue id vals) EpochVariableType_Tuple stack
       = (st' ← foldM (push_member scopes scope t vals) (rev (MemberOrder t)) stack;
          mret (TupleCell id :: st')) ∧
     DoPush scopes scope (TupleRValue id vals) EpochVariableType_Tuple stack
       = inr (TupleCell id :: concat cellss ++ stack)) ∧
  (GetStructureType scopes scope id = inr t →
     DoPush scopes scope (StructureRValue id vals) EpochVariableType_Structure stack
       = (st' ← foldM (push_member scopes scope t vals) (rev (MemberOrder t)) stack;
          mret (StructureCell id :: st')) ∧
     DoPush scopes scope (StructureRValue id vals) EpochVariableType_Structure stack
       = inr (StructureCell id :: concat cellss ++ stack)).
Proof.
  pose proof (push_members_layout _ _ _ _ _ _ stack Hmembers) as Hloop.
  split; [|split].
  - intros value. eexists. by destruct value.
  - intros Ht. rewrite DoPush_Tuple, Ht. simpl. split; [done|]. by rewrite Hloop.
  - intros Ht. rewrite DoPush_Structure, Ht. simpl. split; [done|]. by rewrite Hloop.
Qed.

End DoPushFacts.

Section DoPushRuns.
Import VM StackOps Examples.

(** A structure that holds a real, a pair and a 16-bit integer, pushed on a
    stack that holds one cell. *)
Lemma DoPush_composite_order_witness :
  DoPush ex_scopes (Some 1%nat) (StructureRValue 2 ex_rec_value) EpochVariableType_Structure [BooleanCell false]
  = inr [StructureCell 2; RealCell 0; TupleCell 1; IntegerCell 7; BooleanCell true;
         Integer16Cell 3; BooleanCell false].
Proof.
  assert (Forall2 (member_cells ex_scopes (Some 1%nat) ex_rec ex_rec_value) (MemberOrder ex_rec)
            [[RealCell 0]; [TupleCell 1; IntegerCell 7; BooleanCell true]; [Integer16Cell 3]])
    as Hmembers.
  { repeat constructor; eexists _, _; by vm_compute. }
  apply (proj2 (proj2 (proj2 (DoPush_composite_order ex_scopes (Some 1%nat) [BooleanCell false] 2
                                ex_rec_value ex_rec _ Hmembers)) eq_refl)).
Defined.

End DoPushRuns.

(** * The semantic builder *)

Create HintDb builder discriminated.

#[global] Hint Unfold mbind mret VM.result_bind VM.result_ret Parser.M_bind Parser.M_ret
  Parser.gets Parser.modify Parser.throw Parser.lift Parser.back
  Parser.TheStack_back Parser.TheStack_pop_back Parser.TheStack_push_back
  Parser.PassedParameterCount_top Parser.ReportFatalError : builder.

(** Run the builder monad as far as the state allows. *)
Ltac mrun := repeat (progress (autounfold with builder; simpl)).

Section ArithmeticFacts.
Import VM Parser.
Context {EC : ExternalCode}.

Lemma repeatM_pop (entries rest : list StackEntry) (st : ParserState) :
  TheStack st = entries ++ rest →
  repeatM (length entries) TheStack_pop_back st = inr ((), upd_TheStack (λ _, rest) st).
Proof.
  revert st. induction entries as [|e entries IH]; intros st Hst; simpl.
  - destruct st; simpl in *; by subst.
  - mrun. rewrite Hst. simpl. fold TheStack_pop_back.
    rewrite IH by done. by destruct st.
Qed.

Lemma state_TheStack (st : ParserState) l :
  TheStack st = l → st = upd_TheStack (λ _, l) st.
Proof. intros <-. by destruct st. Qed.

Lemma CreateOperation_Arithmetic_binary (kind : ArithmeticKind) (st : ParserState)
    (counts : list N) (first second : StackEntry) (rest : list StackEntry)
    (type : EpochVariableTypeID) :
  PassedParameterCount st = 2%N :: counts →
  TheStack st = second :: first :: rest →
  binary_operands st first second type →
  CreateOperation_Arithmetic kind st
  = inr (ArithmeticBinary kind type (IsArray first) (IsArray second),
         upd_TheStack (λ _, rest) st).
Proof.
  intros Hcount Hstack (Hf & Hs & Hnum).
  rewrite (state_TheStack st _ Hstack).
  unfold CreateOperation_Arithmetic, PassedParameterCount_top, mbind, M_bind, gets.
  simpl. rewrite Hcount. simpl. simpl in Hf, Hs. rewrite Hf, Hs. simpl.
  rewrite decide_False by (by intros ?). by rewrite Hnum.
Qed.

(** C5.  Arithmetic operation creation.  Let [entries] be the
    operands of the call, as many as the parameter count on top of
    [PassedParameterCount] says, on top of the stack.
    - Two operands of the same numeric type (Integer, Integer16 or Real):
      the builder pops them and returns the binary form of the operation for
      that type, with the array flags of the operands.
    - One operand that is an operation entry holding an array constructor of
      a numeric element type: the builder pops it and returns the fold form
      of the operation for the element type.
    - In every other case (among them a single operand that is the name of
      an array variable) the builder reports a fatal error, pops the operands
      and returns a [NoOp]. *)
Theorem CreateOperation_Arithmetic_spec (kind : ArithmeticKind) (st : ParserState)
    (count : N) (counts : list N) (entries rest : list StackEntry)
    (Hcount : PassedParameterCount st = count :: counts)
    (Hstack : TheStack st = entries ++ rest)
    (Hlength : length entries = N.to_nat count)
    (Hqueries : operand_queries_return st entries) :
  let popped := upd_TheStack (λ _, rest) st in
  (∀ first second type,
     entries = [second; first] → binary_operands st first second type →
     CreateOperation_Arithmetic kind st
     = inr (ArithmeticBinary kind type (IsArray first) (IsArray second), popped)) ∧
  (∀ entry elementtype,
     entries = [entry] → fold_operand st entry elementtype →
     CreateOperation_Arithmetic kind st = inr (ArithmeticFold kind elementtype, popped)) ∧
  ((¬ ∃ first second type, entries = [second; first] ∧ binary_operands st first second type) →
   (¬ ∃ entry elementtype, entries = [entry] ∧ fold_operand st entry elementtype) →
   ∃ message, CreateOperation_Arithmetic kind st = inr (NoOp, reported message popped)).
Proof.
  intros popped. subst popped.
  split; [|rewrite (state_TheStack st _ Hstack); split].
  - intros first second type -> Hoperands.
    simpl in Hlength. assert (count = 2%N) as -> by lia.
    by eapply CreateOperation_Arithmetic_binary.
  - intros entry elementtype -> (Hty & Hop & Harr & Hnum).
    simpl in Hlength. assert (count = 1%N) as -> by lia.
    unfold CreateOperation_Arithmetic, PassedParameterCount_top, mbind, M_bind, gets.
    simpl. rewrite Hcount. simpl. rewrite Hty. simpl. rewrite Hop. simpl.
    simpl in Harr. rewrite Harr. simpl. by rewrite Hnum.
  - intros Hnb Hnf.
    unfold CreateOperation_Arithmetic, PassedParameterCount_top, mbind, M_bind, gets.
    simpl. rewrite Hcount. simpl.
    destruct (decide (count = 1%N)) as [->|Hn1].
    + destruct entries as [|entry [|? ?]]; try done. simpl.
      destruct (decide (StackEntry_Type entry ≠ STACKENTRYTYPE_OPERATION)) as [Hty|Hty].
      { by eexists. }
      apply dec_stable in Hty.
      destruct (Hqueries Hty) as (op & type & Hop & Htype).
      rewrite Hop. simpl. simpl in Htype. rewrite Htype. simpl.
      destruct (decide (type ≠ EpochVariableType_Array)) as [Harr|Harr].
      { by eexists. }
      apply dec_stable in Harr. subst type.
      destruct (as_ConsArray op) as [elementtype|] eqn:Hcons; simpl.
      * destruct op; try done. simpl in Hcons. injection Hcons as ->.
        destruct (is_arithmetic_type elementtype) eqn:Hnum; simpl.
        { destruct Hnf. by exists entry, elementtype. }
        by eexists.
      * by eexists.
    + destruct (decide (count ≠ 2%N)) as [Hn2|Hn2].
      * rewrite <- Hlength. eexists. simpl. unfold mbind, M_bind. simpl.
        by rewrite (repeatM_pop entries rest).
      * apply dec_stable in Hn2. subst count.
        destruct entries as [|second [|first [|? ?]]]; try done. simpl.
        destruct Hqueries as (t1 & t2 & Ht1 & Ht2). simpl in Ht1, Ht2.
        rewrite Ht1, Ht2. simpl.
        destruct (decide (t1 ≠ t2)) as [Hne|Heq]; simpl.
        { by eexists. }
        apply dec_stable in Heq. subst t2.
        destruct (is_arithmetic_type t1) eqn:Hnum; simpl.
        { destruct Hnb. by exists first, second, t1. }
        by eexists.
Qed.

End ArithmeticFacts.

Section ArithmeticRuns.
Import VM Parser.

(** The phrase [add(1, 2)]. *)
Lemma CreateOperation_Arithmetic_spec_witness :
  CreateOperation_Add (EC := simple_code) two_integers_state
  = inr (ArithmeticBinary Arith_Add EpochVariableType_Integer false false,
         upd_TheStack (λ _, []) two_integers_state).
Proof.
  apply (proj1 (CreateOperation_Arithmetic_spec (EC := simple_code) Arith_Add
                  two_integers_state 2%N []
                  [mkStackEntry_Literal EpochVariableType_Integer;
                   mkStackEntry_Literal EpochVariableType_Integer] []
                  eq_refl eq_refl eq_refl
                  (ex_intro _ _ (ex_intro _ _ (conj eq_refl eq_refl))))
          _ _ EpochVariableType_Integer eq_refl).
  by repeat split.
Defined.

(** The fold form is not built for an array variable: the single operand [xs] is an array of
    integers, and [CreateOperation_Add] reports a fatal error and returns a
    [NoOp] instead of the fold-over-array form. *)
Lemma CreateOperation_Add_array_variable :
  array_operand (ScopeHeap array_variable_state) (CurrentScope array_variable_state)
    (mkStackEntry_Identifier "xs") EpochVariableType_Integer ∧
  CreateOperation_Add (EC := simple_code) array_variable_state
  = inr (NoOp, reported "add() function expects 2 parameters or 1 array"
                 (upd_TheStack (λ _, []) array_variable_state)).
Proof. split; [left; by vm_compute|by vm_compute]. Qed.

End ArithmeticRuns.

#[global] Hint Unfold Parser.get_Block Parser.get_Scope Parser.update_Block
  Parser.update_Scope Parser.Block_AddOperation Parser.Block_BindToScope
  Parser.Block_GetTailOperation Parser.Blocks_back Parser.Blocks_pop_back
  Parser.Blocks_push_back Parser.AddOperationToCurrentBlock Parser.PopParameterCount
  Parser.PoolStaticString Parser.leave_CurrentScope Parser.new_Block
  Parser.new_ScopeDescription Parser.log_call Parser.get_CreatedStructureType
  Parser.VariableNameStack_top Parser.AddStructureType Parser.reported : builder.

Section StructureFacts.
Import VM Parser.
Context {EC : ExternalCode}.

Lemma declare_member_adds (m : MemberDeclaration) (st st' : ParserState) :
  declare_member m st = inr ((), st') →
  same_registry st st' ∧
  ∃ t t', CreatedStructureType st = Some t ∧ CreatedStructureType st' = Some t' ∧
          MemberOrder t' = MemberOrder t ++ [member_identifier m].
Proof.
  destruct m as [identifier type|typename identifier]; simpl.
  - unfold RegisterStructureMember. mrun.
    destruct (CreatedStructureType st) as [t|] eqn:Ht; mrun; [|done].
    case_decide; mrun; [done|]. intros [= <-]. simpl. split; [by unfold same_registry|].
    exists t. eexists. done.
  - unfold RegisterStructureUnknownTypeName, RegisterStructureMemberUnknown. mrun.
    repeat (case_match; mrun; simplify_eq/=; try done);
      (intros [= <-]; simpl; split; [by unfold same_registry|]; eexists; eexists; done).
Qed.

Lemma declare_members_add (members : list MemberDeclaration) (st st' : ParserState)
    (t : CompositeType) :
  declare_members members st = inr ((), st') →
  CreatedStructureType st = Some t →
  same_registry st st' ∧
  ∃ t', CreatedStructureType st' = Some t' ∧
        MemberOrder t' = MemberOrder t ++ (member_identifier <$> members).
Proof.
  revert st t. induction members as [|m members IH]; intros st t; simpl.
  - intros [= <-] Ht. split; [done|]. exists t. by rewrite app_nil_r.
  - mrun. destruct (declare_member m st) as [e|[[] st1]] eqn:Hm; [done|].
    intros Hrest Ht.
    destruct (declare_member_adds _ _ _ Hm) as [Hsame (t0 & t1 & Ht0 & Ht1 & Horder)].
    rewrite Ht in Ht0. injection Ht0 as <-.
    destruct (IH _ _ Hrest Ht1) as [Hsame' (t' & Ht' & Horder')].
    split.
    + destruct Hsame as (? & ? & ? & ? & ?), Hsame' as (? & ? & ? & ? & ?).
      repeat split; congruence.
    + exists t'. split; [done|]. rewrite Horder', Horder. by rewrite <- app_assoc.
Qed.


End StructureFacts.

Section StructureRuns.
Import VM Parser Examples.


End StructureRuns.

#[global] Hint Unfold Parser.push_ExpectedBlockType Parser.set_operation
  Parser.find_If_from_tail Parser.check_condition_is_boolean
  Parser.top_is_not_of_type Parser.expect_top_of_type Parser.SavedTaskNames_top
  Parser.DisplacedScopes_back Parser.pop_task_bookkeeping Parser.TrackTaskName : builder.

(** Run the builder monad, resolving the lookups of freshly written heap
    cells on the way. *)
Ltac mheap :=
  repeat (progress (mrun; rewrite ?lookup_insert_eq; rewrite ?insert_insert_eq)).

(** The same, also rewriting with the equations of the context. *)
Ltac mhyps :=
  repeat (progress (mrun; rewrite ?lookup_insert_eq; rewrite ?insert_insert_eq;
                    repeat match goal with
                           | H : ?l = _ |- context [?l] => rewrite H
                           end)).

(** Look through a heap cell that was written at another address. *)
Ltac heap_ne :=
  match goal with
  | |- context [<[?i:=?x]> ?m !! ?j] => rewrite (lookup_insert_ne m i j x) by done
  end.

Section TaskScopeFacts.
Import VM Parser.
Context {EC : ExternalCode}.

Lemma EnterBlock_task (st : ParserState) (type : BlockType) (rest : list BlockType) :
  ExpectedBlockTypes st = type :: rest →
  type = BLOCKENTRYTYPE_TASK ∨ type = BLOCKENTRYTYPE_THREAD →
  let b := fresh (dom (BlockHeap st)) in
  let s := fresh (dom (ScopeHeap st)) in
  ∃ st', EnterBlock st = inr ((), st') ∧
         BlockHeap st' = <[b := {| Ops := []; BoundScope := Some s |}]> (BlockHeap st) ∧
         ScopeHeap st' = <[s := scope_ParentScope (λ _, Some (GlobalScope st)) empty_scope]>
                           (ScopeHeap st) ∧
         DisplacedScopes st' = CurrentScope st :: DisplacedScopes st ∧
         CurrentScope st' = Some s ∧
         Blocks st' = {| TheBlock := Some b; BlockEntry_Type := type |} :: Blocks st ∧
         ExpectedBlockTypes st' = rest.
Proof.
  intros Hexp Htype b s.
  unfold EnterBlock. mrun. rewrite Hexp.
  destruct Htype as [-> | ->]; eexists; unfold EnterBlock_open; mheap; rewrite Hexp; mheap;
    (split; [reflexivity|]); simpl; rewrite ?insert_insert_eq, ?Hexp; done.
Qed.

Lemma ExitBlock_task (st : ParserState) (body : option BlockID) (eb : BlockID)
    (etype : BlockType) (blocks : list BlockEntry) (blk : Block)
    (saved : option ScopeID) (displaced : list (option ScopeID))
    (entry : StackEntry) (stack : list StackEntry) (name : string) (names : list string) :
  Blocks st = {| TheBlock := body; BlockEntry_Type := BLOCKENTRYTYPE_TASK |}
              :: {| TheBlock := Some eb; BlockEntry_Type := etype |} :: blocks →
  BlockHeap st !! eb = Some blk →
  DisplacedScopes st = saved :: displaced →
  TheStack st = entry :: stack →
  DetermineEffectiveType entry (ScopeHeap st) saved = inr EpochVariableType_String →
  SavedTaskNames st = name :: names →
  ∃ st', ExitBlock st = inr ((), st') ∧
         CurrentScope st' = saved ∧ DisplacedScopes st' = displaced ∧
         BlockHeap st' = <[eb := append_operation (ForkTask body) blk]> (BlockHeap st) ∧
         ScopeHeap st' = ScopeHeap st ∧
         Blocks st' = {| TheBlock := Some eb; BlockEntry_Type := etype |} :: blocks.
Proof.
  intros Hblocks Heb Hdisplaced Hstack Htype Hnames. eexists.
  split; [unfold ExitBlock, ExitBlock_case; mhyps; reflexivity|]. done.
Qed.

Lemma ExitBlock_thread (st : ParserState) (body : option BlockID) (eb : BlockID)
    (etype : BlockType) (blocks : list BlockEntry) (blk : Block)
    (saved : option ScopeID) (displaced : list (option ScopeID))
    (pool entry : StackEntry) (stack : list StackEntry) (name : string)
    (names : list string) :
  Blocks st = {| TheBlock := body; BlockEntry_Type := BLOCKENTRYTYPE_THREAD |}
              :: {| TheBlock := Some eb; BlockEntry_Type := etype |} :: blocks →
  BlockHeap st !! eb = Some blk →
  DisplacedScopes st = saved :: displaced →
  TheStack st = pool :: entry :: stack →
  DetermineEffectiveType pool (ScopeHeap st) saved = inr EpochVariableType_String →
  DetermineEffectiveType entry (ScopeHeap st) saved = inr EpochVariableType_String →
  SavedTaskNames st = name :: names →
  ∃ st', ExitBlock st = inr ((), st') ∧
         CurrentScope st' = saved ∧ DisplacedScopes st' = displaced ∧
         BlockHeap st' = <[eb := append_operation (ForkThread body) blk]> (BlockHeap st) ∧
         ScopeHeap st' = ScopeHeap st ∧
         Blocks st' = {| TheBlock := Some eb; BlockEntry_Type := etype |} :: blocks.
Proof.
  intros Hblocks Heb Hdisplaced Hstack Hpool Htype Hnames. eexists.
  split; [unfold ExitBlock, ExitBlock_case; mhyps; reflexivity|]. done.
Qed.

End TaskScopeFacts.

Section IfChainFacts.
Import VM Parser.
Context {EC : ExternalCode}.

Lemma walk_to_If_from (ops : list Operation) (scopes : gmap ScopeID ScopeDescription)
    (scope : option ScopeID) (index offset : nat) (t f w : option BlockID) :
  GetOperationFromEnd ops offset scopes scope = Some index →
  ops !! index = Some (If t f w) →
  (∀ k, (k < offset)%nat →
        ∃ j b, GetOperationFromEnd ops k scopes scope = Some j ∧
               ops !! j = Some (ElseIfWrapper b)) →
  ∀ distance start fuel,
    (start + distance = offset)%nat → (distance < fuel)%nat →
    walk_to_If fuel ops scopes scope start = inr (Some index).
Proof.
  intros Hget Hif Hskip. induction distance as [|distance IH]; intros start fuel Hsum Hfuel.
  - destruct fuel as [|fuel]; [lia|]. simpl.
    replace start with offset by lia. by rewrite Hget, Hif.
  - destruct fuel as [|fuel]; [lia|]. simpl.
    destruct (Hskip start) as (j & b & Hj & Hw); [lia|].
    rewrite Hj, Hw. apply IH; lia.
Qed.

Lemma walk_to_If_nearest (ops : list Operation) (scopes : gmap ScopeID ScopeDescription)
    (scope : option ScopeID) (index : nat) (t f w : option BlockID) :
  nearest_If ops scopes scope index t f w →
  walk_to_If (length ops) ops scopes scope 0 = inr (Some index).
Proof.
  intros (offset & Hlt & Hget & Hif & Hskip).
  by apply (walk_to_If_from ops scopes scope index offset t f w Hget Hif Hskip offset 0%nat).
Qed.

Lemma RegisterControl_first_elseif (st : ParserState) (cb : BlockID) (ctype : BlockType)
    (blocks : list BlockEntry) (blk : Block) (index : nat) (t f : option BlockID) :
  Blocks st = {| TheBlock := Some cb; BlockEntry_Type := ctype |} :: blocks →
  BlockHeap st !! cb = Some blk →
  nearest_If (Ops blk) (ScopeHeap st) (CurrentScope st) index t f None →
  let wb := fresh (dom (BlockHeap st)) in
  let s := fresh (dom (ScopeHeap st)) in
  ∃ st', RegisterControl Keywords_ElseIf false st = inr ((), st') ∧
         BlockHeap st !! wb = None ∧
         BlockHeap st' = <[cb := replace_operation index (If t f (Some wb)) blk]>
                           (<[wb := {| Ops := []; BoundScope := Some s |}]> (BlockHeap st)) ∧
         ScopeHeap st' = <[s := scope_ParentScope (λ _, CurrentScope st) empty_scope]> (ScopeHeap st) ∧
         Blocks st' = {| TheBlock := Some wb; BlockEntry_Type := BLOCKENTRYTYPE_ELSEIFWRAPPER |}
                      :: Blocks st ∧
         ExpectedBlockTypes st' = BLOCKENTRYTYPE_ELSEIF :: ExpectedBlockTypes st.
Proof.
  intros Hblocks Hcb Hnear wb s.
  pose proof (walk_to_If_nearest _ _ _ _ _ _ _ Hnear) as Hwalk.
  destruct Hnear as (offset & Hlt & Hget & Hif & Hskip).
  assert (BlockHeap st !! wb = None) as Hfresh.
  { apply not_elem_of_dom. apply is_fresh. }
  assert (wb ≠ cb) as Hne by (intros ->; by rewrite Hcb in Hfresh).
  eexists. split; [|split; [exact Hfresh|]].
  - unfold RegisterControl. repeat (mhyps; try heap_ne). reflexivity.
  - simpl. rewrite Hblocks, !insert_insert_eq. done.
Qed.

Lemma RegisterControl_next_elseif (st : ParserState) (cb : BlockID) (ctype : BlockType)
    (blocks : list BlockEntry) (blk : Block) (index : nat) (t f : option BlockID)
    (wb : BlockID) :
  Blocks st = {| TheBlock := Some cb; BlockEntry_Type := ctype |} :: blocks →
  BlockHeap st !! cb = Some blk →
  nearest_If (Ops blk) (ScopeHeap st) (CurrentScope st) index t f (Some wb) →
  ∃ st', RegisterControl Keywords_ElseIf false st = inr ((), st') ∧
         BlockHeap st' = BlockHeap st ∧ ScopeHeap st' = ScopeHeap st ∧
         Blocks st' = {| TheBlock := Some wb; BlockEntry_Type := BLOCKENTRYTYPE_ELSEIFWRAPPER |}
                      :: Blocks st ∧
         ExpectedBlockTypes st' = BLOCKENTRYTYPE_ELSEIF :: ExpectedBlockTypes st.
Proof.
  intros Hblocks Hcb Hnear.
  pose proof (walk_to_If_nearest _ _ _ _ _ _ _ Hnear) as Hwalk.
  destruct Hnear as (offset & Hlt & Hget & Hif & Hskip).
  eexists. split; [unfold RegisterControl; mhyps; reflexivity|].
  simpl. by rewrite Hblocks.
Qed.

Lemma ExitBlock_elseif (st : ParserState) (bb wb : BlockID) (blocks : list BlockEntry)
    (bodyblk wblk : Block) (entry : StackEntry) (stack : list StackEntry)
    (cs : ScopeID) (d : ScopeDescription) :
  Blocks st = {| TheBlock := Some bb; BlockEntry_Type := BLOCKENTRYTYPE_ELSEIF |}
              :: {| TheBlock := Some wb; BlockEntry_Type := BLOCKENTRYTYPE_ELSEIFWRAPPER |}
              :: blocks →
  bb ≠ wb →
  BlockHeap st !! bb = Some bodyblk →
  BlockHeap st !! wb = Some wblk →
  TheStack st = entry :: stack →
  boolean_condition st entry →
  CurrentScope st = Some cs →
  ScopeHeap st !! cs = Some d →
  ∃ st', ExitBlock st = inr ((), st') ∧
         BlockHeap st' = <[wb := append_operation (ElseIf (Some bb)) wblk]>
                           (<[bb := append_operation ExitIfChain bodyblk]> (BlockHeap st)) ∧
         Blocks st' = blocks ∧ TheStack st' = stack ∧
         CurrentScope st' = ParentScope d ∧ ParseFailed st' = ParseFailed st.
Proof.
  intros Hblocks Hne Hbb Hwb Hstack Hcond Hcs Hd.
  destruct Hcond as [[Hty Hvar]|[Hty (op & Hop & Htype)]].
  - rewrite Hcs in Hvar.
    eexists. split; [unfold ExitBlock, ExitBlock_case, check_condition_entry;
                     repeat (mhyps; try heap_ne); reflexivity|].
    simpl. done.
  - rewrite Hcs in Htype.
    eexists. split; [unfold ExitBlock, ExitBlock_case, check_condition_entry;
                     repeat (mhyps; try heap_ne); reflexivity|].
    simpl. done.
Qed.

Lemma ExitBlock_else (st : ParserState) (elseblock : option BlockID) (eb : BlockID)
    (etype : BlockType) (blocks : list BlockEntry) (blk : Block) (index : nat)
    (t f w : option BlockID) (cs : ScopeID) (d : ScopeDescription) :
  Blocks st = {| TheBlock := elseblock; BlockEntry_Type := BLOCKENTRYTYPE_ELSE |}
              :: {| TheBlock := Some eb; BlockEntry_Type := etype |} :: blocks →
  BlockHeap st !! eb = Some blk →
  nearest_If (Ops blk) (ScopeHeap st) (CurrentScope st) index t f w →
  CurrentScope st = Some cs →
  ScopeHeap st !! cs = Some d →
  ∃ st', ExitBlock st = inr ((), st') ∧
         BlockHeap st' = <[eb := replace_operation index (If t elseblock w) blk]>
                           (BlockHeap st) ∧
         Blocks st' = {| TheBlock := Some eb; BlockEntry_Type := etype |} :: blocks ∧
         CurrentScope st' = ParentScope d ∧ ParseFailed st' = ParseFailed st.
Proof.
  intros Hblocks Heb Hnear Hcs Hd.
  pose proof (walk_to_If_nearest _ _ _ _ _ _ _ Hnear) as Hwalk.
  destruct Hnear as (offset & Hlt & Hget & Hif & Hskip).
  rewrite Hcs in Hwalk.
  eexists. split; [unfold ExitBlock, ExitBlock_case; mhyps; reflexivity|].
  simpl. done.
Qed.

End IfChainFacts.

Section IfChainClaim.
Import VM Parser.
Context {EC : ExternalCode}.


End IfChainClaim.

Section IfChainRuns.
Import VM Parser Examples.


End IfChainRuns.

Section ParallelForFacts.
Import VM Parser.
Context {EC : ExternalCode}.

Lemma RegisterEndOfParallelFor_count (st : ParserState) (count : N) (counts : list N)
    (e0 e1 e2 e3 : StackEntry) (stack : list StackEntry) :
  PassedParameterCount st = count :: counts → count ≠ 4%N →
  TheStack st = e0 :: e1 :: e2 :: e3 :: stack →
  ∃ st', RegisterEndOfParallelFor st = inr ((), st') ∧
         ParseFailed st' = true ∧
         Diagnostics st' = Diagnostics st ++ ["parallelfor() expects 4 parameters"] ∧
         BlockHeap st' = BlockHeap st ∧ TheStack st' = TheStack st.
Proof.
  intros Hcounts Hcount Hstack. eexists.
  split; [unfold RegisterEndOfParallelFor; mhyps; case_decide; [|done]; mhyps;
          reflexivity|].
  done.
Qed.

Lemma ExitBlock_parallelfor_thread_count (st : ParserState) (body : option BlockID)
    (blocks : list BlockEntry) :
  Blocks st = {| TheBlock := body; BlockEntry_Type := BLOCKENTRYTYPE_PARALLELFOR |}
              :: blocks →
  (TheStack st = [] ∨
   ∃ entry stack type,
     TheStack st = entry :: stack ∧
     DetermineEffectiveType entry (ScopeHeap st) (CurrentScope st) = inr type ∧
     type ≠ EpochVariableType_Integer) →
  ExitBlock st
    = inl (ParserFailureException "Last parameter to parallelfor() should be a thread count").
Proof.
  intros Hblocks [Hstack|(entry & stack & type & Hstack & Htype & Hbad)];
    unfold ExitBlock, ExitBlock_case; mhyps; [done|].
  by rewrite bool_decide_true.
Qed.

Lemma ExitBlock_parallelfor_upper_bound (st : ParserState) (body : option BlockID)
    (blocks : list BlockEntry) (count : StackEntry) :
  Blocks st = {| TheBlock := body; BlockEntry_Type := BLOCKENTRYTYPE_PARALLELFOR |}
              :: blocks →
  DetermineEffectiveType count (ScopeHeap st) (CurrentScope st)
    = inr EpochVariableType_Integer →
  (TheStack st = [count] ∨
   ∃ entry stack type,
     TheStack st = count :: entry :: stack ∧
     DetermineEffectiveType entry (ScopeHeap st) (CurrentScope st) = inr type ∧
     type ≠ EpochVariableType_Integer) →
  ExitBlock st
    = inl (ParserFailureException
             "Third parameter to parallelfor() should be an upper boundary value").
Proof.
  intros Hblocks Hcount [Hstack|(entry & stack & type & Hstack & Htype & Hbad)];
    unfold ExitBlock, ExitBlock_case; mhyps; [done|].
  by rewrite bool_decide_true.
Qed.

Lemma ExitBlock_parallelfor_lower_bound (st : ParserState) (body : option BlockID)
    (blocks : list BlockEntry) (count upper : StackEntry) :
  Blocks st = {| TheBlock := body; BlockEntry_Type := BLOCKENTRYTYPE_PARALLELFOR |}
              :: blocks →
  DetermineEffectiveType count (ScopeHeap st) (CurrentScope st)
    = inr EpochVariableType_Integer →
  DetermineEffectiveType upper (ScopeHeap st) (CurrentScope st)
    = inr EpochVariableType_Integer →
  (TheStack st = [count; upper] ∨
   ∃ entry stack type,
     TheStack st = count :: upper :: entry :: stack ∧
     DetermineEffectiveType entry (ScopeHeap st) (CurrentScope st) = inr type ∧
     type ≠ EpochVariableType_Integer) →
  ExitBlock st
    = inl (ParserFailureException
             "Second parameter to parallelfor() should be a lower boundary value").
Proof.
  intros Hblocks Hcount Hupper [Hstack|(entry & stack & type & Hstack & Htype & Hbad)];
    unfold ExitBlock, ExitBlock_case; mhyps; [done|].
  by rewrite bool_decide_true.
Qed.

Lemma ExitBlock_parallelfor_counter (st : ParserState) (body : option BlockID)
    (blocks : list BlockEntry) (count upper lower entry : StackEntry)
    (stack : list StackEntry) (s : ScopeID) (d : ScopeDescription) :
  Blocks st = {| TheBlock := body; BlockEntry_Type := BLOCKENTRYTYPE_PARALLELFOR |}
              :: blocks →
  TheStack st = count :: upper :: lower :: entry :: stack →
  DetermineEffectiveType count (ScopeHeap st) (CurrentScope st)
    = inr EpochVariableType_Integer →
  DetermineEffectiveType upper (ScopeHeap st) (CurrentScope st)
    = inr EpochVariableType_Integer →
  DetermineEffectiveType lower (ScopeHeap st) (CurrentScope st)
    = inr EpochVariableType_Integer →
  StackEntry_Type entry ≠ STACKENTRYTYPE_IDENTIFIER →
  CurrentScope st = Some s → ScopeHeap st !! s = Some d →
  ∃ st', ExitBlock st = inr ((), st') ∧
         ParseFailed st' = true ∧
         Diagnostics st' = Diagnostics st ++
           ["First parameter to parallelfor() should be a loop counter variable name"] ∧
         BlockHeap st' = BlockHeap st ∧ Blocks st' = blocks ∧ TheStack st' = stack ∧
         CurrentScope st' = ParentScope d.
Proof.
  intros Hblocks Hstack Hcount Hupper Hlower Hentry Hcur Hs. eexists.
  split; [unfold ExitBlock, ExitBlock_case; mhyps; case_decide; [|done]; mhyps;
          reflexivity|].
  done.
Qed.


End ParallelForFacts.

Section ParallelForRuns.
Import VM Parser Examples.



End ParallelForRuns.

(** ** Operator precedence *)

Section OperatorTableFacts.
Import VM Parser.
Context {EC : ExternalCode}.

Lemma keeps_operators_ret {A} (a : A) : keeps_operators (mret a).
Proof. by intros st a' st' [= <- <-]. Qed.

Lemma keeps_operators_bind {A B} (m : M A) (f : A → M B) :
  keeps_operators m → (∀ a, keeps_operators (f a)) → keeps_operators (m ≫= f).
Proof.
  intros Hm Hf st b st'. unfold mbind, M_bind.
  destruct (m st) as [e|[a st1]] eqn:Hrun; [done|].
  intros Hrest. rewrite (Hf _ _ _ _ Hrest). by apply (Hm _ _ _ Hrun).
Qed.

Lemma keeps_operators_throw {A} (e : Exception) : keeps_operators (throw e : M A).
Proof. by intros st a st'. Qed.

Lemma keeps_operators_lift {A} (r : result A) : keeps_operators (lift r).
Proof. intros st a st'. unfold lift. destruct r; [done|]. by intros [= <- <-]. Qed.

Lemma keeps_operators_gets {A} (f : ParserState → A) : keeps_operators (gets f).
Proof. by intros st a st' [= <- <-]. Qed.

Lemma keeps_operators_modify (f : ParserState → ParserState) :
  (∀ st, InfixOperators (f st) = InfixOperators st) → keeps_operators (modify f).
Proof. intros Hf st a st' [= <- <-]. apply Hf. Qed.

Lemma keeps_operators_repeatM (n : nat) (m : M unit) :
  keeps_operators m → keeps_operators (repeatM n m).
Proof.
  intros Hm. induction n as [|n IH]; simpl.
  - apply keeps_operators_ret.
  - apply keeps_operators_bind; [done|]. by intros _.
Qed.

End OperatorTableFacts.

Ltac operators_step :=
  lazymatch goal with
  | |- Parser.keeps_operators (mret _) => apply keeps_operators_ret
  | |- Parser.keeps_operators (mbind _ _) => apply keeps_operators_bind; [|intros ?; cbn beta]
  | |- Parser.keeps_operators (Parser.throw _) => apply keeps_operators_throw
  | |- Parser.keeps_operators (Parser.gets _) => apply keeps_operators_gets
  | |- Parser.keeps_operators (Parser.lift _) => apply keeps_operators_lift
  | |- Parser.keeps_operators (Parser.modify _) => apply keeps_operators_modify; by intros
  | |- Parser.keeps_operators (Parser.repeatM _ _) => apply keeps_operators_repeatM
  | |- Parser.keeps_operators (match ?x with _ => _ end) => destruct x eqn:?
  | |- Parser.keeps_operators (let '(_, _) := ?x in _) => destruct x eqn:?
  | |- Parser.keeps_operators ?m =>
      first [ solve [eauto]
            | let h := keeps_head m in unfold h ]
  end.

Section PrecedenceFacts.
Import VM Parser.
Context {EC : ExternalCode}.

(** What is asked of the operation builders that are not among the sources:
    they leave the table of the operators alone. *)
Hypothesis CreateOperation_other_operators :
  ∀ opname, keeps_operators (CreateOperation_other opname).

Lemma combine_units_operators (expressiontype : EpochVariableTypeID)
    (operator : OperatorName) (first second : InfixUnit) :
  keeps_operators (combine_units expressiontype operator first second).
Proof. unfold combine_units. repeat operators_step. Qed.

Lemma GetInfixPrecedence_of (st : ParserState) (operator : OperatorName) (level : nat) :
  precedence_of st operator = Some level →
  GetInfixPrecedence operator st = inr (level, st).
Proof.
  unfold precedence_of, GetInfixPrecedence. mrun.
  destruct (find_operator operator (InfixOperators st)); [|done]. by intros [= <-].
Qed.

(** A pass over operators none of which is at the level of the pass: each
    stays in the list, and each but the assignment steps over one unit. *)
Lemma scan_operators_skip (level : nat) (expressiontype : EpochVariableTypeID)
    (st : ParserState) (operators : list OperatorName) :
  ∀ (keep : list OperatorName) (before stepped rest : list InfixUnit) (r : bool)
    (lvalue : string),
  Forall (λ o, ∃ q, precedence_of st o = Some q ∧ q ≠ level) operators →
  length stepped = units_before operators →
  scan_operators level expressiontype operators
    {| kept := keep; passed := before; units := stepped ++ rest; ret := r;
       injectlvalue := lvalue |} st
  = inr (Running {| kept := keep ++ operators; passed := before ++ stepped;
                    units := rest; ret := r; injectlvalue := lvalue |}, st).
Proof.
  induction operators as [|o operators IH]; intros keep before stepped rest r lvalue Hall Hlen.
  - destruct stepped; [|done]. simpl. by rewrite !app_nil_r.
  - apply Forall_cons in Hall as [(q & Hq & Hne) Hall]. simpl.
    unfold mbind at 1, M_bind at 1. rewrite (GetInfixPrecedence_of _ _ _ Hq).
    rewrite decide_False by done. unfold units_before in Hlen. simpl in Hlen.
    destruct (decide (o ≠ Operators_Assign)) as [Ho|Ho].
    + rewrite filter_cons_True in Hlen by done.
      destruct stepped as [|unit stepped]; [done|]. simpl in *.
      rewrite (IH (keep ++ [o]) (before ++ [unit]) stepped rest r lvalue Hall);
        [|unfold units_before; lia].
      by rewrite <- !app_assoc.
    + rewrite filter_cons_False in Hlen by done.
      rewrite (IH (keep ++ [o]) before stepped rest r lvalue Hall Hlen).
      by rewrite <- !app_assoc.
Qed.

(** The levels above those of all the operators change nothing. *)
Lemma precedence_levels_skip (expressiontype : EpochVariableTypeID) (st : ParserState)
    (operators : list OperatorName) (unitlist : list InfixUnit) (r : bool)
    (lvalue : string) (low : nat) :
  ∀ above : nat,
  Forall (λ o, ∃ q, precedence_of st o = Some q ∧ (q ≤ low ∨ low + above < q)%nat)
    operators →
  (units_before operators ≤ length unitlist)%nat →
  precedence_levels (low + above) expressiontype operators unitlist r lvalue st
  = precedence_levels low expressiontype operators unitlist r lvalue st.
Proof.
  induction above as [|above IH]; intros Hall Hlen.
  - by rewrite Nat.add_0_r.
  - rewrite Nat.add_succ_r. simpl precedence_levels at 1.
    unfold mbind at 1, M_bind at 1.
    rewrite <- (take_drop (units_before operators) unitlist) at 1.
    rewrite (scan_operators_skip _ _ _ _ [] []).
    + simpl. rewrite take_drop. apply IH; [|done].
      eapply Forall_impl; [exact Hall|]. intros o (q & Hq & Hrange). exists q. split; [done|lia].
    + eapply Forall_impl; [exact Hall|]. intros o (q & Hq & Hrange). exists q. split; [done|lia].
    + rewrite length_take. lia.
Qed.

(** Once no operator is left, the remaining levels change nothing. *)
Lemma precedence_levels_done (expressiontype : EpochVariableTypeID) (st : ParserState)
    (unitlist : list InfixUnit) (r : bool) (lvalue : string) (levels : nat) :
  precedence_levels levels expressiontype [] unitlist r lvalue st
  = inr (Running {| kept := []; passed := []; units := unitlist; ret := r;
                    injectlvalue := lvalue |}, st).
Proof. induction levels as [|levels IH]; simpl; [done|]. mrun. apply IH. Qed.

Lemma precedence_of_kept (operator : OperatorName) (st st' : ParserState) (level : nat) :
  InfixOperators st' = InfixOperators st →
  precedence_of st operator = Some level → precedence_of st' operator = Some level.
Proof. unfold precedence_of. by intros ->. Qed.

(** [a o1 b o2 c] where [o2] binds tighter than [o1]. *)
Lemma precedence_two_operators (expressiontype : EpochVariableTypeID)
    (o1 o2 : OperatorName) (a b c : InfixUnit) (st : ParserState) (p1 p2 : nat) :
  o1 ≠ Operators_Assign → o2 ≠ Operators_Assign →
  precedence_of st o1 = Some p1 → precedence_of st o2 = Some p2 →
  (0 < p1 < p2)%nat → (p2 ≤ 13)%nat →
  apply_precedence expressiontype [o1; o2] [a; b; c] st
  = (bc ← combine_units expressiontype o2 b c;
     abc ← combine_units expressiontype o1 a bc;
     mret (Running {| kept := []; passed := []; units := [abc]; ret := false;
                      injectlvalue := "" |})) st.
Proof.
  intros Ho1 Ho2 Hp1 Hp2 Hlt Hmax. unfold apply_precedence.
  change (prec_value OPREC_MAX - 1)%nat with 13%nat.
  replace 13%nat with (p2 + (13 - p2))%nat by lia.
  rewrite precedence_levels_skip; cycle 1.
  { repeat constructor; eexists; (split; [eassumption|lia]). }
  { unfold units_before. rewrite !filter_cons_True by done. simpl. lia. }
  destruct p2 as [|p2]; [lia|]. simpl precedence_levels. simpl scan_operators.
  unfold mbind at 1 2, M_bind at 1 2. rewrite (GetInfixPrecedence_of _ _ _ Hp1).
  rewrite (decide_False (P := p1 = S p2)) by lia.
  rewrite (decide_True (P := o1 ≠ Operators_Assign)) by done. simpl units.
  unfold mbind at 1, M_bind at 1. rewrite (GetInfixPrecedence_of _ _ _ Hp2).
  rewrite (decide_True (P := S p2 = S p2)) by done.
  rewrite (decide_False (P := o2 = Operators_Assign)) by done. simpl units.
  unfold mbind at 1 2, M_bind at 1 2.
  destruct (combine_units expressiontype o2 b c st) as [e|[bc st1]] eqn:Hbc; [done|].
  unfold mret at 1, M_ret at 1. simpl.
  pose proof (combine_units_operators _ _ _ _ _ _ _ Hbc) as Htable.
  apply (precedence_of_kept _ _ _ _ Htable) in Hp1.
  replace p2 with (p1 + (p2 - p1))%nat by lia.
  rewrite precedence_levels_skip; cycle 1.
  { repeat constructor; eexists; (split; [eassumption|lia]). }
  { unfold units_before. rewrite !filter_cons_True by done. simpl. lia. }
  destruct p1 as [|p1]; [lia|]. simpl precedence_levels. simpl scan_operators.
  unfold mbind at 1 2, M_bind at 1 2. rewrite (GetInfixPrecedence_of _ _ _ Hp1).
  rewrite (decide_True (P := S p1 = S p1)) by done.
  rewrite (decide_False (P := o1 = Operators_Assign)) by done. simpl units.
  unfold mbind at 1 2, M_bind at 1 2.
  destruct (combine_units expressiontype o1 a bc st1) as [e|[abc st2]] eqn:Habc; [done|].
  unfold mret at 1, M_ret at 1. simpl. apply precedence_levels_done.
Qed.

(** [x = b o2 c]: the assignment has no unit on its left; its left side waits
    on the stack until the level of the assignment is reached. *)
Lemma precedence_assignment (expressiontype : EpochVariableTypeID) (o2 : OperatorName)
    (b c : InfixUnit) (st : ParserState) (p1 p2 : nat) :
  o2 ≠ Operators_Assign →
  precedence_of st Operators_Assign = Some p1 → precedence_of st o2 = Some p2 →
  (0 < p1 < p2)%nat → (p2 ≤ 13)%nat →
  apply_precedence expressiontype [Operators_Assign; o2] [b; c] st
  = (bc ← combine_units expressiontype o2 b c;
     entry ← TheStack_back;
     TheStack_pop_back;;
     scopes ← gets ScopeHeap;
     scope ← gets CurrentScope;
     type ← lift (GetVariableType scopes scope (StringValue entry));
     if decide (type ≠ expressiontype) then
       ReportFatalError "Variable must have the same type as the expression";;
       replace_top_operators [Operators_Assign];;
       mret (Returned false)
     else
       mret (Running {| kept := []; passed := []; units := [bc]; ret := true;
                        injectlvalue := StringValue entry |})) st.
Proof.
  intros Ho2 Hp1 Hp2 Hlt Hmax. unfold apply_precedence.
  change (prec_value OPREC_MAX - 1)%nat with 13%nat.
  replace 13%nat with (p2 + (13 - p2))%nat by lia.
  rewrite precedence_levels_skip; cycle 1.
  { repeat constructor; eexists; (split; [eassumption|lia]). }
  { unfold units_before. rewrite filter_cons_False by (by intros []).
    rewrite filter_cons_True by done. simpl. lia. }
  destruct p2 as [|p2]; [lia|]. simpl precedence_levels. simpl scan_operators.
  unfold mbind at 1 2, M_bind at 1 2. rewrite (GetInfixPrecedence_of _ _ _ Hp1).
  rewrite (decide_False (P := p1 = S p2)) by lia.
  simpl units.
  unfold mbind at 1, M_bind at 1. rewrite (GetInfixPrecedence_of _ _ _ Hp2).
  rewrite (decide_True (P := S p2 = S p2)) by done.
  rewrite (decide_False (P := o2 = Operators_Assign)) by done. simpl units.
  unfold mbind at 1 2, M_bind at 1 2.
  destruct (combine_units expressiontype o2 b c st) as [e|[bc st1]] eqn:Hbc; [done|].
  unfold mret at 1, M_ret at 1. simpl.
  pose proof (combine_units_operators _ _ _ _ _ _ _ Hbc) as Htable.
  apply (precedence_of_kept _ _ _ _ Htable) in Hp1.
  replace p2 with (p1 + (p2 - p1))%nat by lia.
  rewrite precedence_levels_skip; cycle 1.
  { repeat constructor; eexists; (split; [eassumption|lia]). }
  { unfold units_before. rewrite filter_cons_False by (by intros []). simpl. lia. }
  destruct p1 as [|p1]; [lia|]. simpl precedence_levels. simpl scan_operators.
  unfold mbind at 1 2, M_bind at 1 2. rewrite (GetInfixPrecedence_of _ _ _ Hp1).
  rewrite (decide_True (P := S p1 = S p1)) by done.
  mrun. destruct (TheStack st1) as [|entry stack] eqn:Hstack; [done|]. mrun.
  rewrite Hstack. mrun.
  match goal with |- context [GetVariableType ?h ?s ?n] =>
    destruct (GetVariableType h s n) as [e|type]; [done|] end.
  mrun. case_decide; mrun; [done|]. apply precedence_levels_done.
Qed.

(** The unit that stands for an applied operator: the units of its two
    operands (their operations dropped when the operator is a compound that
    took them over), then the push of the operation. *)
Lemma combine_units_shape (expressiontype : EpochVariableTypeID) (operator : OperatorName)
    (first second unit : InfixUnit) (st st' : ParserState) :
  combine_units expressiontype operator first second st = inr (unit, st') →
  ∃ op consarray fromfunction,
    unit = InfixUnitCompound
             [ClearOperands first; second;
              InfixUnitRawOperations [PushOperation (Some op) consarray fromfunction] []]
    ∨ unit = InfixUnitCompound
               [ClearOperations (ClearOperands first); ClearOperations second;
                InfixUnitRawOperations [PushOperation (Some op) consarray fromfunction] []].
Proof.
  unfold combine_units, new_PushOperation, PushOperation_ctor, set_PassedParameterCount_top,
    LookupInfixAlias, new_boolean_operator.
  mrun. intros Hrun.
  repeat (first [ progress simplify_eq/= | case_match | case_decide ]);
    try done; eauto.
Qed.


End PrecedenceFacts.

Section PrecedenceRuns.
Import VM Parser Examples.

Lemma simple_code_operators (opname : Keyword) :
  keeps_operators (CreateOperation_other (ExternalCode := simple_code) opname).
Proof. simpl. unfold simple_CreateOperation_other. repeat operators_step. Qed.


End PrecedenceRuns.

(** * The bytecode loader *)

(** ** Rules for invariants of loader computations *)

Create HintDb keeps discriminated.

Section KeepsRules.
Import VM Loader.
Context (I : FileLoader → Prop).

Lemma keeps_ret {A} {C : Clean A} (a : A) : clean a → keeps I (mret a).
Proof. intros Ha st a' st' HI [= <- <-]. done. Qed.

Lemma keeps_bind {A B} {CA : Clean A} {CB : Clean B} (m : L A) (f : A → L B) :
  keeps I m → (∀ a, clean a → keeps I (f a)) → keeps I (m ≫= f).
Proof.
  intros Hm Hf st b st' HI. unfold mbind, L_bind.
  destruct (m st) as [e|[a st1]] eqn:Hrun; [done|].
  destruct (Hm _ _ _ HI Hrun) as [HI1 Ha]. by apply Hf.
Qed.

Lemma keeps_throw {A} {C : Clean A} (e : Exception) : keeps I (throw e : L A).
Proof. by intros st a st' HI. Qed.

Lemma keeps_lift {A} {C : Clean A} (r : result A) :
  (∀ a, r = inr a → clean a) → keeps I (lift r).
Proof. intros Hr st a st' HI. unfold lift. destruct r; [done|]. intros [= <- <-]. auto. Qed.

Lemma keeps_gets {A} {C : Clean A} (f : FileLoader → A) :
  (∀ st, I st → clean (f st)) → keeps I (gets f).
Proof. intros Hf st a st' HI [= <- <-]. auto. Qed.

Lemma keeps_modify (f : FileLoader → FileLoader) :
  (∀ st, I st → I (f st)) → keeps I (modify f).
Proof. intros Hf st a st' HI [= <- <-]. split; [auto|done]. Qed.

Lemma keeps_weaken {A} {C C' : Clean A} (m : L A) :
  (∀ a, @clean A C a → @clean A C' a) → @keeps I A C m → @keeps I A C' m.
Proof. intros Hw Hm st a st' HI Hrun. destruct (Hm _ _ _ HI Hrun). auto. Qed.

Lemma keeps_repeatL (n : nat) (body : L unit) : keeps I body → keeps I (repeatL n body).
Proof.
  intros Hbody. induction n as [|n IH]; simpl.
  - by apply keeps_ret.
  - apply keeps_bind; [done|]. intros _ _. exact IH.
Qed.

Lemma keeps_collectL {A} (n : nat) (body : L A) :
  keeps I body → keeps I (collectL n body).
Proof.
  intros Hbody. induction n as [|n IH]; simpl.
  - by apply keeps_ret.
  - eapply keeps_bind; [exact Hbody|]. intros a _.
    eapply keeps_bind; [exact IH|]. intros rest _. by apply keeps_ret.
Qed.

Lemma keeps_iterateL {A} {C : Clean A} (n : nat) (body : A → L A) (a : A) :
  (∀ a, clean a → keeps I (body a)) → clean a → keeps I (iterateL n body a).
Proof.
  intros Hbody. revert a. induction n as [|n IH]; intros a Ha; simpl.
  - by apply keeps_ret.
  - eapply keeps_bind; [by apply Hbody|]. intros a' Ha'. by apply IH.
Qed.

End KeepsRules.

(** One step of the proof that a computation keeps an invariant: a rule for
    the shape of the computation, a known fact, or the definition of the
    computation. *)
Ltac keeps_step :=
  lazymatch goal with
  | |- Loader.keeps _ (mret _) => apply keeps_ret
  | |- Loader.keeps _ (mbind _ _) => eapply keeps_bind; [|intros ? ?; cbn beta]
  | |- Loader.keeps _ (Loader.throw _) => apply keeps_throw
  | |- Loader.keeps _ (Loader.gets _) => apply keeps_gets
  | |- Loader.keeps _ (Loader.modify _) => apply keeps_modify
  | |- Loader.keeps _ (Loader.lift _) => apply keeps_lift
  | |- Loader.keeps _ (Loader.repeatL _ _) => apply keeps_repeatL
  | |- Loader.keeps _ (Loader.collectL _ _) => apply keeps_collectL
  | |- Loader.keeps _ (Loader.iterateL _ _ _) => apply keeps_iterateL; [intros ? ?; cbn beta|]
  | |- Loader.keeps _ (match ?x with _ => _ end) => destruct x eqn:?
  | |- Loader.keeps _ ?m =>
      first [ solve [eauto with keeps]
            | let h := keeps_head m in unfold h ]
  end.

(** The whole proof, up to the facts about the invariant that [side]
    settles. *)
Ltac keeps_with side := repeat (first [side | keeps_step | exact Logic.I]).


(** ** The pass and the global scope stay the same throughout a load *)

Section PassFacts.
Import VM Loader.
Context {BF : BytecodeFormat} {OC : OperationCode}.
Context (prepass : bool) (global : ScopeID).

Ltac pass_side :=
  idtac;
  lazymatch goal with
  | |- ∀ st, pass_is _ _ st → pass_is _ _ _ => by intros ? [? ?]
  | |- ∀ st, pass_is _ _ st → clean _ => by intros
  | |- ∀ a, _ = inr a → clean a => by intros
  | |- clean _ => exact Logic.I
  end.

Lemma LoadFunctionSignature_pass (fuel : nat) :
  keeps (pass_is prepass global) (LoadFunctionSignature fuel).
Proof. induction fuel as [|fuel IH]; simpl; keeps_with pass_side. Qed.

Lemma loader_pass (fuel : nat) :
  (∀ linktoglobal, keeps (pass_is prepass global) (LoadScope fuel linktoglobal)) ∧
  keeps (pass_is prepass global) (LoadCodeBlock fuel) ∧
  (∀ newblock, keeps (pass_is prepass global) (LoadOperations fuel newblock)) ∧
  (∀ ifop, keeps (pass_is prepass global) (LoadElseIfBlocks fuel ifop)) ∧
  (∀ instruction newblock,
     keeps (pass_is prepass global) (GenerateOpFromByteCode fuel instruction newblock)).
Proof.
  pose proof LoadFunctionSignature_pass as Hsignature.
  induction fuel as [|fuel (IHscope & IHblock & IHops & IHelse & IHop)].
  { split_and!; intros; apply keeps_throw. }
  split_and!; intros; simpl.
  - keeps_with pass_side.
  - keeps_with pass_side.
  - keeps_with pass_side.
  - keeps_with pass_side.
  - keeps_with pass_side.
Qed.

End PassFacts.


(** ** The loader builds arithmetic operations of seven classes only *)

Section LoadableFacts.
Import VM Loader.
Context {BF : BytecodeFormat} {OC : OperationCode}.

#[local] Existing Instance Clean_Operation.
#[local] Existing Instance Clean_option_Operation.

(** What is asked of [CompoundOperator::AddOperation], which is not among the
    sources: it builds the compound from the operand it is given. *)
Hypothesis AddOperation_loadable : ∀ compound operand,
  loadable compound = true → loadable operand = true →
  loadable (CompoundOperator_AddOperation compound operand) = true.

Lemma Forall_removelast {A} (P : A → Prop) (l : list A) :
  Forall P l → Forall P (removelast l).
Proof.
  induction 1 as [|x l Hx Hl IH]; simpl; [done|].
  destruct l; [done|]. by constructor.
Qed.

Lemma loadable_blocks_insert (st : FileLoader) (b : BlockID) (blk : Block) :
  loadable_blocks st → Forall (λ op, loadable op = true) (Ops blk) →
  loadable_blocks (ld_BlockHeap <[b := blk]> st).
Proof.
  intros Hst Hblk b' blk'. simpl. destruct (decide (b = b')) as [->|Hne].
  - rewrite lookup_insert_eq. by intros [= <-].
  - rewrite lookup_insert_ne by done. apply Hst.
Qed.

Lemma loadable_blocks_delete (st : FileLoader) (b : BlockID) :
  loadable_blocks st → loadable_blocks (ld_BlockHeap (delete b) st).
Proof.
  intros Hst b' blk'. simpl. intros Hlook. apply (Hst b').
  by apply lookup_delete_Some in Hlook as [_ ?].
Qed.

Lemma get_Block_loadable (b : option BlockID) (st st' : FileLoader) (blk : Block) :
  loadable_blocks st → get_Block b st = inr (blk, st') →
  st' = st ∧ Forall (λ op, loadable op = true) (Ops blk).
Proof.
  intros Hst. destruct b as [id|]; [|done]. unfold get_Block, mbind, L_bind, gets. simpl.
  destruct (BlockHeap st !! id) as [blk'|] eqn:Hlook; [|done].
  intros [= <- <-]. split; [done|]. by apply (Hst id).
Qed.

Lemma update_Block_loadable (b : option BlockID) (f : Block → Block) :
  (∀ blk, Forall (λ op, loadable op = true) (Ops blk) →
          Forall (λ op, loadable op = true) (Ops (f blk))) →
  keeps loadable_blocks (update_Block b f).
Proof.
  intros Hf st [] st' Hst. unfold update_Block, mbind, L_bind.
  destruct (get_Block b st) as [e|[blk st1]] eqn:Hget; [done|].
  destruct (get_Block_loadable _ _ _ _ Hst Hget) as [-> Hblk].
  destruct b as [id|]; [|done]. intros [= <-]. split; [|done].
  apply loadable_blocks_insert; auto.
Qed.

Lemma Block_AddOperation_loadable (b : option BlockID) (op : Operation) :
  clean op → keeps loadable_blocks (Block_AddOperation b op).
Proof.
  intros Hop. apply update_Block_loadable. intros blk Hblk. simpl.
  apply Forall_app. split; [done|]. by constructor.
Qed.

Lemma Block_BindToScope_loadable (b : option BlockID) (scope : option ScopeID) :
  keeps loadable_blocks (Block_BindToScope b scope).
Proof. apply update_Block_loadable. by intros blk Hblk. Qed.

Lemma Block_PopTailOperation_loadable (b : option BlockID) :
  keeps loadable_blocks (Block_PopTailOperation b).
Proof.
  intros st op st' Hst. unfold Block_PopTailOperation, mbind at 1, L_bind at 1.
  destruct (get_Block b st) as [e|[blk st1]] eqn:Hget; [done|].
  destruct (get_Block_loadable _ _ _ _ Hst Hget) as [-> Hblk].
  destruct (last (Ops blk)) as [tail|] eqn:Hlast; [|done].
  unfold mbind, L_bind.
  destruct (update_Block b _ st) as [e|[[] st1]] eqn:Hupd; [done|].
  intros [= <- <-]. split.
  - eapply update_Block_loadable; [|done|exact Hupd].
    intros blk' Hblk'. simpl. by apply Forall_removelast.
  - apply last_Some in Hlast as [l' Heq]. rewrite Heq in Hblk.
    apply Forall_app in Hblk as [_ Htail]. by inversion Htail.
Qed.

Lemma Block_GetTailOperation_loadable (b : option BlockID) :
  keeps loadable_blocks (Block_GetTailOperation b).
Proof.
  intros st tail st' Hst. unfold Block_GetTailOperation, mbind, L_bind.
  destruct (get_Block b st) as [e|[blk st1]] eqn:Hget; [done|].
  destruct (get_Block_loadable _ _ _ _ Hst Hget) as [-> Hblk].
  intros [= <- <-]. split; [done|]. intros op Hlast.
  apply last_Some in Hlast as [l' Heq]. rewrite Heq in Hblk.
  apply Forall_app in Hblk as [_ Htail]. by inversion Htail.
Qed.

Lemma new_Block_loadable : keeps loadable_blocks new_Block.
Proof.
  intros st b st' Hst [= <- <-]. split; [|done].
  by apply loadable_blocks_insert.
Qed.

Lemma delete_Block_loadable (b : option BlockID) : keeps loadable_blocks (delete_Block b).
Proof.
  destruct b as [id|]; intros st [] st' Hst [= <-]; split; try done.
  by apply loadable_blocks_delete.
Qed.

Lemma PushOperation_ctor_loadable (op pushop : Operation)
    (scopes : gmap ScopeID ScopeDescription) (scope : option ScopeID) :
  clean op → PushOperation_ctor op scopes scope = inr pushop → clean pushop.
Proof.
  intros Hop. unfold PushOperation_ctor.
  destruct op; try (by intros [= <-]).
  simpl. destruct (GetType _ _ _); [done|]. by intros [= <-].
Qed.

Lemma cast_to_string_loadable (originaltype : Z) (op : Operation) :
  cast_to_string originaltype = inr op → clean op.
Proof. unfold cast_to_string. by destruct (TypeOfCode originaltype); intros [= <-]. Qed.

Lemma cast_loadable (origintype desttype : Z) (op : Operation) :
  cast origintype desttype = inr op → clean op.
Proof.
  unfold cast.
  by destruct (TypeOfCode desttype), (TypeOfCode origintype); intros [= <-].
Qed.

Ltac loadable_clean :=
  first [ exact Logic.I
        | eassumption
        | reflexivity
        | by (unfold clean, Clean_option_Operation, Clean_Operation in *; simpl;
              intros; repeat case_match; simplify_eq/=; eauto) ].

#[local] Hint Resolve Block_AddOperation_loadable Block_BindToScope_loadable
  Block_PopTailOperation_loadable Block_GetTailOperation_loadable new_Block_loadable
  delete_Block_loadable : keeps.

#[local] Hint Extern 1 (clean _) => loadable_clean : keeps.

Ltac loadable_side :=
  idtac;
  lazymatch goal with
  | |- ∀ st, loadable_blocks st → loadable_blocks _ => by intros ? ?
  | |- ∀ st, loadable_blocks st → clean _ => intros; loadable_clean
  | |- ∀ a, PushOperation_ctor _ _ _ = inr a → clean a =>
      intros ?; by apply PushOperation_ctor_loadable
  | |- ∀ a, cast_to_string _ = inr a → clean a => apply cast_to_string_loadable
  | |- ∀ a, cast _ _ = inr a → clean a => apply cast_loadable
  | |- ∀ a, _ = inr a → clean a => intros; loadable_clean
  | |- clean _ => loadable_clean
  end.

Lemma LoadFunctionSignature_loadable (fuel : nat) :
  keeps loadable_blocks (LoadFunctionSignature fuel).
Proof. induction fuel as [|fuel IH]; simpl; keeps_with loadable_side. Qed.

Lemma loader_loadable (fuel : nat) :
  (∀ linktoglobal, keeps loadable_blocks (LoadScope fuel linktoglobal)) ∧
  keeps loadable_blocks (LoadCodeBlock fuel) ∧
  (∀ newblock, keeps loadable_blocks (LoadOperations fuel newblock)) ∧
  (∀ ifop, clean ifop → keeps loadable_blocks (LoadElseIfBlocks fuel ifop)) ∧
  (∀ instruction newblock,
     keeps loadable_blocks (GenerateOpFromByteCode fuel instruction newblock)).
Proof.
  pose proof LoadFunctionSignature_loadable as Hsignature.
  induction fuel as [|fuel (IHscope & IHblock & IHops & IHelse & IHop)].
  { split_and!; intros; apply keeps_throw. }
  split_and!; intros; simpl.
  - keeps_with loadable_side.
  - keeps_with loadable_side.
  - keeps_with loadable_side.
  - keeps_with loadable_side.
  - keeps_with loadable_side.
Qed.

End LoadableFacts.


(** ** Task and thread blocks rebuilt by the loader *)

Create HintDb loading discriminated.

#[global] Hint Unfold mbind mret Loader.L_bind Loader.L_ret Loader.gets Loader.modify
  Loader.throw Loader.lift Loader.unless_prepass Loader.when_prepass Loader.get_Block
  Loader.get_Scope Loader.update_Block Loader.update_Scope Loader.Block_AddOperation
  Loader.Block_BindToScope Loader.UnregisterScopeToDelete Loader.reparent_to_global
  : loading.

(** Run the loader monad as far as the state allows. *)
Ltac lrun := repeat (progress (autounfold with loading; simpl)).

Section ForkFacts.
Import VM Loader.
Context {BF : BytecodeFormat} {OC : OperationCode}.

Lemma fork_body (fork : option BlockID → Operation) (scope : option ScopeID)
    (taskblock newblock : option BlockID) (st st' : FileLoader) :
  (reparent_to_global scope;;
   scope ← UnregisterScopeToDelete scope;
   Block_BindToScope taskblock scope;;
   Block_AddOperation newblock (fork taskblock)) st = inr ((), st') →
  forked fork newblock st'.
Proof.
  destruct scope as [s|]; [|done]. lrun.
  destruct (ScopeHeap st !! s) as [d|] eqn:Hs; [|done]. lrun.
  destruct taskblock as [b|]; [|done]. lrun.
  destruct (BlockHeap st !! b) as [body|] eqn:Hb; [|done]. lrun.
  destruct newblock as [nb|]; [|done]. lrun.
  destruct (decide (b = nb)) as [->|Hne].
  - rewrite lookup_insert_eq. intros [= <-]. unfold forked. simpl.
    eexists nb, _, nb, _, s, _. rewrite !lookup_insert_eq. split_and!; try done.
    simpl. by rewrite last_snoc.
  - rewrite lookup_insert_ne by done.
    destruct (BlockHeap st !! nb) as [blk|] eqn:Hnb; [|done].
    intros [= <-]. unfold forked. simpl.
    eexists nb, _, b, _, s, _. rewrite lookup_insert_eq.
    rewrite lookup_insert_ne by done. rewrite !lookup_insert_eq.
    split_and!; try done. simpl. by rewrite last_snoc.
Qed.

Lemma ExpectInstruction_pass (prepass : bool) (global : ScopeID) (instruction : Opcode) :
  keeps (pass_is prepass global) (ExpectInstruction instruction).
Proof.
  keeps_with
    ltac:(idtac; lazymatch goal with
          | |- ∀ st, pass_is _ _ st → pass_is _ _ _ => by intros ? [? ?]
          | |- ∀ st, pass_is _ _ st → clean _ => by intros
          end).
Qed.

Lemma load_fork (fork : option BlockID → Operation) (fuel : nat)
    (newblock : option BlockID) (st st' : FileLoader) :
  IsPrepass st = false →
  (ExpectInstruction Op_BeginBlock;;
   scope ← LoadScope fuel false;
   taskblock ← LoadCodeBlock fuel;
   unless_prepass
     (reparent_to_global scope;;
      scope ← UnregisterScopeToDelete scope;
      Block_BindToScope taskblock scope;;
      Block_AddOperation newblock (fork taskblock))) st = inr ((), st') →
  forked fork newblock st'.
Proof.
  intros Hpass. unfold mbind at 1, L_bind at 1.
  destruct (ExpectInstruction Op_BeginBlock st) as [e|[[] st1]] eqn:H1; [done|].
  destruct (ExpectInstruction_pass false (GlobalScope st) _ _ _ _ (conj Hpass eq_refl) H1)
    as [Hpass1 _].
  unfold mbind at 1, L_bind at 1.
  destruct (LoadScope fuel false st1) as [e|[scope st2]] eqn:H2; [done|].
  destruct (proj1 (loader_pass false (GlobalScope st) fuel) _ _ _ _ Hpass1 H2)
    as [Hpass2 _].
  unfold mbind at 1, L_bind at 1.
  destruct (LoadCodeBlock fuel st2) as [e|[taskblock st3]] eqn:H3; [done|].
  destruct (proj1 (proj2 (loader_pass false (GlobalScope st) fuel)) _ _ _ Hpass2 H3)
    as [[Hpass3 _] _].
  unfold unless_prepass, mbind at 1, L_bind at 1, gets. rewrite Hpass3.
  apply fork_body.
Qed.

Lemma GenerateOp_ForkTask (fuel : nat) (instruction : Z) (newblock : option BlockID)
    (st st' : FileLoader) :
  decode instruction = Some Op_ForkTask → IsPrepass st = false →
  GenerateOpFromByteCode (S fuel) instruction newblock st = inr ((), st') →
  forked ForkTask newblock st'.
Proof. intros Hop Hpass. simpl. rewrite Hop. by apply load_fork. Qed.

Lemma GenerateOp_ForkThread (fuel : nat) (instruction : Z) (newblock : option BlockID)
    (st st' : FileLoader) :
  decode instruction = Some Op_ForkThread → IsPrepass st = false →
  GenerateOpFromByteCode (S fuel) instruction newblock st = inr ((), st') →
  forked ForkThread newblock st'.
Proof. intros Hop Hpass. simpl. rewrite Hop. by apply load_fork. Qed.

End ForkFacts.


(** ** Which strings the loader interns on which pass *)

Section StringFacts.
Import VM Loader.
Context {BF : BytecodeFormat} {OC : OperationCode}.

Lemma unless_prepass_skipped (pool : gset string) (scopes : gmap ScopeID ScopeDescription)
    (m : L unit) :
  keeps (prepass_with pool scopes) (unless_prepass m).
Proof.
  intros st [] st' (Hpass & Hpool & Hscopes). unfold unless_prepass. lrun.
  rewrite Hpass. by intros [= <-].
Qed.

Lemma gets_IsPrepass_prepass {A} (pool : gset string)
    (scopes : gmap ScopeID ScopeDescription) (f : bool → L A) :
  keeps (prepass_with pool scopes) (f true) →
  keeps (prepass_with pool scopes) (gets IsPrepass ≫= f).
Proof.
  intros Hf st a st' Hst. lrun. destruct Hst as (Hpass & Hpool & Hscopes).
  rewrite Hpass. apply Hf. by split_and!.
Qed.

Ltac prepass_side :=
  idtac;
  lazymatch goal with
  | |- keeps (prepass_with _ _) (unless_prepass _) => apply unless_prepass_skipped
  | |- keeps (prepass_with _ _) (gets IsPrepass ≫= _) =>
      apply gets_IsPrepass_prepass; cbn beta iota
  | |- ∀ st, prepass_with _ _ st → prepass_with _ _ _ => by intros ? (? & ? & ?)
  | |- ∀ st, prepass_with _ _ st → clean _ => by intros
  | |- ∀ a, _ = inr a → clean a => by intros
  | |- clean _ => exact Logic.I
  end.

Lemma LoadFunctionSignature_prepass (pool : gset string)
    (scopes : gmap ScopeID ScopeDescription) (fuel : nat) :
  keeps (prepass_with pool scopes) (LoadFunctionSignature fuel).
Proof. induction fuel as [|fuel IH]; simpl; keeps_with prepass_side. Qed.

Lemma guarded_sections_prepass (pool : gset string)
    (scopes : gmap ScopeID ScopeDescription) (scopeid : Z) (fuel : nat) :
  keeps (prepass_with pool scopes) (load_parent scopeid) ∧
  keeps (prepass_with pool scopes) (load_variables scopeid) ∧
  keeps (prepass_with pool scopes) (load_ghosts scopeid) ∧
  keeps (prepass_with pool scopes) (load_signatures fuel scopeid) ∧
  (∀ section enter,
     keeps (prepass_with pool scopes) (load_type_names section enter scopeid)) ∧
  keeps (prepass_with pool scopes) (load_tuple_type_map scopeid) ∧
  keeps (prepass_with pool scopes) (load_structure_type_map scopeid).
Proof.
  pose proof (LoadFunctionSignature_prepass pool scopes) as Hsignature.
  split_and!; intros; keeps_with prepass_side.
Qed.

Lemma guarded_operations_prepass (pool : gset string)
    (scopes : gmap ScopeID ScopeDescription) (newblock : option BlockID) :
  (∀ op, keeps (prepass_with pool scopes) (load_named op newblock)) ∧
  (∀ op, keeps (prepass_with pool scopes) (load_member op newblock)) ∧
  (∀ op, keeps (prepass_with pool scopes) (load_plain op newblock)) ∧
  (∀ op, keeps (prepass_with pool scopes) (load_typed op newblock)) ∧
  (∀ kind type, keeps (prepass_with pool scopes) (load_arithmetic kind type newblock)).
Proof. split_and!; intros; keeps_with prepass_side. Qed.

Lemma guarded_leaf_prepass (pool : gset string) (scopes : gmap ScopeID ScopeDescription)
    (fuel : nat) (instruction : Z) (newblock : option BlockID) (op : Opcode) :
  decode instruction = Some op → guarded_leaf op = true →
  keeps (prepass_with pool scopes) (GenerateOpFromByteCode (S fuel) instruction newblock).
Proof.
  intros Hop Hleaf. simpl. rewrite Hop.
  destruct op; try discriminate Hleaf; keeps_with prepass_side.
Qed.

Lemma byte_at_state (offset : nat) (st st' : FileLoader) (b : Z) :
  byte_at offset st = inr (b, st') → st' = st.
Proof. unfold byte_at. lrun. destruct (Buffer st !! offset); [|done]. by intros [= <- <-]. Qed.

Lemma ReadNumber_moved (st st' : FileLoader) (n : Z) :
  ReadNumber st = inr (n, st') → moved st st'.
Proof.
  unfold ReadNumber, byte_at, advance. lrun.
  repeat (match goal with |- context [Buffer st !! ?o] => destruct (Buffer st !! o) end;
          [|done]; lrun).
  intros [= <- <-]. by eexists.
Qed.

Lemma ReadNullTerminatedString_moved (st st' : FileLoader) (str : string) :
  ReadNullTerminatedString st = inr (str, st') → moved st st'.
Proof.
  unfold ReadNullTerminatedString, advance. lrun.
  destruct (until_zero _); [|done]. lrun. intros [= <- <-]. by eexists.
Qed.

(** On the second pass the name that an instruction carries is widened and
    interned. *)
Lemma load_named_second_pass (op : string → Operation) (newblock : option BlockID)
    (st st' : FileLoader) :
  IsPrepass st = false → load_named op newblock st = inr ((), st') →
  ∃ narrow wide, widen narrow = inr wide ∧ StringPool st' = {[wide]} ∪ StringPool st.
Proof.
  intros Hpass. unfold load_named, mbind at 1, L_bind at 1.
  destruct (ReadNullTerminatedString st) as [e|[narrow st1]] eqn:Hread; [done|].
  apply ReadNullTerminatedString_moved in Hread as [n ->].
  unfold WidenAndCache. lrun. rewrite Hpass.
  destruct (widen narrow) as [e|wide] eqn:Hwide; [done|]. lrun.
  destruct newblock as [b|]; [|done]. lrun.
  destruct (BlockHeap st !! b); [|done]. intros [= <-]. simpl. eauto.
Qed.

(** Each extension name is interned on either pass; the library is
    registered on the prepass. *)
Lemma CheckExtensions_body (st st' : FileLoader) :
  (narrowname ← ReadNullTerminatedString;
   extensionname ← WidenAndCache narrowname;
   when_prepass (modify (ld_ExtensionLibraries (λ libs, libs ++ [extensionname]))))
    st = inr ((), st') →
  ∃ name, StringPool st' = {[name]} ∪ StringPool st ∧
          ExtensionLibraries st' =
            ExtensionLibraries st ++ (if IsPrepass st then [name] else []) ∧
          IsPrepass st' = IsPrepass st.
Proof.
  unfold mbind at 1, L_bind at 1.
  destruct (ReadNullTerminatedString st) as [e|[narrow st1]] eqn:Hread; [done|].
  apply ReadNullTerminatedString_moved in Hread as [n ->].
  unfold WidenAndCache. lrun.
  destruct (widen narrow) as [e|wide] eqn:Hwide; [done|]. lrun.
  destruct (IsPrepass st) eqn:Hpass; intros [= <-]; simpl; exists wide.
  - by rewrite Hpass.
  - by rewrite Hpass, app_nil_r.
Qed.

Lemma CheckExtensions_interns (st st' : FileLoader) :
  CheckExtensions st = inr ((), st') →
  ∃ names, StringPool st' = list_to_set names ∪ StringPool st ∧
           ExtensionLibraries st' =
             ExtensionLibraries st ++ (if IsPrepass st then names else []) ∧
           IsPrepass st' = IsPrepass st.
Proof.
  unfold CheckExtensions, mbind at 1, L_bind at 1.
  destruct (ReadNumber st) as [e|[count st1]] eqn:Hread; [done|].
  apply ReadNumber_moved in Hread as [k ->].
  generalize (unsigned_count count). intros n.
  assert (∀ st0, repeatL n
            (narrowname ← ReadNullTerminatedString;
             extensionname ← WidenAndCache narrowname;
             when_prepass (modify (ld_ExtensionLibraries (λ libs, libs ++ [extensionname]))))
            st0 = inr ((), st') →
          ∃ names, StringPool st' = list_to_set names ∪ StringPool st0 ∧
                   ExtensionLibraries st' =
                     ExtensionLibraries st0 ++ (if IsPrepass st0 then names else []) ∧
                   IsPrepass st' = IsPrepass st0) as Hloop.
  { induction n as [|n IH]; intros st0; simpl.
    - intros [= ->]. exists []. split_and!; [|  |done].
      { by rewrite list_to_set_nil, (left_id_L ∅ (∪)). }
      destruct (IsPrepass st'); by rewrite app_nil_r.
    - unfold mbind at 1, L_bind at 1.
      match goal with |- context [match ?m st0 with _ => _ end] =>
        destruct (m st0) as [e|[[] st1]] eqn:Hbody; [done|] end.
      apply CheckExtensions_body in Hbody as (name & Hpool & Hlibs & Hpass).
      intros Hrest. apply IH in Hrest as (names & Hpool' & Hlibs' & Hpass').
      exists (name :: names). rewrite Hpool', Hlibs', Hpass', Hpool, Hlibs, Hpass.
      split_and!; [| |done].
      { rewrite list_to_set_cons, (assoc_L (∪)).
        by rewrite (comm_L (∪) (list_to_set names)). }
      destruct (IsPrepass st0); [by rewrite <- app_assoc|by rewrite !app_nil_r]. }
  intros Hrun. apply Hloop in Hrun. exact Hrun.
Qed.

End StringFacts.


(** ** The claims about the loader *)

Section RoundTripClaim.
Import VM Parser.
Context {BF : Loader.BytecodeFormat} {EC : ExternalCode}.
#[local] Existing Instance Loader.Clean_default.

Lemma Load_loadable
    (Hadd : ∀ compound operand,
       Loader.loadable compound = true → Loader.loadable operand = true →
       Loader.loadable (CompoundOperator_AddOperation compound operand) = true)
    (fuel : nat) :
  Loader.keeps Loader.loadable_blocks (Loader.Load fuel).
Proof.
  destruct (loader_loadable Hadd fuel) as (Hscope & Hblock & _).
  unfold Loader.Load, Loader.LoadGlobalInitBlock, Loader.CheckCookie, Loader.CheckFlags,
    Loader.CheckExtensions, Loader.LoadExtensionData.
  keeps_with
    ltac:(idtac; lazymatch goal with
          | |- ∀ st, Loader.loadable_blocks st → Loader.loadable_blocks _ => by intros ? ?
          | |- ∀ st, Loader.loadable_blocks st → Loader.clean _ => by intros
          | |- ∀ a, _ = inr a → Loader.clean a => by intros
          end).
Qed.

(** C1.  Round trip.  The builder, given two operands of type Real for a
    multiplication, builds the operation [MultiplyReals] (the binary form of
    the multiplication at type Real) without reporting an error.  The
    loader, whatever the bytes it is given, never yields a program in which
    a block holds that operation, bare or under a [PushOperation]: the
    arithmetic operations it builds are the sums, differences and quotients
    of reals and the four operations on integers.  So no serialized form of
    a program that multiplies reals loads back to the same operations. *)
Theorem Load_never_yields_MultiplyReals
    (Hadd : ∀ compound operand,
       Loader.loadable compound = true → Loader.loadable operand = true →
       Loader.loadable (CompoundOperator_AddOperation compound operand) = true) :
  (∀ st counts first second rest,
     Parser.PassedParameterCount st = 2%N :: counts →
     Parser.TheStack st = second :: first :: rest →
     Parser.binary_operands st first second EpochVariableType_Real →
     Parser.CreateOperation_Multiply st
     = inr (ArithmeticBinary Arith_Multiply EpochVariableType_Real
              (Parser.IsArray first) (Parser.IsArray second),
            Parser.upd_TheStack (λ _, rest) st)) ∧
  (∀ fuel buffer loaded,
     Loader.Load fuel (Loader.FileLoader_new buffer) = inr ((), loaded) →
     ∀ b blk op,
       Loader.BlockHeap loaded !! b = Some blk → op ∈ Ops blk →
       Loader.loadable op = true ∧
       ∀ firstisarray secondisarray consarray fromfunction,
         op ≠ ArithmeticBinary Arith_Multiply EpochVariableType_Real
                firstisarray secondisarray ∧
         op ≠ PushOperation
                (Some (ArithmeticBinary Arith_Multiply EpochVariableType_Real
                         firstisarray secondisarray)) consarray fromfunction).
Proof.
  split.
  - intros st counts first second rest Hcount Hstack Hoperands.
    by eapply CreateOperation_Arithmetic_binary.
  - intros fuel buffer loaded Hload b blk op Hblk Hop.
    assert (Loader.loadable_blocks (Loader.FileLoader_new buffer)) as Hnew.
    { by intros b' blk'. }
    destruct (Load_loadable Hadd fuel _ _ _ Hnew Hload) as [Hloaded _].
    pose proof (proj1 (Forall_forall _ _) (Hloaded b blk Hblk) op Hop) as Hloadable.
    split; [exact Hloadable|].
    intros firstisarray secondisarray consarray fromfunction.
    split; intros ->; discriminate Hloadable.
Qed.

End RoundTripClaim.

Section RoundTripRuns.
Import VM Examples.

Lemma simple_AddOperation_loadable (compound operand : Operation) :
  Loader.loadable compound = true → Loader.loadable operand = true →
  Loader.loadable (Parser.simple_AddOperation compound operand) = true.
Proof.
  intros Hcompound Hoperand. unfold Parser.simple_AddOperation.
  assert (Loader.loadable
            match operand with
            | PushOperation (Some nested) _ _ => nested
            | _ => operand
            end = true) as Hsub.
  { destruct operand as [| | | | | | | |[nested|] ? ?| | | | | | | | | | | | | | | | | | | |
                         | | | | | | | | | | | | | | | | | | | | | | | | | | | | | | | | |
                         | | | | | | | | |]; done. }
  destruct compound; try done; simpl in *;
    (rewrite forallb_app; simpl; by rewrite Hcompound, Hsub).
Qed.

(** A program that divides two reals loads, and its operations are among
    those the loader builds. *)
Lemma Load_never_yields_MultiplyReals_witness :
  Loader.Load (BF := LoaderExamples.example_format) (OC := Parser.simple_operations) 50
    (Loader.FileLoader_new division_program) = inr ((), division_loaded) ∧
  ∀ b blk op,
    Loader.BlockHeap division_loaded !! b = Some blk → op ∈ Ops blk →
    Loader.loadable op = true.
Proof.
  split; [by vm_compute|].
  intros b blk op Hblk Hop.
  apply (proj2 (Load_never_yields_MultiplyReals (BF := LoaderExamples.example_format)
                  (EC := Parser.simple_code) simple_AddOperation_loadable)
           50%nat division_program division_loaded ltac:(by vm_compute) b blk op Hblk Hop).
Defined.

End RoundTripRuns.

Section StringClaim.
Import VM Loader.
Context {BF : BytecodeFormat} {OC : OperationCode}.


End StringClaim.

Section StringRuns.
Import VM Loader LoaderExamples Examples.



End StringRuns.

Section TaskScopeClaim.
Import VM Parser.
Context {BF : Loader.BytecodeFormat} {EC : ExternalCode}.

(** C8.  Task and thread scope reparenting.
    - When the builder enters a task or thread block, the block gets a
      fresh scope whose parent is the global scope of the program, the scope
      that was current is saved on [DisplacedScopes], and the fresh scope is
      the current one.
    - When the builder leaves the block, the saved scope is taken off
      [DisplacedScopes] and is the current scope again, and the [ForkTask]
      or [ForkThread] built on the block is appended to the enclosing block.
    - When the loader, on its second pass, has rebuilt a [ForkTask] or a
      [ForkThread], the block of the operation is bound to a scope whose
      parent is the global scope of the program. *)
Theorem task_scope_reparenting (st : ParserState) :
  (∀ type rest,
     ExpectedBlockTypes st = type :: rest →
     type = BLOCKENTRYTYPE_TASK ∨ type = BLOCKENTRYTYPE_THREAD →
     let b := fresh (dom (BlockHeap st)) in
     let s := fresh (dom (ScopeHeap st)) in
     ∃ st', EnterBlock st = inr ((), st') ∧
            BlockHeap st' = <[b := {| Ops := []; BoundScope := Some s |}]> (BlockHeap st) ∧
            ScopeHeap st' = <[s := scope_ParentScope (λ _, Some (GlobalScope st))
                                     empty_scope]> (ScopeHeap st) ∧
            DisplacedScopes st' = CurrentScope st :: DisplacedScopes st ∧
            CurrentScope st' = Some s ∧
            Blocks st' = {| TheBlock := Some b; BlockEntry_Type := type |} :: Blocks st ∧
            ExpectedBlockTypes st' = rest) ∧
  (∀ body eb etype blocks blk saved displaced entry stack name names,
     Blocks st = {| TheBlock := body; BlockEntry_Type := BLOCKENTRYTYPE_TASK |}
                 :: {| TheBlock := Some eb; BlockEntry_Type := etype |} :: blocks →
     BlockHeap st !! eb = Some blk →
     DisplacedScopes st = saved :: displaced →
     TheStack st = entry :: stack →
     DetermineEffectiveType entry (ScopeHeap st) saved = inr EpochVariableType_String →
     SavedTaskNames st = name :: names →
     ∃ st', ExitBlock st = inr ((), st') ∧
            CurrentScope st' = saved ∧ DisplacedScopes st' = displaced ∧
            BlockHeap st' = <[eb := append_operation (ForkTask body) blk]> (BlockHeap st) ∧
            ScopeHeap st' = ScopeHeap st ∧
            Blocks st' = {| TheBlock := Some eb; BlockEntry_Type := etype |} :: blocks) ∧
  (∀ body eb etype blocks blk saved displaced pool entry stack name names,
     Blocks st = {| TheBlock := body; BlockEntry_Type := BLOCKENTRYTYPE_THREAD |}
                 :: {| TheBlock := Some eb; BlockEntry_Type := etype |} :: blocks →
     BlockHeap st !! eb = Some blk →
     DisplacedScopes st = saved :: displaced →
     TheStack st = pool :: entry :: stack →
     DetermineEffectiveType pool (ScopeHeap st) saved = inr EpochVariableType_String →
     DetermineEffectiveType entry (ScopeHeap st) saved = inr EpochVariableType_String →
     SavedTaskNames st = name :: names →
     ∃ st', ExitBlock st = inr ((), st') ∧
            CurrentScope st' = saved ∧ DisplacedScopes st' = displaced ∧
            BlockHeap st' = <[eb := append_operation (ForkThread body) blk]> (BlockHeap st) ∧
            ScopeHeap st' = ScopeHeap st ∧
            Blocks st' = {| TheBlock := Some eb; BlockEntry_Type := etype |} :: blocks) ∧
  (∀ fuel instruction newblock (loader loader' : Loader.FileLoader),
     Loader.IsPrepass loader = false →
     Loader.GenerateOpFromByteCode (S fuel) instruction newblock loader
       = inr ((), loader') →
     (Loader.decode instruction = Some Loader.Op_ForkTask →
      Loader.forked ForkTask newblock loader') ∧
     (Loader.decode instruction = Some Loader.Op_ForkThread →
      Loader.forked ForkThread newblock loader')).
Proof.
  split_and!.
  - intros type rest. apply EnterBlock_task.
  - intros body eb etype blocks blk saved displaced entry stack name names.
    apply ExitBlock_task.
  - intros body eb etype blocks blk saved displaced pool entry stack name names.
    apply ExitBlock_thread.
  - intros fuel instruction newblock loader loader' Hpass Hrun. split; intros Hop.
    + by eapply GenerateOp_ForkTask.
    + by eapply GenerateOp_ForkThread.
Qed.

End TaskScopeClaim.

Section TaskScopeRuns.
Import VM Parser Examples.

(** A task entered from the global scope, and a task rebuilt by the loader. *)
Lemma task_scope_reparenting_witness :
  (∃ st', EnterBlock (EC := simple_code) task_state = inr ((), st') ∧
          DisplacedScopes st' = [Some 0%nat] ∧ CurrentScope st' = Some 1%nat ∧
          ScopeHeap st' !! 1%nat
          = Some (scope_ParentScope (λ _, Some (GlobalScope task_state)) empty_scope)) ∧
  Loader.forked ForkTask (Some 0%nat) fork_loaded.
Proof.
  pose proof (task_scope_reparenting (BF := LoaderExamples.example_format)
                (EC := simple_code) task_state) as (Henter & _ & _ & Hload).
  split.
  - destruct (Henter BLOCKENTRYTYPE_TASK [] eq_refl (or_introl eq_refl))
      as (st' & Hrun & _ & Hscopes & Hdisplaced & Hcurrent & _).
    exists st'. split_and!; [exact Hrun|exact Hdisplaced|exact Hcurrent|].
    rewrite Hscopes. apply lookup_insert_eq.
  - apply (proj1 (Hload 4%nat (LoaderExamples.example_code Loader.Op_ForkTask) (Some 0%nat)
                    fork_state fork_loaded eq_refl ltac:(by vm_compute))).
    by vm_compute.
Defined.

End TaskScopeRuns.

(** * The writer of the linked binary *)

Section LinkWriterFacts.
Import LinkWriter.

Lemma low_byte (z : Z) : to_uchar (Z.land z 255) = z mod 256.
Proof.
  unfold to_uchar. change 255 with (Z.ones 8). rewrite Z.land_ones by lia.
  change (2 ^ 8) with 256. apply Z.mod_small. apply Z.mod_pos_bound. lia.
Qed.

Lemma EmitWORD_wide_bytes (out : Z) (s : OutputStream) :
  EmitWORD out s = s ++ wide_bytes out.
Proof.
  unfold EmitWORD, wide_bytes. rewrite !low_byte, Z.shiftr_div_pow2 by lia.
  by rewrite <- app_assoc.
Qed.

Lemma emit_characters_app (out : list Z) (s : OutputStream) :
  emit_characters out s = s ++ (out ≫= wide_bytes).
Proof.
  revert s. induction out as [|c out IH]; intros s; simpl.
  - by rewrite app_nil_r.
  - rewrite IH, EmitWORD_wide_bytes. by rewrite <- app_assoc.
Qed.

Lemma write_string_app (out : string) (s : OutputStream) :
  write_string out s = s ++ (byte_of_char <$> String.list_ascii_of_string out).
Proof.
  revert s. induction out as [|c out IH]; intros s; simpl.
  - by rewrite app_nil_r.
  - rewrite IH. by rewrite <- app_assoc.
Qed.

Lemma pad_loop_replicate (fuel : nat) (size byte : Z) (s : OutputStream) :
  fuel = Z.to_nat (size - tellp s) →
  pad_loop fuel size byte s = s ++ replicate fuel (to_uchar byte).
Proof.
  revert s. induction fuel as [|fuel IH]; intros s Hfuel; simpl.
  - by rewrite app_nil_r.
  - rewrite decide_True by lia. rewrite IH.
    + by rewrite <- app_assoc.
    + unfold tellp in *. rewrite length_app. simpl. lia.
Qed.

Lemma byte_range (z : Z) : 0 ≤ z mod 256 < 256.
Proof. apply Z.mod_pos_bound. lia. Qed.

Lemma EmitDWORD_app (out : Z) (s : OutputStream) :
  EmitDWORD out s =
    s ++ [out mod 256; (out / 256) mod 256; (out / 65536) mod 256; (out / 16777216) mod 256].
Proof.
  unfold EmitDWORD. rewrite !low_byte, !Z.shiftr_div_pow2 by lia.
  by rewrite <- !app_assoc.
Qed.

Lemma little_endian_digits (out : Z) :
  Loader.little_endian (out mod 256) ((out / 256) mod 256) ((out / 65536) mod 256)
    ((out / 16777216) mod 256) = out mod 2 ^ 32.
Proof.
  unfold Loader.little_endian.
  pose proof (byte_range out). pose proof (byte_range (out / 256)).
  pose proof (byte_range (out / 65536)). pose proof (byte_range (out / 16777216)).
  assert (out / 65536 = out / 256 / 256) as H16 by (rewrite Z.div_div by lia; done).
  assert (out / 16777216 = out / 65536 / 256) as H24 by (rewrite Z.div_div by lia; done).
  pose proof (Z.div_mod out 256). pose proof (Z.div_mod (out / 256) 256).
  pose proof (Z.div_mod (out / 65536) 256).
  pose proof (Z.div_mod (out / 16777216) 256).
  apply (Z.mod_unique_pos _ _ (out / 16777216 / 256)); lia.
Qed.

(** X1.  [EmitWORD] and [EmitDWORD] append two and four bytes, the least
    significant first: read back in little-endian order they give the value
    written, modulo [2^16] and [2^32], whatever was written before; the
    offset moves on by four. *)
Theorem EmitDWORD_little_endian (out : Z) (s : OutputStream) :
  (∃ b0 b1, EmitWORD out s = s ++ [b0; b1] ∧ bytes [b0; b1] ∧
            b0 + 256 * b1 = out mod 2 ^ 16) ∧
  (∃ b0 b1 b2 b3,
     EmitDWORD out s = s ++ [b0; b1; b2; b3] ∧ bytes [b0; b1; b2; b3] ∧
     Loader.little_endian b0 b1 b2 b3 = out mod 2 ^ 32) ∧
  tellp (EmitDWORD out s) = tellp s + 4.
Proof.
  split_and!.
  - exists (out mod 256), ((out / 256) mod 256). split_and!.
    + by rewrite EmitWORD_wide_bytes.
    + repeat constructor; apply byte_range.
    + pose proof (byte_range out). pose proof (byte_range (out / 256)).
      pose proof (Z.div_mod out 256). pose proof (Z.div_mod (out / 256) 256).
      apply (Z.mod_unique_pos _ _ (out / 256 / 256)); lia.
  - eexists _, _, _, _. split_and!.
    + apply EmitDWORD_app.
    + repeat constructor; apply byte_range.
    + apply little_endian_digits.
  - rewrite EmitDWORD_app. unfold tellp. rewrite !length_app. simpl. lia.
Qed.

(** X2.  [EmitWideString] appends the characters of the string, two bytes each
    with the low byte first, and then a terminator of two zero bytes: the
    file grows by [2 * (n + 1)] bytes for a string of [n] characters, and
    what was written before stays as it was. *)
Theorem EmitWideString_layout (out : list Z) (s : OutputStream) :
  EmitWideString out s = s ++ (out ≫= wide_bytes) ++ [0; 0] ∧
  tellp (EmitWideString out s) = tellp s + 2 * (Z.of_nat (length out) + 1).
Proof.
  assert (EmitWideString out s = s ++ (out ≫= wide_bytes) ++ [0; 0]) as Heq.
  { unfold EmitWideString. rewrite EmitWORD_wide_bytes, emit_characters_app.
    by rewrite <- app_assoc. }
  split; [done|]. rewrite Heq. unfold tellp. rewrite !length_app.
  assert (length (out ≫= wide_bytes) = (2 * length out)%nat) as Hlen.
  { clear Heq. induction out as [|c out IH]; [done|].
    change ((c :: out) ≫= wide_bytes) with (wide_bytes c ++ (out ≫= wide_bytes)).
    rewrite length_app, IH. simpl. lia. }
  rewrite Hlen. simpl. lia.
Qed.

(** X3.  [Pad] refuses to pad a file that is already longer than [size];
    otherwise it appends the padding byte until the file has exactly [size]
    bytes, keeping what was written before, so that [GetOffset] answers
    [size] as a [DWORD] and padding again to the same size changes
    nothing. *)
Theorem Pad_spec (size byte : Z) (s : OutputStream) :
  (size < tellp s → ∃ message, Pad size byte s = inl message) ∧
  (tellp s ≤ size →
     ∃ s', Pad size byte s = inr s' ∧
           s' = s ++ replicate (Z.to_nat (size - tellp s)) (byte mod 256) ∧
           tellp s' = size ∧ GetOffset s' = size mod 2 ^ 32 ∧
           ∀ byte', Pad size byte' s' = inr s').
Proof.
  split; intros Hsize; unfold Pad.
  - rewrite decide_True by lia. eauto.
  - rewrite decide_False by lia. eexists. split; [done|].
    rewrite pad_loop_replicate by done.
    assert (tellp (s ++ replicate (Z.to_nat (size - tellp s)) (to_uchar byte)) = size)
      as Htell.
    { unfold tellp in *. rewrite length_app, length_replicate. lia. }
    split_and!; [done|done|by unfold GetOffset; rewrite Htell|]. intros byte'.
    rewrite decide_False by lia. rewrite Htell, Z.sub_diag. done.
Qed.

End LinkWriterFacts.

Section LinkWriterRuns.
Import LinkWriter.

(** A file of two bytes padded to six bytes, and a file of two bytes that is
    to be padded to one. *)
Lemma Pad_spec_witness :
  Pad 6 144 [77; 90] = inr [77; 90; 144; 144; 144; 144] ∧
  ∃ message, Pad 1 144 [77; 90] = inl message.
Proof.
  split.
  - destruct (Pad_spec 6 144 [77; 90]) as [_ Hpad].
    destruct Hpad as (s' & Hrun & -> & _); [unfold tellp; simpl; lia|]. exact Hrun.
  - destruct (Pad_spec 1 144 [77; 90]) as [Hpad _].
    apply Hpad. unfold tellp. simpl. lia.
Defined.

End LinkWriterRuns.

(** ** The readers of the loader against the writers of the linker *)

Section ReaderFacts.
Import VM Loader.

Lemma lookup_written (written middle rest : list Z) (i : nat) (b : Z) :
  middle !! i = Some b → (written ++ middle ++ rest) !! (length written + i)%nat = Some b.
Proof.
  intros Hb. rewrite lookup_app_r by lia.
  replace (length written + i - length written)%nat with i by lia.
  by apply lookup_app_l_Some.
Qed.

Lemma char_of_byte_of_char (c : Ascii.ascii) :
  char_of_byte (LinkWriter.byte_of_char c) = c.
Proof.
  unfold char_of_byte, LinkWriter.byte_of_char.
  by rewrite N2Z.id, Ascii.ascii_N_embedding.
Qed.

Lemma until_zero_written (str : string) (rest : list Z) :
  Forall (λ c, LinkWriter.byte_of_char c ≠ 0) (String.list_ascii_of_string str) →
  until_zero ((LinkWriter.byte_of_char <$> String.list_ascii_of_string str) ++ 0 :: rest)
    = Some str.
Proof.
  induction str as [|c str IH]; intros Hstr.
  - done.
  - cbn [String.list_ascii_of_string] in *. apply Forall_cons in Hstr as [Hc Hstr].
    rewrite fmap_cons, <- app_comm_cons. cbn [until_zero].
    rewrite decide_False by done. rewrite IH by done. simpl.
    by rewrite char_of_byte_of_char.
Qed.

(** X4.  What the linker writes with [EmitDWORD], the loader reads back with
    [ReadNumber]: for a value that fits a signed 32-bit integer, written
    after [written] and followed by anything, a loader standing at the first
    of the four bytes returns the value and moves four bytes on, changing
    nothing else. *)
Theorem ReadNumber_EmitDWORD (st : FileLoader) (value : Z) (written rest : list Z)
    (Hvalue : - 2 ^ 31 ≤ value < 2 ^ 31)
    (Hbuffer : Buffer st = LinkWriter.EmitDWORD value written ++ rest)
    (Hoffset : Offset st = length written) :
  ReadNumber st = inr (value, ld_Offset (λ o, (o + 4)%nat) st).
Proof.
  rewrite EmitDWORD_app, <- app_assoc in Hbuffer.
  assert (∀ i b, [value mod 256; (value / 256) mod 256; (value / 65536) mod 256;
                  (value / 16777216) mod 256] !! i = Some b →
                 byte_at (Offset st + i) st = inr (b, st)) as Hbyte.
  { intros i b Hb. unfold byte_at. lrun. rewrite Hbuffer, Hoffset.
    by rewrite (lookup_written _ _ _ _ _ Hb). }
  unfold ReadNumber, advance. lrun.
  rewrite <- (Nat.add_0_r (Offset st)), (Hbyte 0%nat _ eq_refl), Nat.add_0_r.
  rewrite (Hbyte 1%nat _ eq_refl), (Hbyte 2%nat _ eq_refl), (Hbyte 3%nat _ eq_refl).
  do 2 f_equal. rewrite little_endian_digits. unfold to_signed.
  destruct (decide (0 ≤ value)).
  - rewrite Z.mod_small by lia. rewrite decide_True by lia. done.
  - replace (value mod 2 ^ 32) with (value + 2 ^ 32).
    + rewrite decide_False by lia. lia.
    + apply (Z.mod_unique_pos _ _ (-1)); lia.
Qed.

(** X5.  What the linker writes with [EmitNarrowString], the loader reads back
    with [ReadNullTerminatedString]: for a string that holds no zero
    character, a loader standing at its first byte returns the string and
    moves past its terminator, changing nothing else. *)
Theorem ReadNullTerminatedString_EmitNarrowString (st : FileLoader) (str : string)
    (written rest : list Z)
    (Hstr : Forall (λ c, LinkWriter.byte_of_char c ≠ 0) (String.list_ascii_of_string str))
    (Hbuffer : Buffer st = LinkWriter.EmitNarrowString str written ++ rest)
    (Hoffset : Offset st = length written) :
  ReadNullTerminatedString st
    = inr (str, ld_Offset (λ o, (o + (String.length str + 1))%nat) st).
Proof.
  unfold LinkWriter.EmitNarrowString in Hbuffer.
  rewrite write_string_app, <- !app_assoc in Hbuffer.
  unfold ReadNullTerminatedString, advance. lrun. rewrite Hbuffer, Hoffset.
  rewrite drop_app_length. simpl. rewrite until_zero_written by done. by lrun.
Qed.

End ReaderFacts.

Section ReaderRuns.
Import VM Loader LoaderExamples.

(** The number -2 written after one byte, and the string [ab] written after
    one byte. *)
Lemma ReadNumber_EmitDWORD_witness :
  ReadNumber (ld_Offset (λ _, 1%nat) (FileLoader_new [7; 254; 255; 255; 255; 9]))
  = inr (-2, ld_Offset (λ _, 5%nat) (FileLoader_new [7; 254; 255; 255; 255; 9])).
Proof.
  exact (ReadNumber_EmitDWORD
           (ld_Offset (λ _, 1%nat) (FileLoader_new [7; 254; 255; 255; 255; 9]))
           (-2) [7] [9] ltac:(lia) eq_refl eq_refl).
Defined.

Lemma ReadNullTerminatedString_EmitNarrowString_witness :
  ReadNullTerminatedString (ld_Offset (λ _, 1%nat) (FileLoader_new [7; 97; 98; 0; 9]))
  = inr ("ab"%string, ld_Offset (λ _, 4%nat) (FileLoader_new [7; 97; 98; 0; 9])).
Proof.
  apply (ReadNullTerminatedString_EmitNarrowString
           (ld_Offset (λ _, 1%nat) (FileLoader_new [7; 97; 98; 0; 9]))
           "ab" [7] [9]); [|reflexivity|reflexivity].
  repeat constructor; discriminate.
Defined.

End ReaderRuns.

(** ** Stripping twice *)

Section StripWhitespaceTwice.
Import Strings.

Lemma last_not_of_snoc (set s : wstring) (c : wchar_t) :
  c ∉ set → last_not_of set (s ++ [c]) = Some (length s).
Proof.
  intros Hc. induction s as [|a s IH]; simpl.
  - by rewrite (proj2 (is_one_of_false set c) Hc).
  - by rewrite IH.
Qed.

Lemma StripWhitespace_Some (str t : wstring) :
  valid_wstring str → StripWhitespace str = Some t →
  (str = [] ∧ t = []) ∨
  ∃ i j, first_non_ws_at str i ∧ last_non_ws_at str j ∧ t = slice str i j.
Proof.
  intros Hvalid. unfold StripWhitespace. case_bool_decide as Hempty.
  { intros [= <-]. by left. }
  unfold find_first_not_of, find_last_not_of.
  destruct (first_not_of whitespacechars str) as [i|] eqn:Hf; simpl.
  - destruct (last_not_of whitespacechars str) as [j|] eqn:Hl; simpl.
    + pose proof (first_not_of_Some _ _ _ Hf) as Hi.
      pose proof (last_not_of_Some _ _ _ Hl) as Hj.
      rewrite substr_slice by (done || by apply first_le_last).
      intros [= <-]. right. by exists i, j.
    + pose proof (proj1 (last_not_of_None _ _) Hl) as Hall.
      apply first_not_of_Some in Hf as [(c & Hc & Hn) _].
      destruct Hn. apply Hall. by eapply list_elem_of_lookup_2.
  - unfold substr. unfold valid_wstring in Hvalid.
    destruct (Z.ltb_spec (Z.of_nat (length str)) npos) as [|Hge]; [done|lia].
Qed.

(** X6.  Stripping is idempotent: a string that [StripWhitespace] returns is
    returned unchanged when it is stripped again, and it neither starts nor
    ends with a whitespace character. *)
Theorem StripWhitespace_idempotent (str t : wstring) (Hvalid : valid_wstring str)
    (Hstrip : StripWhitespace str = Some t) :
  StripWhitespace t = Some t ∧
  (∀ c, head t = Some c → ¬ is_whitespace c) ∧
  (∀ c, last t = Some c → ¬ is_whitespace c).
Proof.
  destruct (StripWhitespace_Some _ _ Hvalid Hstrip) as [[-> ->]|(i & j & Hi & Hj & ->)].
  { split_and!; [done|intros c [=]|intros c [=]]. }
  pose proof (first_le_last _ _ _ Hi Hj) as Hij.
  destruct Hi as [(c & Hc & Hnc) _]. destruct Hj as [(d & Hd & Hnd) _].
  assert (length (slice str i j) = S (j - i)) as Hlen.
  { unfold slice. rewrite length_take, length_drop. lia. }
  assert (head (slice str i j) = Some c) as Hhead.
  { rewrite head_lookup. unfold slice. rewrite lookup_take_lt by lia.
    rewrite lookup_drop. by rewrite Nat.add_0_r. }
  assert (last (slice str i j) = Some d) as Hlast.
  { rewrite last_lookup, Hlen. simpl. unfold slice. rewrite lookup_take_lt by lia.
    rewrite lookup_drop. by replace (i + (j - i))%nat with j by lia. }
  split_and!; [|intros c0 Hc0; rewrite Hhead in Hc0; by simplify_eq
               |intros c0 Hc0; rewrite Hlast in Hc0; by simplify_eq].
  assert (valid_wstring (slice str i j)) as Hvalid'.
  { unfold valid_wstring in *. lia. }
  revert Hlen Hhead Hlast Hvalid'. generalize (slice str i j). intros t Hlen Hhead Hlast Hv.
  apply last_Some in Hlast as [u Hu].
  destruct t as [|c' t']; [done|]. simpl in Hhead. injection Hhead as ->.
  unfold StripWhitespace. rewrite bool_decide_eq_false_2 by done.
  unfold find_first_not_of, find_last_not_of.
  assert (first_not_of whitespacechars (c :: t') = Some 0%nat) as ->.
  { simpl. by rewrite (proj2 (is_one_of_false whitespacechars c) Hnc). }
  rewrite Hu, last_not_of_snoc by done. rewrite <- Hu. simpl to_size_t.
  assert (length u = (j - i)%nat) as Hlenu.
  { apply (f_equal length) in Hu. rewrite length_app in Hu. simpl in *. lia. }
  rewrite substr_slice by (done || simpl in *; lia).
  f_equal. unfold slice. rewrite drop_0. apply take_ge. simpl in *. lia.
Qed.

(** The string [" AB\t"]. *)
Lemma StripWhitespace_idempotent_witness :
  StripWhitespace [65; 66]%N = Some [65; 66]%N.
Proof.
  assert (valid_wstring [32; 65; 66; 9]%N) as Hv by (by vm_compute).
  exact (proj1 (StripWhitespace_idempotent [32; 65; 66; 9]%N [65; 66]%N Hv eq_refl)).
Defined.

End StripWhitespaceTwice.

(** ** What a push leaves of the stack *)

Section DoPushFrame.
Import VM StackOps.

Lemma DoPush_pushes scopes scope v ty cells :
  DoPush scopes scope v ty [] = inr cells → cells ≠ [].
Proof.
  destruct v, ty; try done; try (by simpl; intros [= <-]).
  - rewrite DoPush_Tuple. destruct (GetTupleType _ _ _); simpl; [done|].
    destruct (foldM _ _ _); simpl; [done|]. by intros [= <-].
  - rewrite DoPush_Structure. destruct (GetStructureType _ _ _); simpl; [done|].
    destruct (foldM _ _ _); simpl; [done|]. by intros [= <-].
Qed.

(** X7.  [DoPush] neither reads nor changes what is on the stack already.  When
    it succeeds it has put at least one cell on top of the stack it was
    given, and on any other stack it puts the same cells; when it throws, it
    throws the same exception on any other stack. *)
Theorem DoPush_keeps_stack (scopes : gmap ScopeID ScopeDescription) (scope : option ScopeID)
    (value : RValue) (type : EpochVariableTypeID) (stack : StackSpace) :
  (∀ stack', DoPush scopes scope value type stack = inr stack' →
     ∃ cells, cells ≠ [] ∧ stack' = cells ++ stack ∧
              ∀ other, DoPush scopes scope value type other = inr (cells ++ other)) ∧
  (∀ e, DoPush scopes scope value type stack = inl e →
     ∀ other, DoPush scopes scope value type other = inl e).
Proof.
  split.
  - intros stack'. rewrite DoPush_framed.
    destruct (DoPush scopes scope value type []) as [e|cells] eqn:Hrun; simpl; [done|].
    intros [= <-]. exists cells. split_and!; [by eapply DoPush_pushes|done|].
    intros other. by rewrite DoPush_framed, Hrun.
  - intros e. rewrite DoPush_framed.
    destruct (DoPush scopes scope value type []) as [e'|cells] eqn:Hrun; simpl; [|done].
    intros [= <-] other. by rewrite DoPush_framed, Hrun.
Qed.

End DoPushFrame.

Section DoPushFrameRuns.
Import VM StackOps Examples.

(** The pair of the examples pushed on a stack of one cell, and a value
    pushed at the null type. *)
Lemma DoPush_keeps_stack_witness :
  (∃ cells, cells ≠ [] ∧
     [TupleCell 1; IntegerCell 7; BooleanCell true; BooleanCell false]
       = cells ++ [BooleanCell false] ∧
     ∀ other, DoPush ex_scopes (Some 1%nat) (TupleRValue 1 ex_pair_value)
                EpochVariableType_Tuple other = inr (cells ++ other)) ∧
  ∀ other, DoPush ex_scopes (Some 1%nat) (IntegerRValue 1) EpochVariableType_Null other
           = inl (ExecutionException "Cannot pass a null value on the stack").
Proof.
  split.
  - apply (proj1 (DoPush_keeps_stack ex_scopes (Some 1%nat) (TupleRValue 1 ex_pair_value)
                    EpochVariableType_Tuple [BooleanCell false])).
    by vm_compute.
  - apply (proj2 (DoPush_keeps_stack ex_scopes (Some 1%nat) (IntegerRValue 1)
                    EpochVariableType_Null [])).
    reflexivity.
Defined.

End DoPushFrameRuns.

(** ** The loader reads forward, and the prepass builds no code *)

Section ForwardFacts.
Import VM Loader LoaderInvariants.
Context {BF : BytecodeFormat} {OC : OperationCode}.
Context (buffer : list Z) (offset : nat).

Ltac forward_side :=
  idtac;
  lazymatch goal with
  | |- ∀ st, reads_on _ _ st → reads_on _ _ _ =>
      intros ? [? ?]; split; simpl; [done|lia]
  | |- ∀ st, reads_on _ _ st → clean _ => by intros
  | |- ∀ a, _ = inr a → clean a => by intros
  | |- clean _ => exact Logic.I
  end.

Lemma LoadFunctionSignature_forward (fuel : nat) :
  keeps (reads_on buffer offset) (LoadFunctionSignature fuel).
Proof. induction fuel as [|fuel IH]; simpl; keeps_with forward_side. Qed.

Lemma loader_forward (fuel : nat) :
  (∀ linktoglobal, keeps (reads_on buffer offset) (LoadScope fuel linktoglobal)) ∧
  keeps (reads_on buffer offset) (LoadCodeBlock fuel) ∧
  (∀ newblock, keeps (reads_on buffer offset) (LoadOperations fuel newblock)) ∧
  (∀ ifop, keeps (reads_on buffer offset) (LoadElseIfBlocks fuel ifop)) ∧
  (∀ instruction newblock,
     keeps (reads_on buffer offset) (GenerateOpFromByteCode fuel instruction newblock)).
Proof.
  pose proof LoadFunctionSignature_forward as Hsignature.
  induction fuel as [|fuel (IHscope & IHblock & IHops & IHelse & IHop)].
  { split_and!; intros; apply keeps_throw. }
  split_and!; intros; simpl.
  - keeps_with forward_side.
  - keeps_with forward_side.
  - keeps_with forward_side.
  - keeps_with forward_side.
  - keeps_with forward_side.
Qed.

End ForwardFacts.

Section PrepassFacts.
Import VM Loader LoaderInvariants.
Context {BF : BytecodeFormat} {OC : OperationCode}.

Lemma unless_prepass_no_code (m : L unit) : keeps prepass_no_code (unless_prepass m).
Proof.
  intros st [] st' [Hpass Hcode]. unfold unless_prepass. lrun.
  rewrite Hpass. by intros [= <-].
Qed.

Lemma gets_IsPrepass_no_code {A} {C : Clean A} (f : bool → L A) :
  keeps prepass_no_code (f true) → keeps prepass_no_code (gets IsPrepass ≫= f).
Proof.
  intros Hf st a st' Hst. lrun. destruct Hst as [Hpass Hcode].
  rewrite Hpass. apply Hf. by split.
Qed.

Lemma no_code_new (st : FileLoader) (b : BlockID) (scope : option ScopeID) :
  no_code st → no_code (ld_BlockHeap <[b := {| Ops := []; BoundScope := scope |}]> st).
Proof.
  intros Hcode b' blk. simpl. rewrite lookup_insert_Some.
  intros [[_ <-]|[_ Hb]]; [done|]. by eapply Hcode.
Qed.

Lemma no_code_delete (st : FileLoader) (b : BlockID) :
  no_code st → no_code (ld_BlockHeap (delete b) st).
Proof.
  intros Hcode b' blk. simpl. rewrite lookup_delete_Some. intros [_ Hb]. by eapply Hcode.
Qed.

Ltac no_code_side :=
  idtac;
  lazymatch goal with
  | |- keeps prepass_no_code (unless_prepass _) => apply unless_prepass_no_code
  | |- keeps prepass_no_code (gets IsPrepass ≫= _) =>
      apply gets_IsPrepass_no_code; cbn beta iota
  | |- ∀ st, prepass_no_code st → prepass_no_code _ =>
      intros ? [? ?]; split; [done|];
      first [by apply no_code_new | by apply no_code_delete | done]
  | |- ∀ st, prepass_no_code st → clean _ => by intros
  | |- ∀ a, _ = inr a → clean a => by intros
  | |- clean _ => exact Logic.I
  end.

Lemma LoadFunctionSignature_no_code (fuel : nat) :
  keeps prepass_no_code (LoadFunctionSignature fuel).
Proof. induction fuel as [|fuel IH]; simpl; keeps_with no_code_side. Qed.

Lemma loader_no_code (fuel : nat) :
  (∀ linktoglobal, keeps prepass_no_code (LoadScope fuel linktoglobal)) ∧
  keeps prepass_no_code (LoadCodeBlock fuel) ∧
  (∀ newblock, keeps prepass_no_code (LoadOperations fuel newblock)) ∧
  (∀ ifop, keeps prepass_no_code (LoadElseIfBlocks fuel ifop)) ∧
  (∀ instruction newblock,
     keeps prepass_no_code (GenerateOpFromByteCode fuel instruction newblock)).
Proof.
  pose proof LoadFunctionSignature_no_code as Hsignature.
  induction fuel as [|fuel (IHscope & IHblock & IHops & IHelse & IHop)].
  { split_and!; intros; apply keeps_throw. }
  split_and!; intros; simpl.
  - keeps_with no_code_side.
  - keeps_with no_code_side.
  - keeps_with no_code_side.
  - keeps_with no_code_side.
  - keeps_with no_code_side.
Qed.

End PrepassFacts.

Section LoaderInvariantClaims.
Import VM Loader LoaderInvariants.
Context {BF : BytecodeFormat} {OC : OperationCode}.

Lemma bind_inr {A B} (m : L A) (f : A → L B) (st st' : FileLoader) (b : B) :
  (m ≫= f) st = inr (b, st') → ∃ a st1, m st = inr (a, st1) ∧ f a st1 = inr (b, st').
Proof.
  unfold mbind, L_bind. destruct (m st) as [e|[a st1]]; [done|]. eauto.
Qed.

Lemma LoadOperations_answer (fuel : nat) (newblock block : option BlockID)
    (st st' : FileLoader) :
  LoadOperations fuel newblock st = inr (block, st') → block = newblock.
Proof.
  revert st. induction fuel as [|fuel IH]; intros st; simpl; [done|].
  intros (instruction & st1 & _ & Hrest)%bind_inr.
  destruct (decide (instruction = code Op_EndBlock)).
  - by injection Hrest as <- _.
  - apply bind_inr in Hrest as (_ & st2 & _ & Hrest). by eapply IH.
Qed.

(** X8.  Within a pass the loader only reads forward: whenever [LoadScope],
    [LoadCodeBlock] or [GenerateOpFromByteCode] returns, the buffer and the
    pass are what they were and the offset has not moved back. *)
Theorem loader_reads_forward (fuel : nat) (st st' : FileLoader) :
  (∀ linktoglobal scope, LoadScope fuel linktoglobal st = inr (scope, st') →
     Buffer st' = Buffer st ∧ (Offset st ≤ Offset st')%nat ∧ IsPrepass st' = IsPrepass st) ∧
  (∀ block, LoadCodeBlock fuel st = inr (block, st') →
     Buffer st' = Buffer st ∧ (Offset st ≤ Offset st')%nat ∧ IsPrepass st' = IsPrepass st) ∧
  (∀ instruction newblock,
     GenerateOpFromByteCode fuel instruction newblock st = inr ((), st') →
     Buffer st' = Buffer st ∧ (Offset st ≤ Offset st')%nat ∧ IsPrepass st' = IsPrepass st).
Proof.
  destruct (loader_forward (Buffer st) (Offset st) fuel)
    as (Hscope & Hblock & _ & _ & Hop).
  destruct (loader_pass (IsPrepass st) (GlobalScope st) fuel)
    as (Pscope & Pblock & _ & _ & Pop).
  assert (reads_on (Buffer st) (Offset st) st) as Hst by done.
  assert (pass_is (IsPrepass st) (GlobalScope st) st) as Pst by done.
  split_and!; intros.
  - edestruct Hscope as [[? ?] _]; [done..|]. edestruct Pscope as [[? ?] _]; done.
  - edestruct Hblock as [[? ?] _]; [done..|]. edestruct Pblock as [[? ?] _]; done.
  - edestruct Hop as [[? ?] _]; [done..|]. edestruct Pop as [[? ?] _]; done.
Qed.

(** X9.  The prepass builds no code: started on the prepass with no operation in
    any block, [LoadScope], [LoadCodeBlock] and [GenerateOpFromByteCode]
    leave every block without operations, and the block that
    [LoadCodeBlock] answers with is the null pointer. *)
Theorem prepass_builds_no_code (fuel : nat) (st st' : FileLoader)
    (Hpass : IsPrepass st = true) (Hcode : no_code st) :
  (∀ linktoglobal scope, LoadScope fuel linktoglobal st = inr (scope, st') →
     no_code st') ∧
  (∀ block, LoadCodeBlock fuel st = inr (block, st') → block = None ∧ no_code st') ∧
  (∀ instruction newblock,
     GenerateOpFromByteCode fuel instruction newblock st = inr ((), st') → no_code st').
Proof.
  destruct (loader_no_code fuel) as (Hscope & Hblock & _ & _ & Hop).
  assert (prepass_no_code st) as Hst by done.
  split_and!.
  - intros linktoglobal scope Hrun. by destruct (Hscope _ _ _ _ Hst Hrun) as [[_ ?] _].
  - intros block Hrun. split; [|by destruct (Hblock _ _ _ Hst Hrun) as [[_ ?] _]].
    destruct fuel as [|fuel]; [done|]. simpl in Hrun.
    apply bind_inr in Hrun as (prepass & st1 & Hgets & Hrun).
    injection Hgets as <- <-. rewrite Hpass in Hrun.
    apply bind_inr in Hrun as (newblock & st1 & Hnew & Hrun).
    injection Hnew as <- <-. by apply LoadOperations_answer in Hrun.
  - intros instruction newblock Hrun. by destruct (Hop _ _ _ _ _ Hst Hrun) as [[_ ?] _].
Qed.

End LoaderInvariantClaims.

Section LoaderInvariantRuns.
Import VM Loader LoaderInvariants MoreExamples.

(** The prepass over the global scope of the program that divides two
    reals. *)
Lemma loader_reads_forward_witness :
  Buffer after_global_scope = Examples.division_program ∧
  (13 ≤ Offset after_global_scope)%nat ∧ IsPrepass after_global_scope = true.
Proof.
  exact (proj1 (loader_reads_forward (BF := LoaderExamples.example_format)
                  (OC := Parser.simple_operations) 50 at_global_scope after_global_scope)
           true global_scope_read ltac:(by vm_compute)).
Defined.

Lemma prepass_builds_no_code_witness : no_code after_global_scope.
Proof.
  assert (no_code at_global_scope) as Hcode.
  { intros b blk Hb. unfold at_global_scope in Hb. simpl in Hb.
    by rewrite lookup_empty in Hb. }
  exact (proj1 (prepass_builds_no_code (BF := LoaderExamples.example_format)
                  (OC := Parser.simple_operations) 50 at_global_scope after_global_scope
                  eq_refl Hcode)
           true global_scope_read ltac:(by vm_compute)).
Defined.

End LoaderInvariantRuns.

(** ** Byte streams the loader rejects *)

Section RejectFacts.
Import VM Loader.
Context {BF : BytecodeFormat} {OC : OperationCode}.

Lemma decode_None (instruction : Z) :
  (∀ op, op ∈ dispatch_order → code op ≠ instruction) → decode instruction = None.
Proof.
  unfold decode. induction dispatch_order as [|op ops IH]; intros Hcodes; simpl; [done|].
  rewrite bool_decide_eq_false_2 by (apply Hcodes; by left).
  apply IH. intros op' Hop'. apply Hcodes. by right.
Qed.


End RejectFacts.

Section RejectRuns.
Import VM Loader.


End RejectRuns.

(** ** The flags of the program *)

Section ConsoleFacts.
Import VM Loader LoaderInvariants.
Context {BF : BytecodeFormat} {OC : OperationCode}.
Context (console prepass : bool) (buffer : list Z).

Ltac console_side :=
  idtac;
  lazymatch goal with
  | |- ∀ st, console_is _ _ _ st → console_is _ _ _ _ => by intros ? (? & ? & ?)
  | |- ∀ st, console_is _ _ _ st → clean _ => by intros
  | |- ∀ a, _ = inr a → clean a => by intros
  | |- clean _ => exact Logic.I
  end.

Lemma LoadFunctionSignature_console (fuel : nat) :
  keeps (console_is console prepass buffer) (LoadFunctionSignature fuel).
Proof. induction fuel as [|fuel IH]; simpl; keeps_with console_side. Qed.

Lemma loader_console (fuel : nat) :
  (∀ linktoglobal, keeps (console_is console prepass buffer) (LoadScope fuel linktoglobal)) ∧
  keeps (console_is console prepass buffer) (LoadCodeBlock fuel) ∧
  (∀ newblock, keeps (console_is console prepass buffer) (LoadOperations fuel newblock)) ∧
  (∀ ifop, keeps (console_is console prepass buffer) (LoadElseIfBlocks fuel ifop)) ∧
  (∀ instruction newblock,
     keeps (console_is console prepass buffer) (GenerateOpFromByteCode fuel instruction newblock)).
Proof.
  pose proof LoadFunctionSignature_console as Hsignature.
  induction fuel as [|fuel (IHscope & IHblock & IHops & IHelse & IHop)].
  { split_and!; intros; apply keeps_throw. }
  split_and!; intros; simpl.
  - keeps_with console_side.
  - keeps_with console_side.
  - keeps_with console_side.
  - keeps_with console_side.
  - keeps_with console_side.
Qed.

Lemma tail_console (fuel : nat) :
  keeps (console_is console prepass buffer) CheckExtensions ∧
  keeps (console_is console prepass buffer) (LoadGlobalInitBlock fuel) ∧
  keeps (console_is console prepass buffer) LoadExtensionData.
Proof.
  destruct (loader_console fuel) as (_ & Hblock & _).
  split_and!; keeps_with console_side.
Qed.

End ConsoleFacts.

Section ConsoleClaim.
Import VM Loader LoaderInvariants.
Context {BF : BytecodeFormat} {OC : OperationCode}.

Lemma CheckCookie_run (st st' : FileLoader) :
  CheckCookie st = inr ((), st') → st' = ld_Offset (λ o, (o + length HeaderCookie)%nat) st.
Proof. unfold CheckCookie, advance. lrun. case_decide; [|done]. by intros [= <-]. Qed.

Lemma ReadNumber_run (st st' : FileLoader) (n : Z) :
  ReadNumber st = inr (n, st') →
  st' = ld_Offset (λ o, (o + 4)%nat) st ∧
  ∀ other, Buffer other = Buffer st → Offset other = Offset st →
           ReadNumber other = inr (n, ld_Offset (λ o, (o + 4)%nat) other).
Proof.
  unfold ReadNumber, byte_at, advance. lrun.
  destruct (Buffer st !! Offset st) as [b0|] eqn:H0; [|done]. lrun.
  destruct (Buffer st !! (Offset st + 1)%nat) as [b1|] eqn:H1; [|done]. lrun.
  destruct (Buffer st !! (Offset st + 2)%nat) as [b2|] eqn:H2; [|done]. lrun.
  destruct (Buffer st !! (Offset st + 3)%nat) as [b3|] eqn:H3; [|done]. lrun.
  intros [= <- <-]. split; [done|]. intros other Hb Ho.
  rewrite ?Hb, ?Ho, H0. lrun. rewrite ?Hb, ?Ho, H1. lrun.
  rewrite ?Hb, ?Ho, H2. lrun. by rewrite ?Hb, ?Ho, H3.
Qed.

Lemma CheckFlags_run (st st' : FileLoader) :
  CheckFlags st = inr ((), st') →
  ∃ flags, ReadNumber st = inr (flags, ld_Offset (λ o, (o + 4)%nat) st) ∧
           st' = (if decide (flags = 0) then ld_Offset (λ o, (o + 4)%nat) st
                  else ld_UsesConsole (λ _, true) (ld_Offset (λ o, (o + 4)%nat) st)).
Proof.
  unfold CheckFlags. intros (flags & st1 & Hread & Hrest)%bind_inr.
  apply ReadNumber_run in Hread as Hst1. destruct Hst1 as [-> _].
  exists flags. split; [done|]. by case_decide; injection Hrest as <-.
Qed.

(** X11.  A load that succeeds ends on the second pass, with the buffer it was
    given, and the program is marked as using the console exactly when the
    32-bit flags that follow the header cookie are not zero: both passes
    read the same flags. *)
Theorem Load_console (fuel : nat) (buffer : list Z) (st' : FileLoader)
    (Hload : Load fuel (FileLoader_new buffer) = inr ((), st')) :
  ∃ flags st1,
    ReadNumber (ld_Offset (λ _, length HeaderCookie) (FileLoader_new buffer))
      = inr (flags, st1) ∧
    (UsesConsole st' = true ↔ flags ≠ 0) ∧
    IsPrepass st' = false ∧ Buffer st' = buffer.
Proof.
  unfold Load in Hload.
  apply bind_inr in Hload as ([] & s1 & Hcookie1 & Hload).
  apply CheckCookie_run in Hcookie1 as ->.
  apply bind_inr in Hload as ([] & s2 & Hflags1 & Hload).
  apply CheckFlags_run in Hflags1 as (flags & Hread & ->).
  set (console := if decide (flags = 0) then false else true).
  exists flags, (ld_Offset (λ o, (o + 4)%nat)
                   (ld_Offset (λ _, length HeaderCookie) (FileLoader_new buffer))).
  split; [exact Hread|].
  match type of Hload with (_ ≫= _) ?s = _ => assert (console_is console true buffer s) as Hs2 end.
  { subst console. by case_decide. }
  apply bind_inr in Hload as ([] & s3 & Hext1 & Hload).
  destruct (tail_console console true buffer fuel) as (Hext & _ & _).
  destruct (loader_console console true buffer fuel) as (Hscope & _).
  apply Hext in Hext1 as [Hs3 _]; [|done].
  apply bind_inr in Hload as (scope1 & s4 & Hscope1 & Hload).
  apply Hscope in Hscope1 as [(Hconsole4 & _ & Hbuffer4) _]; [|done].
  apply bind_inr in Hload as ([] & s5 & [= <-] & Hload).
  apply bind_inr in Hload as ([] & s6 & [= <-] & Hload).
  apply bind_inr in Hload as ([] & s7 & Hcookie2 & Hload).
  apply CheckCookie_run in Hcookie2 as ->.
  apply bind_inr in Hload as ([] & s8 & Hflags2 & Hload).
  apply CheckFlags_run in Hflags2 as (flags' & Hread' & ->).
  destruct (ReadNumber_run _ _ _ Hread) as [_ Hsame].
  rewrite Hsame in Hread' by (simpl; done). injection Hread' as <-.
  match type of Hload with (_ ≫= _) ?s = _ => assert (console_is console false buffer s) as Hs8 end.
  { subst console. by case_decide. }
  destruct (tail_console console false buffer fuel) as (Hext' & Hinit & Hdata).
  destruct (loader_console console false buffer fuel) as (Hscope' & _).
  apply bind_inr in Hload as ([] & s9 & Hext2 & Hload).
  apply Hext' in Hext2 as [Hs9 _]; [|done].
  apply bind_inr in Hload as (scope2 & s10 & Hscope2 & Hload).
  apply Hscope' in Hscope2 as [Hs10 _]; [|done].
  apply bind_inr in Hload as ([] & s11 & Hinit2 & Hload).
  apply Hinit in Hinit2 as [Hs11 _]; [|done].
  apply Hdata in Hload as [(Hconsole & Hpass & Hbuffer) _]; [|done].
  split_and!; [|done|done]. rewrite Hconsole. subst console. by case_decide.
Qed.

End ConsoleClaim.

Section ConsoleRuns.
Import VM Loader Examples.

(** The program that divides two reals: its flags are zero. *)
Lemma Load_console_witness :
  ∃ flags st1,
    ReadNumber (ld_Offset (λ _, 5%nat) (FileLoader_new division_program))
      = inr (flags, st1) ∧
    (UsesConsole division_loaded = true ↔ flags ≠ 0) ∧
    IsPrepass division_loaded = false ∧ Buffer division_loaded = division_program.
Proof.
  exact (Load_console (BF := LoaderExamples.example_format)
           (OC := Parser.simple_operations) 50 division_program division_loaded
           ltac:(by vm_compute)).
Defined.

End ConsoleRuns.

(** * The serialization traverser *)

Create HintDb writing discriminated.

#[global] Hint Unfold mbind mret Serialization.T_bind Serialization.T_ret
  Serialization.gets Serialization.modify Serialization.throw Serialization.write
  Serialization.increment_TabDepth Serialization.decrement_TabDepth : writing.

#[global] Arguments Serialization.PadTabs : simpl never.

(** Run the traverser monad as far as the state allows. *)
Ltac trun := repeat (progress (autounfold with writing; simpl)).

Section WriterFacts.
Import VM Serialization.

Lemma PadTabs_run (t : SerializationTraverser) :
  PadTabs t = inr ((), st_IgnoreTabPads (λ _, false)
                         (st_OutputStream (λ out, out ++ padding t) t)).
Proof.
  unfold PadTabs, padding. trun. destruct t as [out p s d [] tr sk]; simpl.
  - unfold st_IgnoreTabPads, st_OutputStream. simpl. by rewrite app_nil_r.
  - done.
Qed.

Lemma bind_run {A B} (m : T A) (f : A → T B) (t t1 : SerializationTraverser) (a : A) :
  m t = inr (a, t1) → (m ≫= f) t = f a t1.
Proof. intros Hm. unfold mbind, T_bind. by rewrite Hm. Qed.

Lemma depth_step (d : Z) : 0 ≤ d < 2 ^ 32 → ((d + 1) mod 2 ^ 32 - 1) mod 2 ^ 32 = d.
Proof.
  intros Hd. destruct (decide (d = 2 ^ 32 - 1)) as [->|Hne]; [done|].
  rewrite (Z.mod_small (d + 1)) by lia. rewrite Z.mod_small; lia.
Qed.

(** X12.  Blocks bracket their content, and a block is written once.
    - Entering a block that has not been traversed writes the opening token
      on a line of its own and indents what follows by one more tab; when it
      is exited right away, the closing token stands at the indentation of
      the opening one, and the depth is what it was.
    - Entering a block that was traversed before writes nothing and marks the
      block as skipped; exiting a block that is marked as skipped does
      nothing, whatever the depth.
    - Exiting a block that is not marked, at depth 0, is an internal
      failure. *)
Theorem blocks_written_once (t : SerializationTraverser) (block : Z) :
  (block ∉ TraversedObjects t → block ∉ SkippedObjects t → 0 ≤ TabDepth t < 2 ^ 32 - 1 →
     ∃ t', (EnterBlock block;; ExitBlock block) t = inr ((), t') ∧
           OutputStream t' = OutputStream t ++ padding t ++ [Tok Token_BeginBlock; Newline]
                               ++ replicate (Z.to_nat (TabDepth t)) Tab
                               ++ [Tok Token_EndBlock; Newline] ∧
           TabDepth t' = TabDepth t ∧
           TraversedObjects t' = {[block]} ∪ TraversedObjects t ∧
           SkippedObjects t' = SkippedObjects t) ∧
  (block ∈ TraversedObjects t →
     EnterBlock block t = inr ((), st_SkippedObjects (λ s, {[block]} ∪ s) t)) ∧
  (block ∈ SkippedObjects t → ExitBlock block t = inr ((), t)) ∧
  (block ∉ SkippedObjects t → TabDepth t = 0 →
     ∃ what, ExitBlock block t = inl (InternalFailureException what)).
Proof.
  split_and!.
  - intros Htraversed Hskipped Hdepth.
    unfold EnterBlock, ExitBlock. trun. rewrite decide_False by done. trun.
    rewrite PadTabs_run. trun. rewrite decide_False by done. trun.
    rewrite decide_False by (rewrite Z.mod_small; lia). trun.
    eexists. split; [done|]. simpl. rewrite depth_step by lia.
    split_and!; try done. unfold padding. simpl. by rewrite <- !app_assoc.
  - intros Htraversed. unfold EnterBlock. trun. by rewrite decide_True.
  - intros Hskipped. unfold ExitBlock. trun. by rewrite decide_True.
  - intros Hskipped Hdepth. unfold ExitBlock. trun.
    rewrite decide_False by done. rewrite decide_True by done. eauto.
Qed.

Lemma payload_loop (payloadtypes : list EpochVariableTypeID) (t : SerializationTraverser) :
  IgnoreTabPads t = false →
  for_each payloadtypes (λ type, PadTabs;; write [TypeID type; Newline]) t
  = inr ((), st_OutputStream (λ out, out ++ payload_lines (TabDepth t) payloadtypes) t).
Proof.
  revert t. induction payloadtypes as [|type types IH]; intros t Hignore.
  - simpl. trun. destruct t; simpl. unfold st_OutputStream. simpl.
    by rewrite app_nil_r.
  - cbn [for_each]. trun. rewrite PadTabs_run. trun. rewrite IH by done.
    destruct t as [out p s d i tr sk]; simpl in *. subst i.
    unfold st_OutputStream, st_IgnoreTabPads, padding, payload_lines. simpl.
    by rewrite <- !app_assoc.
Qed.

(** X13.  A line that [WriteOp] leaves open is continued: written without the
    newline, the operation is followed by a blank, and the writer that comes
    next leaves out its indentation once; written with the newline, the next
    writer starts a line at the current depth. *)
Theorem WriteOp_continues_line (t : SerializationTraverser) (opptr : Z)
    (token next : string) :
  (∃ t', (WriteOp opptr token false;; WriteOp_token next) t = inr ((), t') ∧
         OutputStream t' = OutputStream t ++ padding t
           ++ [Address opptr; Space; Text token; Space; Text next; Newline] ∧
         IgnoreTabPads t' = false ∧ TabDepth t' = TabDepth t) ∧
  (∃ t', (WriteOp opptr token true;; WriteOp_token next) t = inr ((), t') ∧
         OutputStream t' = OutputStream t ++ padding t
           ++ [Address opptr; Space; Text token; Newline]
           ++ replicate (Z.to_nat (TabDepth t)) Tab ++ [Text next; Newline] ∧
         IgnoreTabPads t' = false ∧ TabDepth t' = TabDepth t).
Proof.
  split; unfold WriteOp, WriteOp_token; trun; rewrite PadTabs_run; trun;
    rewrite ?PadTabs_run; trun; (eexists; split; [done|]); simpl;
    (split_and!; [|done|done]); by rewrite <- !app_assoc.
Qed.

(** X14.  The writers of the two message operations indent the payload types by
    one tab more than the operation, one type per line, and leave the depth
    as they found it. *)
Theorem message_writers_indent (t : SerializationTraverser) (opptr : Z)
    (token messagename : string) (usestaskid : bool)
    (payloadtypes : list EpochVariableTypeID) (Hdepth : 0 ≤ TabDepth t < 2 ^ 32) :
  (∃ t', WriteSendMessage opptr token usestaskid messagename payloadtypes t = inr ((), t') ∧
         OutputStream t' = OutputStream t ++ padding t
           ++ [Address opptr; Space; Text token; Space; truth usestaskid; Space;
               Text messagename; Space; size payloadtypes; Newline]
           ++ payload_lines ((TabDepth t + 1) mod 2 ^ 32) payloadtypes ∧
         TabDepth t' = TabDepth t) ∧
  (∃ t', WriteAcceptMessage opptr token messagename payloadtypes t = inr ((), t') ∧
         OutputStream t' = OutputStream t ++ padding t
           ++ [Address opptr; Space; Text token; Newline]
           ++ replicate (Z.to_nat (TabDepth t)) Tab ++ [Text messagename; Newline]
           ++ replicate (Z.to_nat (TabDepth t)) Tab ++ [size payloadtypes; Newline]
           ++ payload_lines ((TabDepth t + 1) mod 2 ^ 32) payloadtypes ∧
         TabDepth t' = TabDepth t).
Proof.
  split.
  - unfold WriteSendMessage, write_payload_types. trun. rewrite PadTabs_run. trun.
    rewrite payload_loop by done. trun. eexists. split; [done|]. simpl.
    rewrite depth_step by done. split; [|done]. by rewrite <- !app_assoc.
  - unfold WriteAcceptMessage, write_payload_types. trun. rewrite PadTabs_run. trun.
    rewrite payload_loop by done. trun. eexists. split; [done|]. simpl.
    rewrite depth_step by done. split; [|done].
    by rewrite <- !app_assoc.
Qed.

Lemma FunctionSignature_nested_ind (P : FunctionSignature → Prop) :
  (∀ params hints flags nested returns returnhints,
     Forall (λ o, ∀ s, o = Some s → P s) nested →
     P (Build_FunctionSignature params hints flags nested returns returnhints)) →
  ∀ signature, P signature.
Proof.
  intros Hbuild. fix IH 1. intros [params hints flags nested returns returnhints].
  apply Hbuild. induction nested as [|[s|] nested IHnested].
  - constructor.
  - constructor; [|exact IHnested]. intros s' [= <-]. apply IH.
  - constructor; [|exact IHnested]. intros s' [=].
Qed.

Lemma occurrences_app (token : Token) (l1 l2 : list Item) :
  occurrences token (l1 ++ l2) = (occurrences token l1 + occurrences token l2)%nat.
Proof. unfold occurrences. by rewrite List.filter_app, length_app. Qed.

Lemma writes_eq (b e b' e' : nat) (m : T unit) :
  writes b e m → b = b' → e = e' → writes b' e' m.
Proof. by intros Hm <- <-. Qed.

Lemma writes_ret : writes 0 0 (mret ()).
Proof. intros t. exists [], t. by rewrite app_nil_r. Qed.

Lemma writes_bind (b1 e1 b2 e2 : nat) (m k : T unit) :
  writes b1 e1 m → writes b2 e2 k → writes (b1 + b2) (e1 + e2) (m;; k).
Proof.
  intros Hm Hk t. destruct (Hm t) as (w1 & t1 & Hrun1 & Hout1 & Hb1 & He1).
  destruct (Hk t1) as (w2 & t2 & Hrun2 & Hout2 & Hb2 & He2).
  exists (w1 ++ w2), t2. unfold mbind, T_bind. rewrite Hrun1.
  split_and!; [done|by rewrite Hout2, Hout1, app_assoc|..];
    rewrite occurrences_app; congruence.
Qed.

Lemma writes_write (items : list Item) :
  writes (occurrences Token_FunctionSignatureBegin items)
         (occurrences Token_FunctionSignatureEnd items) (write items).
Proof. intros t. by exists items, (st_OutputStream (λ out, out ++ items) t). Qed.

Lemma writes_PadTabs : writes 0 0 PadTabs.
Proof.
  intros t. exists (padding t). eexists. rewrite PadTabs_run. split_and!; [done|done|..];
    unfold padding; destruct (IgnoreTabPads t); try done;
    by induction (Z.to_nat (TabDepth t)).
Qed.

Lemma writes_spaced {A} (item : A → Item) (l : list A) :
  (∀ a, is_token Token_FunctionSignatureBegin (item a) = false) →
  (∀ a, is_token Token_FunctionSignatureEnd (item a) = false) →
  writes 0 0 (write_spaced item l).
Proof.
  intros Hb He. unfold write_spaced. induction l as [|a l IH]; simpl.
  - apply writes_ret.
  - eapply writes_eq; [eapply writes_bind; [apply writes_write|exact IH]|..];
      unfold occurrences; simpl; by rewrite ?Hb, ?He.
Qed.

(** X15.  [WriteFunctionSignature] never throws and only appends to the stream.
    What it appends holds the opening token once for the signature and once
    for every signature nested in it; each of those is closed by the closing
    token, and so is every null pointer among the nested signatures, which
    is written as a closing token alone. *)
Theorem WriteFunctionSignature_tokens (signature : FunctionSignature)
    (t : SerializationTraverser) :
  ∃ written t',
    WriteFunctionSignature signature t = inr ((), t') ∧
    OutputStream t' = OutputStream t ++ written ∧
    occurrences Token_FunctionSignatureBegin written = signature_count signature ∧
    occurrences Token_FunctionSignatureEnd written
      = (signature_count signature + null_count signature)%nat.
Proof.
  revert t. change (writes (signature_count signature)
                      (signature_count signature + null_count signature)
                      (WriteFunctionSignature signature)).
  induction signature as [params hints flags nested returns returnhints IH]
    using FunctionSignature_nested_ind.
  cbn [WriteFunctionSignature signature_count null_count
       Params Returns ParamTypeHints ParamFlags ParamSignatures ReturnTypeHints].
  set (each := fix each (l : list (option FunctionSignature)) : T unit :=
         match l with
         | [] => mret ()
         | Some nested :: rest => WriteFunctionSignature nested;; each rest
         | None :: rest =>
             PadTabs;; write [Tok Token_FunctionSignatureEnd; Newline];; each rest
         end).
  set (signatures := fix each (l : list (option FunctionSignature)) : nat :=
         match l with
         | [] => 0%nat
         | Some s :: rest => (signature_count s + each rest)%nat
         | None :: rest => each rest
         end).
  set (nulls := fix each (l : list (option FunctionSignature)) : nat :=
         match l with
         | [] => 0%nat
         | Some s :: rest => (null_count s + each rest)%nat
         | None :: rest => S (each rest)
         end).
  assert (writes (signatures nested) (signatures nested + nulls nested) (each nested))
    as Hnested.
  { induction IH as [|[s|] rest Hs _ IHrest]; simpl.
    - apply writes_ret.
    - eapply writes_eq; [eapply writes_bind; [by apply Hs|exact IHrest]|lia..].
    - eapply writes_eq;
        [eapply writes_bind;
           [apply writes_PadTabs|eapply writes_bind; [apply writes_write|exact IHrest]]
        |unfold occurrences; simpl; lia..]. }
  eapply writes_eq.
  { repeat first [ eapply writes_bind
                 | exact Hnested
                 | apply writes_PadTabs
                 | apply writes_write
                 | by apply writes_spaced ]. }
  - unfold occurrences. simpl. lia.
  - unfold occurrences. simpl. lia.
Qed.

End WriterFacts.

Section WriterRuns.
Import VM Serialization.

(** A new traverser that enters and exits the block at address 16, and the
    same block met again. *)
Lemma blocks_written_once_witness :
  (∃ t', (EnterBlock 16;; ExitBlock 16) SerializationTraverser_new = inr ((), t') ∧
         OutputStream t' = [Tok Token_BeginBlock; Newline; Tok Token_EndBlock; Newline]) ∧
  EnterBlock 16 (st_TraversedObjects (λ _, {[16]}) SerializationTraverser_new)
  = inr ((), st_SkippedObjects (λ s, {[16]} ∪ s)
               (st_TraversedObjects (λ _, {[16]}) SerializationTraverser_new)).
Proof.
  split.
  - destruct (proj1 (blocks_written_once SerializationTraverser_new 16))
      as (t' & Hrun & Hout & _); [set_solver|set_solver|simpl; lia|].
    exists t'. by split.
  - apply (proj1 (proj2 (blocks_written_once
                           (st_TraversedObjects (λ _, {[16]}) SerializationTraverser_new)
                           16))).
    simpl. set_solver.
Defined.

(** A message with two payload types sent from an operation at depth 1. *)
Lemma message_writers_indent_witness :
  ∃ t', WriteSendMessage 32 "SENDMSG" true "ping"
          [EpochVariableType_Integer; EpochVariableType_Real]
          (st_TabDepth (λ _, 1) SerializationTraverser_new) = inr ((), t') ∧
        OutputStream t'
        = [Tab; Address 32; Space; Text "SENDMSG"; Space; Tok Token_True; Space;
           Text "ping"; Space; Number 2; Newline;
           Tab; Tab; TypeID EpochVariableType_Integer; Newline;
           Tab; Tab; TypeID EpochVariableType_Real; Newline] ∧
        TabDepth t' = 1.
Proof.
  apply (proj1 (message_writers_indent (st_TabDepth (λ _, 1) SerializationTraverser_new)
                  32 "SENDMSG" "ping" true
                  [EpochVariableType_Integer; EpochVariableType_Real]
                  ltac:(simpl; lia))).
Defined.

End WriterRuns.

(** * Reading the members of nested structures *)

Section WalkFacts.
Import VM StructureOps MemberAccess.
Context {TQ : TypeQueries}.

Lemma last_read_cons (lastop : Operation) (member : string) (members : list string) :
  last_read lastop (member :: members)
  = last_read (PushOperation (Some (ReadStructureIndirect member (Some lastop))) false false)
      members.
Proof.
  unfold last_read. simpl. destruct members as [|m ms]; [done|].
  simpl. generalize (read_chain
    (PushOperation (Some (ReadStructureIndirect m (Some
       (PushOperation (Some (ReadStructureIndirect member (Some lastop))) false false))))
       false false) ms).
  intros l. by induction l as [|a [|b l] IH].
Qed.

Lemma walk_chain (lastop : Operation) (members : list string) :
  walk (last_read lastop members) = (structid ← walk lastop; hint_along structid members).
Proof.
  revert lastop. induction members as [|member members IH]; intros lastop.
  - unfold last_read. simpl. by destruct (walk lastop).
  - rewrite last_read_cons, IH. simpl. by destruct (walk lastop).
Qed.

(** X16.  The walk over the operations that read [variable.first.m1. ... .mk]
    resolves the structure type from left to right: the type of the
    variable, then the hint of each member in the type found so far; an
    indirect read built on the chain has the type of its member in the
    structure type so found.  A null operation, and an operation that is not
    a push, are an internal failure. *)
Theorem WalkInstructionsForReadStruct_chain (variable first : string)
    (members : list string) (member : string) :
  WalkInstructionsForReadStruct (Some (last_read (read_first variable first) members))
    = (structid ← GetVariableStructureTypeID variable;
       hint_along structid (first :: members)) ∧
  ReadStructureIndirect_GetType member
      (Some (last_read (read_first variable first) members))
    = (structid ← GetVariableStructureTypeID variable;
       structid ← hint_along structid (first :: members);
       type ← GetStructureTypeOfOwner structid;
       GetMemberType type member) ∧
  (∃ what, WalkInstructionsForReadStruct None = inl (InternalFailureException what)) ∧
  (∀ op, (∀ nested array function, op ≠ PushOperation nested array function) →
     ∃ what, WalkInstructionsForReadStruct (Some op) = inl (InternalFailureException what)).
Proof.
  assert (walk (last_read (read_first variable first) members)
          = (structid ← GetVariableStructureTypeID variable;
             hint_along structid (first :: members))) as Hwalk.
  { rewrite walk_chain. simpl. destruct (GetVariableStructureTypeID variable); [done|].
    simpl. by destruct (hint_of_member _ _). }
  split_and!.
  - exact Hwalk.
  - unfold ReadStructureIndirect_GetType, WalkInstructionsForReadStruct. rewrite Hwalk.
    destruct (GetVariableStructureTypeID variable); [done|]. simpl.
    by destruct (hint_of_member _ _).
  - by eexists.
  - intros op Hop. destruct op; try (by eexists). by destruct (Hop TheOp IsConsArray IsConsFromFunction).
Qed.

End WalkFacts.

Section WalkRuns.
Import VM StructureOps MemberAccess MoreExamples.

(** The hint of [o.inner] is the structure type 11, and the type of
    [o.inner.value] is integer; an operation that is not a push is
    refused. *)
Lemma WalkInstructionsForReadStruct_chain_witness :
  WalkInstructionsForReadStruct (TQ := structure_queries)
    (Some (read_first "o" "inner")) = inr 11 ∧
  ReadStructureIndirect_GetType (TQ := structure_queries) "value"
    (Some (read_first "o" "inner")) = inr EpochVariableType_Integer ∧
  ∃ what, WalkInstructionsForReadStruct (TQ := structure_queries) (Some NoOp)
          = inl (InternalFailureException what).
Proof.
  pose proof (WalkInstructionsForReadStruct_chain (TQ := structure_queries)
                "o" "inner" [] "value") as (Hwalk & Htype & _ & Hother).
  split_and!; [exact Hwalk|exact Htype|]. apply Hother. discriminate.
Defined.

End WalkRuns.

(** * Do-while loops and member access in the builder *)

#[global] Hint Unfold MemberAccess.MA_bind MemberAccess.MA_ret MemberAccess.raise
  MemberAccess.builder MemberAccess.set_MemberAccesses MemberAccess.pop_variable_name
  MemberAccess.add_pushed MemberAccess.front MemberAccess.pop_front
  Parser.Blocks_back Parser.Blocks_pop_back Parser.Blocks_push_back
  Parser.AddOperationToCurrentBlock Parser.PopParameterCount Parser.PoolStaticString
  Parser.Block_AddOperation Parser.Block_GetTailOperation Parser.Block_PopTailOperation
  Parser.update_Block Parser.get_Block Parser.new_PushOperation VM.PushOperation_ctor
  : builder.

Section DoWhileFacts.
Import VM Parser MemberAccess.
Context {EC : ExternalCode}.

(** X17.  [PopDoWhileLoop] closes a do-while loop.
    - When the entry on top of the stack is an operation, the body block is
      taken off the block stack, a [DoWhileLoop] on it is appended to the
      block below, and the entry and the parameter count are popped; a fatal
      error is reported, and the loop built all the same, when the tail
      operation of the body is not of boolean type.
    - When the entry is not an operation, a fatal error is reported, the
      body block and the entry are dropped and no operation is added; the
      parameter count stays on its stack. *)
Theorem PopDoWhileLoop_spec (st : ParserState) (entry : StackEntry)
    (stack : list StackEntry) (Hstack : TheStack st = entry :: stack) :
  (∀ body btype eb etype blocks bodyblk tail type blk count counts,
     StackEntry_Type entry = STACKENTRYTYPE_OPERATION →
     Blocks st = {| TheBlock := Some body; BlockEntry_Type := btype |}
                 :: {| TheBlock := Some eb; BlockEntry_Type := etype |} :: blocks →
     BlockHeap st !! body = Some bodyblk → last (Ops bodyblk) = Some tail →
     GetType tail (ScopeHeap st) (CurrentScope st) = inr type →
     BlockHeap st !! eb = Some blk →
     PassedParameterCount st = count :: counts →
     ∃ st', PopDoWhileLoop st = inr ((), st') ∧
            BlockHeap st' = <[eb := append_operation (DoWhileLoop (Some body)) blk]>
                              (BlockHeap st) ∧
            Blocks st' = {| TheBlock := Some eb; BlockEntry_Type := etype |} :: blocks ∧
            TheStack st' = stack ∧ PassedParameterCount st' = counts ∧
            ParseFailed st' = (if decide (type = EpochVariableType_Boolean)
                               then ParseFailed st else true)) ∧
  (∀ top blocks,
     StackEntry_Type entry ≠ STACKENTRYTYPE_OPERATION →
     Blocks st = top :: blocks →
     ∃ st', PopDoWhileLoop st = inr ((), st') ∧
            BlockHeap st' = BlockHeap st ∧ Blocks st' = blocks ∧ TheStack st' = stack ∧
            PassedParameterCount st' = PassedParameterCount st ∧
            ParseFailed st' = true).
Proof.
  split.
  - intros body btype eb etype blocks bodyblk tail type blk count counts
      Hentry Hblocks Hbody Htail Htype Heb Hcount.
    unfold PopDoWhileLoop. mhyps.
    destruct (decide (type ≠ EpochVariableType_Boolean)) as [Hne|Heq].
    + mhyps. eexists. split; [reflexivity|]. simpl.
      rewrite decide_False by done. done.
    + mhyps. eexists. split; [reflexivity|]. simpl.
      rewrite decide_True by (by destruct (decide (type = EpochVariableType_Boolean))).
      done.
  - intros top blocks Hentry Hblocks. unfold PopDoWhileLoop. mhyps.
    rewrite decide_True by done. mhyps. eexists. split; [reflexivity|]. done.
Qed.

End DoWhileFacts.

Section MemberAccessFacts.
Import VM Parser MemberAccess.
Context {EC : ExternalCode}.

Lemma extended_nil (blk : Block) : extended blk [] = blk.
Proof. unfold extended. rewrite app_nil_r. by destruct blk. Qed.

Lemma read_nested_chain (members : list string) :
  ∀ (s : MemberAccessState) (lastop : Operation) (b : BlockID) (type : BlockType)
    (blocks : list BlockEntry) (blk : Block),
    MemberAccesses s = members →
    Blocks (Builder s) = {| TheBlock := Some b; BlockEntry_Type := type |} :: blocks →
    BlockHeap (Builder s) !! b = Some blk → last (Ops blk) = Some lastop →
    ∃ s', read_nested false members lastop s = inr (last_read lastop members, s') ∧
          BlockHeap (Builder s')
            = <[b := extended blk (read_chain lastop members)]> (BlockHeap (Builder s)) ∧
          StringPool (Builder s') = list_to_set members ∪ StringPool (Builder s) ∧
          MemberAccesses s' = [] ∧ same_frame (Builder s) (Builder s').
Proof.
  induction members as [|member members IH];
    intros s lastop b type blocks blk Haccesses Hblocks Hb Hlast.
  - exists s. simpl. rewrite extended_nil, insert_id by done.
    split_and!; [done|done|by rewrite (left_id_L ∅ (∪))|done|done].
  - cbn [read_nested]. mhyps.
    set (op := PushOperation (Some (ReadStructureIndirect member (Some lastop))) false false).
    match goal with
    | |- ∃ s', read_nested _ _ _ ?s1 = _ ∧ _ =>
        destruct (IH s1 op b type blocks (extended blk [op]))
          as (s' & Hrun & Hheap & Hpool & Hrest & Hframe)
    end.
    + done.
    + simpl. by rewrite Hblocks.
    + simpl. by rewrite lookup_insert_eq.
    + simpl. by rewrite last_snoc.
    + exists s'. rewrite last_read_cons. split; [exact Hrun|].
      simpl in Hheap, Hpool, Hframe. rewrite insert_insert_eq in Hheap.
      split_and!; [|by rewrite Hpool, (assoc_L (∪)),
                       (comm_L (∪) (list_to_set members))|done|done].
      rewrite Hheap. f_equal. unfold extended. simpl. by rewrite <- app_assoc.
Qed.

(** X18.  [ResetMemberAccess] lowers the read of [variable.first.m1. ... .mk].
    - With no member registered it does nothing.
    - With the name of a variable that is not a tuple on top of the stack, it
      takes the push of the variable off the current block and appends the
      push of the read of the first member and, for each further member, the
      push of an indirect read that refers to the operation before it; the
      name on the stack is replaced by the last of these operations, the
      names are interned and no member stays registered.
    - For a tuple, one member gives the push of a [ReadTuple]; more than one
      is refused.
    - An entry that is not an identifier is refused. *)
Theorem ResetMemberAccess_chain (s : MemberAccessState) :
  (MemberAccesses s = [] → ResetMemberAccess s = inr ((), s)) ∧
  (∀ first rest entry stack b type blocks blk ops pushed ty,
     MemberAccesses s = first :: rest →
     TheStack (Builder s) = entry :: stack →
     StackEntry_Type entry = STACKENTRYTYPE_IDENTIFIER →
     Blocks (Builder s) = {| TheBlock := Some b; BlockEntry_Type := type |} :: blocks →
     BlockHeap (Builder s) !! b = Some blk → Ops blk = ops ++ [pushed] →
     GetVariableType (ScopeHeap (Builder s)) (CurrentScope (Builder s)) (StringValue entry)
       = inr ty →
     let variable := StringValue entry in
     (ty ≠ EpochVariableType_Tuple →
        ∃ s', ResetMemberAccess s = inr ((), s') ∧
              BlockHeap (Builder s')
                = <[b := {| Ops := ops ++ read_first variable first
                                     :: read_chain (read_first variable first) rest;
                            BoundScope := BoundScope blk |}]> (BlockHeap (Builder s)) ∧
              TheStack (Builder s')
                = mkStackEntry_Operation (last_read (read_first variable first) rest)
                  :: stack ∧
              MemberAccesses s' = [] ∧
              StringPool (Builder s')
                = list_to_set (variable :: first :: rest) ∪ StringPool (Builder s)) ∧
     (ty = EpochVariableType_Tuple → rest = [] →
        ∃ s', ResetMemberAccess s = inr ((), s') ∧
              BlockHeap (Builder s')
                = <[b := {| Ops := ops ++ [PushOperation (Some (ReadTuple variable first))
                                             false false];
                            BoundScope := BoundScope blk |}]> (BlockHeap (Builder s)) ∧
              MemberAccesses s' = []) ∧
     (ty = EpochVariableType_Tuple → rest ≠ [] →
        ResetMemberAccess s
          = inl (ParserFailureException "Nested tuple support is not implemented!"))) ∧
  (∀ first rest entry stack,
     MemberAccesses s = first :: rest →
     TheStack (Builder s) = entry :: stack →
     StackEntry_Type entry ≠ STACKENTRYTYPE_IDENTIFIER →
     ResetMemberAccess s
       = inl (ParserFailureException "Expected a structure or tuple name here")).
Proof.
  split_and!.
  - intros Haccesses. unfold ResetMemberAccess. mrun. rewrite Haccesses. by destruct s.
  - intros first rest entry stack b type blocks blk ops pushed ty
      Haccesses Hstack Hentry Hblocks Hb Hops Hty variable.
    split_and!.
    + intros Hne. unfold ResetMemberAccess. mhyps.
      rewrite last_snoc. mhyps. rewrite bool_decide_eq_false_2 by done. mhyps.
      rewrite removelast_last.
      unfold variable, read_first.
      match goal with
      | |- ∃ s', match read_nested _ _ ?first_op ?s1 with _ => _ end = _ ∧ _ =>
          destruct (read_nested_chain rest s1 first_op b type blocks
                      {| Ops := ops ++ [first_op]; BoundScope := BoundScope blk |})
            as (s' & Hrun & Hheap & Hpool & Hrest & Hframe)
      end.
      * done.
      * simpl. by rewrite Hblocks.
      * simpl. by rewrite lookup_insert_eq.
      * simpl. by rewrite last_snoc.
      * rewrite Hrun. mrun. eexists. split; [reflexivity|]. simpl.
        destruct Hframe as (_ & Hstack' & _). simpl in Hheap, Hpool, Hstack'.
        rewrite !insert_insert_eq in Hheap.
        split_and!; [|by rewrite Hstack'|done|].
        -- rewrite Hheap. f_equal. unfold extended. simpl. by rewrite <- app_assoc.
        -- rewrite Hpool. apply set_eq. intros x. rewrite !elem_of_union. tauto.
    + intros -> ->. unfold ResetMemberAccess. mhyps.
      rewrite last_snoc. mhyps. rewrite removelast_last.
      eexists. split; [reflexivity|]. simpl. by rewrite !insert_insert_eq.
    + intros -> Hrest. unfold ResetMemberAccess. mhyps.
      rewrite last_snoc. mhyps. rewrite removelast_last.
      destruct rest as [|member rest]; [done|]. by mhyps.
  - intros first rest entry stack Haccesses Hstack Hentry.
    unfold ResetMemberAccess. mhyps. by rewrite decide_True.
Qed.

#[local] Arguments bind_nested : simpl never.

Lemma bind_nested_cons (member m : string) (ms : list string) (s : MemberAccessState) :
  bind_nested (member :: m :: ms) s
  = (builder (name ← PoolStaticString member;
              pushop ← new_PushOperation (BindStructMemberReference None name);
              AddOperationToCurrentBlock pushop);;
     set_MemberAccesses (m :: ms);;
     bind_nested (m :: ms)) s.
Proof. reflexivity. Qed.

Lemma bind_nested_chain (middle : list string) :
  ∀ (s : MemberAccessState) (last : string) (b : BlockID) (type : BlockType)
    (blocks : list BlockEntry) (blk : Block),
    MemberAccesses s = middle ++ [last] →
    Blocks (Builder s) = {| TheBlock := Some b; BlockEntry_Type := type |} :: blocks →
    BlockHeap (Builder s) !! b = Some blk →
    ∃ s', bind_nested (middle ++ [last]) s = inr ((), s') ∧
          BlockHeap (Builder s')
            = <[b := extended blk (bind_member <$> middle)]> (BlockHeap (Builder s)) ∧
          StringPool (Builder s') = list_to_set middle ∪ StringPool (Builder s) ∧
          MemberAccesses s' = [last] ∧ same_frame (Builder s) (Builder s').
Proof.
  induction middle as [|member middle IH];
    intros s last b type blocks blk Haccesses Hblocks Hb.
  - exists s. simpl. rewrite extended_nil, insert_id by done.
    split_and!; [done|done|by rewrite (left_id_L ∅ (∪))|done|done].
  - assert (∃ m ms, middle ++ [last] = m :: ms) as (m & ms & Hrest).
    { destruct middle; simpl; eauto. }
    cbn [app]. rewrite Hrest, bind_nested_cons. mhyps. rewrite <- Hrest.
    match goal with
    | |- ∃ s', bind_nested _ ?s1 = _ ∧ _ =>
        destruct (IH s1 last b type blocks (extended blk [bind_member member]))
          as (s' & Hrun & Hheap & Hpool & Haccesses' & Hframe)
    end.
    + done.
    + simpl. by rewrite Hblocks.
    + simpl. by rewrite lookup_insert_eq.
    + exists s'. split; [exact Hrun|].
      simpl in Hheap, Hpool, Hframe. rewrite insert_insert_eq in Hheap.
      split_and!; [|rewrite Hpool; apply set_eq; intros x; rewrite !elem_of_union; tauto
                   |done|done].
      rewrite Hheap. f_equal. unfold extended. simpl. by rewrite <- app_assoc.
Qed.

(** X19.  [ResetMemberAccessLValue] lowers the assignment to
    [variable.first.m1. ... .mk.last].  With the name of a variable on top
    of the stack, which it pops:
    - for a structure and one member, it appends an [AssignStructure];
    - for a structure and more members, it appends the push of a reference
      to the first member of the variable, the push of a reference for each
      member but the last, and an [AssignStructureIndirect] for the last;
    - for a tuple and one member, it appends an [AssignTuple]; more than one
      member is refused;
    - with no member registered, it asks an empty container for its front.
    In each case that returns, no member stays registered. *)
Theorem ResetMemberAccessLValue_chain (s : MemberAccessState) (entry : StackEntry)
    (stack : list StackEntry) (b : BlockID) (type : BlockType) (blocks : list BlockEntry)
    (blk : Block) (ty : EpochVariableTypeID)
    (Hstack : TheStack (Builder s) = entry :: stack)
    (Hentry : StackEntry_Type entry = STACKENTRYTYPE_IDENTIFIER)
    (Hblocks : Blocks (Builder s) = {| TheBlock := Some b; BlockEntry_Type := type |} :: blocks)
    (Hb : BlockHeap (Builder s) !! b = Some blk)
    (Hty : GetVariableType (ScopeHeap (Builder s)) (CurrentScope (Builder s))
             (StringValue entry) = inr ty) :
  let variable := StringValue entry in
  let appended (s' : MemberAccessState) (ops : list Operation) :=
    BlockHeap (Builder s') = <[b := extended blk ops]> (BlockHeap (Builder s)) ∧
    TheStack (Builder s') = stack ∧ MemberAccesses s' = [] in
  (∀ member, ty ≠ EpochVariableType_Tuple → MemberAccesses s = [member] →
     ∃ s', ResetMemberAccessLValue s = inr ((), s') ∧
           appended s' [AssignStructure variable member]) ∧
  (∀ first middle last, ty ≠ EpochVariableType_Tuple →
     MemberAccesses s = first :: middle ++ [last] →
     ∃ s', ResetMemberAccessLValue s = inr ((), s') ∧
           appended s' (bind_chain variable first middle ++ [AssignStructureIndirect last])) ∧
  (∀ member, ty = EpochVariableType_Tuple → MemberAccesses s = [member] →
     ∃ s', ResetMemberAccessLValue s = inr ((), s') ∧
           appended s' [AssignTuple variable member]) ∧
  (∀ first second rest, ty = EpochVariableType_Tuple →
     MemberAccesses s = first :: second :: rest →
     ResetMemberAccessLValue s
       = inl (ParserFailureException "Nested tuples are not permitted")) ∧
  (MemberAccesses s = [] →
     ResetMemberAccessLValue s
       = inl (UndefinedBehaviour "MemberAccesses.front() on an empty container")).
Proof.
  intros variable appended. unfold appended, variable. split_and!.
  - intros member Hne Haccesses. unfold ResetMemberAccessLValue. mhyps.
    rewrite bool_decide_eq_false_2 by done. mhyps.
    eexists. split; [reflexivity|]. done.
  - intros first middle last Hne Haccesses. unfold ResetMemberAccessLValue. mhyps.
    rewrite bool_decide_eq_false_2 by done.
    rewrite decide_False by (rewrite length_app; simpl; lia). mhyps.
    match goal with
    | |- context [bind_nested _ ?s1] =>
        destruct (bind_nested_chain middle s1 last b type blocks
                    (extended blk [PushOperation (Some (BindStructMemberReference
                                     (Some (StringValue entry)) first)) false false]))
          as (s' & Hrun & Hheap & Hpool & Haccesses' & Hframe)
    end.
    + done.
    + simpl. by rewrite Hblocks.
    + simpl. by rewrite lookup_insert_eq.
    + rewrite Hrun. mrun. rewrite Haccesses'. mrun.
      destruct Hframe as (Hblocks' & Hstack' & _). simpl in Hblocks', Hstack', Hheap.
      rewrite Hblocks', Hblocks. mrun. rewrite Hheap, lookup_insert_eq. mrun.
      rewrite Haccesses'. mrun. eexists. split; [reflexivity|]. simpl.
      rewrite Hheap, !insert_insert_eq. split_and!; [|done|done].
      f_equal. unfold extended, bind_chain. simpl. by rewrite <- !app_assoc.
  - intros member -> Haccesses. unfold ResetMemberAccessLValue. mhyps.
    eexists. split; [reflexivity|]. done.
  - intros first second rest -> Haccesses. unfold ResetMemberAccessLValue. by mhyps.
  - intros Haccesses. unfold ResetMemberAccessLValue. mhyps.
    destruct (bool_decide (ty = EpochVariableType_Tuple)); by mhyps.
Qed.

End MemberAccessFacts.

Section MemberAccessRuns.
Import VM Parser MemberAccess MoreExamples.

(** [do { ... } while(true)] *)
Lemma PopDoWhileLoop_spec_witness :
  ∃ st', PopDoWhileLoop (EC := simple_code) do_while_state = inr ((), st') ∧
         BlockHeap st' !! 0%nat
         = Some {| Ops := [DoWhileLoop (Some 1%nat)]; BoundScope := Some 0%nat |} ∧
         Blocks st' = [{| TheBlock := Some 0%nat; BlockEntry_Type := BLOCKENTRYTYPE_GLOBAL |}] ∧
         TheStack st' = [] ∧ PassedParameterCount st' = [] ∧ ParseFailed st' = false.
Proof.
  destruct (proj1 (PopDoWhileLoop_spec (EC := simple_code) do_while_state _ [] eq_refl)
              1%nat BLOCKENTRYTYPE_DOLOOP 0%nat BLOCKENTRYTYPE_GLOBAL []
              {| Ops := [PushOperation (Some (PushBooleanLiteral true)) false false];
                 BoundScope := Some 0%nat |}
              (PushOperation (Some (PushBooleanLiteral true)) false false)
              EpochVariableType_Boolean
              {| Ops := []; BoundScope := Some 0%nat |} 1%N []
              eq_refl eq_refl eq_refl eq_refl eq_refl eq_refl eq_refl)
    as (st' & Hrun & Hheap & Hblocks & Hstack & Hcount & Hfailed).
  exists st'. split_and!; [exact Hrun| |exact Hblocks|exact Hstack|exact Hcount|exact Hfailed].
  rewrite Hheap. apply lookup_insert_eq.
Defined.

(** [o.inner.value] read and assigned. *)
Lemma ResetMemberAccess_chain_witness :
  ∃ s', ResetMemberAccess (EC := simple_code) member_read_state = inr ((), s') ∧
        BlockHeap (Builder s') !! 0%nat
        = Some {| Ops := [read_first "o" "inner";
                          PushOperation (Some (ReadStructureIndirect "value"
                                                 (Some (read_first "o" "inner"))))
                            false false];
                  BoundScope := Some 0%nat |} ∧
        MemberAccesses s' = [].
Proof.
  destruct (proj1 (proj2 (ResetMemberAccess_chain (EC := simple_code) member_read_state))
              "inner" ["value"] (mkStackEntry_Identifier "o") [] 0%nat
              BLOCKENTRYTYPE_GLOBAL []
              {| Ops := [PushOperation (Some (GetVariableValue "o")) false false];
                 BoundScope := Some 0%nat |}
              [] (PushOperation (Some (GetVariableValue "o")) false false)
              EpochVariableType_Structure
              eq_refl eq_refl eq_refl eq_refl eq_refl eq_refl ltac:(by vm_compute))
    as (Hstructure & _).
  destruct Hstructure as (s' & Hrun & Hheap & _ & Haccesses & _); [discriminate|].
  exists s'. split_and!; [exact Hrun| |exact Haccesses].
  rewrite Hheap. apply lookup_insert_eq.
Defined.

Lemma ResetMemberAccessLValue_chain_witness :
  ∃ s', ResetMemberAccessLValue (EC := simple_code) member_write_state = inr ((), s') ∧
        BlockHeap (Builder s') !! 0%nat
        = Some {| Ops := [PushOperation (Some (BindStructMemberReference (Some "o") "inner"))
                            false false;
                          AssignStructureIndirect "value"];
                  BoundScope := Some 0%nat |} ∧
        TheStack (Builder s') = [] ∧ MemberAccesses s' = [].
Proof.
  destruct (proj1 (proj2 (ResetMemberAccessLValue_chain (EC := simple_code)
                            member_write_state (mkStackEntry_Identifier "o") [] 0%nat
                            BLOCKENTRYTYPE_GLOBAL []
                            {| Ops := []; BoundScope := Some 0%nat |}
                            EpochVariableType_Structure
                            eq_refl eq_refl eq_refl eq_refl ltac:(by vm_compute)))
              "inner" [] "value" ltac:(discriminate) eq_refl)
    as (s' & Hrun & Hheap & Hstack & Haccesses).
  exists s'. split_and!; [exact Hrun| |exact Hstack|exact Haccesses].
  rewrite Hheap. apply lookup_insert_eq.
Defined.

End MemberAccessRuns.

(** * Blocks that are entered and left *)

Section BlockRoundTrip.
Import VM Parser.
Context {EC : ExternalCode}.

Lemma builder_bind_run {A B} (m : M A) (f : A → M B) (st st' : ParserState) (a : A) :
  m st = inr (a, st') → (m ≫= f) st = f a st'.
Proof. intros Hm. unfold mbind, M_bind. by rewrite Hm. Qed.

Lemma EnterBlock_free_run (st : ParserState) :
  ExpectedBlockTypes st = [] →
  let b := fresh (dom (BlockHeap st)) in
  let s := fresh (dom (ScopeHeap st)) in
  ∃ st', EnterBlock st = inr ((), st') ∧
         BlockHeap st' = <[b := {| Ops := []; BoundScope := Some s |}]> (BlockHeap st) ∧
         ScopeHeap st' = <[s := scope_ParentScope (λ _, CurrentScope st) empty_scope]>
                           (ScopeHeap st) ∧
         CurrentScope st' = Some s ∧
         Blocks st' = {| TheBlock := Some b; BlockEntry_Type := BLOCKENTRYTYPE_FREE |}
                        :: Blocks st ∧
         TheStack st' = TheStack st ∧ ParseFailed st' = ParseFailed st ∧
         ExpectedBlockTypes st' = [].
Proof.
  intros Hexpected b s. unfold EnterBlock. mrun. rewrite Hexpected.
  eexists. unfold EnterBlock_open. mheap. rewrite Hexpected. mheap.
  split; [reflexivity|]. simpl. by rewrite ?Hexpected, ?insert_insert_eq.
Qed.

Lemma ExitBlock_free_run (st : ParserState) (b eb : BlockID) (etype : BlockType)
    (blocks : list BlockEntry) (blk : Block) (s : ScopeID) (scope : ScopeDescription) :
  Blocks st = {| TheBlock := Some b; BlockEntry_Type := BLOCKENTRYTYPE_FREE |}
                :: {| TheBlock := Some eb; BlockEntry_Type := etype |} :: blocks →
  BlockHeap st !! eb = Some blk →
  CurrentScope st = Some s →
  ScopeHeap st !! s = Some scope →
  ∃ st', ExitBlock st = inr ((), st') ∧
         BlockHeap st' = <[eb := append_operation (ExecuteBlock (Some b)) blk]> (BlockHeap st) ∧
         ScopeHeap st' = ScopeHeap st ∧
         CurrentScope st' = ParentScope scope ∧
         Blocks st' = {| TheBlock := Some eb; BlockEntry_Type := etype |} :: blocks ∧
         TheStack st' = TheStack st ∧ ParseFailed st' = ParseFailed st ∧
         ExpectedBlockTypes st' = ExpectedBlockTypes st.
Proof.
  intros Hblocks Heb Hscope Hs. eexists.
  split; [unfold ExitBlock, ExitBlock_case, leave_CurrentScope; mhyps; reflexivity|]. done.
Qed.

Lemma RegisterControl_While_run (st : ParserState) :
  let b := fresh (dom (BlockHeap st)) in
  let s := fresh (dom (ScopeHeap st)) in
  ∃ st', RegisterControl Keywords_While false st = inr ((), st') ∧
         BlockHeap st' = <[b := {| Ops := []; BoundScope := Some s |}]> (BlockHeap st) ∧
         ScopeHeap st' = <[s := scope_ParentScope (λ _, CurrentScope st) empty_scope]>
                           (ScopeHeap st) ∧
         CurrentScope st' = Some s ∧
         Blocks st' = {| TheBlock := Some b; BlockEntry_Type := BLOCKENTRYTYPE_WHILELOOP |}
                        :: Blocks st ∧
         TheStack st' = TheStack st ∧ ParseFailed st' = ParseFailed st ∧
         ExpectedBlockTypes st' = BLOCKENTRYTYPE_WHILELOOP :: ExpectedBlockTypes st.
Proof.
  intros b s. eexists. split; [unfold RegisterControl; mheap; reflexivity|]. simpl. by rewrite ?insert_insert_eq.
Qed.

Lemma EnterBlock_while_run (st : ParserState) (rest : list BlockType) :
  ExpectedBlockTypes st = BLOCKENTRYTYPE_WHILELOOP :: rest →
  EnterBlock st = inr ((), upd_ExpectedBlockTypes (λ _, rest) st).
Proof. intros Hexpected. unfold EnterBlock. mrun. by rewrite Hexpected. Qed.

Lemma ExitBlock_while_run (st : ParserState) (b eb : BlockID) (etype : BlockType)
    (blocks : list BlockEntry) (blk : Block) (s : ScopeID) (scope : ScopeDescription)
    (condition : StackEntry) (stack : list StackEntry) :
  Blocks st = {| TheBlock := Some b; BlockEntry_Type := BLOCKENTRYTYPE_WHILELOOP |}
                :: {| TheBlock := Some eb; BlockEntry_Type := etype |} :: blocks →
  TheStack st = condition :: stack →
  BlockHeap st !! eb = Some blk →
  CurrentScope st = Some s →
  ScopeHeap st !! s = Some scope →
  ∃ st', ExitBlock st = inr ((), st') ∧
         BlockHeap st' = <[eb := append_operation (WhileLoop (Some b)) blk]> (BlockHeap st) ∧
         ScopeHeap st' = ScopeHeap st ∧
         CurrentScope st' = ParentScope scope ∧
         Blocks st' = {| TheBlock := Some eb; BlockEntry_Type := etype |} :: blocks ∧
         TheStack st' = stack ∧ ParseFailed st' = ParseFailed st ∧
         ExpectedBlockTypes st' = ExpectedBlockTypes st.
Proof.
  intros Hblocks Hstack Heb Hscope Hs. eexists.
  split; [unfold ExitBlock, ExitBlock_case, leave_CurrentScope; mhyps; reflexivity|]. done.
Qed.


(** X20.  Entering and leaving a block leaves the builder where it was, with the
    block hung on the enclosing one.
    - A free block: [EnterBlock], with no block type expected, then
      [ExitBlock], allocates a block and a scope below the current one,
      appends an [ExecuteBlock] on the new block to the enclosing block and
      restores the current scope and the block stack.
    - A while loop: [RegisterControl] allocates the block and the scope,
      [EnterBlock] only takes the expectation off, and [ExitBlock] drops the
      entry of the condition from the stack, appends a [WhileLoop] on the new
      block to the enclosing block and restores the current scope and the
      block stack. *)
Theorem blocks_round_trip (st : ParserState) (eb : BlockID) (etype : BlockType)
    (blocks : list BlockEntry) (blk : Block)
    (Hblocks : Blocks st = {| TheBlock := Some eb; BlockEntry_Type := etype |} :: blocks)
    (Heb : BlockHeap st !! eb = Some blk) :
  let b := fresh (dom (BlockHeap st)) in
  let s := fresh (dom (ScopeHeap st)) in
  let hung (op : Operation) (st' : ParserState) :=
    BlockHeap st' = <[eb := append_operation op blk]>
                      (<[b := {| Ops := []; BoundScope := Some s |}]> (BlockHeap st)) ∧
    ScopeHeap st' = <[s := scope_ParentScope (λ _, CurrentScope st) empty_scope]>
                      (ScopeHeap st) ∧
    CurrentScope st' = CurrentScope st ∧ Blocks st' = Blocks st ∧
    TheStack st' = TheStack st ∧ ParseFailed st' = ParseFailed st in
  (ExpectedBlockTypes st = [] →
     ∃ st', (EnterBlock;; ExitBlock) st = inr ((), st') ∧
            hung (ExecuteBlock (Some b)) st' ∧ ExpectedBlockTypes st' = []) ∧
  (∀ condition,
     ∃ st', (RegisterControl Keywords_While false;; TheStack_push_back condition;;
             EnterBlock;; ExitBlock) st = inr ((), st') ∧
            hung (WhileLoop (Some b)) st' ∧
            ExpectedBlockTypes st' = ExpectedBlockTypes st).
Proof.
  intros b s hung. unfold hung.
  assert (BlockHeap st !! b = None) as Hfresh.
  { apply not_elem_of_dom. apply is_fresh. }
  assert (b ≠ eb) as Hne by (intros Heq; rewrite Heq, Heb in Hfresh; done).
  split.
  - intros Hexpected.
    destruct (EnterBlock_free_run st Hexpected)
      as (st1 & Hrun1 & Hheap1 & Hscopes1 & Hscope1 & Hblocks1 & Hstack1 & Hfailed1 & Hexp1).
    destruct (ExitBlock_free_run st1 b eb etype blocks blk s
                (scope_ParentScope (λ _, CurrentScope st) empty_scope))
      as (st2 & Hrun2 & Hheap2 & Hscopes2 & Hscope2 & Hblocks2 & Hstack2 & Hfailed2 & Hexp2).
    + by rewrite Hblocks1, Hblocks.
    + rewrite Hheap1, lookup_insert_ne by done. exact Heb.
    + exact Hscope1.
    + rewrite Hscopes1. apply lookup_insert_eq.
    + exists st2. split; [by rewrite (builder_bind_run _ _ _ _ _ Hrun1)|].
      rewrite Hheap2, Hheap1, Hscopes2, Hscopes1, Hscope2, Hblocks2, Hblocks, Hstack2,
        Hstack1, Hfailed2, Hfailed1, Hexp2, Hexp1. done.
  - intros condition.
    destruct (RegisterControl_While_run st)
      as (st1 & Hrun1 & Hheap1 & Hscopes1 & Hscope1 & Hblocks1 & Hstack1 & Hfailed1 & Hexp1).
    set (st2 := upd_TheStack (λ l, condition :: l) st1).
    set (st3 := upd_ExpectedBlockTypes (λ _, ExpectedBlockTypes st) st2).
    assert (EnterBlock st2 = inr ((), st3)) as Hrun3.
    { apply EnterBlock_while_run. exact Hexp1. }
    destruct (ExitBlock_while_run st3 b eb etype blocks blk s
                (scope_ParentScope (λ _, CurrentScope st) empty_scope)
                condition (TheStack st))
      as (st4 & Hrun4 & Hheap4 & Hscopes4 & Hscope4 & Hblocks4 & Hstack4 & Hfailed4 & Hexp4).
    + simpl. by rewrite Hblocks1, Hblocks.
    + simpl. by rewrite Hstack1.
    + simpl. rewrite Hheap1, lookup_insert_ne by done. exact Heb.
    + exact Hscope1.
    + simpl. rewrite Hscopes1. apply lookup_insert_eq.
    + exists st4. split.
      * rewrite (builder_bind_run _ _ _ _ _ Hrun1).
        rewrite (builder_bind_run (TheStack_push_back condition) _ st1 st2 () eq_refl).
        by rewrite (builder_bind_run _ _ _ _ _ Hrun3).
      * rewrite Hheap4, Hscopes4, Hscope4, Hblocks4, Hstack4, Hfailed4, Hexp4. simpl.
        rewrite Hheap1, Hscopes1, Hblocks, Hfailed1. done.
Qed.

End BlockRoundTrip.

Section BlockRoundTripRuns.
Import VM Parser.

(** A free block and a while loop in the global block of a new program. *)
Lemma blocks_round_trip_witness :
  (∃ st', (EnterBlock (EC := simple_code);; ExitBlock (EC := simple_code)) initial_state
            = inr ((), st') ∧
          BlockHeap st' !! 0%nat
            = Some {| Ops := [ExecuteBlock (Some 1%nat)]; BoundScope := Some 0%nat |} ∧
          CurrentScope st' = Some 0%nat) ∧
  (∃ st', (RegisterControl (EC := simple_code) Keywords_While false;;
           TheStack_push_back (mkStackEntry_Literal EpochVariableType_Boolean);;
           EnterBlock (EC := simple_code);; ExitBlock (EC := simple_code)) initial_state
            = inr ((), st') ∧
          BlockHeap st' !! 0%nat
            = Some {| Ops := [WhileLoop (Some 1%nat)]; BoundScope := Some 0%nat |} ∧
          TheStack st' = []).
Proof.
  pose proof (blocks_round_trip (EC := simple_code) initial_state 0%nat
                BLOCKENTRYTYPE_GLOBAL [] {| Ops := []; BoundScope := Some 0%nat |}
                eq_refl eq_refl) as [Hfree Hwhile].
  split.
  - destruct (Hfree eq_refl) as (st' & Hrun & (Hheap & _ & Hscope & _) & _).
    exists st'. split_and!; [exact Hrun| |exact Hscope].
    rewrite Hheap. apply lookup_insert_eq.
  - destruct (Hwhile (mkStackEntry_Literal EpochVariableType_Boolean))
      as (st' & Hrun & (Hheap & _ & _ & _ & Hstack & _) & _).
    exists st'. split_and!; [exact Hrun| |exact Hstack].
    rewrite Hheap. apply lookup_insert_eq.
Defined.

End BlockRoundTripRuns.

(** * Phrases that need no reduction, and chained assignments *)

Section InfixEdges.
Import VM Parser.
Context {EC : ExternalCode}.

(** X21.  [FinalizeInfixExpression] away from the reduction by precedence.
    - Without a phrase being tracked it answers [false] and changes nothing.
    - A phrase without operators, and a phrase of one operand whose last
      operator is not the assignment, is taken off the two tracking stacks;
      the answer is [false] and nothing else changes.
    - On a later run, a phrase of one operand whose last operator is the
      assignment continues a chain of assignments: with the name of a
      variable on top of the stack and an [AssignValue] to [previous] at the
      tail of the current block, the push of the value of [previous] and an
      [AssignValue] to the variable are appended, the name is popped, the
      phrase is taken off the tracking stacks and the answer is [true]. *)
Theorem FinalizeInfixExpression_edges (st : ParserState) (isfirstrun : bool)
    (scope : option ScopeID) :
  (InfixOperatorList st = [] ∨ InfixOperandCount st = [] →
     FinalizeInfixExpression isfirstrun scope st = inr (false, st)) ∧
  (∀ top oplists count counts,
     InfixOperatorList st = top :: oplists → InfixOperandCount st = count :: counts →
     top = [] ∨ (count = 1%nat ∧ last top ≠ Some Operators_Assign) →
     FinalizeInfixExpression isfirstrun scope st
       = inr (false, upd_InfixOperatorList (λ _, oplists)
                       (upd_InfixOperandCount (λ _, counts) st))) ∧
  (∀ top oplists counts entry stack b type blocks blk previous,
     isfirstrun = false →
     InfixOperatorList st = top :: oplists → InfixOperandCount st = 1%nat :: counts →
     last top = Some Operators_Assign →
     TheStack st = entry :: stack → StackEntry_Type entry = STACKENTRYTYPE_IDENTIFIER →
     Blocks st = {| TheBlock := Some b; BlockEntry_Type := type |} :: blocks →
     BlockHeap st !! b = Some blk → last (Ops blk) = Some (AssignValue previous) →
     ∃ st', FinalizeInfixExpression isfirstrun scope st = inr (true, st') ∧
            BlockHeap st'
              = <[b := {| Ops := Ops blk
                                   ++ [PushOperation (Some (GetVariableValue previous))
                                         false false;
                                       AssignValue (StringValue entry)];
                          BoundScope := BoundScope blk |}]> (BlockHeap st) ∧
            TheStack st' = stack ∧
            InfixOperatorList st' = oplists ∧ InfixOperandCount st' = counts ∧
            StringPool st' = {[StringValue entry]} ∪ ({[previous]} ∪ StringPool st) ∧
            ParseFailed st' = ParseFailed st).
Proof.
  split_and!.
  - intros Hnone. unfold FinalizeInfixExpression. mrun.
    destruct (InfixOperatorList st) as [|top oplists]; [done|].
    destruct (InfixOperandCount st) as [|count counts]; [done|]. by destruct Hnone.
  - intros top oplists count counts Hlists Hcounts Hnothing.
    unfold FinalizeInfixExpression, pop_infix_tracking. mhyps.
    rewrite decide_True by done. mhyps.
    unfold upd_InfixOperatorList, upd_InfixOperandCount. simpl. by rewrite Hlists, Hcounts.
  - intros top oplists counts entry stack b type blocks blk previous
      -> Hlists Hcounts Hlast Hstack Hentry Hblocks Hb Htail.
    unfold FinalizeInfixExpression, pop_infix_tracking. mhyps.
    rewrite decide_False; last first.
    { intros [->|[_ Hne]]; [done|]. rewrite ?Hlast in Hne. by destruct Hne. }
    mhyps. eexists. split; [reflexivity|]. simpl.
    rewrite ?insert_insert_eq, ?Hlists, ?Hcounts. split_and!; try done.
    f_equal. f_equal. by rewrite <- app_assoc.
Qed.

End InfixEdges.

Section InfixEdgesRuns.
Import VM Parser.

(** A phrase of one operand and no operator in a new program. *)
Lemma FinalizeInfixExpression_edges_witness :
  FinalizeInfixExpression (EC := simple_code) true None
    (upd_InfixOperatorList (λ _, [[]]) (upd_InfixOperandCount (λ _, [1%nat]) initial_state))
  = inr (false, initial_state).
Proof.
  exact (proj1 (proj2 (FinalizeInfixExpression_edges (EC := simple_code)
                         (upd_InfixOperatorList (λ _, [[]])
                            (upd_InfixOperandCount (λ _, [1%nat]) initial_state))
                         true None))
           [] [] 1%nat [] eq_refl eq_refl (or_introl eq_refl)).
Defined.

End InfixEdgesRuns.

